(* ===== verification/_CoqProject ===== *)
-Q . S2P
Prelude.v
Runs.v
Message.v
PriorityIndex.v
Wal.v
Compression.v
GoFloat.v
FloatBounds.v
Config.v
Partition.v
PartitionProps.v
Topic.v
Backpressure.v
OffsetStore.v
LoadPredictor.v
Metrics.v
Prometheus.v
Balancer.v
RoundRobin.v
P2C.v
PSA.v
Scheduler.v
NN.v
NNProps.v
TargetNet.v
QNet.v
DuelNet.v
DqnScheduler.v
DqnSchedulerProps.v
DqnBalancer.v
DqnBalancerProps.v
Preprocessing.v
Broker.v
BrokerProps.v
BatchProps.v
Transport.v
TransportProps.v
Client.v
ClientProps.v
Producer.v
Optimizer.v
OptimizerProps.v
ActorCritic.v
Background.v
Collector.v
CollectorProps.v
App.v
AppProps.v
Routes.v
Stubs.v
Scenarios.v
Harness.v
HarnessProps.v
Runner.v
RunnerProps.v
Commands.v
CommandsProps.v
Mains.v
