(* ===== verification/Prelude.v ===== *)
(** * NyaQueue: a verification development of the message broker

    NyaQueue (src/) is a partitioned message queue written in Go.  A broker keeps
    topics, a topic keeps partitions, a partition keeps a write-ahead log and,
    unless the topic is FIFO, an index of the pending messages by priority.
    Producers publish through a balancer that picks the partition and a
    backpressure controller that may refuse; consumers read through the topic's
    scheduler and commit offsets to an offset store; background loops collect
    metrics, feed a load predictor and remove old messages.  Balancer and scheduler
    can be learning ones (deep Q-networks trained while they serve), and an
    optimizer tunes the broker's configuration with an actor-critic agent.  A gRPC
    and an HTTP server offer the broker to remote clients, one of which buffers
    what it sends.  An application puts broker, servers and options together; the
    commands start it, generate load, consume, and export its metrics; and an
    experiment harness runs load patterns against the broker and against Kafka and
    collects what it measures.

    ** How the code is modelled

    Every Go function is a Rocq function of the same name (prefixed by its
    component where the name is taken: [topic_Close], [broker_Commit],
    [rr_SelectPartition]).  A struct is a [Record]; a method takes the state and
    returns the state after the call with what the call returns, error paths
    included, as a [result]: a value, an error, or a run-time panic (an index or
    slice out of range, a zero divisor).  Errors keep the sentinel or the format
    string of their site and their wrapping, so that errors.Is is a function
    ([errors_Is]).  Integers are [Z] with the conversion of their width written
    where the code can leave it ([u64], [i64], [u32], [i32]); float64 is the
    kernel's binary64.  Loops are [Fixpoint]s over the list they range over or over
    the number of iterations they make, which the code fixes in advance (1000
    sweeps of the Lasso, 63 squarings of a power).  Two loops have no such number and
    take fuel: the polling loop of a fetch request, for which TransportProps shows how
    much is enough from the deadline and the byte budget, and the buffered
    producer's Send, which calls itself once after a flush, so that 2 is enough
    (Producer).

    Each method runs as one step: the code holds the partition's, index level's
    or shard's mutex, or swaps one atomic pointer, over what the model does at
    once.  What the code gets from outside is an argument: clock readings,
    random draws, the contents of recycled buffers, the order in which a map is
    ranged over, the outcome of a semaphore.

    Libraries that are not in the repository are parameters, each a class of the
    calls the code makes with a class of the laws it relies on, and an instance
    that shows that the laws can hold: the log ([Wal], [WalLaws], [mem_wal]),
    compression ([Compressors], [CompressorLaws], [tag_compressors]), the
    database ([Badger], [BadgerLaws], [mem_badger]), the LRU cache ([Lru],
    [LruLaws]), validation ([Govy], [GovyLaws]), statistics and linear algebra
    ([Gonum], [GonumLA], [GonumLALaws]), the logarithm and power of package math
    ([MathLib]), the operations on tensors and their gradients ([GraphOps],
    [GraphShapes], [GraphValues], [GraphTrain], [GraphTrainLaws], [ACLib],
    [ACLibLaws]), of which the networks are made, copies of their variables
    ([GoMLXClone], [GoMLXCloneLaws], [appending]), the codes of gRPC errors ([Grpc],
    [GrpcLaws]), what gRPC does between a stub and a handler ([Protobuf],
    [GrpcRuntime], [GrpcRuntimeLaws]), layered settings ([Koanf]), paths ([Filepath]),
    listening on an address ([NetListen]), latency histograms ([Hdr], [HdrLaws]),
    Kafka's client ([Kafka]), the systems an experiment measures ([Target],
    [TargetLaws]), report files ([ReportFiles]), and the orders of map iteration
    ([MapRange], [RangeOrders], [BrokerEnv]).  Interfaces between components are
    classes too: [Balancer] with [BalancerLaws] and [Scheduler] for the broker, and
    [QNet], [QNetLaws], [ACNet], [ACNetLaws] for the learning components, whose laws
    give the shapes of a network's answers and which DuelNet and ActorCritic
    implement.

    ** The files

    - Prelude: errors and results, machine integers, bytes, slices, strings, and
      the development's automation.  Runs: counters of consecutive verdicts.
    - Message: src/pkg/broker/message.go.  The wire format is a bijection between
      well-formed messages and the accepted byte strings.
    - PriorityIndex: priority_index.go.  The ring buffer refines a bounded queue;
      the index keeps its counters and capacities along every run; what each pop
      and promotion returns.
    - Wal: the interface of the log.  Partition: partition.go, its operations and
      their lemmas.  PartitionProps: read-your-writes for plain and compressed
      appends, offsets never reused, exactness of retention and rebuild, and the
      records that cannot be read back.
    - Compression, GoFloat, Config, Topic: compression.go, the float operations
      the code uses, config.go, topic.go.  FloatBounds: rounding keeps a number
      between integers.
    - Backpressure, OffsetStore, LoadPredictor, Metrics: the files of those
      names.  Verdicts are monotone in the load; commits are what is loaded, also
      after a restart; predictions are forecasts from the right history; depths
      are produced minus consumed.
      Prometheus: the labelled metrics of the broker and the commands; the broker's
      gauges show the snapshot, its counters the single publishes and deliveries.
    - Balancer: balancer.go and the laws the broker relies on.  RoundRobin, P2C,
      PSA: round_robin.go, p2c.go, psa.go; the first two keep the laws, PSA does
      only for topics of the size it was made for.
    - Scheduler: scheduler.go, fifo.go, priority.go.
    - Broker: broker.go, all methods and the ticks of the loops.  BrokerProps and
      BatchProps: publishing and then consuming returns the message, batches
      land where their results say, a consumer group gets every message exactly
      once, creating, deleting and reconfiguring do what they should; they are
      proved for any balancer that keeps the laws.

    - NN, NNProps: src/pkg/nn.  Replay buffers, normaliser, noise, target network;
      over an exact field the running mean and variance are the mean and the
      variance, and the power is the power.  TargetNet: the weights of the target
      network; averaging them does not panic while training keeps their shapes.
      QNet: what the learning components ask of a network, and the training
      step they share, with the lemmas that it returns.  DuelNet: the duelling network
      itself, as both build it: values, advantages and the selection of an action; its
      training keeps the variables and their copies in shape.
    - DqnScheduler, DqnSchedulerProps: src/pkg/scheduler/dqn.go.  Whatever the policy
      decides every pending message is delivered once; no interleaving panics.
    - DqnBalancer, DqnBalancerProps: src/pkg/balancer/dqn.go.  Which partition is
      picked, the fallback as a hysteresis on the verdicts, no panics, and the
      balancer keeps the laws the broker relies on.
    - Preprocessing: src/pkg/preprocessing.  Samples form a Latin hypercube;
      representatives are different configurations, as many as asked for.
    - Transport, TransportProps, Client, ClientProps, Producer: src/pkg/transport.
      Requests return in bounded time within their budgets, admission control bounds
      what is in flight, retries store a message at most once, both clients see the
      same broker, and the buffered producer loses nothing silently but for the
      errors of its timer.
    - Optimizer, OptimizerProps: src/pkg/optimizer.  The tick with the broker it
      tunes: rounding keeps tuned parameters in their ranges, tuning waits for its
      guards, and low delivery restores the first configuration.  ActorCritic: the
      agent's networks, their training steps and target copies; any number of rounds
      of training returns.
    - Background: the goroutines of broker, predictor and optimizer, from Start to
      Stop, with recovered panics; the offset store under its dump loop, and what
      survives a crash or a clean stop.

    - App, AppProps: src/internal/app and src/experiments/algorithms.go.  Whatever calls
      follow, every topic is served by the scheduler of its mode; the application is
      ready exactly when all its servers listen, and stopping leaves nothing running.
    - Routes: URLs, the multiplexer's patterns, limits and the servers' start and stop;
      what the HTTP client asks for reaches its handler unchanged.  Stubs:
      src/pkg/proto/queue_grpc.pb.go; a call of a stub is the server's method behind the
      admission control.
    - Collector, CollectorProps: src/experiments/collector.go.  The latency reservoirs
      are uniform samples; a result accounts for every recorded event.
    - Scenarios: src/benchmarks/scenarios.go.  Harness, HarnessProps:
      src/experiments/harness.go and src/internal/kafkadriver.  Runner, RunnerProps:
      src/experiments/runner.go.  Every message of an experiment is accounted for under
      any interleaving of its goroutines; which runs are tried and reported.
    - Commands, CommandsProps: src/cmd and src/experiments/reporter.go.  A consumer's
      worker consumes each message once and leaves its group's position behind it; a
      pool with fewer workers than partitions never serves the rest; the experiment
      command runs what it is told to, as often as it announces.  Mains: flags, layers
      of settings and the main functions with their exits.

    The witnesses at the end of the files run the theorems on concrete brokers,
    logs, networks and stores.

    ** What is not modelled

    The numerical insides of the tensor operations, their differentiation, and
    gonum's decompositions belong to those libraries.  The getters, descriptors and
    the encoding of the generated messages, connections and framing, reading and
    parsing of configuration files, signals, the profiling pages and the summary
    printed at the end of an experiment are generated code, wiring and output.  The
    components' theorems take a loop as its tick, and interleavings as sequences of
    ticks and calls; Background has the goroutines around the ticks of the broker, the
    predictor, the optimizer and the offset store, and the training loops of the
    learning components are sequences of steps in their own files.  A loop that waits for
    something outside (a server to be ready, a topic to appear, a remote call to
    succeed) runs over the list of the outcomes of its waits. *)

From Stdlib Require Export ZArith Lia.
From Stdlib Require Import Strings.Byte Strings.Ascii.
From stdpp Require Export base tactics list gmap strings numbers.

#[global] Open Scope Z_scope.

(** ** Errors

    The Go code returns [error] values: the sentinels of broker.go, errors made
    by [oops.Errorf], errors of the libraries, gRPC status errors, and any of
    these wrapped by [oops.Wrapf] or joined by [errors.Join].  An error here keeps
    the format string of its site; the formatted arguments, which only end up in
    log lines, are dropped.  A status error carries the text of an error, not the
    error: it does not wrap it. *)

(** The gRPC codes the code names. *)
Inductive grpc_code : Type :=
| codes_OK
| codes_Canceled
| codes_Unknown
| codes_ResourceExhausted
| codes_AlreadyExists
| codes_NotFound
| codes_Unimplemented
| codes_Internal.

#[export] Instance grpc_code_eq_dec : EqDecision grpc_code.
Proof. solve_decision. Defined.

Inductive error : Type :=
| ErrTopicAlreadyExists
| ErrTopicNotFound
| ErrNoMessages
| ErrThrottled
| ErrMessageTooLarge
| ErrLib (lib what : string)
| Errorf (fmt : string)
| ErrStatus (code : grpc_code) (text : error)
| ErrJoin (e1 e2 : error)
| Wrapf (inner : error) (fmt : string).

#[export] Instance error_eq_dec : EqDecision error.
Proof. solve_decision. Defined.

(** [errors.Is err target]: the error itself or one it wraps. *)
Fixpoint errors_Is (e target : error) : bool :=
  bool_decide (e = target) ||
  match e with
  | Wrapf inner _ => errors_Is inner target
  | ErrJoin e1 e2 => errors_Is e1 target || errors_Is e2 target
  | _ => false
  end.

(** The outcome of a Go call that returns a value or an error: the value, the
    error, or a run-time panic (index or slice out of range). *)
Inductive result (A : Type) : Type :=
| Ok (a : A)
| Err (e : error)
| Panic.
Arguments Ok {A} _.
Arguments Err {A} _.
Arguments Panic {A}.

#[export] Instance result_ret : MRet result := fun _ a => Ok a.
#[export] Instance result_bind : MBind result := fun _ _ f m =>
  match m with Ok a => f a | Err e => Err e | Panic => Panic end.
#[export] Instance result_fmap : FMap result := fun _ _ f m =>
  match m with Ok a => Ok (f a) | Err e => Err e | Panic => Panic end.

#[export] Instance result_eq_dec `{EqDecision A} : EqDecision (result A).
Proof. solve_decision. Defined.

(** [if err != nil { return oops.Wrapf(err, fmt) }]. *)
Definition wrapf {A} (fmt : string) (m : result A) : result A :=
  match m with Err e => Err (Wrapf e fmt) | _ => m end.

(** An index or slice expression: [None] panics. *)
Definition must {A} (o : option A) : result A :=
  match o with Some a => Ok a | None => Panic end.

Definition is_ok {A} (m : result A) : bool :=
  match m with Ok _ => true | _ => false end.

Lemma Ok_bind {A B} (a : A) (f : A -> result B) : (Ok a ≫= f) = f a.
Proof. done. Qed.

Lemma bind_Ok {A B} (m : result A) (f : A -> result B) b :
  (m ≫= f) = Ok b <-> exists a, m = Ok a /\ f a = Ok b.
Proof. destruct m; cbn; split; try discriminate; eauto; intros (? & [=] & ?); by subst. Qed.

Lemma wrapf_Ok {A} fmt (m : result A) a : wrapf fmt m = Ok a <-> m = Ok a.
Proof. destruct m; cbn; naive_solver. Qed.

Lemma wrapf_Panic {A} fmt (m : result A) : wrapf fmt m = Panic <-> m = Panic.
Proof. destruct m; cbn; naive_solver. Qed.

Lemma errors_Is_refl e : errors_Is e e = true.
Proof. destruct e; cbn [errors_Is]; by rewrite bool_decide_true. Qed.

Lemma errors_Is_wrapf e fmt target :
  errors_Is e target = true -> errors_Is (Wrapf e fmt) target = true.
Proof. cbn [errors_Is]. intros ->. apply orb_true_r. Qed.

(** ** Machine integers

    A Go integer is a [Z] in its range; arithmetic that can leave the range goes
    through the conversion of its type, which wraps. *)

Definition u8 (x : Z) : Z := x mod 2 ^ 8.
Definition u32 (x : Z) : Z := x mod 2 ^ 32.
Definition u64 (x : Z) : Z := x mod 2 ^ 64.
Definition i32 (x : Z) : Z := (x + 2 ^ 31) mod 2 ^ 32 - 2 ^ 31.
Definition i64 (x : Z) : Z := (x + 2 ^ 63) mod 2 ^ 64 - 2 ^ 63.

Definition in_u8 (x : Z) : Prop := 0 <= x < 2 ^ 8.
Definition in_u64 (x : Z) : Prop := 0 <= x < 2 ^ 64.
Definition in_i64 (x : Z) : Prop := - 2 ^ 63 <= x < 2 ^ 63.

Lemma u64_small x : in_u64 x -> u64 x = x.
Proof. apply Z.mod_small. Qed.

Lemma u8_small x : in_u8 x -> u8 x = x.
Proof. apply Z.mod_small. Qed.

Lemma i64_small x : in_i64 x -> i64 x = x.
Proof. unfold i64, in_i64. intros. rewrite Z.mod_small by lia. lia. Qed.

Lemma u64_range x : in_u64 (u64 x).
Proof. apply Z.mod_pos_bound. lia. Qed.

Lemma i64_range x : in_i64 (i64 x).
Proof. unfold i64, in_i64. pose proof (Z.mod_pos_bound (x + 2 ^ 63) (2 ^ 64)). lia. Qed.

(** [int64(uint64(x)) = x]: the two conversions of the wire format cancel. *)
Lemma i64_u64 x : in_i64 x -> i64 (u64 x) = x.
Proof.
  intros H. rewrite <- (i64_small x) at 2 by done. unfold i64, u64.
  by rewrite Zplus_mod_idemp_l.
Qed.

Lemma u64_i64 x : in_u64 x -> u64 (i64 x) = x.
Proof.
  intros H. unfold u64, i64.
  rewrite Zminus_mod_idemp_l. replace (x + 2 ^ 63 - 2 ^ 63) with x by lia.
  by apply Z.mod_small.
Qed.

Lemma i64_add_l x y : i64 (i64 x + y) = i64 (x + y).
Proof.
  unfold i64. replace (_ - 2 ^ 63 + y + 2 ^ 63) with ((x + 2 ^ 63) mod 2 ^ 64 + y) by lia.
  rewrite Zplus_mod_idemp_l. by replace (x + 2 ^ 63 + y) with (x + y + 2 ^ 63) by lia.
Qed.

Lemma i32_add_l x y : i32 (i32 x + y) = i32 (x + y).
Proof.
  unfold i32. replace (_ - 2 ^ 31 + y + 2 ^ 31) with ((x + 2 ^ 31) mod 2 ^ 32 + y) by lia.
  rewrite Zplus_mod_idemp_l. by replace (x + 2 ^ 31 + y) with (x + y + 2 ^ 31) by lia.
Qed.

(** ** Bytes and big-endian integers *)

Abbreviation byte := Byte.byte.
Abbreviation bytes := (list byte).

#[export] Instance byte_eq_dec : EqDecision byte := Byte.byte_eq_dec.

(** The value of a byte, and [byte(x)], which keeps the low eight bits. *)
Definition bval (b : byte) : Z := Z.of_N (Byte.to_N b).
Definition byte_of (x : Z) : byte := default x00 (Byte.of_N (Z.to_N (x mod 256))).

Lemma bval_range b : 0 <= bval b < 256.
Proof. unfold bval. pose proof (Byte.to_N_bounded b). lia. Qed.

Lemma bval_byte_of x : bval (byte_of x) = x mod 256.
Proof.
  unfold bval, byte_of. pose proof (Z.mod_pos_bound x 256 ltac:(lia)).
  destruct (Byte.of_N (Z.to_N (x mod 256))) as [b|] eqn:E; simpl.
  - apply Byte.to_of_N in E. lia.
  - apply Byte.of_N_None_iff in E. lia.
Qed.

Lemma byte_of_bval b : byte_of (bval b) = b.
Proof.
  unfold byte_of. rewrite Z.mod_small by apply bval_range.
  unfold bval. by rewrite N2Z.id, Byte.of_to_N.
Qed.

Lemma bval_inj b c : bval b = bval c -> b = c.
Proof. intros H. by rewrite <- (byte_of_bval b), <- (byte_of_bval c), H. Qed.

(** [binary.BigEndian.PutUintN]: the [n] low bytes of [x], most significant
    first; and [binary.BigEndian.UintN] on exactly those bytes. *)
Fixpoint be_put (n : nat) (x : Z) : bytes :=
  match n with
  | O => []
  | S n' => byte_of (x / 2 ^ (8 * Z.of_nat n')) :: be_put n' x
  end.

Fixpoint be_get (l : bytes) : Z :=
  match l with
  | [] => 0
  | b :: l' => bval b * 2 ^ (8 * Z.of_nat (length l')) + be_get l'
  end.

Lemma length_be_put n x : length (be_put n x) = n.
Proof. induction n; simpl; congruence. Qed.

Lemma pow256_pos n : 0 < 2 ^ (8 * Z.of_nat n).
Proof. apply Z.pow_pos_nonneg; lia. Qed.

Lemma pow256_S n : 2 ^ (8 * Z.of_nat (S n)) = 256 * 2 ^ (8 * Z.of_nat n).
Proof.
  replace (8 * Z.of_nat (S n)) with (8 + 8 * Z.of_nat n) by lia.
  rewrite Z.pow_add_r by lia. reflexivity.
Qed.

Lemma be_get_put n x : be_get (be_put n x) = x mod 2 ^ (8 * Z.of_nat n).
Proof.
  induction n as [|n IH]; cbn [be_put be_get].
  - by rewrite Z.mod_1_r.
  - rewrite length_be_put, bval_byte_of, IH, pow256_S.
    rewrite (Z.mul_comm 256), Z.rem_mul_r by (pose proof (pow256_pos n); lia). lia.
Qed.

Lemma be_get_range l : 0 <= be_get l < 2 ^ (8 * Z.of_nat (length l)).
Proof.
  induction l as [|b l IH]; [cbn; lia|].
  cbn [be_get length]. rewrite pow256_S. pose proof (bval_range b). nia.
Qed.

(** Quotient and remainder are determined by the number they make. *)
Lemma quot_rem_inj p r q r' q' :
  0 <= r < p -> 0 <= r' < p -> r + p * q = r' + p * q' -> r = r' /\ q = q'.
Proof.
  intros Hr Hr' H.
  assert (q = q') as ->; [|lia].
  destruct (Z.lt_trichotomy q q') as [?|[?|?]]; [nia|done|nia].
Qed.

Lemma be_put_mod n x y :
  x mod 2 ^ (8 * Z.of_nat n) = y mod 2 ^ (8 * Z.of_nat n) -> be_put n x = be_put n y.
Proof.
  revert x y. induction n as [|n IH]; intros x y H; [done|]. cbn [be_put].
  pose proof (pow256_pos n).
  rewrite pow256_S, (Z.mul_comm 256), !Z.rem_mul_r in H by lia.
  pose proof (Z.mod_pos_bound x (2 ^ (8 * Z.of_nat n)) ltac:(lia)).
  pose proof (Z.mod_pos_bound y (2 ^ (8 * Z.of_nat n)) ltac:(lia)).
  apply quot_rem_inj in H as [Hr Hq]; [|done..].
  f_equal; [|by apply IH].
  apply bval_inj. by rewrite !bval_byte_of.
Qed.

Lemma be_put_get l : be_put (length l) (be_get l) = l.
Proof.
  induction l as [|b l IH]; [done|]. cbn [be_get be_put length].
  pose proof (pow256_pos (length l)). pose proof (be_get_range l).
  f_equal.
  - rewrite Z.div_add_l, Z.div_small by lia. by rewrite Z.add_0_r, byte_of_bval.
  - etransitivity; [|exact IH]. apply be_put_mod.
    by rewrite Z.add_comm, Z_mod_plus_full.
Qed.

(** ** Slices

    [subslice l i j] is [l[i:j]] and [index l i] is [l[i]]; they panic out of
    range.  [copy_at off src dst] is [copy(dst[off:], src)]: it panics when
    [off] is past the end and otherwise copies as much of [src] as fits.
    [put_at off src dst] stores exactly [src] at [off], as
    [PutUint64(dst[off:], x)] does: it panics unless all of [src] fits. *)

Section slices.
Context {A : Type}.
Implicit Types l src dst : list A.

Definition index l (i : nat) : result A := must (l !! i).

Definition subslice l (i j : nat) : result (list A) :=
  if decide ((i <= j)%nat /\ (j <= length l)%nat) then Ok (take (j - i) (drop i l)) else Panic.

Definition copy_at (off : nat) src dst : result (list A) :=
  if decide (off <= length dst)%nat
  then Ok (take off dst ++ take (length dst - off) src ++ drop (off + length src) dst)
  else Panic.

Definition put_at (off : nat) src dst : result (list A) :=
  if decide (off + length src <= length dst)%nat
  then Ok (take off dst ++ src ++ drop (off + length src) dst)
  else Panic.

Lemma put_at_app (l1 l2 l3 src : list A) off :
  off = length l1 -> length l2 = length src ->
  put_at off src (l1 ++ l2 ++ l3) = Ok (l1 ++ src ++ l3).
Proof.
  intros -> Hl. unfold put_at. rewrite decide_True by (rewrite !length_app; lia).
  f_equal. rewrite take_app_length. f_equal. f_equal.
  rewrite <- Hl, app_assoc, <- length_app. by rewrite drop_app_length.
Qed.

Lemma put_at_head (l2 l3 src : list A) :
  length l2 = length src -> put_at 0 src (l2 ++ l3) = Ok (src ++ l3).
Proof. by apply (put_at_app []). Qed.

Lemma copy_at_app (l1 l2 src : list A) off :
  off = length l1 -> length l2 = length src ->
  copy_at off src (l1 ++ l2) = Ok (l1 ++ src).
Proof.
  intros -> Hl. unfold copy_at. rewrite length_app, decide_True by lia.
  rewrite take_app_length, drop_ge by (rewrite length_app; lia).
  rewrite take_ge by lia. by rewrite app_nil_r.
Qed.

Lemma subslice_app_mid (l1 l2 l3 : list A) i j :
  i = length l1 -> j = (i + length l2)%nat ->
  subslice (l1 ++ l2 ++ l3) i j = Ok l2.
Proof.
  intros -> ->. unfold subslice. rewrite decide_True by (rewrite !length_app; lia).
  rewrite drop_app_length, Nat.add_comm, Nat.add_sub. by rewrite take_app_length.
Qed.

Lemma split_length l n m :
  length l = (n + m)%nat -> exists l1 l2, l = l1 ++ l2 /\ length l1 = n /\ length l2 = m.
Proof.
  intros H. exists (take n l), (drop n l).
  rewrite take_drop, length_take, length_drop. repeat split; lia.
Qed.

Lemma subslice_in_range l i j :
  (i <= j)%nat -> (j <= length l)%nat -> subslice l i j = Ok (take (j - i) (drop i l)).
Proof. intros. unfold subslice. by rewrite decide_True. Qed.
End slices.

(** [a % b] on ints that are not negative: a zero divisor panics. *)
Definition gomod (a b : nat) : result nat :=
  if decide (b = 0)%nat then Panic else Ok (a mod b)%nat.

(** [l[i] = x]: panics out of range. *)
Definition store {A} (l : list A) (i : nat) (x : A) : result (list A) :=
  if decide (i < length l)%nat then Ok (<[i:=x]> l) else Panic.

Lemma mapM_Ok {A B} (f : A -> result B) (g : A -> B) l :
  (forall x, x ∈ l -> f x = Ok (g x)) -> mapM f l = Ok (g <$> l).
Proof.
  induction l as [|x l IH]; intros H; [done|]. cbn [mapM mbind result_bind fmap list_fmap].
  rewrite H by left. cbn [mbind result_bind]. rewrite IH; [done|]. intros. apply H. by right.
Qed.

Lemma store_Ok {A} (l : list A) i x : (i < length l)%nat -> store l i x = Ok (<[i:=x]> l).
Proof. intros. unfold store. by rewrite decide_True. Qed.

Lemma index_Ok `{Inhabited A} (l : list A) i : (i < length l)%nat -> index l i = Ok (l !!! i).
Proof. intros. unfold index. by rewrite list_lookup_lookup_total_lt. Qed.

Lemma gomod_Ok a b : (0 < b)%nat -> gomod a b = Ok (a mod b)%nat.
Proof. intros. unfold gomod. by rewrite decide_False by lia. Qed.

(** ** Sums of integer lists *)

Definition zsum (l : list Z) : Z := foldr Z.add 0 l.

Lemma zsum_app l1 l2 : zsum (l1 ++ l2) = zsum l1 + zsum l2.
Proof. unfold zsum. induction l1; cbn [foldr app]; lia. Qed.

Lemma zsum_nonneg l : Forall (Z.le 0) l -> 0 <= zsum l.
Proof. unfold zsum. induction 1; cbn [foldr]; lia. Qed.

Lemma zsum_insert l i x y : l !! i = Some x -> zsum (<[i:=y]> l) = zsum l - x + y.
Proof.
  revert i. unfold zsum. induction l as [|z l IH]; intros [|i] H; simplify_eq/=; [lia|].
  rewrite (IH i) by done. lia.
Qed.

(** ** Strings *)

Lemma string_prefix_app (s t : string) : String.prefix s t = true <-> exists u, t = (s +:+ u)%string.
Proof.
  revert t. induction s as [|a s IH]; intros t; [split; [intros _; by exists t|intros _; by destruct t]|].
  destruct t as [|b t]; [split; [done|by intros [u ?]]|]. cbn [String.prefix].
  destruct (Ascii.ascii_dec a b) as [->|Hne].
  - rewrite IH. split; intros [u Hu]; exists u; [by rewrite Hu|by injection Hu].
  - split; [done|]. intros [u [=]]. congruence.
Qed.

Lemma string_app_assoc (s t u : string) : ((s +:+ t) +:+ u)%string = (s +:+ t +:+ u)%string.
Proof. induction s as [|a s IH]; [done|]. exact (f_equal (String a) IH). Qed.

Lemma string_app_inj (s t u : string) : (s +:+ t)%string = (s +:+ u)%string -> t = u.
Proof. induction s as [|a s IH]; [done|]. intros H. injection H as H. by apply IH. Qed.

Lemma string_length_app (s t : string) : String.length (s +:+ t)%string = (String.length s + String.length t)%nat.
Proof. induction s as [|a s IH]; [done|]. exact (f_equal S IH). Qed.

(** [s[len(prefix):]]. *)
Lemma substring_all (t : string) : String.substring 0 (String.length t) t = t.
Proof. induction t as [|b t IH]; [done|]. exact (f_equal (String b) IH). Qed.

Lemma substring_drop (s t : string) :
  String.substring (String.length s) (String.length t) (s +:+ t)%string = t.
Proof. induction s as [|a s IH]; [apply substring_all|exact IH]. Qed.

(** The string has no '/'. *)
Fixpoint no_slash (s : string) : bool :=
  match s with
  | EmptyString => true
  | String a s' => negb (bool_decide (a = "/"%char)) && no_slash s'
  end.

Lemma slash_split (s s' t t' : string) :
  no_slash s = true -> no_slash s' = true ->
  (s +:+ "/" +:+ t)%string = (s' +:+ "/" +:+ t')%string -> s = s' /\ t = t'.
Proof.
  revert s'. induction s as [|a s IH]; intros [|a' s']; cbn [no_slash]; intros H1 H2 H; injection H as H.
  - done.
  - by subst a'.
  - by subst a.
  - apply andb_true_iff in H1 as [_ H1], H2 as [_ H2]. destruct (IH s') as [-> ->]; [done..|]. by subst.
Qed.

(** ** Notation and automation *)

Declare Scope go_scope.
Delimit Scope go_scope with go.

(** [errors.Is(e, t)]. *)
Notation "e 'isErr' t" := (errors_Is e t = true) (at level 70, no associativity) : go_scope.

Create HintDb go discriminated.
#[export] Hint Resolve errors_Is_refl errors_Is_wrapf : go.
#[export] Hint Resolve u64_range i64_range bval_range be_get_range pow256_pos : go.
Create Rewrite HintDb go_length.
#[export] Hint Rewrite @length_app @length_take @length_drop @length_fmap @length_insert @length_replicate
  @length_seqZ @length_be_put : go_length.

(** Lengths of lists made of lists. *)
Ltac lens := autorewrite with go_length in *; cbn [length] in *; lia.

(** Ranges of machine integers are linear arithmetic. *)
Ltac in_range := unfold in_u64, in_i64, in_u8 in *; lia.

(** Conversions of numbers that are in range do nothing. *)
Ltac in_width := rewrite ?u64_small, ?i64_small, ?u8_small by in_range.

(** The calls known to have succeeded are run. *)
Ltac run_ok := repeat first [rewrite Ok_bind | progress cbn [wrapf]].

(** Comparisons of [Z] decided by the context. *)
Ltac zdec :=
  repeat match goal with
  | |- context [?a =? ?b] => first [rewrite (proj2 (Z.eqb_eq a b)) by lia | rewrite (proj2 (Z.eqb_neq a b)) by lia]
  | |- context [?a <? ?b] => first [rewrite (proj2 (Z.ltb_lt a b)) by lia | rewrite (proj2 (Z.ltb_ge a b)) by lia]
  | |- context [?a <=? ?b] => first [rewrite (proj2 (Z.leb_le a b)) by lia | rewrite (proj2 (Z.leb_gt a b)) by lia]
  end.
