(* ===== verification/Runs.v ===== *)
(** * Runs of equal verdicts

    Counters of consecutive events, as the balancer's fallback and the optimizer's
    rollback keep them: how long a list of booleans ends with the same value, and
    whether it contains a value some number of times in a row. *)

From S2P Require Import Prelude.

(** The number of [b]s a list of verdicts ends with. *)
Definition trailing (b : bool) (l : list bool) : nat := foldl (fun n x => if Bool.eqb x b then S n else 0%nat) 0%nat l.

(** [k] times [b] in a row, somewhere. *)
Definition has_run (k : nat) (b : bool) (l : list bool) : Prop := exists l1 l2, l = l1 ++ replicate k b ++ l2.

Lemma trailing_snoc b l x : trailing b (l ++ [x]) = if Bool.eqb x b then S (trailing b l) else 0%nat.
Proof. unfold trailing. by rewrite foldl_app. Qed.

Lemma trailing_spec b k l : (k <= trailing b l)%nat <-> exists l1, l = l1 ++ replicate k b.
Proof.
  revert k. induction l as [|x l IH] using rev_ind; intros k.
  - cbn. split; [intros ?; exists []; by replace k with 0%nat by lia|]. intros (l1 & H). destruct l1, k; done || lia.
  - rewrite trailing_snoc. split.
    + intros Hk. destruct k as [|k]; [exists (l ++ [x]); by rewrite app_nil_r|].
      destruct (Bool.eqb x b) eqn:Hx; [|lia]. apply Bool.eqb_prop in Hx as ->.
      destruct (proj1 (IH k)) as (l1 & ->); [lia|]. exists l1. by rewrite replicate_S_end, app_assoc.
    + intros (l1 & H). destruct k as [|k]; [lia|]. rewrite replicate_S_end, app_assoc in H. apply app_inj_tail in H as [-> ->].
      rewrite Bool.eqb_reflx. apply le_n_S, IH. by exists l1.
Qed.

Lemma trailing_le b l : (trailing b l <= length l)%nat.
Proof.
  induction l as [|x l IH] using rev_ind; [done|]. rewrite trailing_snoc, length_app. cbn [length].
  destruct (Bool.eqb x b); lia.
Qed.

(** A [b'] stops the count of the [b]s before it. *)
Lemma trailing_blocked b l1 l2 : trailing b ((l1 ++ [negb b]) ++ l2) = trailing b l2.
Proof.
  unfold trailing at 1. rewrite foldl_app. fold (trailing b (l1 ++ [negb b])). rewrite trailing_snoc.
  by destruct b.
Qed.

Lemma has_run_snoc k b l x : (0 < k)%nat -> has_run k b (l ++ [x]) <-> has_run k b l \/ (k <= trailing b (l ++ [x]))%nat.
Proof.
  intros Hk. rewrite trailing_spec. split.
  - intros (l1 & l2 & H). destruct l2 as [|y l2 _] using rev_ind.
    + right. exists l1. by rewrite app_nil_r in H.
    + left. rewrite !app_assoc in H. apply app_inj_tail in H as [-> _]. exists l1, l2. by rewrite app_assoc.
  - intros [(l1 & l2 & ->)|(l1 & H)]; [exists l1, (l2 ++ [x]); by rewrite !app_assoc|].
    exists l1, []. by rewrite app_nil_r.
Qed.
