(* ===== verification/Message.v ===== *)
(** * The wire format of a message (src/pkg/broker/message.go)

    [priority:1][timestamp:8][produceTime:8][appendTime:8][keyLen:4][key][value] *)

From S2P Require Import Prelude.
From Stdlib Require Import Strings.Byte.

Definition priorityFieldSize : nat := 1.
Definition timestampFieldSize : nat := 8.
Definition keyLenFieldSize : nat := 4.
Definition priorityOffset : nat := 0.
Definition timestampOff : nat := priorityFieldSize.
Definition produceTimeOff : nat := timestampOff + timestampFieldSize.
Definition appendTimeOff : nat := produceTimeOff + timestampFieldSize.
Definition keyLenOff : nat := appendTimeOff + timestampFieldSize.
Definition keyOff : nat := keyLenOff + keyLenFieldSize.
Definition HeaderSize : nat := keyLenOff.
Definition MetadataSize : nat := keyOff.

Record MessageHeader : Type := mkHeader {
  Priority : byte;
  Timestamp : Z;
  ProduceTime : Z;
  AppendTime : Z;
}.

Record Message : Type := mkMessage {
  Header : MessageHeader;
  Key : bytes;
  Value : bytes;
  BatchDecoded : bool;
}.

#[export] Instance MessageHeader_eq_dec : EqDecision MessageHeader.
Proof. solve_decision. Defined.
#[export] Instance Message_eq_dec : EqDecision Message.
Proof. solve_decision. Defined.

(** Field assignments [msg.Header.ProduceTime = t], [msg.Value = v], ... *)
Definition set_ProduceTime (t : Z) (m : Message) : Message :=
  let h := Header m in
  mkMessage (mkHeader (Priority h) (Timestamp h) t (AppendTime h)) (Key m) (Value m) (BatchDecoded m).
Definition set_AppendTime (t : Z) (m : Message) : Message :=
  let h := Header m in
  mkMessage (mkHeader (Priority h) (Timestamp h) (ProduceTime h) t) (Key m) (Value m) (BatchDecoded m).
Definition set_Value (v : bytes) (m : Message) : Message :=
  mkMessage (Header m) (Key m) v (BatchDecoded m).
Definition set_BatchDecoded (m : Message) : Message :=
  mkMessage (Header m) (Key m) (Value m) true.

(** [now] is [time.Now().UnixNano()]. *)
Definition NewMessage (now : Z) (priority : byte) (key value : bytes) : Message :=
  mkMessage (mkHeader priority now 0 0) key value false.

Definition encodedSize (m : Message) : nat :=
  MetadataSize + length (Key m) + length (Value m).

(** Stores into [buf]. *)
Definition marshalInto (m : Message) (buf : bytes) : result bytes :=
  let kl := length (Key m) in
  buf ← put_at priorityOffset [Priority (Header m)] buf;
  buf ← put_at timestampOff (be_put 8 (u64 (Timestamp (Header m)))) buf;
  buf ← put_at produceTimeOff (be_put 8 (u64 (ProduceTime (Header m)))) buf;
  buf ← put_at appendTimeOff (be_put 8 (u64 (AppendTime (Header m)))) buf;
  buf ← put_at keyLenOff (be_put 4 (u32 (Z.of_nat kl))) buf;
  _ ← subslice buf keyOff (keyOff + kl);
  buf ← put_at keyOff (Key m) buf;
  copy_at (keyOff + kl) (Value m) buf.

Definition Marshal (m : Message) : result bytes :=
  marshalInto m (replicate (encodedSize m) x00).

(** [pooled] is the backing array (up to its capacity) of the buffer
    [marshalPool.Get()] returned: whatever an earlier user left in it. *)
Definition MarshalPooled (pooled : bytes) (m : Message) : result bytes :=
  let needed := encodedSize m in
  let buf := if decide (length pooled < needed)%nat
             then replicate needed x00 else take needed pooled in
  marshalInto m buf.

Definition read_be (data : bytes) (off n : nat) : result Z :=
  be_get <$> subslice data off (off + n).

(** The composite literal of the header's four fields. *)
Definition decodeHeader (data : bytes) : result MessageHeader :=
  prio ← index data priorityOffset;
  ts ← read_be data timestampOff 8;
  pt ← read_be data produceTimeOff 8;
  at_ ← read_be data appendTimeOff 8;
  Ok (mkHeader prio (i64 ts) (i64 pt) (i64 at_)).

Definition UnmarshalMessage (data : bytes) : result Message :=
  if decide (length data < MetadataSize)%nat
  then Err (Errorf "message data too short: got %d bytes, need at least %d")
  else
    klz ← read_be data keyLenOff 4;
    let kl := Z.to_nat klz in
    if decide (length data < MetadataSize + kl)%nat
    then Err (Errorf "message truncated: got %d bytes, need %d (keyLen=%d)")
    else
      key ← subslice data keyOff (keyOff + kl);
      value ← subslice data (keyOff + kl) (length data);
      hdr ← decodeHeader data;
      Ok (mkMessage hdr key value false).

Definition UnmarshalHeader (data : bytes) : result MessageHeader :=
  if decide (length data < HeaderSize)%nat
  then Err (Errorf "data too short for header: got %d bytes, need at least %d")
  else decodeHeader data.

(** ** The record as one list *)

(** The layout comment of message.go, as a reference for the code above. *)
Definition wire_header (h : MessageHeader) : bytes :=
  [Priority h] ++ be_put 8 (u64 (Timestamp h)) ++ be_put 8 (u64 (ProduceTime h)) ++
  be_put 8 (u64 (AppendTime h)).
Definition wire (m : Message) : bytes :=
  wire_header (Header m) ++ be_put 4 (u32 (Z.of_nat (length (Key m)))) ++ Key m ++ Value m.

Lemma length_wire_header h : length (wire_header h) = HeaderSize.
Proof. unfold wire_header. by rewrite !length_app, !length_be_put. Qed.

Lemma length_wire m : length (wire m) = encodedSize m.
Proof.
  unfold wire, encodedSize, MetadataSize, keyOff.
  rewrite !length_app, length_wire_header, length_be_put.
  unfold HeaderSize, keyLenFieldSize. lia.
Qed.

(** Every byte of the buffer is overwritten, so its old contents do not matter. *)
Lemma marshalInto_wire m buf :
  length buf = encodedSize m -> marshalInto m buf = Ok (wire m).
Proof.
  unfold encodedSize. change MetadataSize with (1 + (8 + (8 + (8 + 4))))%nat.
  rewrite <- !Nat.add_assoc. intros Hb.
  apply split_length in Hb as (b0 & r0 & -> & H0 & Hb).
  apply split_length in Hb as (b1 & r1 & -> & H1 & Hb).
  apply split_length in Hb as (b2 & r2 & -> & H2 & Hb).
  apply split_length in Hb as (b3 & r3 & -> & H3 & Hb).
  apply split_length in Hb as (b4 & r4 & -> & H4 & Hb).
  apply split_length in Hb as (b5 & b6 & -> & H5 & H6).
  unfold marshalInto.
  rewrite (put_at_head b0) by done. cbn [mbind result_bind].
  rewrite (put_at_app _ b1) by (by rewrite ?length_be_put). cbn [mbind result_bind].
  rewrite app_assoc, (put_at_app _ b2)
    by (by rewrite ?length_app, ?length_be_put). cbn [mbind result_bind].
  rewrite app_assoc, (put_at_app _ b3)
    by (by rewrite ?length_app, ?length_be_put). cbn [mbind result_bind].
  rewrite app_assoc, (put_at_app _ b4)
    by (by rewrite ?length_app, ?length_be_put). cbn [mbind result_bind].
  rewrite app_assoc, (subslice_app_mid _ b5)
    by (rewrite ?length_app, ?length_be_put, ?H5; done). cbn [mbind result_bind].
  rewrite (put_at_app _ b5)
    by (rewrite ?length_app, ?length_be_put; done). cbn [mbind result_bind].
  rewrite app_assoc, copy_at_app by (rewrite ?length_app, ?length_be_put; done).
  unfold wire, wire_header. by rewrite <- !app_assoc.
Qed.

Lemma Marshal_wire m : Marshal m = Ok (wire m).
Proof. unfold Marshal. apply marshalInto_wire. by rewrite length_replicate. Qed.

Lemma MarshalPooled_wire pooled m : MarshalPooled pooled m = Ok (wire m).
Proof.
  unfold MarshalPooled. apply marshalInto_wire. case_decide; [by rewrite length_replicate|].
  rewrite length_take. lia.
Qed.

(** ** Decoding *)

Definition header_ok (h : MessageHeader) : Prop :=
  in_i64 (Timestamp h) /\ in_i64 (ProduceTime h) /\ in_i64 (AppendTime h).
Definition message_ok (m : Message) : Prop :=
  header_ok (Header m) /\ Z.of_nat (length (Key m)) < 2 ^ 32.

Lemma read_be_mid l1 l2 l3 off n :
  off = length l1 -> n = length l2 -> read_be (l1 ++ l2 ++ l3) off n = Ok (be_get l2).
Proof. intros -> ->. unfold read_be. by rewrite subslice_app_mid. Qed.

Lemma decodeHeader_wire h rest : header_ok h -> decodeHeader (wire_header h ++ rest) = Ok h.
Proof.
  intros (Ht & Hp & Ha). unfold wire_header. rewrite <- !app_assoc.
  unfold decodeHeader. cbn [index must mbind result_bind lookup list_lookup app priorityOffset].
  change (Priority h :: ?l) with ([Priority h] ++ l).
  rewrite (read_be_mid _ _ _ timestampOff) by (by rewrite ?length_be_put).
  rewrite app_assoc, (read_be_mid _ _ _ produceTimeOff) by (by rewrite ?length_app, ?length_be_put).
  rewrite app_assoc, (read_be_mid _ _ _ appendTimeOff) by (by rewrite ?length_app, ?length_be_put).
  cbn [mbind result_bind].
  rewrite !be_get_put. change (2 ^ (8 * Z.of_nat 8)) with (2 ^ 64).
  fold (u64 (u64 (Timestamp h))) (u64 (u64 (ProduceTime h))) (u64 (u64 (AppendTime h))).
  rewrite !(u64_small (u64 _)) by apply u64_range.
  rewrite !i64_u64 by done. by destruct h.
Qed.

Lemma decodeHeader_spec data :
  (HeaderSize <= length data)%nat ->
  exists h, decodeHeader data = Ok h /\ header_ok h /\ take HeaderSize data = wire_header h.
Proof.
  intros Hl.
  assert (exists l r, data = l ++ r /\ length l = (1 + (8 + (8 + 8)))%nat) as (l & r & -> & Hb).
  { exists (take 25 data), (drop 25 data). rewrite take_drop, length_take.
    split; [done|]. change HeaderSize with 25%nat in Hl. lia. }
  clear Hl.
  apply split_length in Hb as (b0 & r0 & -> & H0 & Hb).
  apply split_length in Hb as (b1 & r1 & -> & H1 & Hb).
  apply split_length in Hb as (b2 & b3 & -> & H2 & H3).
  destruct b0 as [|p [|]]; try done.
  exists (mkHeader p (i64 (be_get b1)) (i64 (be_get b2)) (i64 (be_get b3))).
  assert (forall b : bytes, length b = 8%nat -> be_put 8 (u64 (i64 (be_get b))) = b) as Hbe.
  { intros b Hb. pose proof (be_get_range b) as Hr. rewrite Hb in Hr.
    rewrite u64_i64 by (unfold in_u64; lia). rewrite <- Hb. apply be_put_get. }
  split_and!.
  - unfold decodeHeader. rewrite <- !app_assoc.
    cbn [index must mbind result_bind lookup list_lookup app priorityOffset].
    change (p :: ?l) with ([p] ++ l).
    rewrite (read_be_mid _ _ _ timestampOff) by done.
    rewrite app_assoc, (read_be_mid _ _ _ produceTimeOff) by (rewrite ?length_app, ?H1; done).
    rewrite app_assoc, (read_be_mid _ _ _ appendTimeOff) by (rewrite ?length_app, ?H1, ?H2; done).
    done.
  - split_and!; apply i64_range.
  - unfold wire_header. cbn [Priority Timestamp ProduceTime AppendTime].
    rewrite !Hbe by done. rewrite take_app_length'; [done|].
    rewrite !length_app, H1, H2, H3. done.
Qed.

Lemma decodeHeader_no_panic data : decodeHeader data = Panic -> (length data < HeaderSize)%nat.
Proof.
  intros H. destruct (decide (length data < HeaderSize)%nat) as [|Hn]; [done|].
  destruct (decodeHeader_spec data) as (h & Hd & _); [lia|congruence].
Qed.

(** A record is decoded exactly when it is the encoding of its message. *)
Lemma UnmarshalMessage_Ok data m :
  UnmarshalMessage data = Ok m ->
  wire m = data /\ message_ok m /\ BatchDecoded m = false.
Proof.
  unfold UnmarshalMessage. case_decide as Hl; [done|].
  assert (Hs : exists l r, data = l ++ r /\ length l = (HeaderSize + 4)%nat).
  { exists (take 29 data), (drop 29 data). rewrite take_drop, length_take. split; [done|].
    change MetadataSize with 29%nat in Hl. change HeaderSize with 25%nat. lia. }
  destruct Hs as (l & r & -> & Hb). clear Hl.
  apply split_length in Hb as (hd & b & -> & Hh & Hb). rewrite <- !app_assoc.
  rewrite (read_be_mid _ _ _ keyLenOff) by done. cbn [mbind result_bind].
  pose proof (be_get_range b) as Hr. rewrite Hb in Hr.
  set (kl := Z.to_nat (be_get b)).
  change MetadataSize with (HeaderSize + 4)%nat. change keyOff with (HeaderSize + 4)%nat.
  case_decide as Hk; [done|]. rewrite !length_app, Hh, Hb in Hk.
  assert (Hs : exists k v, r = k ++ v /\ length k = kl).
  { exists (take kl r), (drop kl r). rewrite take_drop, length_take. split; [done|lia]. }
  destruct Hs as (k & v & -> & Hkl).
  rewrite (app_assoc hd), (subslice_app_mid (hd ++ b) k v (HeaderSize + 4))
    by (rewrite ?length_app, ?Hh, ?Hb, ?Hkl; done).
  cbn [mbind result_bind].
  rewrite (app_assoc (hd ++ b)), <- (app_nil_r v), (subslice_app_mid ((hd ++ b) ++ k) v [])
    by (rewrite ?length_app, ?Hh, ?Hb, ?Hkl; cbn; lia).
  cbn [mbind result_bind]. rewrite app_nil_r, <- !app_assoc.
  destruct (decodeHeader_spec (hd ++ b ++ k ++ v)) as (h & -> & Hok & Ht).
  { rewrite length_app. lia. }
  cbn [mbind result_bind]. intros [= <-]. rewrite take_app_length' in Ht by done.
  split_and!; [|split; [done|cbn; lia]|done].
  unfold wire. cbn [Header Key Value]. rewrite <- Ht. f_equal. f_equal.
  rewrite Hkl. unfold kl. rewrite Z2Nat.id by lia.
  unfold u32. rewrite Z.mod_small by lia. rewrite <- Hb. apply be_put_get.
Qed.

Lemma UnmarshalMessage_wire m :
  message_ok m -> UnmarshalMessage (wire m) = Ok (mkMessage (Header m) (Key m) (Value m) false).
Proof.
  intros [Hh Hk]. unfold UnmarshalMessage. rewrite length_wire. unfold encodedSize.
  rewrite decide_False by lia. unfold wire.
  rewrite (read_be_mid _ _ _ keyLenOff) by (by rewrite ?length_wire_header, ?length_be_put).
  cbn [mbind result_bind]. rewrite be_get_put. unfold u32.
  rewrite Z.mod_mod, Z.mod_small by lia. rewrite Nat2Z.id, decide_False by lia.
  rewrite (app_assoc _ (be_put 4 _)), (subslice_app_mid _ (Key m) _ keyOff)
    by (rewrite ?length_app, ?length_wire_header, ?length_be_put; done).
  cbn [mbind result_bind].
  rewrite (app_assoc _ (Key m)), <- (app_nil_r (Value m)) at 1.
  rewrite (subslice_app_mid _ (Value m) [])
    by (rewrite ?length_app, ?length_wire_header, ?length_be_put; done).
  cbn [mbind result_bind]. rewrite <- !app_assoc. by rewrite decodeHeader_wire.
Qed.

Lemma UnmarshalHeader_wire h rest : header_ok h -> UnmarshalHeader (wire_header h ++ rest) = Ok h.
Proof.
  intros Hh. unfold UnmarshalHeader. rewrite decide_False.
  - by apply decodeHeader_wire.
  - rewrite length_app, length_wire_header. lia.
Qed.

Lemma UnmarshalMessage_no_panic data : UnmarshalMessage data <> Panic.
Proof.
  unfold UnmarshalMessage. case_decide as Hl; [done|]. change MetadataSize with 29%nat in Hl.
  unfold read_be. rewrite subslice_in_range by (change keyLenOff with 25%nat; lia).
  cbn [fmap result_fmap]. rewrite Ok_bind. set (kl := Z.to_nat _).
  case_decide as Hk; [done|]. change MetadataSize with 29%nat in Hk.
  rewrite !subslice_in_range by (change keyOff with 29%nat; lia). rewrite !Ok_bind.
  destruct (decodeHeader_spec data) as (h & -> & _); [change HeaderSize with 25%nat; lia|]. done.
Qed.

(** C9: Encoding a message (with or without a pooled buffer, whatever the buffer
    held) and decoding the bytes gives the message back, and the header alone
    can be read from the same bytes; the encoding has the length announced by
    [encodedSize].  The message's times are int64 values and its key is shorter
    than 2^32 bytes. *)
Theorem message_roundtrip (m : Message) (pooled : bytes) :
  message_ok m ->
  exists b, Marshal m = Ok b /\ MarshalPooled pooled m = Ok b /\ length b = encodedSize m /\
    UnmarshalMessage b = Ok (mkMessage (Header m) (Key m) (Value m) false) /\
    UnmarshalHeader b = Ok (Header m).
Proof.
  intros Hm. exists (wire m). pose proof Hm as [Hh _].
  split_and!; [apply Marshal_wire|apply MarshalPooled_wire|apply length_wire|by apply UnmarshalMessage_wire|].
  by apply UnmarshalHeader_wire.
Qed.

Definition sample_message : Message := mkMessage (mkHeader x07 (-5) 12 99) [x6b; x31] [x76; x00; xff] false.

Lemma message_roundtrip_witness :
  message_ok sample_message /\ Marshal sample_message = Ok (wire sample_message).
Proof.
  assert (H : message_ok sample_message) by (repeat split; vm_compute; congruence).
  split; [exact H|].
  destruct (message_roundtrip sample_message [x01; x02] H) as (b & Hb & _ & _ & Hu & _).
  rewrite Hb. apply UnmarshalMessage_Ok in Hu as [Hw _]. f_equal. symmetry. exact Hw.
Defined.

(** Decoding is total and canonical: for every byte string UnmarshalMessage
    returns an error or a message whose encoding is exactly that string, and
    never panics; when it returns a message, UnmarshalHeader returns its header. *)
Theorem UnmarshalMessage_canonical (data : bytes) :
  (exists m, UnmarshalMessage data = Ok m /\ Marshal m = Ok data /\ message_ok m /\
             UnmarshalHeader data = Ok (Header m)) \/
  (exists e, UnmarshalMessage data = Err e /\ forall m, message_ok m -> Marshal m <> Ok data).
Proof.
  destruct (UnmarshalMessage data) as [m|e|] eqn:E.
  - left. exists m. pose proof (UnmarshalMessage_Ok _ _ E) as (<- & Hm & _).
    split_and!; [done|apply Marshal_wire|done|]. destruct Hm as [Hh _]. by apply UnmarshalHeader_wire.
  - right. exists e. split; [done|]. intros m Hm. rewrite Marshal_wire. intros [= <-].
    by rewrite UnmarshalMessage_wire in E.
  - by apply UnmarshalMessage_no_panic in E.
Qed.
