(* ===== verification/PriorityIndex.v ===== *)
(** * The priority index (src/pkg/broker/priority_index.go)

    [entryRing], a circular buffer that refines a bounded queue, and
    [PriorityIndex], ten such rings with their counters.  The rings' [int]
    fields index slices, so they are [nat]. *)

From S2P Require Import Prelude.

Definition MaxPriority : nat := 10.

(** A [time.Time] is its number of nanoseconds since the Unix epoch; the zero
    [time.Time] is the start of year 1. *)
Definition Time := Z.
Definition zeroTime : Time := -62135596800000000000.
(** [t.Sub(u)], which saturates at the ends of [time.Duration]. *)
Definition time_Sub (t u : Time) : Z := Z.max (- 2 ^ 63) (Z.min (2 ^ 63 - 1) (t - u)).
Definition time_Before (t u : Time) : bool := t <? u.

Record PendingEntry : Type := mkEntry {
  WalOffset : Z;
  ArrivedAt : Time;
}.
Definition zeroEntry : PendingEntry := mkEntry 0 zeroTime.

#[export] Instance PendingEntry_eq_dec : EqDecision PendingEntry.
Proof. solve_decision. Defined.
#[export] Instance PendingEntry_inhabited : Inhabited PendingEntry := populate zeroEntry.

Record entryRing : Type := mkRing {
  rbuf : list PendingEntry;
  rhead : nat;
  rsize : nat;
  rcap : nat;
}.

(** The loop [for i := range r.size { out[i] = r.buf[(r.head+i)%len(r.buf)] }]. *)
Definition unroll (r : entryRing) : result (list PendingEntry) :=
  mapM (fun i => j ← gomod (rhead r + i) (length (rbuf r)); index (rbuf r) j) (seq 0 (rsize r)).

Definition grow (r : entryRing) : result entryRing :=
  let newCap := Nat.max (length (rbuf r) * 2) 16 in
  let newCap := if decide (0 < rcap r /\ rcap r < newCap)%nat then rcap r else newCap in
  front ← unroll r;
  if decide (length front <= newCap)%nat
  then Ok (mkRing (front ++ replicate (newCap - length front) zeroEntry) 0 (rsize r) (rcap r))
  else Panic.

Definition pushBack (r : entryRing) (e : PendingEntry) : result (entryRing * option PendingEntry) :=
  if decide (0 < rcap r /\ rcap r <= rsize r)%nat then
    evicted ← index (rbuf r) (rhead r);
    buf' ← store (rbuf r) (rhead r) e;
    head' ← gomod (rhead r + 1) (rcap r);
    Ok (mkRing buf' head' (rsize r) (rcap r), Some evicted)
  else
    r ← (if decide (rsize r = length (rbuf r)) then grow r else Ok r);
    idx ← gomod (rhead r + rsize r) (length (rbuf r));
    buf' ← store (rbuf r) idx e;
    Ok (mkRing buf' (rhead r) (rsize r + 1) (rcap r), None).

Definition popFront (r : entryRing) : result (entryRing * option PendingEntry) :=
  if decide (rsize r = 0)%nat then Ok (r, None)
  else
    e ← index (rbuf r) (rhead r);
    buf' ← store (rbuf r) (rhead r) zeroEntry;
    head' ← gomod (rhead r + 1) (length (rbuf r));
    Ok (mkRing buf' head' (rsize r - 1) (rcap r), Some e).

Definition peekFront (r : entryRing) : result (option PendingEntry) :=
  if decide (rsize r = 0)%nat then Ok None
  else e ← index (rbuf r) (rhead r); Ok (Some e).

Definition linearize (r : entryRing) : result (list PendingEntry) := unroll r.

Definition resetFrom (r : entryRing) (entries : list PendingEntry) : entryRing :=
  let entries := if decide (0 < rcap r /\ rcap r < length entries)%nat
                 then drop (length entries - rcap r) entries else entries in
  let need := length entries in
  let slots := Nat.max need (length (rbuf r)) in
  mkRing (entries ++ replicate (slots - need) zeroEntry) 0 need (rcap r).

Record priorityLevel : Type := mkLevel {
  ring : entryRing;
  lcount : Z;
}.

Record PriorityIndex : Type := mkPI {
  levels : list priorityLevel;
  total : Z;
  maxPerLevel : Z;
}.

Definition zeroLevel : priorityLevel := mkLevel (mkRing [] 0 0 0) 0.

Definition WithMaxPerLevel (n : Z) (pi : PriorityIndex) : PriorityIndex :=
  mkPI (levels pi) (total pi) n.

Definition NewPriorityIndex (opts : list (PriorityIndex -> PriorityIndex)) : PriorityIndex :=
  let pi := foldl (fun pi opt => opt pi) (mkPI (replicate MaxPriority zeroLevel) 0 0) opts in
  if 0 <? maxPerLevel pi then
    let n := Z.to_nat (maxPerLevel pi) in
    mkPI ((fun lv => mkLevel (mkRing (replicate n zeroEntry) 0 0 n) (lcount lv)) <$> levels pi)
         (total pi) (maxPerLevel pi)
  else pi.

Definition set_level (pi : PriorityIndex) (p : nat) (lv : priorityLevel) : PriorityIndex :=
  mkPI (<[p:=lv]> (levels pi)) (total pi) (maxPerLevel pi).
Definition add_total (d : Z) (pi : PriorityIndex) : PriorityIndex :=
  mkPI (levels pi) (i64 (total pi + d)) (maxPerLevel pi).

(** [&pi.levels[p]] for an [int] p: a negative index panics too. *)
Definition level (pi : PriorityIndex) (p : Z) : result priorityLevel :=
  if p <? 0 then Panic else index (levels pi) (Z.to_nat p).

Definition clamp_priority (priority : Z) : Z :=
  let p := if priority <? 0 then 0 else priority in
  if Z.of_nat MaxPriority <=? p then Z.of_nat MaxPriority - 1 else p.

Definition Add (pi : PriorityIndex) (priority offset : Z) (arrivedAt : Time)
    : result (PriorityIndex * bool) :=
  let p := clamp_priority priority in
  lv ← level pi p;
  '(r, evicted) ← pushBack (ring lv) (mkEntry offset arrivedAt);
  match evicted with
  | Some _ => Ok (set_level pi (Z.to_nat p) (mkLevel r (lcount lv)), false)
  | None =>
      Ok (add_total 1 (set_level pi (Z.to_nat p) (mkLevel r (i32 (lcount lv + 1)))), true)
  end.

(** One iteration of the pop loops: pop level [p] if it has an entry. *)
Definition try_pop (pi : PriorityIndex) (p : Z) : result (option (PriorityIndex * PendingEntry)) :=
  lv ← level pi p;
  '(r, e) ← popFront (ring lv);
  match e with
  | Some entry =>
      Ok (Some (add_total (-1) (set_level pi (Z.to_nat p) (mkLevel r (i32 (lcount lv - 1)))), entry))
  | None => Ok None
  end.

Fixpoint pop_first (pi : PriorityIndex) (ps : list Z) : result (option (PriorityIndex * PendingEntry)) :=
  match ps with
  | [] => Ok None
  | p :: ps' =>
      o ← try_pop pi p;
      match o with Some r => Ok (Some r) | None => pop_first pi ps' end
  end.

(** The values of [p] in [for p := MaxPriority - 1; p >= low; p--]. *)
Definition down_to (low : Z) : list Z :=
  (fun i => Z.of_nat MaxPriority - 1 - Z.of_nat i) <$> seq 0 (Z.to_nat (Z.of_nat MaxPriority - low)).

Definition PopHighest (pi : PriorityIndex) : result (option (PriorityIndex * PendingEntry)) :=
  pop_first pi (down_to 0).

(** The second loop of PopWithThreshold: the level below the threshold whose
    front entry arrived first.  The Go code keeps the best level's mutex, so
    the entry it peeked is the one it pops. *)
Fixpoint best_level (pi : PriorityIndex) (ps : list Z) (best : option (Z * Time))
    : result (option (Z * Time)) :=
  match ps with
  | [] => Ok best
  | p :: ps' =>
      lv ← level pi p;
      o ← peekFront (ring lv);
      match o, best with
      | Some e, None => best_level pi ps' (Some (p, ArrivedAt e))
      | Some e, Some (_, bestTime) =>
          if time_Before (ArrivedAt e) bestTime
          then best_level pi ps' (Some (p, ArrivedAt e))
          else best_level pi ps' best
      | None, _ => best_level pi ps' best
      end
  end.

(** The values of [p] in [for p := 0; p < threshold && p < MaxPriority; p++]. *)
Definition up_to (threshold : Z) : list Z :=
  Z.of_nat <$> seq 0 (Nat.min (Z.to_nat threshold) MaxPriority).

Definition PopWithThreshold (pi : PriorityIndex) (threshold : Z)
    : result (option (PriorityIndex * PendingEntry)) :=
  o ← pop_first pi (down_to threshold);
  match o with
  | Some r => Ok (Some r)
  | None =>
      best ← best_level pi (up_to threshold) None;
      match best with
      | Some (p, _) => try_pop pi p
      | None => Ok None
      end
  end.

Definition Len (pi : PriorityIndex) : Z := total pi.

Definition LevelDistribution (pi : PriorityIndex) : list Z := lcount <$> levels pi.

(** Pushing the stale entries on the level above, counting evictions. *)
Fixpoint push_all (r : entryRing) (es : list PendingEntry) (evictions : Z) : result (entryRing * Z) :=
  match es with
  | [] => Ok (r, evictions)
  | e :: es' =>
      '(r', ev) ← pushBack r e;
      push_all r' es' (match ev with Some _ => evictions + 1 | None => evictions end)
  end.

Definition is_stale (now ttl : Z) (e : PendingEntry) : bool := ttl <? time_Sub now (ArrivedAt e).

(** One iteration of PromoteStale's loop. *)
Definition promote_level (now ttl : Z) (pi : PriorityIndex) (p : Z) : result PriorityIndex :=
  lv ← level pi p;
  all ← linearize (ring lv);
  let stale := List.filter (is_stale now ttl) all in
  let fresh := List.filter (fun e => negb (is_stale now ttl e)) all in
  let r := resetFrom (ring lv) fresh in
  let pi := set_level pi (Z.to_nat p) (mkLevel r (i32 (Z.of_nat (length fresh)))) in
  if decide (length stale = 0)%nat then Ok pi
  else
    up ← level pi (p + 1);
    '(r', evictions) ← push_all (ring up) stale 0;
    Ok (add_total (- evictions)
          (set_level pi (Z.to_nat (p + 1)) (mkLevel r' (i32 (Z.of_nat (rsize r')))))).

Fixpoint promote_levels (now ttl : Z) (pi : PriorityIndex) (ps : list Z) : result PriorityIndex :=
  match ps with
  | [] => Ok pi
  | p :: ps' => pi ← promote_level now ttl pi p; promote_levels now ttl pi ps'
  end.

Definition PromoteStale (now ttl : Z) (pi : PriorityIndex) : result PriorityIndex :=
  promote_levels now ttl pi (drop 1 (down_to 0)).

(** ** The ring refines a bounded queue *)

(** The abstract queue: oldest first, at most [c] entries when [c] is positive;
    a push on a full queue drops the oldest. *)
Definition queue_push (c : nat) (q : list PendingEntry) (e : PendingEntry)
    : list PendingEntry * option PendingEntry :=
  if decide (0 < c /\ c <= length q)%nat then (drop 1 q ++ [e], list.head q) else (q ++ [e], None).

Definition ring_wf (r : entryRing) : Prop :=
  (rsize r <= length (rbuf r))%nat /\
  (length (rbuf r) = 0 -> rhead r = 0)%nat /\
  (0 < length (rbuf r) -> rhead r < length (rbuf r))%nat /\
  (0 < rcap r -> length (rbuf r) <= rcap r)%nat.

(** The abstraction function: the entries in pop order. *)
Definition contents (r : entryRing) : list PendingEntry :=
  (fun i => rbuf r !!! ((rhead r + i) mod length (rbuf r))%nat) <$> seq 0 (rsize r).

Lemma length_contents r : length (contents r) = rsize r.
Proof. unfold contents. by rewrite length_fmap, length_seq. Qed.

(** The index arithmetic of a ring whose head is in range. *)
Lemma wrap_index h n i :
  (h < n)%nat -> (i <= n)%nat -> ((h + i) mod n = if decide (h + i < n) then h + i else h + i - n)%nat.
Proof.
  intros. case_decide; [by apply Nat.mod_small|].
  replace (h + i)%nat with ((h + i - n) + 1 * n)%nat at 1 by lia.
  rewrite Nat.Div0.mod_add. apply Nat.mod_small. lia.
Qed.

Lemma contents_lookup r i :
  ring_wf r -> (i < rsize r)%nat ->
  contents r !! i = rbuf r !! ((rhead r + i) mod length (rbuf r))%nat.
Proof.
  intros (Hs & _ & Hh & _) Hi. unfold contents.
  rewrite list_lookup_fmap, lookup_seq_lt by lia. cbn.
  symmetry. apply list_lookup_lookup_total_lt. apply Nat.mod_upper_bound. lia.
Qed.

Lemma contents_ext r l :
  ring_wf r -> length l = rsize r ->
  (forall i, (i < rsize r)%nat -> rbuf r !! ((rhead r + i) mod length (rbuf r))%nat = l !! i) ->
  contents r = l.
Proof.
  intros Hwf Hl H. apply list_eq. intros i.
  destruct (decide (i < rsize r)%nat).
  - rewrite contents_lookup by done. by apply H.
  - rewrite !lookup_ge_None_2 by (rewrite ?length_contents; lia). done.
Qed.

Lemma unroll_spec r : ring_wf r -> unroll r = Ok (contents r).
Proof.
  intros (Hs & _ & Hh & _). apply mapM_Ok. intros i Hi%elem_of_seq.
  unfold gomod. rewrite decide_False by lia. cbn [mbind result_bind]. unfold index.
  rewrite list_lookup_lookup_total_lt; [done|]. apply Nat.mod_upper_bound. lia.
Qed.

(** A ring given by its buffer laid out from slot 0. *)
Lemma contents_from_zero l n c :
  let r := mkRing (l ++ replicate n zeroEntry) 0 (length l) c in
  (0 < c -> length l + n <= c)%nat -> ring_wf r /\ contents r = l.
Proof.
  intros r Hc.
  assert (Hwf : ring_wf r).
  { unfold ring_wf, r; cbn. rewrite length_app, length_replicate. lia. }
  split; [done|]. apply contents_ext; [done|done|]. cbn. intros i Hi.
  rewrite length_app, length_replicate, Nat.mod_small by lia. by rewrite lookup_app_l.
Qed.

Lemma grow_spec r :
  ring_wf r -> rsize r = length (rbuf r) -> (0 < rcap r -> rsize r < rcap r)%nat ->
  exists r', grow r = Ok r' /\ ring_wf r' /\ contents r' = contents r /\
    rsize r' = rsize r /\ rcap r' = rcap r /\ (rsize r' < length (rbuf r'))%nat.
Proof.
  intros Hwf Hfull Hcap. unfold grow. rewrite unroll_spec by done. cbn [mbind result_bind].
  rewrite length_contents. set (n := if decide (_ /\ (_ < _ `max` _)%nat) then _ else _).
  assert ((rsize r < n)%nat /\ (0 < rcap r -> n <= rcap r)%nat) as [Hn Hc].
  { unfold n. rewrite <- Hfull. case_decide; lia. }
  rewrite decide_True by lia.
  destruct (contents_from_zero (contents r) (n - rsize r) (rcap r)) as [Hwf' Hco].
  { rewrite length_contents. lia. }
  rewrite length_contents in Hwf', Hco.
  eexists; split_and!; [done|done|done|done|done|].
  cbn. rewrite length_app, length_replicate, length_contents. lia.
Qed.

Lemma push_slot_spec r e :
  ring_wf r -> (rsize r < length (rbuf r))%nat ->
  let r' := mkRing (<[((rhead r + rsize r) mod length (rbuf r))%nat := e]> (rbuf r))
              (rhead r) (rsize r + 1) (rcap r) in
  ring_wf r' /\ contents r' = contents r ++ [e].
Proof.
  intros Hwf Hlt r'. pose proof Hwf as (Hs & H0 & Hh & Hc).
  assert (Hwf' : ring_wf r') by (unfold ring_wf, r'; cbn; rewrite length_insert; lia).
  split; [done|]. apply contents_ext; [done| |].
  { cbn. rewrite length_app, length_contents. cbn. lia. }
  cbn. intros i Hi. rewrite length_insert.
  destruct (decide (i = rsize r)) as [->|].
  - rewrite list_lookup_insert_eq by (apply Nat.mod_upper_bound; lia).
    by rewrite lookup_app_r, length_contents, Nat.sub_diag by (rewrite length_contents; lia).
  - rewrite lookup_app_l, contents_lookup by (rewrite ?length_contents; lia || done).
    apply list_lookup_insert_ne. rewrite !wrap_index by lia. repeat case_decide; lia.
Qed.

Lemma evict_slot_spec r e :
  ring_wf r -> (0 < rcap r)%nat -> rsize r = rcap r ->
  let r' := mkRing (<[rhead r := e]> (rbuf r)) ((rhead r + 1) mod rcap r)%nat (rsize r) (rcap r) in
  ring_wf r' /\ list.head (contents r) = Some (rbuf r !!! rhead r) /\
  contents r' = drop 1 (contents r) ++ [e].
Proof.
  intros Hwf Hpos Hfull r'. pose proof Hwf as (Hs & H0 & Hh & Hc).
  assert (Hn : length (rbuf r) = rcap r) by lia.
  assert (Hwf' : ring_wf r').
  { unfold ring_wf, r'; cbn. rewrite length_insert. pose proof (Nat.mod_upper_bound (rhead r + 1) (rcap r)). lia. }
  split_and!; [done| |].
  - rewrite head_lookup, contents_lookup by (done || lia).
    rewrite Nat.add_0_r, Nat.mod_small by lia. apply list_lookup_lookup_total_lt. lia.
  - apply contents_ext; [done| |].
    { cbn. rewrite length_app, length_drop, length_contents. cbn. lia. }
    cbn. intros i Hi. rewrite length_insert, Hn.
    rewrite (wrap_index _ _ 1) by lia. destruct (decide (S i = rsize r)) as [Hi'|].
    + rewrite lookup_app_r by (rewrite length_drop, length_contents; lia).
      rewrite length_drop, length_contents. replace (i - _)%nat with 0%nat by lia.
      rewrite wrap_index by (repeat case_decide; lia).
      replace (if decide _ then _ else _) with (rhead r) by (repeat case_decide; lia).
      rewrite list_lookup_insert_eq by lia. done.
    + rewrite lookup_app_l by (rewrite length_drop, length_contents; lia).
      rewrite lookup_drop, contents_lookup by (done || lia). rewrite Hn.
      rewrite !wrap_index by (repeat case_decide; lia).
      rewrite list_lookup_insert_ne by (repeat case_decide; lia).
      f_equal. repeat case_decide; lia.
Qed.

Lemma pushBack_spec r e :
  ring_wf r -> (0 < rcap r -> rsize r <= rcap r)%nat ->
  exists r', pushBack r e = Ok (r', snd (queue_push (rcap r) (contents r) e)) /\
    ring_wf r' /\ rcap r' = rcap r /\ contents r' = fst (queue_push (rcap r) (contents r) e).
Proof.
  intros Hwf Hle. unfold pushBack, queue_push. rewrite length_contents.
  destruct (decide (0 < rcap r /\ rcap r <= rsize r)%nat) as [[Hc Hf]|Hn].
  - pose proof Hwf as (Hs & H0 & Hh & Hb).
    rewrite index_Ok, store_Ok, gomod_Ok by lia. cbn [mbind result_bind fst snd].
    destruct (evict_slot_spec r e Hwf Hc ltac:(lia)) as (Hwf' & -> & Hco).
    eexists; split_and!; [done|done|done|done].
  - assert (exists r1, (if decide (rsize r = length (rbuf r)) then grow r else Ok r) = Ok r1 /\
      ring_wf r1 /\ contents r1 = contents r /\ rsize r1 = rsize r /\ rcap r1 = rcap r /\
      (rsize r1 < length (rbuf r1))%nat) as (r1 & -> & Hwf1 & Hco & Hsz & Hcp & Hlt).
    { case_decide as Hfull; [apply grow_spec; [done|done|lia]|].
      pose proof Hwf as (Hs & _). exists r. split_and!; done || lia. }
    cbn [mbind result_bind].
    rewrite gomod_Ok by lia. cbn [mbind result_bind].
    rewrite store_Ok by (apply Nat.mod_upper_bound; lia). cbn [mbind result_bind fst snd].
    destruct (push_slot_spec r1 e Hwf1 Hlt) as [Hwf' Hc'].
    eexists; split_and!; [done|done|done|]. by rewrite Hc', Hco.
Qed.

Lemma popFront_spec r :
  ring_wf r ->
  match contents r with
  | [] => popFront r = Ok (r, None)
  | e :: q => exists r', popFront r = Ok (r', Some e) /\ ring_wf r' /\ rcap r' = rcap r /\ contents r' = q
  end.
Proof.
  intros Hwf. pose proof (length_contents r) as Hlen. pose proof Hwf as (Hs & H0 & Hh & Hc).
  unfold popFront. destruct (contents r) as [|e q] eqn:Hco; cbn in Hlen.
  { by rewrite decide_True. }
  rewrite decide_False, index_Ok, store_Ok, gomod_Ok by lia. cbn [mbind result_bind].
  set (r' := mkRing _ _ _ _).
  assert (Hwf' : ring_wf r').
  { unfold ring_wf, r'; cbn. rewrite length_insert.
    pose proof (Nat.mod_upper_bound (rhead r + 1) (length (rbuf r))). lia. }
  exists r'. split_and!; [|done|done|].
  - do 3 f_equal. pose proof (contents_lookup r 0 Hwf ltac:(lia)) as Hl.
    rewrite Hco, Nat.add_0_r, Nat.mod_small in Hl by lia. cbn in Hl.
    by apply list_lookup_total_correct.
  - apply contents_ext; [done|unfold r'; cbn; lia|]. unfold r'; cbn. intros i Hi.
    change (q !! i) with ((e :: q) !! S i). rewrite <- Hco, contents_lookup by (done || lia).
    rewrite length_insert, !wrap_index by (lia || (rewrite ?wrap_index by lia; repeat case_decide; lia)).
    rewrite list_lookup_insert_ne by (repeat case_decide; lia).
    f_equal. repeat case_decide; lia.
Qed.

Lemma peekFront_spec r : ring_wf r -> peekFront r = Ok (list.head (contents r)).
Proof.
  intros Hwf. pose proof Hwf as (Hs & H0 & Hh & Hc). unfold peekFront.
  pose proof (length_contents r) as Hlen. rewrite head_lookup.
  case_decide as Hz; [rewrite Hz in Hlen; by destruct (contents r)|].
  rewrite contents_lookup, Nat.add_0_r, Nat.mod_small, index_Ok by (done || lia).
  by rewrite list_lookup_lookup_total_lt by lia.
Qed.

(** The last [c] entries, or all of them when [c] is 0 (no bound). *)
Definition keep_newest (c : nat) (q : list PendingEntry) : list PendingEntry :=
  if decide (0 < c)%nat then drop (length q - c) q else q.

Lemma resetFrom_spec r entries :
  ring_wf r ->
  ring_wf (resetFrom r entries) /\ contents (resetFrom r entries) = keep_newest (rcap r) entries /\
  rcap (resetFrom r entries) = rcap r.
Proof.
  intros (Hs & H0 & Hh & Hc). unfold resetFrom.
  set (es := if decide (_ /\ (_ < _)%nat) then _ else _).
  assert (Hes : es = keep_newest (rcap r) entries /\ (0 < rcap r -> length es <= rcap r)%nat).
  { unfold es, keep_newest. repeat case_decide; rewrite ?length_drop; try lia; try (split; [done|lia]).
    replace (length entries - rcap r)%nat with 0%nat by lia. split; [done|lia]. }
  destruct Hes as [<- Hle].
  destruct (contents_from_zero es (length es `max` length (rbuf r) - length es) (rcap r)); [lia|].
  done.
Qed.

(** ** The index: invariant and abstract view *)

Definition level_wf (c : nat) (lv : priorityLevel) : Prop :=
  ring_wf (ring lv) /\ rcap (ring lv) = c /\ (0 < c -> rsize (ring lv) <= c)%nat /\
  lcount lv = i32 (Z.of_nat (rsize (ring lv))).

Definition level_cap (pi : PriorityIndex) : nat := Z.to_nat (maxPerLevel pi).

(** The abstract index: for each priority, its pending entries, oldest first. *)
Definition view (pi : PriorityIndex) : list (list PendingEntry) :=
  (fun lv => contents (ring lv)) <$> levels pi.

Definition sizes (pi : PriorityIndex) : list Z :=
  (fun lv => Z.of_nat (rsize (ring lv))) <$> levels pi.

Definition pi_wf (pi : PriorityIndex) : Prop :=
  length (levels pi) = MaxPriority /\ Forall (level_wf (level_cap pi)) (levels pi) /\
  total pi = i64 (zsum (sizes pi)).

Lemma level_view pi p :
  pi_wf pi -> 0 <= p < Z.of_nat MaxPriority ->
  exists lv, level pi p = Ok lv /\ levels pi !! Z.to_nat p = Some lv /\
    level_wf (level_cap pi) lv /\ view pi !!! Z.to_nat p = contents (ring lv).
Proof.
  intros (Hl & Hf & _) Hp. unfold level. zdec.
  destruct (lookup_lt_is_Some_2 (levels pi) (Z.to_nat p)) as [lv Hlv]; [lia|].
  exists lv. unfold index. rewrite Hlv. split_and!; [done|done| |].
  - by eapply Forall_lookup_1.
  - unfold view. apply list_lookup_total_correct. by rewrite list_lookup_fmap, Hlv.
Qed.

Lemma view_set_level pi p lv : view (set_level pi p lv) = <[p := contents (ring lv)]> (view pi).
Proof. unfold view. cbn. by rewrite list_fmap_insert. Qed.

Lemma length_view pi : length (view pi) = length (levels pi).
Proof. unfold view. by rewrite length_fmap. Qed.

(** Replacing a level and adjusting the total by the change of its size. *)
Lemma pi_wf_update pi p lv lv' d :
  pi_wf pi -> levels pi !! p = Some lv -> level_wf (level_cap pi) lv' ->
  d = Z.of_nat (rsize (ring lv')) - Z.of_nat (rsize (ring lv)) ->
  pi_wf (add_total d (set_level pi p lv')).
Proof.
  intros (Hl & Hf & Ht) Hlv Hwf ->. unfold pi_wf, add_total, set_level; cbn.
  split_and!; [by rewrite length_insert|by apply Forall_insert|].
  unfold sizes; cbn. rewrite list_fmap_insert.
  erewrite zsum_insert by (by rewrite list_lookup_fmap, Hlv). cbn.
  rewrite Ht, i64_add_l. f_equal. unfold sizes. lia.
Qed.

Lemma add_total_0 pi : pi_wf pi -> add_total 0 pi = pi.
Proof.
  intros (_ & _ & Ht). destruct pi as [l t m]; cbn in *. unfold add_total; cbn.
  rewrite Z.add_0_r, Ht. f_equal. apply i64_small, i64_range.
Qed.

Lemma clamp_range p : 0 <= clamp_priority p < Z.of_nat MaxPriority.
Proof.
  unfold clamp_priority. change (Z.of_nat MaxPriority) with 10.
  destruct (Z.ltb_spec p 0); [done|]. destruct (Z.leb_spec 10 p); lia.
Qed.

Lemma length_queue_push c q e :
  (0 < c -> length q <= c)%nat ->
  Z.of_nat (length (fst (queue_push c q e))) =
  Z.of_nat (length q) + match snd (queue_push c q e) with Some _ => 0 | None => 1 end /\
  (0 < c -> length (fst (queue_push c q e)) <= c)%nat.
Proof.
  intros H. unfold queue_push. case_decide as Hd; cbn; rewrite length_app; cbn; [|lia].
  destruct q as [|x q]; cbn in *; [lia|]. rewrite skipn_O. lia.
Qed.

(** *** Add *)

Lemma Add_spec pi priority offset t :
  pi_wf pi ->
  let p := Z.to_nat (clamp_priority priority) in
  let pushed := queue_push (level_cap pi) (view pi !!! p) (mkEntry offset t) in
  exists pi', Add pi priority offset t = Ok (pi', bool_decide (snd pushed = None)) /\
    pi_wf pi' /\ view pi' = <[p := fst pushed]> (view pi) /\ maxPerLevel pi' = maxPerLevel pi.
Proof.
  intros Hwf p pushed. pose proof (clamp_range priority) as Hp.
  destruct (level_view pi _ Hwf Hp) as (lv & Hlv & Hlk & (Hr & Hc & Hle & Hcnt) & Hv).
  fold p in Hlk, Hv. unfold Add. rewrite Hlv. cbn [mbind result_bind].
  destruct (pushBack_spec (ring lv) (mkEntry offset t) Hr ltac:(lia)) as (r' & -> & Hr' & Hc' & Hco).
  cbn [mbind result_bind]. unfold pushed. rewrite Hv. rewrite Hc in *.
  destruct (length_queue_push (level_cap pi) (contents (ring lv)) (mkEntry offset t)) as [Hlen Hle'].
  { rewrite length_contents. lia. }
  rewrite <- Hco, !length_contents in Hlen. rewrite <- Hco, length_contents in Hle'.
  destruct (snd _) as [x|].
  - eexists; split_and!; [done| | |].
    + rewrite <- (add_total_0 pi Hwf) at 1. change (set_level (add_total 0 pi)) with (fun q l => add_total 0 (set_level pi q l)).
      eapply pi_wf_update; [done|done| |cbn; lia].
      split_and!; [done|exact Hc'|done|]. cbn. rewrite Hcnt. f_equal. lia.
    + rewrite view_set_level. cbn. by rewrite Hco.
    + done.
  - eexists; split_and!; [done| | |done].
    + eapply pi_wf_update; [done|done| |cbn; lia].
      split_and!; [done|exact Hc'|done|]. cbn. rewrite Hcnt, i32_add_l. f_equal. lia.
    + change (view (add_total ?d ?x)) with (view x). rewrite view_set_level. cbn. by rewrite Hco.
Qed.

(** *** The pops *)

Lemma try_pop_spec pi p :
  pi_wf pi -> 0 <= p < Z.of_nat MaxPriority ->
  match view pi !!! Z.to_nat p with
  | [] => try_pop pi p = Ok None
  | e :: q => exists pi', try_pop pi p = Ok (Some (pi', e)) /\ pi_wf pi' /\
                view pi' = <[Z.to_nat p := q]> (view pi) /\ maxPerLevel pi' = maxPerLevel pi
  end.
Proof.
  intros Hwf Hp. destruct (level_view pi p Hwf Hp) as (lv & Hlv & Hlk & (Hr & Hc & Hle & Hcnt) & ->).
  unfold try_pop. rewrite Hlv. cbn [mbind result_bind].
  pose proof (popFront_spec (ring lv) Hr) as Hpop. pose proof (length_contents (ring lv)) as Hlen.
  destruct (contents (ring lv)) as [|e q]; [by rewrite Hpop|].
  destruct Hpop as (r' & -> & Hr' & Hc' & Hco). cbn [mbind result_bind].
  pose proof (length_contents r') as Hlen'. rewrite Hco in Hlen'. cbn in Hlen.
  eexists; split_and!; [done| | |done].
  - eapply pi_wf_update; [done|done| |cbn; lia].
    split_and!; cbn; [done|congruence|lia|]. rewrite Hcnt.
    replace (i32 _ - 1) with (i32 (Z.of_nat (rsize (ring lv))) + -1) by lia.
    rewrite i32_add_l. f_equal. lia.
  - change (view (add_total ?d ?x)) with (view x). rewrite view_set_level. cbn. by rewrite Hco.
Qed.

(** The entries of the levels [ps], in the order the pop loop meets them. *)
Definition entries_at (v : list (list PendingEntry)) (ps : list Z) : list PendingEntry :=
  concat ((fun p => v !!! Z.to_nat p) <$> ps).

Lemma entries_at_insert v ps p q :
  p ∉ Z.to_nat <$> ps -> entries_at (<[p := q]> v) ps = entries_at v ps.
Proof.
  induction ps as [|x ps IH]; intros Hn; [done|].
  apply not_elem_of_cons in Hn as [Hx Hn]. unfold entries_at in *. cbn.
  rewrite list_lookup_total_insert_ne by done. by rewrite IH.
Qed.

Lemma pop_first_spec pi ps :
  pi_wf pi -> Forall (fun p => 0 <= p < Z.of_nat MaxPriority) ps -> NoDup (Z.to_nat <$> ps) ->
  match entries_at (view pi) ps with
  | [] => pop_first pi ps = Ok None
  | e :: q => exists pi', pop_first pi ps = Ok (Some (pi', e)) /\ pi_wf pi' /\
      entries_at (view pi') ps = q /\ maxPerLevel pi' = maxPerLevel pi
  end.
Proof.
  intros Hwf Hps. induction Hps as [|p ps Hp Hps IH]; intros Hnd; [done|].
  cbn [fmap list_fmap] in Hnd. apply list.NoDup_cons in Hnd as [Hni Hnd].
  pose proof (try_pop_spec pi p Hwf Hp) as Ht.
  unfold entries_at at 1. cbn [fmap list_fmap concat]. fold (entries_at (view pi) ps).
  destruct (view pi !!! Z.to_nat p) as [|e q] eqn:Hv; cbn [app pop_first].
  - rewrite Ht. cbn [mbind result_bind]. specialize (IH Hnd).
    destruct (entries_at (view pi) ps) as [|e q]; [done|].
    destruct IH as (pi' & Hpop & Hwf' & Hq & Hm). exists pi'. split_and!; [done|done| |done].
    unfold entries_at. cbn [fmap list_fmap concat]. fold (entries_at (view pi') ps).
    rewrite Hq. enough (view pi' !!! Z.to_nat p = []) as -> by done.
    clear -Hpop Hv Hni Hwf Hps. revert Hpop. induction Hps as [|x ps Hx Hps IH]; [done|].
    cbn [fmap list_fmap] in Hni. apply not_elem_of_cons in Hni as [Hne Hni].
    cbn [pop_first]. pose proof (try_pop_spec pi x Hwf Hx) as Ht.
    destruct (view pi !!! Z.to_nat x) as [|e' q'].
    + rewrite Ht. by apply IH.
    + destruct Ht as (pi1 & -> & _ & Hv1 & _). cbn. intros [= <- <-].
      by rewrite Hv1, list_lookup_total_insert_ne by done.
  - destruct Ht as (pi' & -> & Hwf' & Hview & Hm). cbn [mbind result_bind].
    exists pi'. split_and!; [done|done| |done].
    unfold entries_at. cbn [fmap list_fmap concat]. fold (entries_at (view pi') ps).
    assert (Hlt : (Z.to_nat p < length (view pi))%nat).
    { rewrite length_view. destruct Hwf as (-> & _). lia. }
    by rewrite Hview, list_lookup_total_insert_eq, entries_at_insert.
Qed.

(** All pending entries in strict priority order. *)
Definition by_priority (pi : PriorityIndex) : list PendingEntry :=
  concat (reverse (view pi)).

Lemma entries_at_all pi : pi_wf pi -> entries_at (view pi) (down_to 0) = by_priority pi.
Proof.
  intros (Hl & _). unfold by_priority, entries_at.
  assert (Hlv : length (view pi) = MaxPriority) by (by rewrite length_view).
  clear Hl. destruct (view pi) as [|? v]; [done|]. do 9 (destruct v as [|? v]; [done|]).
  destruct v; [|done]. reflexivity.
Qed.

Lemma down_to_ok low : 0 <= low ->
  Forall (fun p => 0 <= p < Z.of_nat MaxPriority) (down_to low) /\ NoDup (Z.to_nat <$> down_to low).
Proof.
  intros Hlow. unfold down_to. change (Z.of_nat MaxPriority) with 10. split.
  - apply Forall_fmap, Forall_seq. intros i Hi. cbn. lia.
  - rewrite <- list_fmap_compose. apply NoDup_fmap_2_strong; [|apply NoDup_seq].
    intros x y Hx%elem_of_seq Hy%elem_of_seq. cbn. lia.
Qed.

Lemma PopHighest_spec pi :
  pi_wf pi ->
  match by_priority pi with
  | [] => PopHighest pi = Ok None
  | e :: q => exists pi', PopHighest pi = Ok (Some (pi', e)) /\ pi_wf pi' /\ by_priority pi' = q /\
                maxPerLevel pi' = maxPerLevel pi
  end.
Proof.
  intros Hwf. destruct (down_to_ok 0) as [Hf Hnd]; [lia|].
  pose proof (pop_first_spec pi _ Hwf Hf Hnd) as H. rewrite entries_at_all in H by done.
  unfold PopHighest. destruct (by_priority pi) as [|e q]; [done|].
  destruct H as (pi' & ? & Hwf' & Hq & ?). exists pi'. rewrite entries_at_all in Hq by done. done.
Qed.

(** Calling PopHighest [n] times, collecting what it returns. *)
Fixpoint drain (n : nat) (pi : PriorityIndex) : result (PriorityIndex * list PendingEntry) :=
  match n with
  | O => Ok (pi, [])
  | S n' =>
      o ← PopHighest pi;
      match o with
      | None => Ok (pi, [])
      | Some (pi', e) => '(pi'', es) ← drain n' pi'; Ok (pi'', e :: es)
      end
  end.

Lemma drain_spec n pi :
  pi_wf pi -> exists pi', drain n pi = Ok (pi', take n (by_priority pi)) /\ pi_wf pi' /\
                by_priority pi' = drop n (by_priority pi).
Proof.
  revert pi. induction n as [|n IH]; intros pi Hwf; [by exists pi|]. cbn [drain].
  pose proof (PopHighest_spec pi Hwf) as H. destruct (by_priority pi) as [|e q] eqn:Hb.
  - rewrite H. cbn. by exists pi.
  - destruct H as (pi' & -> & Hwf' & <- & _). cbn [mbind result_bind].
    destruct (IH pi' Hwf') as (pi'' & -> & Hwf'' & Hd). cbn. by exists pi''.
Qed.

(** Membership in a scanned prefix extended by one level. *)
Ltac in_app := rewrite ?elem_of_app, ?list_elem_of_singleton; tauto.

(** The front entry of a level. *)
Definition front_at (pi : PriorityIndex) (p : Z) : option PendingEntry :=
  list.head (view pi !!! Z.to_nat p).

(** What the scan knows after the levels [seen]: nothing pending there, or the
    level whose front entry arrived first. *)
Definition best_of (pi : PriorityIndex) (seen : list Z) (best : option (Z * Time)) : Prop :=
  match best with
  | None => forall q, q ∈ seen -> front_at pi q = None
  | Some (p, t) => p ∈ seen /\ (exists e, front_at pi p = Some e /\ ArrivedAt e = t) /\
      forall q f, q ∈ seen -> front_at pi q = Some f -> t <= ArrivedAt f
  end.

Lemma best_level_spec pi ps seen best :
  pi_wf pi -> Forall (fun p => 0 <= p < Z.of_nat MaxPriority) ps -> best_of pi seen best ->
  exists best', best_level pi ps best = Ok best' /\ best_of pi (seen ++ ps) best'.
Proof.
  intros Hwf Hps. revert seen best. induction Hps as [|p ps Hp Hps IH]; intros seen best Hb.
  { exists best. by rewrite app_nil_r. }
  cbn [best_level]. destruct (level_view pi p Hwf Hp) as (lv & -> & _ & (Hr & _) & Hv).
  cbn [mbind result_bind]. rewrite peekFront_spec by done. rewrite <- Hv.
  fold (front_at pi p). cbn [mbind result_bind].
  rewrite (cons_middle p seen ps), app_assoc.
  assert (Hskip : front_at pi p = None -> best_of pi (seen ++ [p]) best).
  { intros Hn. destruct best as [[p0 t0]|]; cbn in *.
    - destruct Hb as (? & ? & Hle). split_and!; [in_app|done|].
      intros q f [Hq| ->%list_elem_of_singleton]%elem_of_app Hf; [by eapply Hle|congruence].
    - intros q [Hq| ->%list_elem_of_singleton]%elem_of_app; [by apply Hb|done]. }
  destruct (front_at pi p) as [e|] eqn:Hf; [|by apply IH, Hskip].
  destruct best as [[p0 t0]|]; [|apply IH].
  - unfold time_Before. destruct Hb as (Hin & He0 & Hle). destruct (Z.ltb_spec (ArrivedAt e) t0); apply IH.
    + split_and!; [in_app|by exists e|].
      intros q f [Hq| ->%list_elem_of_singleton]%elem_of_app Hf'; [specialize (Hle q f Hq Hf'); lia|].
      simplify_eq. lia.
    + split_and!; [in_app|done|].
      intros q f [Hq| ->%list_elem_of_singleton]%elem_of_app Hf'; [by eapply Hle|simplify_eq; lia].
  - split_and!; [in_app|by exists e|].
    intros q f [Hq| ->%list_elem_of_singleton]%elem_of_app Hf'; [|simplify_eq; lia].
    cbn in Hb. rewrite (Hb q Hq) in Hf'. done.
Qed.

Lemma up_to_ok t : 0 <= t ->
  Forall (fun p => 0 <= p < Z.of_nat MaxPriority) (up_to t) /\
  forall p, p ∈ up_to t <-> 0 <= p < t /\ p < Z.of_nat MaxPriority.
Proof.
  intros Ht. assert (forall p, p ∈ up_to t <-> 0 <= p < t /\ p < Z.of_nat MaxPriority) as H.
  { intros p. unfold up_to. rewrite list_elem_of_fmap. split.
    - intros (i & -> & Hi%elem_of_seq). lia.
    - intros. exists (Z.to_nat p). rewrite elem_of_seq. lia. }
  split; [|done]. apply list.Forall_forall. intros p Hp%H. lia.
Qed.

Lemma PopWithThreshold_spec pi t :
  pi_wf pi -> 0 <= t ->
  match entries_at (view pi) (down_to t) with
  | e :: _ => exists pi', PopWithThreshold pi t = Ok (Some (pi', e)) /\ pi_wf pi'
  | [] =>
      (PopWithThreshold pi t = Ok None /\ forall q, 0 <= q < t -> q < Z.of_nat MaxPriority -> front_at pi q = None) \/
      exists p e pi', 0 <= p < t /\ p < Z.of_nat MaxPriority /\ front_at pi p = Some e /\
        (forall q f, 0 <= q < t -> q < Z.of_nat MaxPriority -> front_at pi q = Some f -> ArrivedAt e <= ArrivedAt f) /\
        PopWithThreshold pi t = Ok (Some (pi', e)) /\ pi_wf pi' /\
        view pi' = <[Z.to_nat p := drop 1 (view pi !!! Z.to_nat p)]> (view pi)
  end.
Proof.
  intros Hwf Ht. destruct (down_to_ok t Ht) as [Hf Hnd]. destruct (up_to_ok t Ht) as [Hu Hin].
  pose proof (pop_first_spec pi _ Hwf Hf Hnd) as Hpop. unfold PopWithThreshold.
  destruct (entries_at _ _) as [|e q].
  - rewrite Hpop. cbn [mbind result_bind].
    destruct (best_level_spec pi (up_to t) [] None Hwf Hu) as (best & -> & Hbest); [by intros q ?%elem_of_nil|].
    cbn [mbind result_bind app] in *. destruct best as [[p tm]|].
    + right. destruct Hbest as (Hp & (e & He & <-) & Hle). apply Hin in Hp.
      pose proof (try_pop_spec pi p Hwf ltac:(lia)) as Hpp. unfold front_at in He.
      destruct (view pi !!! Z.to_nat p) as [|e' q] eqn:Hv; simplify_eq/=.
      destruct Hpp as (pi' & Hpp & Hwf' & Hview & _).
      exists p, e, pi'. split_and!; [lia|lia|lia| | |done|done|by rewrite Hv].
      * unfold front_at. by rewrite Hv.
      * intros q' f ??. apply Hle, Hin. lia.
    + left. split; [done|]. intros q ??. apply Hbest, Hin. lia.
  - destruct Hpop as (pi' & -> & Hwf' & _). by exists pi'.
Qed.

(** *** PromoteStale *)

Lemma pop_first_try pi ps r : pop_first pi ps = Ok (Some r) -> exists p, p ∈ ps /\ try_pop pi p = Ok (Some r).
Proof.
  induction ps as [|p ps IH]; cbn [pop_first]; [done|]. destruct (try_pop pi p) as [[r'|]|e|] eqn:Ht; [|..]; try done.
  - intros [= ->]. exists p. split; [left|done].
  - intros H. destruct (IH H) as (p' & Hp' & Htry). exists p'. split; [by right|done].
Qed.

Lemma elem_of_down_to t p : 0 <= t -> t <= p < Z.of_nat MaxPriority -> p ∈ down_to t.
Proof.
  intros Ht Hp. unfold down_to. apply list_elem_of_fmap. exists (Z.to_nat (Z.of_nat MaxPriority - 1 - p)). rewrite elem_of_seq. lia.
Qed.

(** Whatever the threshold, a pop takes the front entry of one level and leaves
    the rest; it finds nothing only when nothing is pending. *)
Lemma concat_remove_front (v : list (list PendingEntry)) i e q :
  v !! i = Some (e :: q) -> concat v ≡ₚ e :: concat (<[i := q]> v).
Proof.
  revert i. induction v as [|l v IH]; intros [|i]; cbn [lookup list_lookup]; try done.
  - by intros [= ->].
  - intros H. cbn [insert list_insert concat]. rewrite (IH i H). symmetry. apply Permutation_middle.
Qed.

Lemma by_priority_concat pi : by_priority pi ≡ₚ concat (view pi).
Proof. unfold by_priority. by rewrite reverse_Permutation. Qed.

Lemma view_nil_by_priority pi :
  pi_wf pi -> (forall p, 0 <= p < Z.of_nat MaxPriority -> view pi !!! Z.to_nat p = []) -> by_priority pi = [].
Proof.
  intros Hwf Hnil. rewrite <- (entries_at_all pi Hwf). unfold entries_at. destruct (down_to_ok 0) as [Hf _]; [lia|].
  induction Hf as [|p ps Hp Hps IH]; [done|]. cbn [fmap list_fmap concat]. by rewrite Hnil.
Qed.

Lemma PopWithThreshold_removes_one pi t :
  pi_wf pi -> 0 <= t ->
  (PopWithThreshold pi t = Ok None /\ by_priority pi = []) \/
  exists pi' e, PopWithThreshold pi t = Ok (Some (pi', e)) /\ pi_wf pi' /\ by_priority pi ≡ₚ e :: by_priority pi'.
Proof.
  intros Hwf Ht.
  assert (Hpop : forall p, 0 <= p < Z.of_nat MaxPriority -> view pi !!! Z.to_nat p <> [] ->
    exists pi' e, try_pop pi p = Ok (Some (pi', e)) /\ pi_wf pi' /\ by_priority pi ≡ₚ e :: by_priority pi').
  { intros p Hp Hne. pose proof (try_pop_spec pi p Hwf Hp) as H. destruct (view pi !!! Z.to_nat p) as [|e q] eqn:Hv; [done|].
    destruct H as (pi' & Hpop & Hwf' & Hview & _). exists pi', e. split; [done|]. split; [done|].
    rewrite !by_priority_concat, Hview. apply concat_remove_front. rewrite <- Hv. apply list_lookup_lookup_total_lt.
    rewrite length_view. destruct Hwf as (-> & _). lia. }
  destruct (down_to_ok t Ht) as [Hf Hnd]. destruct (up_to_ok t Ht) as [Hu Hin].
  pose proof (pop_first_spec pi _ Hwf Hf Hnd) as Hfirst. unfold PopWithThreshold.
  destruct (entries_at (view pi) (down_to t)) as [|e q] eqn:He.
  - rewrite Hfirst, Ok_bind.
    destruct (best_level_spec pi (up_to t) [] None Hwf Hu) as (best & -> & Hbest); [by intros q ?%elem_of_nil|].
    rewrite Ok_bind. destruct best as [[p tm]|].
    + right. destruct Hbest as (Hp & (f & Hfr & _) & _). cbn [app] in Hp. apply Hin in Hp.
      apply Hpop; [lia|]. unfold front_at in Hfr. by destruct (view pi !!! Z.to_nat p).
    + left. split; [done|]. apply view_nil_by_priority; [done|]. intros p Hp. destruct (decide (p < t)).
      * assert (Hfr : front_at pi p = None) by (apply Hbest, Hin; lia). unfold front_at in Hfr. by destruct (view pi !!! Z.to_nat p).
      * assert (Hpt : p ∈ down_to t) by (apply elem_of_down_to; lia). apply list_elem_of_split in Hpt as (l1 & l2 & Hl).
        unfold entries_at in He. rewrite Hl, fmap_app, concat_app in He. cbn [fmap list_fmap concat] in He.
        apply app_nil in He as [_ He]. by apply app_nil in He as [He _].
  - destruct Hfirst as (pi' & Hp & Hwf' & Hq & _). right.
    destruct (pop_first_try pi (down_to t) _ Hp) as (p & Hpin & Htry).
    rewrite list.Forall_forall in Hf. specialize (Hf p Hpin).
    destruct (Hpop p Hf) as (pi1 & e1 & Htry1 & Hwf1 & Hperm).
    { intros Hnil. pose proof (try_pop_spec pi p Hwf Hf) as H. rewrite Hnil in H. congruence. }
    rewrite Htry in Htry1. simplify_eq. rewrite Hp, Ok_bind. eauto 10.
Qed.

Lemma keep_newest_small c q : (0 < c -> length q <= c)%nat -> keep_newest c q = q.
Proof. intros H. unfold keep_newest. case_decide; [|done]. by replace (length q - c)%nat with 0%nat by lia. Qed.

Lemma length_keep_newest c q : (0 < c -> length (keep_newest c q) <= c)%nat.
Proof. unfold keep_newest. case_decide; rewrite ?length_drop; lia. Qed.

Lemma keep_newest_push c q e es :
  (0 < c -> length q <= c)%nat ->
  keep_newest c (fst (queue_push c q e) ++ es) = keep_newest c (q ++ e :: es).
Proof.
  intros Hle. unfold queue_push. case_decide as Hd; cbn [fst]; [|by rewrite <- app_assoc].
  unfold keep_newest. rewrite !decide_True by lia. rewrite !length_app. cbn [length].
  destruct q as [|x q]; cbn in *; [lia|]. rewrite skipn_O, <- app_assoc. cbn [app].
  replace (length q + 1 + length es - c)%nat with (length es) by lia.
  by replace (S (length q + S (length es)) - c)%nat with (S (length es)) by lia.
Qed.

Lemma push_all_spec r es k :
  ring_wf r -> (0 < rcap r -> rsize r <= rcap r)%nat ->
  exists r', push_all r es k =
      Ok (r', k + (Z.of_nat (rsize r + length es) - Z.of_nat (rsize r'))) /\
    ring_wf r' /\ rcap r' = rcap r /\ contents r' = keep_newest (rcap r) (contents r ++ es).
Proof.
  revert r k. induction es as [|e es IH]; intros r k Hwf Hle; cbn [push_all].
  - exists r. rewrite app_nil_r, keep_newest_small by (rewrite length_contents; lia).
    split_and!; [|done..]. do 2 f_equal. cbn. lia.
  - destruct (pushBack_spec r e Hwf Hle) as (r1 & -> & Hwf1 & Hc1 & Hco1). cbn [mbind result_bind].
    destruct (length_queue_push (rcap r) (contents r) e) as [Hlen Hle1]; [by rewrite length_contents|].
    rewrite <- Hco1, !length_contents in Hlen. rewrite <- Hco1, length_contents in Hle1.
    destruct (IH r1 (match snd (queue_push (rcap r) (contents r) e) with Some _ => k + 1 | None => k end) Hwf1)
      as (r' & -> & Hwf' & Hc' & Hco'); [by rewrite Hc1|].
    exists r'. split_and!; [|done|congruence|].
    + do 2 f_equal. cbn [length]. destruct (snd _); lia.
    + rewrite Hco', Hc1, Hco1. apply keep_newest_push. by rewrite length_contents.
Qed.

Section promote.
Context (now ttl : Z).

Definition stale_of (q : list PendingEntry) : list PendingEntry :=
  List.filter (is_stale now ttl) q.
Definition fresh_of (q : list PendingEntry) : list PendingEntry :=
  List.filter (fun e => negb (is_stale now ttl e)) q.

Lemma length_fresh_stale q : (length (fresh_of q) + length (stale_of q))%nat = length q.
Proof.
  induction q as [|e q IH]; [done|]. unfold fresh_of, stale_of in *. cbn.
  destruct (is_stale now ttl e); cbn; lia.
Qed.

(** The effect of one loop iteration on the abstract view. *)
Definition promote_view (c : nat) (v : list (list PendingEntry)) (p : Z) : list (list PendingEntry) :=
  let q := v !!! Z.to_nat p in
  <[Z.to_nat (p + 1) := keep_newest c (v !!! Z.to_nat (p + 1) ++ stale_of q)]>
    (<[Z.to_nat p := fresh_of q]> v).

(** Two levels replaced at once, the total adjusted by the change. *)
Lemma pi_wf_update2 pi p lv lv' up up' d :
  pi_wf pi -> levels pi !! p = Some lv -> levels pi !! S p = Some up ->
  level_wf (level_cap pi) lv' -> level_wf (level_cap pi) up' ->
  d = Z.of_nat (rsize (ring lv')) - Z.of_nat (rsize (ring lv)) +
      Z.of_nat (rsize (ring up')) - Z.of_nat (rsize (ring up)) ->
  pi_wf (add_total d (set_level (set_level pi p lv') (S p) up')).
Proof.
  intros Hwf Hlv Hup Hlv' Hup' ->.
  pose proof (pi_wf_update pi p lv lv' _ Hwf Hlv Hlv' eq_refl) as Hwf1.
  eapply (pi_wf_update _ (S p) up up') in Hwf1; [|cbn; by rewrite list_lookup_insert_ne by lia|done|done].
  unfold add_total, set_level in *. cbn in *. rewrite i64_add_l in Hwf1.
  replace (total pi + (_ + _ - _)) with
    (total pi + (Z.of_nat (rsize (ring lv')) - Z.of_nat (rsize (ring lv))) +
     (Z.of_nat (rsize (ring up')) - Z.of_nat (rsize (ring up)))) by lia.
  done.
Qed.

Lemma promote_level_spec pi p :
  pi_wf pi -> 0 <= p < Z.of_nat MaxPriority - 1 ->
  exists pi', promote_level now ttl pi p = Ok pi' /\ pi_wf pi' /\
    view pi' = promote_view (level_cap pi) (view pi) p /\ maxPerLevel pi' = maxPerLevel pi.
Proof.
  intros Hwf Hp.
  destruct (level_view pi p Hwf) as (lv & Hlv & Hlk & (Hr & Hc & Hle & Hcnt) & Hv); [lia|].
  destruct (level_view pi (p + 1) Hwf) as (up & Hup & Huk & (Hur & Huc & Hule & Hucnt) & Huv); [lia|].
  replace (Z.to_nat (p + 1)) with (S (Z.to_nat p)) in * by lia.
  unfold promote_level, promote_view. rewrite Hlv. cbn [mbind result_bind]. unfold linearize.
  rewrite unroll_spec by done. cbn [mbind result_bind].
  replace (Z.to_nat (p + 1)) with (S (Z.to_nat p)) by lia.
  fold (stale_of (contents (ring lv))) (fresh_of (contents (ring lv))).
  pose proof (length_fresh_stale (contents (ring lv))) as Hfs. rewrite length_contents in Hfs.
  set (stale := stale_of _) in *. set (fresh := fresh_of _) in *.
  destruct (resetFrom_spec (ring lv) fresh Hr) as (Hr1 & Hco1 & Hc1).
  rewrite keep_newest_small in Hco1 by (rewrite Hc; lia).
  pose proof (length_contents (resetFrom (ring lv) fresh)) as Hs1. rewrite Hco1 in Hs1.
  set (lv' := mkLevel _ _).
  assert (Hlv' : level_wf (level_cap pi) lv').
  { unfold level_wf, lv'. cbn [ring lcount]. split_and!; [done|congruence|lia|by rewrite <- Hs1]. }
  rewrite Hv, Huv. fold stale fresh.
  case_decide as Hst.
  - exists (set_level pi (Z.to_nat p) lv'). apply nil_length_inv in Hst. rewrite Hst in *. split_and!; [done| | |done].
    + rewrite <- (add_total_0 pi Hwf) at 1. change (set_level (add_total 0 pi)) with (fun q l => add_total 0 (set_level pi q l)).
      eapply pi_wf_update; [done|done|done|]. unfold lv'. cbn [ring length] in *. lia.
    + rewrite view_set_level, app_nil_r, keep_newest_small by (rewrite length_contents; lia).
      unfold lv'. cbn [ring]. rewrite Hco1. symmetry. apply list_insert_id.
      rewrite list_lookup_insert_ne by lia. unfold view. by rewrite list_lookup_fmap, Huk.
  - assert (level (set_level pi (Z.to_nat p) lv') (p + 1) = Ok up) as ->.
    { unfold level, index. zdec. cbn.
      replace (Z.to_nat (p + 1)) with (S (Z.to_nat p)) by lia.
      by rewrite list_lookup_insert_ne, Huk by lia. }
    cbn [mbind result_bind].
    destruct (push_all_spec (ring up) stale 0 Hur) as (r' & -> & Hr' & Hc' & Hco'); [lia|].
    cbn [mbind result_bind].
    pose proof (length_contents r') as Hs'. rewrite Huc in Hco', Hc'.
    eexists; split_and!; [done| | |done].
    + eapply pi_wf_update2; [done|done|done|done| |].
      * split_and!; cbn; [done|done| |done]. intros. rewrite <- Hs', Hco'. by apply length_keep_newest.
      * unfold lv'. cbn [ring]. lia.
    + change (view (add_total ?d ?x)) with (view x). rewrite !view_set_level. unfold lv'. cbn [ring].
      by rewrite Hco1, Hco'.
Qed.

Lemma promote_levels_spec ps pi :
  pi_wf pi -> Forall (fun p => 0 <= p < Z.of_nat MaxPriority - 1) ps ->
  exists pi', promote_levels now ttl pi ps = Ok pi' /\ pi_wf pi' /\
    view pi' = foldl (promote_view (level_cap pi)) (view pi) ps.
Proof.
  intros Hwf Hps. revert pi Hwf. induction Hps as [|p ps Hp Hps IH]; intros pi Hwf; [by exists pi|].
  cbn [promote_levels foldl].
  destruct (promote_level_spec pi p Hwf Hp) as (pi1 & -> & Hwf1 & Hv1 & Hm1). cbn [mbind result_bind].
  destruct (IH pi1 Hwf1) as (pi' & -> & Hwf' & Hv'). exists pi'.
  split_and!; [done|done|]. rewrite Hv', Hv1. unfold level_cap. by rewrite Hm1.
Qed.

(** Every level keeps its fresh entries and takes the stale ones of the level
    below; the top level keeps all of its own. *)
Definition promoted (c : nat) (v : list (list PendingEntry)) : list (list PendingEntry) :=
  zip_with (fun own incoming => keep_newest c (own ++ incoming))
    ((fresh_of <$> take 9 v) ++ drop 9 v) ([] :: (stale_of <$> take 9 v)).

Lemma PromoteStale_spec pi :
  pi_wf pi ->
  exists pi', PromoteStale now ttl pi = Ok pi' /\ pi_wf pi' /\
    view pi' = promoted (level_cap pi) (view pi).
Proof.
  intros Hwf. unfold PromoteStale.
  destruct (promote_levels_spec (drop 1 (down_to 0)) pi Hwf) as (pi' & Heq & Hwf' & Hv).
  { cbn. repeat constructor; done. }
  exists pi'. split_and!; [done|done|]. rewrite Hv. clear Heq Hv Hwf' pi'.
  assert (Hc : Forall (fun q => 0 < level_cap pi -> length q <= level_cap pi)%nat (view pi)).
  { unfold view. apply Forall_fmap. destruct Hwf as (_ & Hf & _).
    eapply (list.Forall_impl _ _ _ Hf). intros lv (_ & _ & ? & _). cbn. by rewrite length_contents. }
  assert (Hlen : length (view pi) = 10%nat) by (rewrite length_view; apply Hwf).
  revert Hc Hlen. generalize (level_cap pi) as c, (view pi) as v. clear. intros c v Hc Hlen.
  destruct v as [|? v]; [done|]. do 9 (destruct v as [|? v]; [done|]). destruct v; [|done].
  unfold promoted. cbn [drop take fmap list_fmap app zip_with].
  rewrite (keep_newest_small c (fresh_of _ ++ [])).
  - rewrite app_nil_r. reflexivity.
  - intros Hpos. apply Forall_inv in Hc. rewrite app_nil_r.
    pose proof (length_fresh_stale l). specialize (Hc Hpos). lia.
Qed.
End promote.

Lemma NewPriorityIndex_wf n :
  let pi := NewPriorityIndex [WithMaxPerLevel n] in
  pi_wf pi /\ view pi = replicate MaxPriority [] /\ maxPerLevel pi = n.
Proof.
  unfold NewPriorityIndex. cbn [foldl maxPerLevel WithMaxPerLevel].
  destruct (Z.ltb_spec 0 n) as [Hn|Hn].
  - destruct (contents_from_zero [] (Z.to_nat n) (Z.to_nat n)) as [Hwf Hco]; [cbn; lia|].
    assert (level_wf (Z.to_nat n) (mkLevel (mkRing (replicate (Z.to_nat n) zeroEntry) 0 0 (Z.to_nat n)) 0)).
    { split_and!; [exact Hwf|done|cbn; lia|done]. }
    split_and!; [|done|done]. split_and!; [done| |done].
    unfold level_cap. cbn. repeat (apply List.Forall_cons; [done|]). apply List.Forall_nil.
  - assert (level_wf (Z.to_nat n) zeroLevel).
    { replace (Z.to_nat n) with 0%nat by lia. split_and!; cbn; lia || done. }
    split_and!; [|done|done]. split_and!; [done| |done].
    unfold level_cap. cbn. repeat (apply List.Forall_cons; [done|]). apply List.Forall_nil.
Qed.

(** ** Runs *)

(** A client of a ring, and the same client of the abstract queue: every method
    of the ring but [grow], which only [pushBack] calls. *)
Inductive ring_op : Type :=
| RPush (e : PendingEntry)
| RPop
| RPeek
| RLinearize
| RResetFrom (entries : list PendingEntry).

(** What the caller of a method sees: an entry or none, a copy of the entries,
    or nothing. *)
Inductive ring_obs : Type :=
| ObsEntry (o : option PendingEntry)
| ObsEntries (es : list PendingEntry)
| ObsUnit.

Definition ring_step (r : entryRing) (op : ring_op) : result (entryRing * ring_obs) :=
  match op with
  | RPush e => '(r', o) ← pushBack r e; Ok (r', ObsEntry o)
  | RPop => '(r', o) ← popFront r; Ok (r', ObsEntry o)
  | RPeek => o ← peekFront r; Ok (r, ObsEntry o)
  | RLinearize => es ← linearize r; Ok (r, ObsEntries es)
  | RResetFrom entries => Ok (resetFrom r entries, ObsUnit)
  end.

Definition queue_step (c : nat) (q : list PendingEntry) (op : ring_op)
    : list PendingEntry * ring_obs :=
  match op with
  | RPush e => let '(q', o) := queue_push c q e in (q', ObsEntry o)
  | RPop => (drop 1 q, ObsEntry (list.head q))
  | RPeek => (q, ObsEntry (list.head q))
  | RLinearize => (q, ObsEntries q)
  | RResetFrom entries => (keep_newest c entries, ObsUnit)
  end.

Fixpoint ring_run (r : entryRing) (ops : list ring_op) : result (entryRing * list ring_obs) :=
  match ops with
  | [] => Ok (r, [])
  | op :: ops' =>
      '(r1, o) ← ring_step r op; '(r2, os) ← ring_run r1 ops'; Ok (r2, o :: os)
  end.

Fixpoint queue_run (c : nat) (q : list PendingEntry) (ops : list ring_op)
    : list PendingEntry * list ring_obs :=
  match ops with
  | [] => (q, [])
  | op :: ops' =>
      let '(q1, o) := queue_step c q op in
      let '(q2, os) := queue_run c q1 ops' in (q2, o :: os)
  end.

Definition ring_ok (r : entryRing) : Prop := ring_wf r /\ (0 < rcap r -> rsize r <= rcap r)%nat.

Lemma ring_step_sim r op :
  ring_ok r ->
  exists r', ring_step r op = Ok (r', snd (queue_step (rcap r) (contents r) op)) /\
    ring_ok r' /\ rcap r' = rcap r /\ contents r' = fst (queue_step (rcap r) (contents r) op).
Proof.
  intros [Hwf Hle]. destruct op as [e| | | |entries]; cbn [ring_step queue_step].
  - destruct (pushBack_spec r e Hwf Hle) as (r' & -> & Hwf' & Hc & Hco). cbn [mbind result_bind]. exists r'.
    destruct (length_queue_push (rcap r) (contents r) e) as [_ Hl]; [by rewrite length_contents|].
    destruct (queue_push (rcap r) (contents r) e) as [q' o]. cbn [fst snd] in *.
    split_and!; [done| |done|done]. split; [done|]. intros Hpos.
    rewrite <- length_contents, Hco, Hc. apply Hl. lia.
  - pose proof (popFront_spec r Hwf) as Hp. pose proof (length_contents r) as Hlen.
    destruct (contents r) as [|e q] eqn:Hco.
    + rewrite Hp. exists r. split_and!; [done|done|done|done].
    + destruct Hp as (r' & -> & Hwf' & Hc & Hq). exists r'. rewrite <- Hq in Hlen.
      cbn in Hlen. rewrite length_contents in Hlen.
      split_and!; [done|split; [done|lia]|done|]. rewrite Hq. cbn. by rewrite skipn_O.
  - rewrite peekFront_spec by done. by exists r.
  - unfold linearize. rewrite unroll_spec by done. by exists r.
  - destruct (resetFrom_spec r entries Hwf) as (Hwf' & Hco & Hc). eexists. split; [done|].
    split_and!; [|done|done]. split; [done|]. rewrite Hc, <- length_contents, Hco. apply length_keep_newest.
Qed.

(** An operation of the index's clients. *)
Inductive pi_op : Type :=
| OpAdd (priority offset : Z) (arrivedAt : Time)
| OpPopHighest
| OpPopWithThreshold (threshold : Z)
| OpPromoteStale (now ttl : Z).

Definition run_op (pi : PriorityIndex) (op : pi_op) : result PriorityIndex :=
  match op with
  | OpAdd p o t => fst <$> Add pi p o t
  | OpPopHighest => o ← PopHighest pi; Ok (match o with Some (pi', _) => pi' | None => pi end)
  | OpPopWithThreshold t =>
      o ← PopWithThreshold pi t; Ok (match o with Some (pi', _) => pi' | None => pi end)
  | OpPromoteStale now ttl => PromoteStale now ttl pi
  end.

Fixpoint run_ops (pi : PriorityIndex) (ops : list pi_op) : result PriorityIndex :=
  match ops with
  | [] => Ok pi
  | op :: ops' => pi' ← run_op pi op; run_ops pi' ops'
  end.

(** Thresholds come from an action index, which is never negative. *)
Definition op_ok (op : pi_op) : Prop :=
  match op with OpPopWithThreshold t => 0 <= t | _ => True end.

Lemma run_op_wf pi op : pi_wf pi -> op_ok op -> exists pi', run_op pi op = Ok pi' /\ pi_wf pi'.
Proof.
  intros Hwf Hop. destruct op as [p o t| |t|now ttl]; cbn [run_op op_ok] in *.
  - destruct (Add_spec pi p o t Hwf) as (pi' & -> & Hwf' & _). by exists pi'.
  - pose proof (PopHighest_spec pi Hwf) as H. destruct (by_priority pi).
    + rewrite H. by exists pi.
    + destruct H as (pi' & -> & Hwf' & _). by exists pi'.
  - pose proof (PopWithThreshold_spec pi t Hwf Hop) as H. destruct (entries_at _ _).
    + destruct H as [[-> _]|(p & e & pi' & _ & _ & _ & _ & -> & Hwf' & _)]; [by exists pi|by exists pi'].
    + destruct H as (pi' & -> & Hwf'). by exists pi'.
  - destruct (PromoteStale_spec now ttl pi Hwf) as (pi' & -> & Hwf' & _). by exists pi'.
Qed.

Lemma run_ops_wf ops pi : pi_wf pi -> Forall op_ok ops -> exists pi', run_ops pi ops = Ok pi' /\ pi_wf pi'.
Proof.
  intros Hwf Hops. revert pi Hwf. induction Hops as [|op ops Hop Hops IH]; intros pi Hwf; [by exists pi|].
  cbn [run_ops]. destruct (run_op_wf pi op Hwf Hop) as (pi1 & -> & Hwf1). cbn. by apply IH.
Qed.

(** ** Properties *)

(** C7: a ring used by any sequence of its methods (pushBack, popFront, peekFront,
    linearize, resetFrom) never panics and behaves as a FIFO queue: same results,
    same entries left, in the same order; once [cap] entries are in it (cap > 0)
    a push drops exactly the oldest and returns it, and resetFrom leaves the
    entries it is given, the newest [cap] of them when they are more. *)
Theorem ring_refines_queue (r : entryRing) (ops : list ring_op) :
  ring_ok r ->
  exists r', ring_run r ops = Ok (r', snd (queue_run (rcap r) (contents r) ops)) /\
    ring_ok r' /\ linearize r' = Ok (fst (queue_run (rcap r) (contents r) ops)).
Proof.
  revert r. induction ops as [|op ops IH]; intros r Hok; cbn [ring_run queue_run].
  { exists r. split_and!; [done|done|]. by apply unroll_spec, Hok. }
  destruct (ring_step_sim r op Hok) as (r1 & -> & Hok1 & Hc1 & Hco1). cbn [mbind result_bind].
  destruct (queue_step (rcap r) (contents r) op) as [q1 o]. cbn [fst snd] in *.
  destruct (IH r1 Hok1) as (r2 & -> & Hok2 & Hl2). rewrite Hc1, Hco1 in Hl2 |- *.
  destruct (queue_run (rcap r) q1 ops) as [q2 os]. by exists r2.
Qed.

Definition ring_client : list ring_op :=
  [RPush (mkEntry 1 10); RPush (mkEntry 2 20); RPush (mkEntry 3 30); RPeek; RPop;
   RResetFrom [mkEntry 4 40; mkEntry 5 50; mkEntry 6 60]; RLinearize; RPop].

Lemma ring_refines_queue_witness :
  exists r', ring_run (mkRing [] 0 0 2) ring_client =
    Ok (r', [ObsEntry None; ObsEntry None; ObsEntry (Some (mkEntry 1 10)); ObsEntry (Some (mkEntry 2 20));
             ObsEntry (Some (mkEntry 2 20)); ObsUnit; ObsEntries [mkEntry 5 50; mkEntry 6 60];
             ObsEntry (Some (mkEntry 5 50))]) /\
    ring_ok r' /\ linearize r' = Ok [mkEntry 6 60].
Proof.
  apply (ring_refines_queue (mkRing [] 0 0 2) ring_client). unfold ring_ok, ring_wf. cbn. lia.
Defined.

(** C8: starting from a new index, whatever its clients do (with thresholds that
    are not negative), no operation panics, [Len] is the number of pending
    entries and [LevelDistribution] their number per priority, as the 64-bit and
    32-bit counters represent them, and no level exceeds its capacity. *)
Theorem index_invariant (n : Z) (ops : list pi_op) :
  Forall op_ok ops ->
  exists pi, run_ops (NewPriorityIndex [WithMaxPerLevel n]) ops = Ok pi /\
    length (view pi) = MaxPriority /\
    Len pi = i64 (zsum ((fun q => Z.of_nat (length q)) <$> view pi)) /\
    LevelDistribution pi = (fun q => i32 (Z.of_nat (length q))) <$> view pi /\
    (0 < level_cap pi -> Forall (fun q => length q <= level_cap pi) (view pi))%nat.
Proof.
  intros Hops. destruct (NewPriorityIndex_wf n) as (Hwf & _).
  destruct (run_ops_wf ops _ Hwf Hops) as (pi & Heq & Hl & Hf & Ht).
  exists pi. split_and!; [done|by rewrite length_view| | |].
  - unfold Len. rewrite Ht. do 2 f_equal. unfold sizes, view. rewrite <- list_fmap_compose.
    apply list_fmap_ext. intros i lv _. cbn. by rewrite length_contents.
  - unfold LevelDistribution, view. rewrite <- list_fmap_compose. apply list_fmap_ext.
    intros i lv Hlv. cbn. rewrite length_contents.
    by destruct (Forall_lookup_1 _ _ _ _ Hf Hlv) as (_ & _ & _ & ->).
  - intros Hpos. unfold view. apply Forall_fmap, (list.Forall_impl _ _ _ Hf).
    intros lv (_ & _ & Hle & _). cbn. rewrite length_contents. by apply Hle.
Qed.

Definition sample_ops : list pi_op :=
  [OpAdd 3 1 100; OpAdd 12 2 200; OpAdd (-1) 3 50; OpAdd 0 4 60; OpPopWithThreshold 10;
   OpPromoteStale 1000 100; OpPopHighest].

Lemma index_invariant_witness :
  exists pi, run_ops (NewPriorityIndex [WithMaxPerLevel 2]) sample_ops = Ok pi /\
    length (view pi) = MaxPriority /\
    Len pi = i64 (zsum ((fun q => Z.of_nat (length q)) <$> view pi)) /\
    LevelDistribution pi = (fun q => i32 (Z.of_nat (length q))) <$> view pi /\
    (0 < level_cap pi -> Forall (fun q => length q <= level_cap pi) (view pi))%nat.
Proof. apply (index_invariant 2 sample_ops). by repeat constructor. Defined.

(** PopHighest hands out entries in strict priority order, oldest first
    within a priority: [n] calls return the first [n] entries of the levels
    listed from priority 9 down to 0, and leave exactly the rest. *)
Theorem PopHighest_strict_order (n : nat) (pi : PriorityIndex) :
  pi_wf pi ->
  exists pi', drain n pi = Ok (pi', take n (concat (reverse (view pi)))) /\ pi_wf pi' /\
    concat (reverse (view pi')) = drop n (concat (reverse (view pi))).
Proof. apply drain_spec. Qed.

Definition sample_index : PriorityIndex :=
  match run_ops (NewPriorityIndex [WithMaxPerLevel 2])
    [OpAdd 3 1 100; OpAdd 12 2 200; OpAdd 3 3 50; OpAdd 0 4 60] with
  | Ok pi => pi | _ => NewPriorityIndex []
  end.

Lemma sample_index_wf : pi_wf sample_index.
Proof.
  destruct (run_ops_wf [OpAdd 3 1 100; OpAdd 12 2 200; OpAdd 3 3 50; OpAdd 0 4 60]
    (NewPriorityIndex [WithMaxPerLevel 2])) as (pi & Heq & Hwf).
  - apply NewPriorityIndex_wf.
  - by repeat constructor.
  - unfold sample_index. by rewrite Heq.
Qed.

Lemma PopHighest_strict_order_witness :
  exists pi', drain 3 sample_index = Ok (pi', [mkEntry 2 200; mkEntry 1 100; mkEntry 3 50]) /\
    pi_wf pi' /\ concat (reverse (view pi')) = [mkEntry 4 60].
Proof. exact (PopHighest_strict_order 3 sample_index sample_index_wf). Defined.

(** PopWithThreshold serves the levels at or above the threshold in strict
    priority order; when they are all empty it serves, of the levels below, one
    whose front entry arrived first; it returns nothing only when nothing is
    pending. *)
Theorem PopWithThreshold_fair (pi : PriorityIndex) (t : Z) :
  pi_wf pi -> 0 <= t ->
  match entries_at (view pi) (down_to t) with
  | e :: _ => exists pi', PopWithThreshold pi t = Ok (Some (pi', e)) /\ pi_wf pi'
  | [] =>
      (PopWithThreshold pi t = Ok None /\
         forall q, 0 <= q < t -> q < Z.of_nat MaxPriority -> front_at pi q = None) \/
      exists p e pi', 0 <= p < t /\ p < Z.of_nat MaxPriority /\ front_at pi p = Some e /\
        (forall q f, 0 <= q < t -> q < Z.of_nat MaxPriority -> front_at pi q = Some f ->
           ArrivedAt e <= ArrivedAt f) /\
        PopWithThreshold pi t = Ok (Some (pi', e)) /\ pi_wf pi' /\
        view pi' = <[Z.to_nat p := drop 1 (view pi !!! Z.to_nat p)]> (view pi)
  end.
Proof. apply PopWithThreshold_spec. Qed.

Lemma PopWithThreshold_fair_witness :
  exists pi', PopWithThreshold sample_index 9 = Ok (Some (pi', mkEntry 2 200)) /\ pi_wf pi'.
Proof. exact (PopWithThreshold_fair sample_index 9 sample_index_wf ltac:(lia)). Defined.

(** PromoteStale moves every entry older than the TTL exactly one level up,
    behind the entries already there, keeps the fresh ones in place and in
    order, and drops only the oldest entries of a level that overflows. *)
Theorem PromoteStale_one_level (now ttl : Z) (pi : PriorityIndex) :
  pi_wf pi ->
  exists pi', PromoteStale now ttl pi = Ok pi' /\ pi_wf pi' /\
    view pi' = promoted now ttl (level_cap pi) (view pi).
Proof. apply PromoteStale_spec. Qed.

Lemma PromoteStale_one_level_witness :
  exists pi', PromoteStale 160 90 sample_index = Ok pi' /\ pi_wf pi' /\
    view pi' = [[]; [mkEntry 4 60]; []; [mkEntry 1 100]; [mkEntry 3 50]; []; []; []; []; [mkEntry 2 200]].
Proof. exact (PromoteStale_one_level 160 90 sample_index sample_index_wf). Defined.
