(* ===== verification/Wal.v ===== *)
(** * The write-ahead log interface

    The broker stores a partition in a [wal.Log] of github.com/tidwall/wal,
    which is not part of the repository: it is a parameter here.  [Wal] lists
    the operations partition.go calls and [WalLaws] what it relies on, as the
    library documents it (indexes are consecutive, WriteBatch is atomic and
    refuses an index out of order, TruncateFront keeps at least one entry).
    Input/output can fail at any time: the laws say what an operation that
    succeeded did, and that one that failed left the entries alone.

    [mem_wal] is a log kept in memory that satisfies the laws; the witnesses
    run the code on it. *)

From S2P Require Import Prelude.

Class Wal : Type := {
  wlog : Type;
  wal_Open : string -> bool -> result wlog;
  wal_FirstIndex : wlog -> result Z;
  wal_LastIndex : wlog -> result Z;
  wal_Read : wlog -> Z -> result bytes;
  wal_WriteBatch : wlog -> list (Z * bytes) -> wlog * result unit;
  wal_TruncateFront : wlog -> Z -> wlog * result unit;
  wal_Close : wlog -> wlog * result unit;
}.

(** The indexes of a batch that starts at [i]. *)
Fixpoint consecutive (i : Z) (b : list (Z * bytes)) : Prop :=
  match b with
  | [] => True
  | (j, _) :: b' => j = i /\ consecutive (i + 1) b'
  end.

Class WalLaws (W : Wal) : Type := {
  (** The index of the first entry (1 for an empty log) and the entries. *)
  wal_first : wlog -> Z;
  wal_entries : wlog -> list bytes;
  (** The log is open and its files can be read and written. *)
  wal_healthy : wlog -> Prop;

  wal_first_pos l : 1 <= wal_first l;

  wal_FirstIndex_Ok l i : wal_FirstIndex l = Ok i ->
    i = if decide (wal_entries l = []) then 0 else wal_first l;
  wal_LastIndex_Ok l i : wal_LastIndex l = Ok i ->
    i = wal_first l + Z.of_nat (length (wal_entries l)) - 1;
  wal_FirstIndex_healthy l : wal_healthy l -> exists i, wal_FirstIndex l = Ok i;

  wal_Read_Ok l i d : wal_Read l i = Ok d ->
    wal_first l <= i /\ wal_entries l !! Z.to_nat (i - wal_first l) = Some d;
  wal_Read_healthy l i d : wal_healthy l ->
    wal_first l <= i -> wal_entries l !! Z.to_nat (i - wal_first l) = Some d ->
    wal_Read l i = Ok d;

  wal_WriteBatch_Ok l b l' : wal_WriteBatch l b = (l', Ok tt) ->
    wal_first l' = wal_first l /\ wal_entries l' = wal_entries l ++ (snd <$> b) /\
    consecutive (wal_first l + Z.of_nat (length (wal_entries l))) b /\
    (wal_healthy l -> wal_healthy l');
  wal_WriteBatch_fail l b l' r : wal_WriteBatch l b = (l', r) -> r <> Ok tt ->
    (exists e, r = Err e) /\ wal_first l' = wal_first l /\ wal_entries l' = wal_entries l;
  wal_WriteBatch_order l b l' r : wal_WriteBatch l b = (l', r) ->
    ~ consecutive (wal_first l + Z.of_nat (length (wal_entries l))) b -> r <> Ok tt;
  wal_WriteBatch_healthy l b : wal_healthy l ->
    consecutive (wal_first l + Z.of_nat (length (wal_entries l))) b ->
    snd (wal_WriteBatch l b) = Ok tt;

  wal_TruncateFront_Ok l i l' : wal_TruncateFront l i = (l', Ok tt) ->
    wal_first l <= i < wal_first l + Z.of_nat (length (wal_entries l)) /\
    wal_first l' = i /\ wal_entries l' = drop (Z.to_nat (i - wal_first l)) (wal_entries l) /\
    (wal_healthy l -> wal_healthy l');
  wal_TruncateFront_fail l i l' r : wal_TruncateFront l i = (l', r) -> r <> Ok tt ->
    (exists e, r = Err e) /\ wal_first l' = wal_first l /\ wal_entries l' = wal_entries l;
  wal_TruncateFront_healthy l i : wal_healthy l ->
    wal_first l <= i < wal_first l + Z.of_nat (length (wal_entries l)) ->
    snd (wal_TruncateFront l i) = Ok tt;
}.

(** The number of the next entry: one past the last index. *)
Definition wal_next {W : Wal} {L : WalLaws W} (l : wlog) : Z :=
  wal_first l + Z.of_nat (length (wal_entries l)).

Section laws.
Context {W : Wal} {L : WalLaws W}.

(** A write either extends the log or leaves its entries alone. *)
Lemma wal_WriteBatch_cases l b :
  (exists l', wal_WriteBatch l b = (l', Ok tt) /\ wal_first l' = wal_first l /\
     wal_entries l' = wal_entries l ++ (snd <$> b) /\ consecutive (wal_next l) b) \/
  (exists l' e, wal_WriteBatch l b = (l', Err e) /\ wal_first l' = wal_first l /\
     wal_entries l' = wal_entries l).
Proof.
  destruct (wal_WriteBatch l b) as [l' r] eqn:Hw.
  destruct (decide (r = Ok tt)) as [->|Hr].
  - left. exists l'. apply wal_WriteBatch_Ok in Hw as (? & ? & ? & _). done.
  - right. apply wal_WriteBatch_fail in Hw as ((e & ->) & ? & ?); [|done]. by exists l', e.
Qed.
End laws.

(** ** A log in memory *)

Record memlog : Type := mkMem {
  mdropped : nat;          (* entries removed from the front *)
  mentries : list bytes;
  mfailing : bool;         (* the next write fails with an I/O error *)
}.

Definition mem_first (l : memlog) : Z := 1 + Z.of_nat (mdropped l).
Definition mem_next (l : memlog) : Z := mem_first l + Z.of_nat (length (mentries l)).

Fixpoint consecutiveb (i : Z) (b : list (Z * bytes)) : bool :=
  match b with
  | [] => true
  | (j, _) :: b' => (j =? i) && consecutiveb (i + 1) b'
  end.

Lemma consecutiveb_spec i b : consecutiveb i b = true <-> consecutive i b.
Proof.
  revert i. induction b as [|[j d] b IH]; intros i; cbn; [done|].
  by rewrite andb_true_iff, Z.eqb_eq, IH.
Qed.

Definition mem_Read (l : memlog) (i : Z) : result bytes :=
  if i <? mem_first l then Err (ErrLib "wal" "not found")
  else match mentries l !! Z.to_nat (i - mem_first l) with
       | Some d => Ok d
       | None => Err (ErrLib "wal" "not found")
       end.

Definition mem_WriteBatch (l : memlog) (b : list (Z * bytes)) : memlog * result unit :=
  if mfailing l then (mkMem (mdropped l) (mentries l) false, Err (ErrLib "wal" "write failed"))
  else if consecutiveb (mem_next l) b
  then (mkMem (mdropped l) (mentries l ++ (snd <$> b)) false, Ok tt)
  else (l, Err (ErrLib "wal" "out of order")).

Definition mem_TruncateFront (l : memlog) (i : Z) : memlog * result unit :=
  if (mem_first l <=? i) && (i <? mem_next l)
  then (mkMem (Z.to_nat (i - 1)) (drop (Z.to_nat (i - mem_first l)) (mentries l)) (mfailing l), Ok tt)
  else (l, Err (ErrLib "wal" "out of range")).

#[export] Instance mem_wal : Wal := {|
  wlog := memlog;
  wal_Open _ _ := Ok (mkMem 0 [] false);
  wal_FirstIndex l := Ok (if decide (mentries l = []) then 0 else mem_first l);
  wal_LastIndex l := Ok (mem_next l - 1);
  wal_Read := mem_Read;
  wal_WriteBatch := mem_WriteBatch;
  wal_TruncateFront := mem_TruncateFront;
  wal_Close l := (l, Ok tt);
|}.

Lemma mem_WriteBatch_cases l b l' r :
  mem_WriteBatch l b = (l', r) ->
  mdropped l' = mdropped l /\
  ((r = Ok tt /\ mfailing l' = false /\ mentries l' = mentries l ++ (snd <$> b) /\ consecutive (mem_next l) b) \/
   ((exists e, r = Err e) /\ mentries l' = mentries l /\ (mfailing l = true \/ ~ consecutive (mem_next l) b))).
Proof.
  unfold mem_WriteBatch. rewrite <- consecutiveb_spec.
  destruct (mfailing l); [intros; simplify_eq/=; eauto 10|].
  destruct (consecutiveb _ _); intros; simplify_eq/=; eauto 10.
Qed.

Lemma mem_TruncateFront_cases l i l' r :
  mem_TruncateFront l i = (l', r) ->
  (r = Ok tt /\ mem_first l <= i < mem_next l /\ mem_first l' = i /\ mfailing l' = mfailing l /\
     mentries l' = drop (Z.to_nat (i - mem_first l)) (mentries l)) \/
  ((exists e, r = Err e) /\ l' = l /\ ~ (mem_first l <= i < mem_next l)).
Proof.
  unfold mem_TruncateFront. destruct (Z.leb_spec (mem_first l) i); cbn [andb];
    [destruct (Z.ltb_spec i (mem_next l))|]; intros; simplify_eq.
  - left. unfold mem_first in *. cbn. split_and!; try done; lia.
  - right. split_and!; [eauto|done|lia].
  - right. split_and!; [eauto|done|lia].
Qed.

#[export] Instance mem_wal_laws : WalLaws mem_wal.
Proof.
  refine {| wal_first := (mem_first : @wlog mem_wal -> Z); wal_entries := (mentries : @wlog mem_wal -> _);
            wal_healthy := (fun l => mfailing l = false) : @wlog mem_wal -> _ |}; cbn.
  - intros l. unfold mem_first. lia.
  - by intros l i [= <-].
  - intros l i [= <-]. unfold mem_next. lia.
  - eauto.
  - intros l i d. unfold mem_Read. destruct (Z.ltb_spec i (mem_first l)); [done|].
    destruct (mentries l !! _); intros [= <-]. done.
  - intros l i d _ Hi Hd. unfold mem_Read. by rewrite (proj2 (Z.ltb_ge _ _)), Hd by lia.
  - intros l b l' [Hd [(_ & ? & -> & ?)|((? & ?) & _)]]%mem_WriteBatch_cases; [|done].
    unfold mem_first. by rewrite Hd.
  - intros l b l' r [Hd [(-> & _)|(He & -> & _)]]%mem_WriteBatch_cases Hr; [done|].
    unfold mem_first. by rewrite Hd.
  - intros l b l' r [Hd [(_ & _ & _ & ?)|((? & ->) & _)]]%mem_WriteBatch_cases; done.
  - intros l b Hf Hc. destruct (mem_WriteBatch l b) as [l' r] eqn:Hw.
    apply mem_WriteBatch_cases in Hw as [Hd [(-> & _)|(_ & _ & [|])]]; [done|congruence|done].
  - intros l i l' [(_ & ? & ? & Hf & ->)|((? & ?) & _)]%mem_TruncateFront_cases; [|done].
    unfold mem_next in *. split_and!; try done; congruence || lia.
  - intros l i l' r [(-> & _)|(He & -> & _)]%mem_TruncateFront_cases Hr; done.
  - intros l i _ Hi. destruct (mem_TruncateFront l i) as [l' r] eqn:Ht.
    apply mem_TruncateFront_cases in Ht as [(-> & _)|(_ & _ & Hn)]; [done|]. unfold mem_next in Hn. done.
Defined.
