(* ===== verification/Compression.v ===== *)
(** * Compression codecs (src/pkg/broker/compression.go)

    The snappy, gzip and lz4 implementations are libraries: [Compressors] lists
    the calls the codecs make and [CompressorLaws] that decompressing what was
    compressed gives the input back.  The writer and buffer pools only recycle
    objects that are reset on both sides of their use, so they carry no state. *)

From S2P Require Import Prelude.
From Stdlib Require Import Strings.Byte.

Definition CompressionNone : Z := 0.
Definition CompressionSnappy : Z := 1.
Definition CompressionGzip : Z := 2.
Definition CompressionLZ4 : Z := 3.

Class Compressors : Type := {
  snappy_Encode : bytes -> bytes;
  snappy_Decode : bytes -> result bytes;
  gzip_writer : Type;                              (* a gzip.Writer over a bytes.Buffer *)
  gzip_Write : bytes -> result gzip_writer;
  gzip_Close : gzip_writer -> result bytes;        (* and the buffer's bytes *)
  gzip_reader : Type;
  gzip_NewReader : bytes -> result gzip_reader;
  gzip_ReadAll : gzip_reader -> result bytes;
  lz4_writer : Type;
  lz4_Write : bytes -> result lz4_writer;
  lz4_Close : lz4_writer -> result bytes;
  lz4_ReadAll : bytes -> result bytes;
}.

Inductive Codec : Type :=
| noopCodec
| snappyCodec
| gzipCodec
| lz4Codec.

#[export] Instance Codec_eq_dec : EqDecision Codec.
Proof. solve_decision. Defined.

Definition NewCodec (compressionType : Z) : Codec :=
  if compressionType =? CompressionSnappy then snappyCodec
  else if compressionType =? CompressionGzip then gzipCodec
  else if compressionType =? CompressionLZ4 then lz4Codec
  else noopCodec.

Section codecs.
Context {K : Compressors}.

Definition noop_Encode (data : bytes) : result bytes := Ok data.
Definition noop_Decode (data : bytes) : result bytes := Ok data.

Definition snappyCodec_Encode (data : bytes) : result bytes := Ok (snappy_Encode data).
Definition snappyCodec_Decode (data : bytes) : result bytes := snappy_Decode data.

Definition gzipCodec_Encode (data : bytes) : result bytes :=
  w ← wrapf "gzip write" (gzip_Write data);
  wrapf "gzip close" (gzip_Close w).
Definition gzipCodec_Decode (data : bytes) : result bytes :=
  r ← wrapf "gzip new reader" (gzip_NewReader data);
  wrapf "gzip read all" (gzip_ReadAll r).

Definition lz4Codec_Encode (data : bytes) : result bytes :=
  w ← wrapf "lz4 write" (lz4_Write data);
  wrapf "lz4 close" (lz4_Close w).
Definition lz4Codec_Decode (data : bytes) : result bytes := lz4_ReadAll data.

(** The methods of the [Codec] interface. *)
Definition Encode (c : Codec) (data : bytes) : result bytes :=
  match c with
  | noopCodec => noop_Encode data
  | snappyCodec => snappyCodec_Encode data
  | gzipCodec => gzipCodec_Encode data
  | lz4Codec => lz4Codec_Encode data
  end.
Definition Decode (c : Codec) (data : bytes) : result bytes :=
  match c with
  | noopCodec => noop_Decode data
  | snappyCodec => snappyCodec_Decode data
  | gzipCodec => gzipCodec_Decode data
  | lz4Codec => lz4Codec_Decode data
  end.

Definition Compress (data : bytes) (codec : Z) : result bytes := Encode (NewCodec codec) data.
Definition Decompress (data : bytes) (codec : Z) : result bytes := Decode (NewCodec codec) data.
End codecs.

Class CompressorLaws (K : Compressors) : Prop := {
  snappy_roundtrip d : snappy_Decode (snappy_Encode d) = Ok d;
  gzip_roundtrip d w e : gzip_Write d = Ok w -> gzip_Close w = Ok e ->
    exists r, gzip_NewReader e = Ok r /\ gzip_ReadAll r = Ok d;
  lz4_roundtrip d w e : lz4_Write d = Ok w -> lz4_Close w = Ok e -> lz4_ReadAll e = Ok d;
  (** The writers report failures as errors. *)
  gzip_Write_no_panic d : gzip_Write d <> Panic;
  gzip_Close_no_panic w : gzip_Close w <> Panic;
  lz4_Write_no_panic d : lz4_Write d <> Panic;
  lz4_Close_no_panic w : lz4_Close w <> Panic;
}.

(** What the broker needs of a codec. *)
Lemma codec_roundtrip {K : Compressors} `{!CompressorLaws K} (c : Codec) (d e : bytes) :
  Encode c d = Ok e -> Decode c e = Ok d.
Proof.
  destruct c; cbn [Encode Decode].
  - by intros [= ->].
  - intros [= <-]. apply snappy_roundtrip.
  - unfold gzipCodec_Encode, gzipCodec_Decode.
    rewrite bind_Ok. intros (w & Hw%wrapf_Ok & He%wrapf_Ok).
    destruct (gzip_roundtrip d w e Hw He) as (r & -> & Hr). cbn. by apply wrapf_Ok.
  - unfold lz4Codec_Encode, lz4Codec_Decode.
    rewrite bind_Ok. intros (w & Hw%wrapf_Ok & He%wrapf_Ok). by eapply lz4_roundtrip.
Qed.

Lemma Encode_no_panic {K : Compressors} `{!CompressorLaws K} (c : Codec) (d : bytes) : Encode c d <> Panic.
Proof.
  destruct c; cbn [Encode]; try done; unfold gzipCodec_Encode, lz4Codec_Encode.
  - pose proof (gzip_Write_no_panic d). destruct (gzip_Write d) as [w| |]; cbn [wrapf]; rewrite ?Ok_bind; [|done..].
    pose proof (gzip_Close_no_panic w). by destruct (gzip_Close w).
  - pose proof (lz4_Write_no_panic d). destruct (lz4_Write d) as [w| |]; cbn [wrapf]; rewrite ?Ok_bind; [|done..].
    pose proof (lz4_Close_no_panic w). by destruct (lz4_Close w).
Qed.

(** ** Compressors that tag their output, for the witnesses *)

Definition untag (t : byte) (d : bytes) : result bytes :=
  match d with
  | b :: d' => if decide (b = t) then Ok d' else Err (ErrLib "codec" "invalid header")
  | [] => Err (ErrLib "codec" "unexpected EOF")
  end.

#[export] Instance tag_compressors : Compressors := {|
  snappy_Encode d := x01 :: d;
  snappy_Decode := untag x01;
  gzip_writer := bytes;
  gzip_Write d := Ok (x1f :: d);
  gzip_Close w := Ok w;
  gzip_reader := bytes;
  gzip_NewReader d := untag x1f d;
  gzip_ReadAll r := Ok r;
  lz4_writer := bytes;
  lz4_Write d := Ok (x04 :: d);
  lz4_Close w := Ok w;
  lz4_ReadAll := untag x04;
|}.

#[export] Instance tag_compressors_laws : CompressorLaws tag_compressors.
Proof.
  split; cbn; try done.
  - intros d w e [= <-] [= <-]. eauto.
  - by intros d w e [= <-] [= <-].
Qed.
