(* ===== verification/GoFloat.v ===== *)
(** * Go's float64

    A [float64] is the kernel's primitive [float], IEEE 754 binary64 with
    round-to-nearest-even, which is what Go computes on amd64.  This file adds
    the conversions and the [math] functions the sources use and the order
    lemmas the proofs need. *)

From S2P Require Import Prelude.
From Stdlib Require Export Floats.

#[export] Instance float_inhabited : Inhabited float := populate 0%float.

(** [float64(n)] for an integer [n]. *)
Definition of_int (n : Z) : float := SF2Prim (binary_normalize prec emax n 0 false).

(** [int64(f)]: truncation toward zero; a NaN, an infinity or a value out of
    range gives the amd64 "integer indefinite" value. *)
Definition to_int64 (f : float) : Z :=
  match Prim2SF f with
  | S754_zero _ => 0
  | S754_finite s m e =>
      let a := if e <? 0 then Z.pos m / 2 ^ (- e) else Z.pos m * 2 ^ e in
      let v := if s then - a else a in
      if (- 2 ^ 63 <=? v) && (v <? 2 ^ 63) then v else - 2 ^ 63
  | _ => - 2 ^ 63
  end.

(** [float32(f)]: a float32 is a float64 with few digits, and float32 arithmetic
    is float64 arithmetic rounded again. *)
Definition float32 (f : float) : float :=
  match Prim2SF f with
  | S754_finite s m e => SF2Prim (binary_round 24 128 s m e)
  | _ => f
  end.

(** [math.Round]: to the nearest integer, halves away from zero. *)
Definition math_Round (f : float) : float :=
  match Prim2SF f with
  | S754_finite s m e =>
      if e <? 0 then
        let a := of_int ((Z.pos m + 2 ^ (- e - 1)) / 2 ^ (- e)) in
        if s then PrimFloat.opp a else a
      else f
  | _ => f
  end.

Definition math_Abs (f : float) : float := PrimFloat.abs f.
(** [math.Min] and [math.Max], with their cases for infinities, NaN and zeros. *)
Definition math_Min (x y : float) : float :=
  if (x =? neg_infinity)%float || (y =? neg_infinity)%float then neg_infinity
  else if is_nan x || is_nan y then nan
  else if (x =? 0)%float && (x =? y)%float then (if get_sign x then x else y)
  else if (x <? y)%float then x else y.
Definition math_Max (x y : float) : float :=
  if (x =? infinity)%float || (y =? infinity)%float then infinity
  else if is_nan x || is_nan y then nan
  else if (x =? 0)%float && (x =? y)%float then (if get_sign x then y else x)
  else if (y <? x)%float then x else y.

Definition math_MaxFloat64 : float := 0x1.fffffffffffffp+1023%float.

(** ** Order *)

(** Floats other than NaN are ordered lexicographically by class and sign,
    exponent and mantissa. *)
Definition sfkey (x : spec_float) : option (Z * Z * Z) :=
  match x with
  | S754_nan => None
  | S754_infinity true => Some (-2, 0, 0)
  | S754_finite true m e => Some (-1, - e, Z.neg m)
  | S754_zero _ => Some (0, 0, 0)
  | S754_finite false m e => Some (1, e, Z.pos m)
  | S754_infinity false => Some (2, 0, 0)
  end.
Definition fkey (f : float) : option (Z * Z * Z) := sfkey (Prim2SF f).

Definition klt (k k' : Z * Z * Z) : Prop :=
  let '(a, b, c) := k in let '(a', b', c') := k' in
  a < a' \/ (a = a' /\ (b < b' \/ (b = b' /\ c < c'))).
Definition kle (k k' : Z * Z * Z) : Prop :=
  let '(a, b, c) := k in let '(a', b', c') := k' in
  a < a' \/ (a = a' /\ (b < b' \/ (b = b' /\ c <= c'))).

Definition is_num (f : float) : Prop := is_Some (fkey f).

Lemma SFcompare_key x y :
  match sfkey x, sfkey y with
  | Some k, Some k' =>
      match SFcompare x y with
      | Some Lt => klt k k' | Some Eq => k = k' | Some Gt => klt k' k | None => False
      end
  | _, _ => SFcompare x y = None
  end.
Proof.
  destruct x as [sx|sx| |sx mx ex], y as [sy|sy| |sy my ey]; cbn;
    try destruct sx; try destruct sy; cbn; try lia; try done;
    change (Pos.compare_cont Eq mx my) with (Pos.compare mx my);
    destruct (Z.compare_spec ex ey), (Pos.compare_spec mx my); cbn; subst; try lia; try done.
Qed.

Lemma fltb_key x y :
  (x <? y)%float = true <-> exists k k', fkey x = Some k /\ fkey y = Some k' /\ klt k k'.
Proof.
  rewrite ltb_spec. unfold SFltb, fkey. pose proof (SFcompare_key (Prim2SF x) (Prim2SF y)) as H.
  destruct (sfkey (Prim2SF x)) as [[[a b] c]|], (sfkey (Prim2SF y)) as [[[a' b'] c']|];
    destruct (SFcompare _ _) as [[]|]; cbn in *; split; try done;
    try (intros (k & k' & [= <-] & [= <-] & ?)); simplify_eq; cbn in *; try lia; try done; eauto 10.
  all: intros (k & k' & ? & ? & ?); done.
Qed.

Lemma fleb_key x y :
  (x <=? y)%float = true <-> exists k k', fkey x = Some k /\ fkey y = Some k' /\ kle k k'.
Proof.
  rewrite leb_spec. unfold SFleb, fkey. pose proof (SFcompare_key (Prim2SF x) (Prim2SF y)) as H.
  destruct (sfkey (Prim2SF x)) as [[[a b] c]|], (sfkey (Prim2SF y)) as [[[a' b'] c']|];
    destruct (SFcompare _ _) as [[]|]; cbn in *; split; try done;
    try (intros (k & k' & [= <-] & [= <-] & ?)); simplify_eq; cbn in *; try lia; try done;
    try (intros; do 2 eexists; split_and!; [done|done|cbn; lia]).
  all: intros (k & k' & ? & ? & ?); done.
Qed.

(** Solve a goal on float comparisons by their keys. *)
Ltac fkeys :=
  repeat match goal with
  | H : (_ <? _)%float = true |- _ => apply fltb_key in H as (? & ? & ? & ? & ?)
  | H : (_ <=? _)%float = true |- _ => apply fleb_key in H as (? & ? & ? & ? & ?)
  | H : is_num _ |- _ => destruct H as [? ?]
  | k : (Z * Z * Z)%type |- _ => destruct k as [[? ?] ?]
  | H : (_ <? _)%float = false |- _ => apply not_true_iff_false in H; rewrite fltb_key in H
  | H : (_ <=? _)%float = false |- _ => apply not_true_iff_false in H; rewrite fleb_key in H
  | |- (_ <? _)%float = true => apply fltb_key
  | |- (_ <=? _)%float = true => apply fleb_key
  | |- (_ <? _)%float = false => apply not_true_iff_false; rewrite fltb_key; intros (? & ? & ? & ? & ?)
  | |- (_ <=? _)%float = false => apply not_true_iff_false; rewrite fleb_key; intros (? & ? & ? & ? & ?)
  end; simplify_eq.

Lemma flt_trans x y z : (x <? y)%float = true -> (y <? z)%float = true -> (x <? z)%float = true.
Proof. intros. fkeys. do 2 eexists. split_and!; [done|done|]. cbn in *. lia. Qed.

Lemma flt_le_trans x y z : (x <? y)%float = true -> (y <=? z)%float = true -> (x <? z)%float = true.
Proof. intros. fkeys. do 2 eexists. split_and!; [done|done|]. cbn in *. lia. Qed.

Lemma fle_lt_trans x y z : (x <=? y)%float = true -> (y <? z)%float = true -> (x <? z)%float = true.
Proof. intros. fkeys. do 2 eexists. split_and!; [done|done|]. cbn in *. lia. Qed.

Lemma fle_trans x y z : (x <=? y)%float = true -> (y <=? z)%float = true -> (x <=? z)%float = true.
Proof. intros. fkeys. do 2 eexists. split_and!; [done|done|]. cbn in *. lia. Qed.

Lemma flt_irrefl x : (x <? x)%float = false.
Proof. fkeys. cbn in *. lia. Qed.

Lemma flt_le x y : (x <? y)%float = true -> (x <=? y)%float = true.
Proof. intros. fkeys. do 2 eexists. split_and!; [done|done|]. cbn in *. lia. Qed.

Lemma fle_refl x : is_num x -> (x <=? x)%float = true.
Proof. intros. fkeys. do 2 eexists. split_and!; [done|done|]. cbn in *. lia. Qed.

(** Two numbers are comparable. *)
Lemma fnot_lt x y : is_num x -> is_num y -> (x <? y)%float = false -> (y <=? x)%float = true.
Proof.
  intros [[[a b] c] Hx] [[[a' b'] c'] Hy] H. apply not_true_iff_false in H. rewrite fltb_key in H.
  fkeys. do 2 eexists. split_and!; [done|done|]. cbn.
  destruct (decide (klt (a, b, c) (a', b', c'))); [|cbn in *; lia]. destruct H. eauto 10.
Qed.

Lemma flt_num x y : (x <? y)%float = true -> is_num x /\ is_num y.
Proof. intros. fkeys. unfold is_num. eauto. Qed.
Lemma fle_num x y : (x <=? y)%float = true -> is_num x /\ is_num y.
Proof. intros. fkeys. unfold is_num. eauto. Qed.
