(* ===== verification/FloatBounds.v ===== *)
(** * Rounding keeps integer bounds

    binary64 operations round, but never past an integer below [2^53]: if the
    exact result of a sum or product lies between two such integers, so does the
    rounded one.  This is what keeps a value computed as [min + x*(max-min)],
    with [x] in the unit interval, inside its range.  Division by a positive
    integer is monotone after rounding, so [(i + x) / n] stays in the [i]-th of [n]
    equal parts.  The proofs unfold the specification of rounding that the kernel's
    floats come with. *)

From S2P Require Import Prelude GoFloat.

(** ** Digits and shifts *)

Lemma digits2_pos_spec m : 2 ^ (Z.pos (digits2_pos m) - 1) <= Z.pos m < 2 ^ Z.pos (digits2_pos m).
Proof.
  induction m as [m IH|m IH|]; cbn [digits2_pos]; [| |done]; rewrite Pos2Z.inj_succ;
    replace (Z.succ (Z.pos (digits2_pos m)) - 1) with (Z.succ (Z.pos (digits2_pos m) - 1)) by lia;
    rewrite !Z.pow_succ_r by lia; lia.
Qed.

(** A number below [2^d] has at most [d] digits. *)
Lemma digits2_pos_le m d : 0 <= d -> Z.pos m < 2 ^ d -> Z.pos (digits2_pos m) <= d.
Proof.
  intros Hd Hm. pose proof (digits2_pos_spec m) as [Hlo _].
  destruct (Z.le_gt_cases (Z.pos (digits2_pos m)) d) as [|Hgt]; [done|]. exfalso.
  pose proof (Z.pow_le_mono_r 2 d (Z.pos (digits2_pos m) - 1) ltac:(lia) ltac:(lia)). lia.
Qed.

Lemma iter_pos_nat {A} (f : A -> A) p x : iter_pos f p x = Nat.iter (Pos.to_nat p) f x.
Proof.
  revert x. induction p as [p IH|p IH|]; intros x; cbn [iter_pos].
  - rewrite !IH, <- Nat.iter_add, <- Nat.iter_succ_r. f_equal. lia.
  - rewrite !IH, <- Nat.iter_add. f_equal. lia.
  - done.
Qed.

(** What [k] shifts to the right leave of [m]: the quotient, and whether anything
    was shifted out. *)
Definition shifted (m k : Z) (r : shr_record) : Prop :=
  shr_m r = m / 2 ^ k /\ (shr_r r || shr_s r = negb (m mod 2 ^ k =? 0)).

Lemma shr_1_spec m k r : 0 <= m -> 0 <= k -> shifted m k r -> shifted m (k + 1) (shr_1 r).
Proof.
  intros Hm Hk [Hq Hrs]. destruct r as [q r s]. cbn [shr_m shr_r shr_s] in *.
  pose proof (Z.pow_pos_nonneg 2 k ltac:(lia) Hk) as Hp. pose proof (Z.div_mod m (2 ^ k) ltac:(lia)) as Hdm.
  pose proof (Z.mod_pos_bound m (2 ^ k) Hp) as Hb. rewrite <- Hq in Hdm. assert (Hq0 : 0 <= q) by (subst q; apply Z.div_pos; lia).
  assert (Hstep : shr_m (shr_1 (Build_shr_record q r s)) = q / 2 /\
    (shr_r (shr_1 (Build_shr_record q r s)) || shr_s (shr_1 (Build_shr_record q r s)) = negb (q mod 2 =? 0) || (r || s))).
  { clear - Hq0. pose proof (Z.div_mod q 2 ltac:(lia)) as H. pose proof (Z.mod_pos_bound q 2 ltac:(lia)) as Hb.
    destruct q as [|p|p]; [done| |lia]. destruct p as [p|p|]; cbn [shr_1 shr_m shr_r shr_s]; [| |done].
    - replace (Z.pos p~1 mod 2) with 1 in * by lia. split; [lia|done].
    - replace (Z.pos p~0 mod 2) with 0 in * by lia. split; [lia|done]. }
  destruct Hstep as [H1 H2]. split.
  - rewrite H1, Hq, Z.pow_add_r, Z.pow_1_r, Z.div_div by lia. done.
  - rewrite H2, Hrs, Z.pow_add_r, Z.pow_1_r, Z.rem_mul_r by lia. rewrite <- Hq.
    pose proof (Z.mod_pos_bound q 2 ltac:(lia)). set (a := q mod 2) in *. set (b := m mod 2 ^ k) in *. clearbody a b.
    destruct (Z.eqb_spec a 0), (Z.eqb_spec b 0), (Z.eqb_spec (b + 2 ^ k * a) 0); cbn; try done; nia.
Qed.

Lemma shr_spec m k : 0 <= m -> shifted m (Z.pos k) (iter_pos shr_1 k (Build_shr_record m false false)).
Proof.
  intros Hm. rewrite iter_pos_nat. rewrite <- (positive_nat_Z k). induction (Pos.to_nat k) as [|n IH].
  - cbn. split; cbn; [by rewrite Z.div_1_r|by rewrite Z.mod_1_r].
  - replace (Z.of_nat (S n)) with (Z.of_nat n + 1) by lia. cbn [Nat.iter nat_rect]. apply shr_1_spec; [done|lia|exact IH].
Qed.

(** Rounding takes the quotient or the next number, and the quotient itself when
    nothing was shifted out. *)
Lemma round_shifted m k r :
  0 <= m -> 0 <= k -> shifted m k r ->
  let q := round_nearest_even (shr_m r) (loc_of_shr_record r) in m / 2 ^ k <= q /\ q * 2 ^ k < m + 2 ^ k.
Proof.
  intros Hm Hk [Hq Hrs]. pose proof (Z.pow_pos_nonneg 2 k ltac:(lia) Hk) as Hp. pose proof (Z.div_mod m (2 ^ k) ltac:(lia)) as Hdm.
  pose proof (Z.mod_pos_bound m (2 ^ k) Hp) as Hb. rewrite <- Hq in *. destruct r as [q rb sb]. cbn [shr_m shr_r shr_s] in *.
  set (b := m mod 2 ^ k) in *. clearbody b.
  destruct (Z.eqb_spec b 0); destruct rb, sb; cbn in Hrs; try done; cbn [loc_of_shr_record round_nearest_even];
    try (destruct (Z.even q)); nia.
Qed.

(** ** Rounding to binary64 *)

Definition between (A C : Z) (x : spec_float) : Prop :=
  match x with
  | S754_zero _ => A <= 0 <= C
  | S754_finite false m e => e <= 0 /\ A * 2 ^ (- e) <= Z.pos m <= C * 2 ^ (- e)
  | _ => False
  end.

(** A mantissa that fits is not shifted, and [2^53] loses nothing by it. *)
Lemma shr_fexp_fits q e :
  0 <= q <= 2 ^ 53 -> SpecFloat.emin prec emax <= e ->
  let '(r, e') := shr_fexp prec emax q e loc_Exact in
  shr_m r * 2 ^ (e' - e) = q /\ (e' = e \/ e' = e + 1 /\ q = 2 ^ 53).
Proof.
  intros Hq He. unfold shr_fexp, SpecFloat.fexp. cbn [shr_record_of_loc]. change prec with 53 in *. set (em := SpecFloat.emin 53 emax) in *. clearbody em.
  destruct q as [|q|q]; [|destruct (Z.eq_dec (Z.pos q) (2 ^ 53)) as [Heq|Hne]|lia].
  - cbn [Zdigits2]. replace (Z.max (0 + e - 53) em - e) with (Z.min 0 (Z.max (0 + e - 53) em - e)) by lia.
    destruct (Z.min 0 _) as [|p|p] eqn:Hn; [|lia|]; cbn; rewrite ?Z.sub_diag; cbn; lia.
  - assert (Hd : Zdigits2 (Z.pos q) = 54) by (rewrite Heq; reflexivity). rewrite Hd, Heq.
    replace (Z.max (54 + e - 53) em - e) with 1 by lia. cbn [shr iter_pos].
    replace (shr_m (shr_1 (Build_shr_record (2 ^ 53) false false))) with (2 ^ 52) by reflexivity.
    replace (e + 1 - e) with 1 by lia. split; [reflexivity|]. by right.
  - cbn [Zdigits2]. pose proof (digits2_pos_le q 53 ltac:(lia) ltac:(lia)) as Hd.
    assert (Hn : Z.max (Z.pos (digits2_pos q) + e - 53) em - e <= 0) by lia.
    destruct (Z.max _ _ - e) as [|p|p]; [|lia|]; cbn [shr shr_m]; rewrite Z.sub_diag; split; lia || by left.
Qed.

(** The first rounding: an integer of at most 53 bits, or 2^53, within the bounds. *)
Lemma shr_fexp_between m e A C :
  e <= 0 -> 0 <= A -> Z.pos (digits2_pos m) + e <= 53 -> A * 2 ^ (- e) <= Z.pos m <= C * 2 ^ (- e) ->
  exists r e1, shr_fexp prec emax (Z.pos m) e loc_Exact = (r, e1) /\ SpecFloat.emin prec emax <= e1 <= 0 /\
    let q := round_nearest_even (shr_m r) (loc_of_shr_record r) in 0 <= q <= 2 ^ 53 /\ A * 2 ^ (- e1) <= q <= C * 2 ^ (- e1).
Proof.
  intros He HA Hde Hm. pose proof (digits2_pos_spec m) as Hd. set (em := SpecFloat.emin prec emax). assert (Hem : em = -1074) by reflexivity.
  unfold shr_fexp, SpecFloat.fexp. cbn [shr_record_of_loc Zdigits2]. fold em. change prec with 53.
  set (d := Z.pos (digits2_pos m)) in *.
  destruct (Z.le_gt_cases (Z.max (d + e - 53) em - e) 0) as [Hle|Hgt].
  - eexists _, _. split; [destruct (Z.max (d + e - 53) em - e); [done|lia|done]|]. split; [lia|].
    cbn [shr_m loc_of_shr_record round_nearest_even]. split; [|lia]. split; [lia|].
    pose proof (Z.pow_le_mono_r 2 d 53 ltac:(lia) ltac:(lia)). lia.
  - set (n := Z.max (d + e - 53) em - e) in *. destruct n as [|k|k] eqn:Hn; [lia| |lia]. cbn [shr].
    pose proof (shr_spec (Z.pos m) k ltac:(lia)) as Hs. eexists _, _. split; [done|].
    set (r := iter_pos shr_1 k _) in *. clearbody r. destruct (round_shifted (Z.pos m) (Z.pos k) r ltac:(lia) ltac:(lia) Hs) as [Hlo Hhi].
    set (q := round_nearest_even _ _) in *. clearbody q. split; [lia|].
    pose proof (Z.pow_pos_nonneg 2 (Z.pos k) ltac:(lia) ltac:(lia)) as Hpk.
    assert (Hq0 : 0 <= Z.pos m / 2 ^ Z.pos k) by (apply Z.div_pos; lia). cbn zeta.
    assert (Hpow : 2 ^ (- e) = 2 ^ (- (e + Z.pos k)) * 2 ^ Z.pos k) by (rewrite <- Z.pow_add_r by lia; f_equal; lia).
    rewrite Hpow in Hm. set (P := 2 ^ (- (e + Z.pos k))) in *. clearbody P.
    split; [split; [lia|]|split].
    + pose proof (Z.pow_le_mono_r 2 d (53 + Z.pos k) ltac:(lia) ltac:(lia)) as H1. rewrite Z.pow_add_r in H1 by lia. nia.
    + assert (A * P <= Z.pos m / 2 ^ Z.pos k) by (apply Z.div_le_lower_bound; lia). lia.
    + nia.
Qed.

Lemma round_between m e A C :
  e <= 0 -> 0 <= A -> C < 2 ^ 53 -> A * 2 ^ (- e) <= Z.pos m <= C * 2 ^ (- e) ->
  between A C (binary_round_aux prec emax false (Z.pos m) e loc_Exact).
Proof.
  intros He HA HC Hm. unfold binary_round_aux. pose proof (digits2_pos_spec m) as Hd.
  set (em := SpecFloat.emin prec emax). assert (Hem : em = -1074) by reflexivity.
  (* the value is below 2^53 *)
  assert (Hde : Z.pos (digits2_pos m) + e <= 53).
  { destruct (Z.le_gt_cases (Z.pos (digits2_pos m) + e) 53) as [|Hgt]; [done|]. exfalso.
    pose proof (Z.pow_le_mono_r 2 (53 + - e) (Z.pos (digits2_pos m) - 1) ltac:(lia) ltac:(lia)) as H1.
    rewrite Z.pow_add_r in H1 by lia. pose proof (Z.pow_pos_nonneg 2 (- e) ltac:(lia) ltac:(lia)). nia. }
  destruct (shr_fexp_between m e A C He HA Hde Hm) as (r & e1 & -> & He1 & Hq & HAC).
  cbn zeta in *. set (q := round_nearest_even _ _) in *. clearbody q.
  pose proof (shr_fexp_fits q e1 Hq ltac:(lia)) as Hfit. destruct (shr_fexp prec emax q e1 loc_Exact) as [r2 e2]. destruct Hfit as [Hv He2].
  assert (Hle0 : e2 <= 0 /\ (e2 = e1 \/ e2 = e1 + 1)).
  { destruct He2 as [->|[-> Hq53]]; [lia|]. split; [|by right]. destruct (Z.le_gt_cases (e1 + 1) 0); [done|]. exfalso.
    replace e1 with 0 in HAC by lia. cbn in HAC. lia. }
  destruct Hle0 as [Hle0 Hcase].
  assert (Hpow2 : 2 ^ (- e1) = 2 ^ (- e2) * 2 ^ (e2 - e1)) by (rewrite <- Z.pow_add_r by lia; f_equal; lia).
  pose proof (Z.pow_pos_nonneg 2 (e2 - e1) ltac:(lia) ltac:(lia)) as Hp2. rewrite Hpow2 in HAC.
  remember (2 ^ (- e2)) as P eqn:HP. set (S2 := 2 ^ (e2 - e1)) in *. clearbody S2.
  destruct (shr_m r2) as [|m2|m2] eqn:Hm2.
  - cbn. split; [|lia]. destruct (Z.le_gt_cases A 0); [done|]. exfalso. nia.
  - replace (e2 <=? emax - prec) with true by (symmetry; apply Z.leb_le; change (emax - prec) with 971; lia).
    cbn [between]. split; [done|]. rewrite <- HP. nia.
  - exfalso. nia.
Qed.

Lemma shl_align_spec m e e' : let '(m', e1) := shl_align m e e' in e1 <= e /\ Z.pos m' = Z.pos m * 2 ^ (e - e1).
Proof.
  unfold shl_align. destruct (e' - e) as [|d|d] eqn:Hd; [rewrite Z.sub_diag; lia|rewrite Z.sub_diag; lia|].
  split; [lia|]. replace (e - e') with (Z.pos d) by lia.
  clear. induction d as [|d IH] using Pos.peano_ind; [cbn; lia|]. rewrite Pos.iter_succ, Pos2Z.inj_succ, Z.pow_succ_r by lia.
  rewrite Pos2Z.inj_xO, IH. lia.
Qed.

Lemma binary_round_between m e A C :
  e <= 0 -> 0 <= A -> C < 2 ^ 53 -> A * 2 ^ (- e) <= Z.pos m <= C * 2 ^ (- e) -> between A C (binary_round prec emax false m e).
Proof.
  intros He HA HC Hm. unfold binary_round. pose proof (shl_align_spec m e (SpecFloat.fexp prec emax (Z.pos (digits2_pos m) + e))) as Hs.
  destruct (shl_align _ _ _) as [m1 e1]. destruct Hs as [He1 Hm1]. apply round_between; [lia|done|done|].
  replace (- e1) with (- e + (e - e1)) by lia. rewrite Z.pow_add_r by lia.
  pose proof (Z.pow_pos_nonneg 2 (e - e1) ltac:(lia) ltac:(lia)). nia.
Qed.

(** ** Sums and products *)

Definition fbetween (A C : Z) (f : float) : Prop := between A C (Prim2SF f).

(** A fraction of an integer lies between 0 and it. *)
Lemma fmul_unit C x y : 0 <= C < 2 ^ 53 -> fbetween 0 1 x -> fbetween C C y -> fbetween 0 C (x * y).
Proof.
  intros HC. unfold fbetween. rewrite mul_spec. unfold SF64mul, SFmul.
  destruct (Prim2SF x) as [sx|sx| |sx mx ex], (Prim2SF y) as [sy|sy| |sy my ey]; cbn [between]; try lia; try done;
    try (destruct sx; [done|]; lia); try (destruct sy; [done|]; lia).
  destruct sx; [done|]. destruct sy; [done|]. intros [Hex Hmx] [Hey Hmy]. cbn [xorb]. apply round_between; [lia|lia|lia|].
  replace (- (ex + ey)) with (- ex + - ey) by lia. rewrite Z.pow_add_r, Pos2Z.inj_mul by lia.
  pose proof (Z.pow_pos_nonneg 2 (- ex) ltac:(lia) ltac:(lia)). pose proof (Z.pow_pos_nonneg 2 (- ey) ltac:(lia) ltac:(lia)). nia.
Qed.

Lemma fadd_between A C x y : 0 <= A -> 0 <= C -> A + C < 2 ^ 53 -> fbetween A A x -> fbetween 0 C y -> fbetween A (A + C) (x + y).
Proof.
  intros HA HC HAC. unfold fbetween. rewrite add_spec. unfold SF64add, SFadd.
  destruct (Prim2SF x) as [sx|sx| |sx mx ex], (Prim2SF y) as [sy|sy| |sy my ey]; cbn [between]; try done;
    try (destruct sx; done); try (destruct sy; done).
  - intros [] []. destruct sx, sy; cbn; lia.
  - destruct sy; [done|]. intros H [Hey Hmy]. split; [done|]. replace A with 0 by lia. rewrite Z.add_0_l. done.
  - destruct sx; [done|]. intros [Hex Hmx] H. split; [done|]. pose proof (Z.pow_pos_nonneg 2 (- ex) ltac:(lia) ltac:(lia)). nia.
  - destruct sx; [done|]. destruct sy; [done|]. intros [Hex Hmx] [Hey Hmy]. cbn [cond_Zopp].
    pose proof (shl_align_spec mx ex (Z.min ex ey)) as Hx. pose proof (shl_align_spec my ey (Z.min ex ey)) as Hy.
    assert (Hsx : snd (shl_align mx ex (Z.min ex ey)) = Z.min ex ey).
    { unfold shl_align. destruct (Z.min ex ey - ex) eqn:Hd; cbn; lia. }
    assert (Hsy : snd (shl_align my ey (Z.min ex ey)) = Z.min ex ey).
    { unfold shl_align. destruct (Z.min ex ey - ey) eqn:Hd; cbn; lia. }
    destruct (shl_align mx ex (Z.min ex ey)) as [m1 e1], (shl_align my ey (Z.min ex ey)) as [m2 e2]. cbn [fst snd] in *. subst e1 e2.
    destruct Hx as [_ Hx], Hy as [_ Hy]. cbn [binary_normalize Z.add]. apply binary_round_between; [lia|done|done|].
    rewrite Pos2Z.inj_add, Hx, Hy. set (ez := Z.min ex ey) in *.
    assert (Hpx : 2 ^ (- ez) = 2 ^ (- ex) * 2 ^ (ex - ez)) by (rewrite <- Z.pow_add_r by lia; f_equal; lia).
    assert (Hpy : 2 ^ (- ez) = 2 ^ (- ey) * 2 ^ (ey - ez)) by (rewrite <- Z.pow_add_r by lia; f_equal; lia).
    pose proof (Z.pow_pos_nonneg 2 (ex - ez) ltac:(lia) ltac:(lia)). pose proof (Z.pow_pos_nonneg 2 (ey - ez) ltac:(lia) ltac:(lia)).
    set (P := 2 ^ (- ez)) in *. set (X := 2 ^ (ex - ez)) in *. set (Y := 2 ^ (ey - ez)) in *. clearbody P X Y.
    set (PX := 2 ^ (- ex)) in *. set (PY := 2 ^ (- ey)) in *. clearbody PX PY.
    assert (A * P <= Z.pos mx * X <= A * P) by nia. assert (0 <= Z.pos my * Y <= C * P) by nia. nia.
Qed.

(** ** Rounding to an integer *)

Lemma digits2_iter_xO m k : Z.pos (digits2_pos (Pos.iter xO m k)) = Z.pos (digits2_pos m) + Z.pos k.
Proof.
  induction k as [|k IH] using Pos.peano_ind; [cbn; lia|]. rewrite Pos.iter_succ. cbn [digits2_pos]. rewrite !Pos2Z.inj_succ, IH. lia.
Qed.

(** A mantissa of 53 digits is kept. *)
Lemma round_aux_full m e :
  Z.pos (digits2_pos m) = 53 -> -1074 <= e <= 0 -> binary_round_aux prec emax false (Z.pos m) e loc_Exact = S754_finite false m e.
Proof.
  intros Hd He. assert (Hs : shr_fexp prec emax (Z.pos m) e loc_Exact = (Build_shr_record (Z.pos m) false false, e)).
  { unfold shr_fexp, SpecFloat.fexp. cbn [Zdigits2 shr_record_of_loc]. rewrite Hd. change prec with 53. change (SpecFloat.emin 53 emax) with (-1074).
    replace (Z.max (53 + e - 53) (-1074) - e) with 0 by lia. done. }
  unfold binary_round_aux. rewrite Hs. cbn [shr_m loc_of_shr_record round_nearest_even]. rewrite Hs. cbn [shr_m].
  replace (e <=? emax - prec) with true; [done|]. symmetry. apply Z.leb_le. change (emax - prec) with 971. lia.
Qed.

Lemma binary_round_valid z : Z.pos z < 2 ^ 53 -> SpecFloat.valid_binary prec emax (binary_round prec emax false z 0) = true.
Proof.
  intros Hz. pose proof (digits2_pos_le z 53 ltac:(lia) Hz) as Hd. unfold binary_round, shl_align, SpecFloat.fexp.
  change prec with 53. change (SpecFloat.emin 53 emax) with (-1074). rewrite Z.add_0_r, Z.sub_0_r.
  replace (Z.max (Z.pos (digits2_pos z) - 53) (-1074)) with (Z.pos (digits2_pos z) - 53) by lia.
  assert (Hvalid : forall m e, Z.pos (digits2_pos m) = 53 -> -1074 <= e <= 0 ->
    SpecFloat.valid_binary 53 emax (binary_round_aux 53 emax false (Z.pos m) e loc_Exact) = true).
  { intros m e Hm He. pose proof (round_aux_full m e Hm He) as Hr. change prec with 53 in Hr. rewrite Hr. cbn [SpecFloat.valid_binary].
    unfold SpecFloat.bounded, SpecFloat.canonical_mantissa, SpecFloat.fexp. rewrite Hm. change (SpecFloat.emin 53 emax) with (-1074).
    apply andb_true_intro. split; [apply Z.eqb_eq; lia|apply Z.leb_le; change (emax - 53) with 971; lia]. }
  destruct (Z.pos (digits2_pos z) - 53) as [|k|k] eqn:Hk; [apply Hvalid; lia|lia|].
  apply Hvalid; [rewrite digits2_iter_xO; lia|lia].
Qed.

(** Small integers are floats exactly. *)
Lemma of_int_exact z : 0 <= z < 2 ^ 53 -> fbetween z z (of_int z).
Proof.
  intros Hz. unfold fbetween, of_int. destruct z as [|z|z]; [cbn; lia| |lia].
  cbn [binary_normalize]. rewrite Prim2SF_SF2Prim by (apply binary_round_valid; lia).
  apply binary_round_between; cbn; lia.
Qed.

Lemma to_int64_between A C f : 0 <= A -> C < 2 ^ 63 -> fbetween A C f -> A <= to_int64 f <= C.
Proof.
  intros HA HC. unfold fbetween, to_int64. destruct (Prim2SF f) as [s|s| |s m e]; cbn [between]; try done. destruct s; [done|].
  intros [He Hm]. pose proof (Z.pow_pos_nonneg 2 (- e) ltac:(lia) ltac:(lia)) as Hp.
  assert (Hv : (if e <? 0 then Z.pos m / 2 ^ (- e) else Z.pos m * 2 ^ e) = Z.pos m / 2 ^ (- e)).
  { destruct (Z.ltb_spec e 0); [done|]. replace e with 0 by lia. cbn. by rewrite Z.mul_1_r, Z.div_1_r. }
  rewrite Hv. assert (A <= Z.pos m / 2 ^ (- e)) by (apply Z.div_le_lower_bound; lia).
  assert (Z.pos m / 2 ^ (- e) <= C) by (apply Z.div_le_upper_bound; lia).
  destruct (Z.leb_spec (- 2 ^ 63) (Z.pos m / 2 ^ (- e))); [|lia]. destruct (Z.ltb_spec (Z.pos m / 2 ^ (- e)) (2 ^ 63)); [|lia]. done.
Qed.

Lemma math_Round_between A C f : 0 <= A -> C < 2 ^ 53 -> fbetween A C f -> fbetween A C (math_Round f).
Proof.
  intros HA HC Hf. pose proof Hf as Hf'. unfold fbetween in Hf'. unfold math_Round. destruct (Prim2SF f) as [s|s| |s m e] eqn:Hs; try done.
  destruct (Z.ltb_spec e 0); [|done]. cbn [between] in Hf'. destruct s; [done|]. destruct Hf' as [He Hm].
  set (P := 2 ^ (- e)). assert (HP : P = 2 * 2 ^ (- e - 1)) by (unfold P; rewrite <- Z.pow_succ_r by lia; f_equal; lia).
  pose proof (Z.pow_pos_nonneg 2 (- e - 1) ltac:(lia) ltac:(lia)) as Hp. set (H2 := 2 ^ (- e - 1)) in *. fold P in Hm. clearbody P H2.
  assert (Hlo : A <= (Z.pos m + H2) / P) by (apply Z.div_le_lower_bound; lia).
  assert (Hhi : (Z.pos m + H2) / P <= C) by (apply Z.lt_succ_r, Z.div_lt_upper_bound; lia).
  pose proof (of_int_exact ((Z.pos m + H2) / P) ltac:(lia)) as Hex. set (z := (Z.pos m + H2) / P) in *. clearbody z.
  unfold fbetween in *. destruct (Prim2SF (of_int z)) as [s'|s'| |s' m' e']; cbn [between] in *; try done; [lia|]. destruct s'; [done|].
  destruct Hex as [He' Hm']. split; [done|]. pose proof (Z.pow_pos_nonneg 2 (- e') ltac:(lia) ltac:(lia)). nia.
Qed.

(** The tuner's formula, and the integer a parameter is set to. *)
Lemma interpolate_between A C x lo width :
  0 <= A -> 0 <= C -> A + C < 2 ^ 53 -> fbetween 0 1 x -> fbetween A A lo -> fbetween C C width ->
  A <= to_int64 (math_Round (lo + x * width)%float) <= A + C.
Proof.
  intros HA HC HAC Hx Hlo Hw. apply to_int64_between; [done|lia|]. apply math_Round_between; [done|done|].
  apply fadd_between; try done. apply fmul_unit; [lia|done|done].
Qed.

(** ** The unit interval *)

(** A valid mantissa has 53 digits, or fewer at the least exponent. *)
Lemma finite_canonical x s m e : Prim2SF x = S754_finite s m e -> -1074 <= e /\ Z.pos m < 2 ^ 53 /\ (e = -1074 \/ 2 ^ 52 <= Z.pos m).
Proof.
  intros Hx. pose proof (Prim2SF_valid x) as Hv. rewrite Hx in Hv.
  unfold valid_binary, SpecFloat.valid_binary, SpecFloat.bounded in Hv. apply andb_prop in Hv as [Hc _].
  unfold SpecFloat.canonical_mantissa, SpecFloat.fexp in Hc. apply Z.eqb_eq in Hc. change prec with 53 in Hc.
  change (SpecFloat.emin 53 emax) with (-1074) in Hc. pose proof (digits2_pos_spec m) as Hd.
  assert (Hdig : Z.pos (digits2_pos m) <= 53) by lia. pose proof (Z.pow_le_mono_r 2 _ 53 ltac:(lia) Hdig).
  split; [lia|]. split; [lia|]. destruct (Z.eq_dec e (-1074)); [by left|right].
  replace (Z.pos (digits2_pos m)) with 53 in Hd by lia. change (53 - 1) with 52 in Hd. lia.
Qed.

Lemma unit_between x : (0 <=? x)%float = true -> (x <=? 1)%float = true -> fbetween 0 1 x.
Proof.
  rewrite !fleb_key. replace (fkey 0) with (Some (0, 0, 0)) by reflexivity.
  replace (fkey 1) with (Some (1, -52, 2 ^ 52)) by reflexivity.
  intros (k1 & k & [= <-] & Hk & Hlo) (k' & k2 & Hk' & [= <-] & Hhi). rewrite Hk in Hk'. injection Hk' as <-.
  unfold fkey in Hk. unfold fbetween. destruct (Prim2SF x) as [s|s| |s m e] eqn:Hx; cbn [sfkey] in Hk.
  - cbn. lia.
  - destruct s; injection Hk as <-; cbn in *; lia.
  - done.
  - destruct s; injection Hk as <-; [cbn in Hlo; lia|]. cbn [kle] in Hhi. destruct (finite_canonical _ _ _ _ Hx) as (_ & H53 & _).
    cbn [between]. split; [lia|]. split; [lia|]. destruct (Z.eq_dec e (-52)) as [->|Hne].
    + change (- -52) with 52. lia.
    + pose proof (Z.pow_le_mono_r 2 53 (- e) ltac:(lia) ltac:(lia)). lia.
Qed.

(** ** Quotients

    Dividing by the same number keeps the order: rounding is monotone. *)

(** [N] seen with the unit [u]: [m] whole units, and where the rest lies. *)
Definition at_unit (u N m : Z) (l : location) : Prop :=
  match l with
  | loc_Exact => N = m * u
  | loc_Inexact Lt => m * u < N /\ 2 * N < (2 * m + 1) * u
  | loc_Inexact Eq => 0 < u /\ 2 * N = (2 * m + 1) * u
  | loc_Inexact Gt => (2 * m + 1) * u < 2 * N /\ N < (m + 1) * u
  end.

Lemma at_unit_bounds u N m l : 0 < u -> at_unit u N m l -> m * u <= N < (m + 1) * u.
Proof. intros Hu. destruct l as [|[]]; cbn; nia. Qed.

Lemma at_unit_scale c u N m l : 0 < c -> at_unit u N m l -> at_unit (c * u) (c * N) m l.
Proof.
  intros Hc. destruct l as [|[]]; cbn.
  - intros ->. ring.
  - intros [Hu He]. split; [nia|]. replace (2 * (c * N)) with (c * (2 * N)) by ring. rewrite He. ring.
  - intros [H1 H2]. apply (Z.mul_lt_mono_pos_l c) in H1, H2; [|done..]. split; lia.
  - intros [H1 H2]. apply (Z.mul_lt_mono_pos_l c) in H1, H2; [|done..]. split; lia.
Qed.

(** A shift by one place doubles the unit. *)
Lemma shr_1_unit u N r :
  0 < u -> 0 <= shr_m r -> at_unit u N (shr_m r) (loc_of_shr_record r) ->
  0 <= shr_m (shr_1 r) /\ at_unit (2 * u) N (shr_m (shr_1 r)) (loc_of_shr_record (shr_1 r)).
Proof.
  intros Hu. destruct r as [m rb sb]. cbn [shr_m]. intros Hm.
  destruct m as [|p|p]; [| |lia]; [|destruct p as [p|p|]]; destruct rb, sb; cbn [shr_1 shr_m loc_of_shr_record orb at_unit];
    intros H; (split; [lia|]); nia.
Qed.

Lemma shr_unit k u N r :
  0 < u -> 0 <= shr_m r -> at_unit u N (shr_m r) (loc_of_shr_record r) ->
  let r' := iter_pos shr_1 k r in 0 <= shr_m r' /\ at_unit (2 ^ Z.pos k * u) N (shr_m r') (loc_of_shr_record r').
Proof.
  intros Hu Hm Hr. cbn zeta. rewrite iter_pos_nat. rewrite <- (positive_nat_Z k). induction (Pos.to_nat k) as [|n IH].
  - rewrite Z.mul_1_l. done.
  - rewrite Nat2Z.inj_succ, Z.pow_succ_r, <- Z.mul_assoc by lia. destruct IH as [IH1 IH2]. cbn [Nat.iter nat_rect].
    apply shr_1_unit; [|done|done]. pose proof (Z.pow_pos_nonneg 2 (Z.of_nat n)). nia.
Qed.

Lemma round_unit_mono u N N' m l m' l' :
  0 < u -> at_unit u N m l -> at_unit u N' m' l' -> N <= N' -> round_nearest_even m l <= round_nearest_even m' l'.
Proof.
  intros Hu H H' HN. pose proof (at_unit_bounds u N m l Hu H) as Hb. pose proof (at_unit_bounds u N' m' l' Hu H') as Hb'.
  assert (Hmm : m <= m') by nia.
  assert (Hr : m <= round_nearest_even m l <= m + 1) by (destruct l as [|[]]; cbn; try destruct (Z.even m); lia).
  assert (Hr' : m' <= round_nearest_even m' l') by (destruct l' as [|[]]; cbn; try destruct (Z.even m'); lia).
  destruct (Z.eq_dec m m') as [<-|Hne]; [|lia].
  destruct l as [|[]], l' as [|[]]; cbn in *; try lia; try (destruct (Z.even m); lia).
Qed.

Lemma round_unit_bounds u N m l : 0 < u -> at_unit u N m l ->
  (forall A, A * u <= N -> A <= round_nearest_even m l) /\ (forall C, N <= C * u -> round_nearest_even m l <= C).
Proof.
  intros Hu H. pose proof (at_unit_bounds u N m l Hu H) as Hb. split.
  - intros A HA. assert (A <= m) by nia. destruct l as [|[]]; cbn; try destruct (Z.even m); lia.
  - intros C HC. destruct l as [|[]]; cbn in *; try destruct (Z.even m); nia.
Qed.

(** The remainder of a division says where the quotient lies. *)
Lemma new_location_unit d m : 0 < d -> at_unit d m (m / d) (new_location d (m mod d)).
Proof.
  intros Hd. pose proof (Z.div_mod m d ltac:(lia)) as Hm. pose proof (Z.mod_pos_bound m d Hd) as Hr.
  set (q := m / d) in *. set (r := m mod d) in *. clearbody q r. unfold new_location, new_location_even, new_location_odd.
  destruct (Z.even d) eqn:He; destruct (Z.eqb_spec r 0) as [->|Hr0]; try (cbn [at_unit]; nia).
  - destruct (Z.compare_spec (2 * r) d); cbn [at_unit]; nia.
  - assert (2 * r <> d) by (intros <-; by rewrite Z.even_mul in He).
    destruct (Z.compare_spec (2 * r + 1) d); cbn [at_unit]; nia.
Qed.

(** The unit of the exponent [e] in a quotient by [d]; numerators are counted in
    units of the least exponent. *)
Definition unit_of (d e : Z) : Z := d * 2 ^ (e + 1074).

Lemma unit_of_pos d e : 0 < d -> -1074 <= e -> 0 < unit_of d e.
Proof. intros Hd He. unfold unit_of. pose proof (Z.pow_pos_nonneg 2 (e + 1074)). nia. Qed.

Lemma unit_of_add d e k : -1074 <= e -> 0 <= k -> unit_of d (e + k) = 2 ^ k * unit_of d e.
Proof. intros He Hk. unfold unit_of. replace (e + k + 1074) with (k + (e + 1074)) by lia. rewrite Z.pow_add_r by lia. ring. Qed.

Lemma pow2_above a b : 0 <= a -> a < b -> 2 * 2 ^ a <= 2 ^ b.
Proof. intros Ha Hb. rewrite <- Z.pow_succ_r by done. apply Z.pow_le_mono_r; lia. Qed.

(** [v], counted in the least exponent, is [N / d] rounded to 53 digits. *)
Definition rounded (d N v : Z) : Prop :=
  exists ex m l, -1074 <= ex /\ 0 <= N < 2 ^ 53 * unit_of d ex /\ (ex = -1074 \/ 2 ^ 52 * unit_of d ex <= N) /\
    at_unit (unit_of d ex) N m l /\ v = round_nearest_even m l * 2 ^ (ex + 1074).

Lemma rounded_mono d N N' v v' : 0 < d -> rounded d N v -> rounded d N' v' -> N <= N' -> v <= v'.
Proof.
  intros Hd (ex & m & l & He & HN & Hlo & Hu & ->) (ex' & m' & l' & He' & HN' & Hlo' & Hu' & ->) Hle.
  pose proof (unit_of_pos d ex Hd He) as Hp. pose proof (unit_of_pos d ex' Hd He') as Hp'.
  destruct (Z.lt_trichotomy ex ex') as [Hlt|[<-|Hgt]].
  - destruct (round_unit_bounds _ _ _ _ Hp Hu) as [_ Hhi]. specialize (Hhi (2 ^ 53) ltac:(lia)).
    destruct (round_unit_bounds _ _ _ _ Hp' Hu') as [Hge _]. specialize (Hge (2 ^ 52) ltac:(lia)).
    pose proof (pow2_above (ex + 1074) (ex' + 1074) ltac:(lia) ltac:(lia)) as Hpow.
    pose proof (Z.pow_pos_nonneg 2 (ex + 1074) ltac:(lia) ltac:(lia)).
    transitivity (2 ^ 53 * 2 ^ (ex + 1074)); [nia|]. transitivity (2 ^ 52 * 2 ^ (ex' + 1074)); [lia|nia].
  - apply Z.mul_le_mono_nonneg_r; [apply Z.pow_nonneg; lia|]. by eapply round_unit_mono.
  - exfalso. destruct Hlo as [|Hlo]; [lia|]. replace ex with (ex' + (1 + (ex - ex' - 1))) in Hlo by lia.
    rewrite unit_of_add, Z.pow_add_r in Hlo by lia. pose proof (Z.pow_pos_nonneg 2 (ex - ex' - 1) ltac:(lia) ltac:(lia)).
    assert (unit_of d ex' <= 2 ^ (ex - ex' - 1) * unit_of d ex') by nia.
    rewrite <- Z.mul_assoc in Hlo. set (w := 2 ^ (ex - ex' - 1) * _) in *. clearbody w. lia.
Qed.

(** The value of a number that is not negative, counted in the least exponent. *)
Definition magnitude (x : spec_float) : option Z :=
  match x with
  | S754_zero _ => Some 0
  | S754_finite false m e => Some (Z.pos m * 2 ^ (e + 1074))
  | _ => None
  end.

Lemma magnitude_le x y a b : magnitude (Prim2SF x) = Some a -> magnitude (Prim2SF y) = Some b -> a <= b -> (x <=? y)%float = true.
Proof.
  intros Ha Hb Hab. apply fleb_key. unfold fkey. pose proof (finite_canonical x) as Hx. pose proof (finite_canonical y) as Hy.
  destruct (Prim2SF x) as [sx|sx| |[|] mx ex]; cbn [magnitude] in Ha; try done; injection Ha as <-;
    destruct (Prim2SF y) as [sy|sy| |[|] my ey]; cbn [magnitude] in Hb; try done; injection Hb as <-; cbn [sfkey];
    do 2 eexists; (split; [done|]); (split; [done|]); cbn [kle]; try lia.
  - pose proof (Z.pow_pos_nonneg 2 (ex + 1074)). destruct (Hx _ _ _ eq_refl). nia.
  - destruct (Hx _ _ _ eq_refl) as (Hex & Hmx & Hcx). destruct (Hy _ _ _ eq_refl) as (Hey & Hmy & Hcy). right. split; [done|].
    destruct (Z.lt_trichotomy ex ey) as [|[<-|Hgt]]; [by left|right; split; [done|]|exfalso].
    + pose proof (Z.pow_pos_nonneg 2 (ex + 1074)). nia.
    + destruct Hcx as [|Hcx]; [lia|]. pose proof (pow2_above (ey + 1074) (ex + 1074) ltac:(lia) ltac:(lia)) as Hpow.
      pose proof (Z.pow_pos_nonneg 2 (ey + 1074) ltac:(lia) ltac:(lia)).
      assert (2 ^ 52 * (2 * 2 ^ (ey + 1074)) <= Z.pos mx * 2 ^ (ex + 1074)) by (apply Z.mul_le_mono_nonneg; lia). nia.
Qed.

(** The exact quotient, before rounding: [q] units of an exponent that rounding
    will not lower. *)
Lemma div_core_unit m1 e1 m2 e2 :
  -1074 <= e1 - e2 ->
  exists q e l, SFdiv_core_binary prec emax (Z.pos m1) e1 (Z.pos m2) e2 = (q, e, l) /\ 0 <= q /\ -1074 <= e /\
    at_unit (unit_of (Z.pos m2) e) (Z.pos m1 * 2 ^ (e1 - e2 + 1074)) q l /\ e <= SpecFloat.fexp prec emax (Zdigits2 q + e).
Proof.
  intros He. unfold SFdiv_core_binary, SpecFloat.fexp. change prec with 53. change (SpecFloat.emin 53 emax) with (-1074). cbn [Zdigits2].
  pose proof (digits2_pos_spec m1) as Hd1. pose proof (digits2_pos_spec m2) as Hd2.
  set (d1 := Z.pos (digits2_pos m1)) in *. set (d2 := Z.pos (digits2_pos m2)) in *.
  set (e := Z.min (Z.max (d1 + e1 - (d2 + e2) - 53) (-1074)) (e1 - e2)). assert (Hs : 0 <= e1 - e2 - e) by lia.
  set (s := e1 - e2 - e) in *.
  assert (Hm' : match s with Z0 => Z.pos m1 | Zpos _ => Z.shiftl (Z.pos m1) s | Zneg _ => 0 end = Z.pos m1 * 2 ^ s).
  { destruct s as [|p|p]; [by rewrite Z.mul_1_r|apply Z.shiftl_mul_pow2; lia|lia]. }
  rewrite Hm'. set (m' := Z.pos m1 * 2 ^ s). pose proof (Z.pow_pos_nonneg 2 s ltac:(lia) Hs) as Hps.
  pose proof (new_location_unit (Z.pos m2) m' ltac:(lia)) as Hu. unfold Z.div, Z.modulo in Hu.
  pose proof (Z.div_eucl_eq m' (Z.pos m2) ltac:(lia)) as Hdm. pose proof (Z.mod_pos_bound m' (Z.pos m2) ltac:(lia)) as Hr. unfold Z.modulo in Hr.
  destruct (Z.div_eucl m' (Z.pos m2)) as [q r].
  assert (Hq0 : 0 <= q) by nia. exists q, e, (new_location (Z.pos m2) r). split; [done|]. split; [done|]. split; [lia|]. split.
  - unfold unit_of. rewrite Z.mul_comm. replace (e1 - e2 + 1074) with (s + (e + 1074)) by lia.
    rewrite (Z.pow_add_r 2 s (e + 1074)), Z.mul_assoc by lia. fold m'. rewrite (Z.mul_comm m'). apply at_unit_scale; [apply Z.pow_pos_nonneg; lia|done].
  - (* the quotient has the digits of the numerator less those of the denominator *)
    assert (Hdq : d1 + s - d2 <= Zdigits2 q).
    { assert (Hlt : 2 ^ (d1 - 1 + s) < 2 ^ (Zdigits2 q + d2)).
      { assert (Hq : q + 1 <= 2 ^ Zdigits2 q) by (destruct q as [|q|q]; [done|pose proof (digits2_pos_spec q); cbn [Zdigits2]; lia|lia]).
        rewrite !Z.pow_add_r by (destruct q; cbn; lia). unfold m' in *. nia. }
      apply Z.pow_lt_mono_r_iff in Hlt; [lia|lia|destruct q; cbn; lia]. }
    destruct q as [|q|q]; [cbn [Zdigits2] in *; lia|lia|lia].
Qed.

(** Rounding it. *)
Lemma round_aux_rounded d N q e l :
  0 < d -> 0 <= q -> -1074 <= e -> at_unit (unit_of d e) N q l -> e <= SpecFloat.fexp prec emax (Zdigits2 q + e) ->
  N < 2 ^ 53 * unit_of d 0 ->
  exists v, rounded d N v /\ magnitude (binary_round_aux prec emax false q e l) = Some v.
Proof.
  intros Hd Hq He Hu Hfe HN. unfold binary_round_aux, shr_fexp at 1. pose proof (unit_of_pos d e Hd He) as Hp.
  pose proof (at_unit_bounds _ _ _ _ Hp Hu) as Hb.
  assert (Hq2 : q + 1 <= 2 ^ Zdigits2 q /\ (q = 0 \/ 2 ^ (Zdigits2 q - 1) <= q) /\ 0 <= Zdigits2 q).
  { destruct q as [|q|q]; [cbn; lia|pose proof (digits2_pos_spec q); cbn [Zdigits2]; lia|lia]. }
  unfold SpecFloat.fexp in *. change prec with 53 in *. change (SpecFloat.emin 53 emax) with (-1074) in *.
  set (dq := Zdigits2 q) in *. set (ex := Z.max (dq + e - 53) (-1074)) in *.
  assert (Hrec : shr_m (shr_record_of_loc q l) = q /\ loc_of_shr_record (shr_record_of_loc q l) = l) by (by destruct l as [|[]]).
  destruct Hrec as [Hrm Hrl].
  (* after the shift, the unit is that of [ex] *)
  assert (Hshr : exists r, shr (shr_record_of_loc q l) e (ex - e) = (r, ex) /\ at_unit (unit_of d ex) N (shr_m r) (loc_of_shr_record r)).
  { destruct (ex - e) as [|k|k] eqn:Hk; [| |lia].
    - exists (shr_record_of_loc q l). replace ex with e by lia. by rewrite Hrm, Hrl.
    - eexists. cbn [shr]. split; [f_equal; lia|]. replace ex with (e + Z.pos k) by lia. rewrite unit_of_add by lia.
      apply shr_unit; rewrite ?Hrm, ?Hrl; done. }
  destruct Hshr as (r & -> & Hur).
  assert (Hex : -1074 <= ex /\ 0 <= N < 2 ^ 53 * unit_of d ex /\ (ex = -1074 \/ 2 ^ 52 * unit_of d ex <= N)).
  { split; [lia|]. split.
    - split; [nia|]. replace ex with (e + (ex - e)) by lia. rewrite unit_of_add, Z.mul_assoc, <- Z.pow_add_r by lia.
      pose proof (Z.pow_le_mono_r 2 dq (53 + (ex - e)) ltac:(lia) ltac:(lia)). nia.
    - destruct (Z.eq_dec ex (-1074)); [by left|right]. replace ex with (e + (ex - e)) by lia. rewrite unit_of_add, Z.mul_assoc, <- Z.pow_add_r by lia.
      replace (52 + (ex - e)) with (dq - 1) by lia. destruct Hq2 as (_ & [H0|H1] & _); [|nia]. subst q. unfold dq in *. cbn in *. lia. }
  destruct Hex as (Hex & HNu & Hlo). pose proof (unit_of_pos d ex Hd Hex) as Hpx.
  set (q0 := round_nearest_even _ _). assert (Hq0 : 0 <= q0 <= 2 ^ 53).
  { destruct (round_unit_bounds _ _ _ _ Hpx Hur) as [H1 H2]. split; [apply H1|apply H2]; lia. }
  assert (Hex0 : ex <= 0).
  { destruct (Z.le_gt_cases ex 0) as [|Hgt]; [done|]. exfalso. destruct Hlo as [|Hlo]; [lia|]. replace ex with (0 + (1 + (ex - 1))) in Hlo by lia.
    rewrite unit_of_add, Z.pow_add_r in Hlo by lia. pose proof (Z.pow_pos_nonneg 2 (ex - 1) ltac:(lia) ltac:(lia)).
    pose proof (unit_of_pos d 0 Hd ltac:(lia)). assert (unit_of d 0 <= 2 ^ (ex - 1) * unit_of d 0) by nia.
    rewrite <- Z.mul_assoc in Hlo. set (w := 2 ^ (ex - 1) * _) in *. clearbody w. lia. }
  exists (q0 * 2 ^ (ex + 1074)). split; [exists ex, (shr_m r), (loc_of_shr_record r); done|].
  pose proof (shr_fexp_fits q0 ex Hq0 Hex) as Hfit. change prec with 53 in Hfit. destruct (shr_fexp 53 emax q0 ex loc_Exact) as [r2 e2].
  destruct Hfit as [Hv He2]. assert (He2' : ex <= e2 <= ex + 1) by lia. clear He2. rewrite <- Hv.
  rewrite <- Z.mul_assoc, <- Z.pow_add_r by lia. replace (e2 - ex + (ex + 1074)) with (e2 + 1074) by lia.
  destruct (shr_m r2) as [|m2|m2].
  - done.
  - replace (e2 <=? emax - 53) with true; [done|]. symmetry. apply Z.leb_le. change (emax - 53) with 971. lia.
  - exfalso. pose proof (Z.pow_pos_nonneg 2 (e2 - ex)). nia.
Qed.

Lemma rounded_nonneg d N v : 0 < d -> rounded d N v -> 0 <= v.
Proof.
  intros Hd (ex & m & l & He & HN & _ & Hu & ->). pose proof (unit_of_pos d ex Hd He) as Hp.
  destruct (round_unit_bounds _ _ _ _ Hp Hu) as [Hge _]. specialize (Hge 0 ltac:(lia)). pose proof (Z.pow_nonneg 2 (ex + 1074)). nia.
Qed.

(** The quotient of a number up to [C] by one of at least 1. *)
Lemma fdiv_rounded C x d m e md ed :
  C < 2 ^ 53 -> Prim2SF x = S754_finite false m e -> e <= 0 -> Z.pos m <= C * 2 ^ (- e) ->
  Prim2SF d = S754_finite false md ed -> ed <= 0 -> 2 ^ (- ed) <= Z.pos md ->
  exists v, rounded (Z.pos md) (Z.pos m * 2 ^ (e - ed + 1074)) v /\ magnitude (Prim2SF (x / d)) = Some v.
Proof.
  intros HC Hx He Hm Hd Hed Hmd. destruct (finite_canonical _ _ _ _ Hx) as (Hemin & _ & _).
  rewrite div_spec, Hx, Hd. unfold SF64div, SFdiv. cbn [xorb].
  destruct (div_core_unit m e md ed ltac:(lia)) as (q & e' & l & -> & Hq & He' & Hu & Hfe).
  apply round_aux_rounded; try done. unfold unit_of. change (0 + 1074) with 1074.
  assert (Hpow : 2 ^ (- e) * 2 ^ (e - ed + 1074) = 2 ^ (- ed) * 2 ^ 1074) by (rewrite <- !Z.pow_add_r by lia; f_equal; lia).
  pose proof (Z.pow_pos_nonneg 2 (e - ed + 1074) ltac:(lia) ltac:(lia)) as H1. pose proof (Z.pow_pos_nonneg 2 (- ed) ltac:(lia) ltac:(lia)) as H2.
  pose proof (Z.pow_pos_nonneg 2 1074 ltac:(lia) ltac:(lia)) as HP. set (P := 2 ^ 1074) in *. set (X := 2 ^ (- e)) in *.
  set (Y := 2 ^ (e - ed + 1074)) in *. set (W := 2 ^ (- ed)) in *. clearbody P X Y W.
  assert (Z.pos m * Y <= C * (W * P)) by (rewrite <- Hpow; nia). assert (C * (W * P) < 2 ^ 53 * (W * P)) by nia. nia.
Qed.

(** Division by a positive integer is monotone. *)
Lemma fdiv_mono A C n x y d :
  C < 2 ^ 53 -> 0 < n -> fbetween 0 A x -> fbetween A C y -> fbetween n n d -> (x / d <=? y / d)%float = true.
Proof.
  intros HC Hn. unfold fbetween. pose proof (fun m e => fdiv_rounded A x d m e) as Qx. pose proof (fun m e => fdiv_rounded C y d m e) as Qy.
  destruct (Prim2SF d) as [sd|sd| |[|] md ed] eqn:Hd; try (cbn [between]; lia).
  destruct (Prim2SF x) as [sx|sx| |[|] mx ex] eqn:Hx; cbn [between]; try done;
    destruct (Prim2SF y) as [sy|sy| |[|] my ey] eqn:Hy; cbn [between]; try done.
  all: try intros Hbx Hby [Hed Hmd].
  all: assert (Hmd' : 2 ^ (- ed) <= Z.pos md) by (pose proof (Z.pow_pos_nonneg 2 (- ed)); nia).
  - eapply (magnitude_le _ _ 0 0); [rewrite div_spec, Hx, Hd; by destruct sx|rewrite div_spec, Hy, Hd; by destruct sy|done].
  - destruct (Qy _ _ _ _ HC eq_refl ltac:(lia) ltac:(lia) eq_refl Hed Hmd') as (v & Hv & Hmag).
    eapply (magnitude_le _ _ 0 v); [rewrite div_spec, Hx, Hd; by destruct sx|exact Hmag|]. eapply rounded_nonneg; [|exact Hv]; lia.
  - exfalso. pose proof (Z.pow_pos_nonneg 2 (- ex)). nia.
  - assert (HAC : A <= C) by (pose proof (Z.pow_pos_nonneg 2 (- ey)); nia).
    destruct (Qx _ _ _ _ ltac:(lia) eq_refl ltac:(lia) ltac:(lia) eq_refl Hed Hmd') as (v & Hv & Hmag).
    destruct (Qy _ _ _ _ HC eq_refl ltac:(lia) ltac:(lia) eq_refl Hed Hmd') as (v' & Hv' & Hmag').
    eapply magnitude_le; [exact Hmag|exact Hmag'|]. eapply rounded_mono; [|exact Hv|exact Hv'|]; [lia|].
    destruct (finite_canonical _ _ _ _ Hx) as (Hxmin & _ & _). destruct (finite_canonical _ _ _ _ Hy) as (Hymin & _ & _).
    assert (Hpx : 2 ^ (- ex) * 2 ^ (ex - ed + 1074) = 2 ^ (- ed + 1074)) by (rewrite <- Z.pow_add_r by lia; f_equal; lia).
    assert (Hpy : 2 ^ (- ey) * 2 ^ (ey - ed + 1074) = 2 ^ (- ed + 1074)) by (rewrite <- Z.pow_add_r by lia; f_equal; lia).
    pose proof (Z.pow_pos_nonneg 2 (ex - ed + 1074) ltac:(lia) ltac:(lia)). pose proof (Z.pow_pos_nonneg 2 (ey - ed + 1074) ltac:(lia) ltac:(lia)).
    transitivity (A * 2 ^ (- ed + 1074)); [rewrite <- Hpx|rewrite <- Hpy]; nia.
Qed.

(** A number in the [i]-th of [n] equal parts of the unit interval. *)
Definition in_stratum (n i : Z) (x : float) : Prop :=
  (of_int i / of_int n <=? x)%float = true /\ (x <=? of_int (i + 1) / of_int n)%float = true.

Lemma fdiv_stratum n i u :
  0 <= i < n -> n < 2 ^ 53 -> (0 <=? u)%float = true -> (u <=? 1)%float = true -> in_stratum n i ((of_int i + u) / of_int n).
Proof.
  intros Hi Hn Hu0 Hu1. pose proof (of_int_exact i ltac:(lia)) as Hi'. pose proof (of_int_exact n ltac:(lia)) as Hn'.
  pose proof (unit_between u Hu0 Hu1) as Hu. pose proof (fadd_between i 1 _ _ ltac:(lia) ltac:(lia) ltac:(lia) Hi' Hu) as Hs. split.
  - apply (fdiv_mono i (i + 1) n); [lia|lia| |done|done].
    unfold fbetween in *. destruct (Prim2SF (of_int i)) as [|?| |[|] m e]; cbn [between] in *; try lia.
  - pose proof (of_int_exact (i + 1) ltac:(lia)) as Hi1. apply (fdiv_mono (i + 1) (i + 1) n); [lia|lia| |done|done].
    unfold fbetween in *. destruct (Prim2SF (of_int i + u)) as [|?| |[|] m e]; cbn [between] in *; try lia.
Qed.
