(* ===== verification/Config.v ===== *)
(** * Broker and topic configuration (src/pkg/broker/config.go)

    The validator is built with github.com/nobl9/govy: the rules of every field
    are data here, and evaluating them is the parameter [govy_Validate]. *)

From S2P Require Import Prelude GoFloat.

Inductive ScheduleMode : Type :=
| ModeFIFO
| ModeStrictPriority
| ModeDQNAdaptive.

Inductive SyncPolicy : Type :=
| SyncEveryWrite
| SyncInterval
| SyncNone.

#[export] Instance ScheduleMode_eq_dec : EqDecision ScheduleMode.
Proof. solve_decision. Defined.
#[export] Instance SyncPolicy_eq_dec : EqDecision SyncPolicy.
Proof. solve_decision. Defined.

Record Config : Type := mkConfig {
  SegmentMaxBytes : Z;
  SegmentMaxCount : Z;
  RetentionMaxBytes : Z;
  RetentionMaxAge : Z;
  FlushIntervalMs : Z;
  cfg_SyncPolicy : SyncPolicy;
  CompressionType : Z;
  MaxConnections : Z;
  RecvBufferBytes : Z;
  SendBufferBytes : Z;
  MaxMessageBytes : Z;
  ReadTimeoutMs : Z;
  WriteTimeoutMs : Z;
  NumNetworkGoroutines : Z;
  NumIOGoroutines : Z;
  MaxQueuedRequests : Z;
  BatchSize : Z;
  BatchMemoryBytes : Z;
  LingerMs : Z;
  FetchMinBytes : Z;
  FetchMaxWaitMs : Z;
  MaxFetchBytes : Z;
  ConsumerSessionTimeoutMs : Z;
}.

#[export] Instance Config_eq_dec : EqDecision Config.
Proof. solve_decision. Defined.

(** ** Validation *)

Inductive rule : Type :=
| GTE (n : Z)
| LTE (n : Z).

Definition rule_holds (v : Z) (r : rule) : bool :=
  match r with GTE n => n <=? v | LTE n => v <=? n end.

Record property : Type := mkProperty {
  prop_name : string;
  prop_value : Z;
  prop_rules : list rule;
}.

Definition configValidator (c : Config) : list property := [
  mkProperty "segment_max_bytes" (SegmentMaxBytes c) [GTE (2 ^ 20); LTE (64 * 2 ^ 20)];
  mkProperty "segment_max_count" (SegmentMaxCount c) [GTE 1];
  mkProperty "retention_max_bytes" (RetentionMaxBytes c) [GTE (2 ^ 20)];
  mkProperty "flush_interval_ms" (FlushIntervalMs c) [GTE 1; LTE 60000];
  mkProperty "compression_type" (CompressionType c) [GTE 0; LTE 3];
  mkProperty "max_connections" (MaxConnections c) [GTE 1; LTE 65535];
  mkProperty "recv_buffer_bytes" (RecvBufferBytes c) [GTE 1024];
  mkProperty "send_buffer_bytes" (SendBufferBytes c) [GTE 1024];
  mkProperty "max_message_bytes" (MaxMessageBytes c) [GTE 1024];
  mkProperty "num_network_goroutines" (NumNetworkGoroutines c) [GTE 1; LTE 256];
  mkProperty "num_io_goroutines" (NumIOGoroutines c) [GTE 1; LTE 256];
  mkProperty "max_queued_requests" (MaxQueuedRequests c) [GTE 1];
  mkProperty "batch_size" (BatchSize c) [GTE 1];
  mkProperty "batch_memory_bytes" (BatchMemoryBytes c) [GTE 1024; LTE (64 * 2 ^ 20)];
  mkProperty "fetch_min_bytes" (FetchMinBytes c) [GTE 1];
  mkProperty "fetch_max_wait_ms" (FetchMaxWaitMs c) [GTE 1];
  mkProperty "consumer_session_timeout_ms" (ConsumerSessionTimeoutMs c) [GTE 1000]
].

Class Govy : Type := {
  govy_Validate : string -> list property -> result unit;
}.

(** A validator accepts a value when every rule of every property holds, and
    otherwise returns an error. *)
Definition rules_hold (ps : list property) : bool :=
  forallb (fun p => forallb (rule_holds (prop_value p)) (prop_rules p)) ps.

Class GovyLaws (G : Govy) : Prop := {
  govy_accepts name ps : rules_hold ps = true -> govy_Validate name ps = Ok tt;
  govy_rejects name ps : rules_hold ps = false -> exists e, govy_Validate name ps = Err e;
}.

#[export] Instance plain_govy : Govy := {|
  govy_Validate name ps := if rules_hold ps then Ok tt else Err (ErrLib "govy" name);
|}.
#[export] Instance plain_govy_laws : GovyLaws plain_govy.
Proof. split; cbn; intros name ps ->; eauto. Qed.

Definition Validate {G : Govy} (c : Config) : result unit :=
  govy_Validate "broker.Config" (configValidator c).

(** ** Topic configuration and defaults *)

Record TopicConfig : Type := mkTopicConfig {
  tc_ScheduleMode : ScheduleMode;
  NumPartitions : Z;
  PriorityLevels : Z;
  AntiStarvationTTL : Z;
  DQNThrottleOnLoad : float;
}.

Definition time_Millisecond : Z := 1000000.
Definition time_Second : Z := 1000 * time_Millisecond.
Definition time_Hour : Z := 3600 * time_Second.

Definition DefaultConfig : Config := {|
  SegmentMaxBytes := 20 * 1024 * 1024;
  SegmentMaxCount := 100;
  RetentionMaxBytes := 2 ^ 30;
  RetentionMaxAge := 168 * time_Hour;
  FlushIntervalMs := 1000;
  cfg_SyncPolicy := SyncInterval;
  CompressionType := 0;
  MaxConnections := 1024;
  RecvBufferBytes := 65536;
  SendBufferBytes := 65536;
  MaxMessageBytes := 2 ^ 20;
  ReadTimeoutMs := 30000;
  WriteTimeoutMs := 30000;
  NumNetworkGoroutines := 4;
  NumIOGoroutines := 4;
  MaxQueuedRequests := 500;
  BatchSize := 100;
  BatchMemoryBytes := 65536;
  LingerMs := 5;
  FetchMinBytes := 1;
  FetchMaxWaitMs := 500;
  MaxFetchBytes := 2 ^ 20;
  ConsumerSessionTimeoutMs := 30000;
|}.

Definition DefaultTopicConfig : TopicConfig := {|
  tc_ScheduleMode := ModeFIFO;
  NumPartitions := 4;
  PriorityLevels := 1;
  AntiStarvationTTL := 10 * time_Second;
  DQNThrottleOnLoad := 0.9;
|}.

(** ** Parameters by name *)

(** Field assignments [cfg.F = v]. *)
Definition set_SegmentMaxBytes (v : Z) (c : Config) : Config :=
  mkConfig v (SegmentMaxCount c) (RetentionMaxBytes c) (RetentionMaxAge c) (FlushIntervalMs c) (cfg_SyncPolicy c) (CompressionType c) (MaxConnections c) (RecvBufferBytes c) (SendBufferBytes c) (MaxMessageBytes c) (ReadTimeoutMs c) (WriteTimeoutMs c) (NumNetworkGoroutines c) (NumIOGoroutines c) (MaxQueuedRequests c) (BatchSize c) (BatchMemoryBytes c) (LingerMs c) (FetchMinBytes c) (FetchMaxWaitMs c) (MaxFetchBytes c) (ConsumerSessionTimeoutMs c).
Definition set_SegmentMaxCount (v : Z) (c : Config) : Config :=
  mkConfig (SegmentMaxBytes c) v (RetentionMaxBytes c) (RetentionMaxAge c) (FlushIntervalMs c) (cfg_SyncPolicy c) (CompressionType c) (MaxConnections c) (RecvBufferBytes c) (SendBufferBytes c) (MaxMessageBytes c) (ReadTimeoutMs c) (WriteTimeoutMs c) (NumNetworkGoroutines c) (NumIOGoroutines c) (MaxQueuedRequests c) (BatchSize c) (BatchMemoryBytes c) (LingerMs c) (FetchMinBytes c) (FetchMaxWaitMs c) (MaxFetchBytes c) (ConsumerSessionTimeoutMs c).
Definition set_RetentionMaxBytes (v : Z) (c : Config) : Config :=
  mkConfig (SegmentMaxBytes c) (SegmentMaxCount c) v (RetentionMaxAge c) (FlushIntervalMs c) (cfg_SyncPolicy c) (CompressionType c) (MaxConnections c) (RecvBufferBytes c) (SendBufferBytes c) (MaxMessageBytes c) (ReadTimeoutMs c) (WriteTimeoutMs c) (NumNetworkGoroutines c) (NumIOGoroutines c) (MaxQueuedRequests c) (BatchSize c) (BatchMemoryBytes c) (LingerMs c) (FetchMinBytes c) (FetchMaxWaitMs c) (MaxFetchBytes c) (ConsumerSessionTimeoutMs c).
Definition set_RetentionMaxAge (v : Z) (c : Config) : Config :=
  mkConfig (SegmentMaxBytes c) (SegmentMaxCount c) (RetentionMaxBytes c) v (FlushIntervalMs c) (cfg_SyncPolicy c) (CompressionType c) (MaxConnections c) (RecvBufferBytes c) (SendBufferBytes c) (MaxMessageBytes c) (ReadTimeoutMs c) (WriteTimeoutMs c) (NumNetworkGoroutines c) (NumIOGoroutines c) (MaxQueuedRequests c) (BatchSize c) (BatchMemoryBytes c) (LingerMs c) (FetchMinBytes c) (FetchMaxWaitMs c) (MaxFetchBytes c) (ConsumerSessionTimeoutMs c).
Definition set_FlushIntervalMs (v : Z) (c : Config) : Config :=
  mkConfig (SegmentMaxBytes c) (SegmentMaxCount c) (RetentionMaxBytes c) (RetentionMaxAge c) v (cfg_SyncPolicy c) (CompressionType c) (MaxConnections c) (RecvBufferBytes c) (SendBufferBytes c) (MaxMessageBytes c) (ReadTimeoutMs c) (WriteTimeoutMs c) (NumNetworkGoroutines c) (NumIOGoroutines c) (MaxQueuedRequests c) (BatchSize c) (BatchMemoryBytes c) (LingerMs c) (FetchMinBytes c) (FetchMaxWaitMs c) (MaxFetchBytes c) (ConsumerSessionTimeoutMs c).
Definition set_CompressionType (v : Z) (c : Config) : Config :=
  mkConfig (SegmentMaxBytes c) (SegmentMaxCount c) (RetentionMaxBytes c) (RetentionMaxAge c) (FlushIntervalMs c) (cfg_SyncPolicy c) v (MaxConnections c) (RecvBufferBytes c) (SendBufferBytes c) (MaxMessageBytes c) (ReadTimeoutMs c) (WriteTimeoutMs c) (NumNetworkGoroutines c) (NumIOGoroutines c) (MaxQueuedRequests c) (BatchSize c) (BatchMemoryBytes c) (LingerMs c) (FetchMinBytes c) (FetchMaxWaitMs c) (MaxFetchBytes c) (ConsumerSessionTimeoutMs c).
Definition set_MaxConnections (v : Z) (c : Config) : Config :=
  mkConfig (SegmentMaxBytes c) (SegmentMaxCount c) (RetentionMaxBytes c) (RetentionMaxAge c) (FlushIntervalMs c) (cfg_SyncPolicy c) (CompressionType c) v (RecvBufferBytes c) (SendBufferBytes c) (MaxMessageBytes c) (ReadTimeoutMs c) (WriteTimeoutMs c) (NumNetworkGoroutines c) (NumIOGoroutines c) (MaxQueuedRequests c) (BatchSize c) (BatchMemoryBytes c) (LingerMs c) (FetchMinBytes c) (FetchMaxWaitMs c) (MaxFetchBytes c) (ConsumerSessionTimeoutMs c).
Definition set_RecvBufferBytes (v : Z) (c : Config) : Config :=
  mkConfig (SegmentMaxBytes c) (SegmentMaxCount c) (RetentionMaxBytes c) (RetentionMaxAge c) (FlushIntervalMs c) (cfg_SyncPolicy c) (CompressionType c) (MaxConnections c) v (SendBufferBytes c) (MaxMessageBytes c) (ReadTimeoutMs c) (WriteTimeoutMs c) (NumNetworkGoroutines c) (NumIOGoroutines c) (MaxQueuedRequests c) (BatchSize c) (BatchMemoryBytes c) (LingerMs c) (FetchMinBytes c) (FetchMaxWaitMs c) (MaxFetchBytes c) (ConsumerSessionTimeoutMs c).
Definition set_SendBufferBytes (v : Z) (c : Config) : Config :=
  mkConfig (SegmentMaxBytes c) (SegmentMaxCount c) (RetentionMaxBytes c) (RetentionMaxAge c) (FlushIntervalMs c) (cfg_SyncPolicy c) (CompressionType c) (MaxConnections c) (RecvBufferBytes c) v (MaxMessageBytes c) (ReadTimeoutMs c) (WriteTimeoutMs c) (NumNetworkGoroutines c) (NumIOGoroutines c) (MaxQueuedRequests c) (BatchSize c) (BatchMemoryBytes c) (LingerMs c) (FetchMinBytes c) (FetchMaxWaitMs c) (MaxFetchBytes c) (ConsumerSessionTimeoutMs c).
Definition set_MaxMessageBytes (v : Z) (c : Config) : Config :=
  mkConfig (SegmentMaxBytes c) (SegmentMaxCount c) (RetentionMaxBytes c) (RetentionMaxAge c) (FlushIntervalMs c) (cfg_SyncPolicy c) (CompressionType c) (MaxConnections c) (RecvBufferBytes c) (SendBufferBytes c) v (ReadTimeoutMs c) (WriteTimeoutMs c) (NumNetworkGoroutines c) (NumIOGoroutines c) (MaxQueuedRequests c) (BatchSize c) (BatchMemoryBytes c) (LingerMs c) (FetchMinBytes c) (FetchMaxWaitMs c) (MaxFetchBytes c) (ConsumerSessionTimeoutMs c).
Definition set_ReadTimeoutMs (v : Z) (c : Config) : Config :=
  mkConfig (SegmentMaxBytes c) (SegmentMaxCount c) (RetentionMaxBytes c) (RetentionMaxAge c) (FlushIntervalMs c) (cfg_SyncPolicy c) (CompressionType c) (MaxConnections c) (RecvBufferBytes c) (SendBufferBytes c) (MaxMessageBytes c) v (WriteTimeoutMs c) (NumNetworkGoroutines c) (NumIOGoroutines c) (MaxQueuedRequests c) (BatchSize c) (BatchMemoryBytes c) (LingerMs c) (FetchMinBytes c) (FetchMaxWaitMs c) (MaxFetchBytes c) (ConsumerSessionTimeoutMs c).
Definition set_WriteTimeoutMs (v : Z) (c : Config) : Config :=
  mkConfig (SegmentMaxBytes c) (SegmentMaxCount c) (RetentionMaxBytes c) (RetentionMaxAge c) (FlushIntervalMs c) (cfg_SyncPolicy c) (CompressionType c) (MaxConnections c) (RecvBufferBytes c) (SendBufferBytes c) (MaxMessageBytes c) (ReadTimeoutMs c) v (NumNetworkGoroutines c) (NumIOGoroutines c) (MaxQueuedRequests c) (BatchSize c) (BatchMemoryBytes c) (LingerMs c) (FetchMinBytes c) (FetchMaxWaitMs c) (MaxFetchBytes c) (ConsumerSessionTimeoutMs c).
Definition set_NumNetworkGoroutines (v : Z) (c : Config) : Config :=
  mkConfig (SegmentMaxBytes c) (SegmentMaxCount c) (RetentionMaxBytes c) (RetentionMaxAge c) (FlushIntervalMs c) (cfg_SyncPolicy c) (CompressionType c) (MaxConnections c) (RecvBufferBytes c) (SendBufferBytes c) (MaxMessageBytes c) (ReadTimeoutMs c) (WriteTimeoutMs c) v (NumIOGoroutines c) (MaxQueuedRequests c) (BatchSize c) (BatchMemoryBytes c) (LingerMs c) (FetchMinBytes c) (FetchMaxWaitMs c) (MaxFetchBytes c) (ConsumerSessionTimeoutMs c).
Definition set_NumIOGoroutines (v : Z) (c : Config) : Config :=
  mkConfig (SegmentMaxBytes c) (SegmentMaxCount c) (RetentionMaxBytes c) (RetentionMaxAge c) (FlushIntervalMs c) (cfg_SyncPolicy c) (CompressionType c) (MaxConnections c) (RecvBufferBytes c) (SendBufferBytes c) (MaxMessageBytes c) (ReadTimeoutMs c) (WriteTimeoutMs c) (NumNetworkGoroutines c) v (MaxQueuedRequests c) (BatchSize c) (BatchMemoryBytes c) (LingerMs c) (FetchMinBytes c) (FetchMaxWaitMs c) (MaxFetchBytes c) (ConsumerSessionTimeoutMs c).
Definition set_MaxQueuedRequests (v : Z) (c : Config) : Config :=
  mkConfig (SegmentMaxBytes c) (SegmentMaxCount c) (RetentionMaxBytes c) (RetentionMaxAge c) (FlushIntervalMs c) (cfg_SyncPolicy c) (CompressionType c) (MaxConnections c) (RecvBufferBytes c) (SendBufferBytes c) (MaxMessageBytes c) (ReadTimeoutMs c) (WriteTimeoutMs c) (NumNetworkGoroutines c) (NumIOGoroutines c) v (BatchSize c) (BatchMemoryBytes c) (LingerMs c) (FetchMinBytes c) (FetchMaxWaitMs c) (MaxFetchBytes c) (ConsumerSessionTimeoutMs c).
Definition set_BatchSize (v : Z) (c : Config) : Config :=
  mkConfig (SegmentMaxBytes c) (SegmentMaxCount c) (RetentionMaxBytes c) (RetentionMaxAge c) (FlushIntervalMs c) (cfg_SyncPolicy c) (CompressionType c) (MaxConnections c) (RecvBufferBytes c) (SendBufferBytes c) (MaxMessageBytes c) (ReadTimeoutMs c) (WriteTimeoutMs c) (NumNetworkGoroutines c) (NumIOGoroutines c) (MaxQueuedRequests c) v (BatchMemoryBytes c) (LingerMs c) (FetchMinBytes c) (FetchMaxWaitMs c) (MaxFetchBytes c) (ConsumerSessionTimeoutMs c).
Definition set_BatchMemoryBytes (v : Z) (c : Config) : Config :=
  mkConfig (SegmentMaxBytes c) (SegmentMaxCount c) (RetentionMaxBytes c) (RetentionMaxAge c) (FlushIntervalMs c) (cfg_SyncPolicy c) (CompressionType c) (MaxConnections c) (RecvBufferBytes c) (SendBufferBytes c) (MaxMessageBytes c) (ReadTimeoutMs c) (WriteTimeoutMs c) (NumNetworkGoroutines c) (NumIOGoroutines c) (MaxQueuedRequests c) (BatchSize c) v (LingerMs c) (FetchMinBytes c) (FetchMaxWaitMs c) (MaxFetchBytes c) (ConsumerSessionTimeoutMs c).
Definition set_LingerMs (v : Z) (c : Config) : Config :=
  mkConfig (SegmentMaxBytes c) (SegmentMaxCount c) (RetentionMaxBytes c) (RetentionMaxAge c) (FlushIntervalMs c) (cfg_SyncPolicy c) (CompressionType c) (MaxConnections c) (RecvBufferBytes c) (SendBufferBytes c) (MaxMessageBytes c) (ReadTimeoutMs c) (WriteTimeoutMs c) (NumNetworkGoroutines c) (NumIOGoroutines c) (MaxQueuedRequests c) (BatchSize c) (BatchMemoryBytes c) v (FetchMinBytes c) (FetchMaxWaitMs c) (MaxFetchBytes c) (ConsumerSessionTimeoutMs c).
Definition set_FetchMinBytes (v : Z) (c : Config) : Config :=
  mkConfig (SegmentMaxBytes c) (SegmentMaxCount c) (RetentionMaxBytes c) (RetentionMaxAge c) (FlushIntervalMs c) (cfg_SyncPolicy c) (CompressionType c) (MaxConnections c) (RecvBufferBytes c) (SendBufferBytes c) (MaxMessageBytes c) (ReadTimeoutMs c) (WriteTimeoutMs c) (NumNetworkGoroutines c) (NumIOGoroutines c) (MaxQueuedRequests c) (BatchSize c) (BatchMemoryBytes c) (LingerMs c) v (FetchMaxWaitMs c) (MaxFetchBytes c) (ConsumerSessionTimeoutMs c).
Definition set_FetchMaxWaitMs (v : Z) (c : Config) : Config :=
  mkConfig (SegmentMaxBytes c) (SegmentMaxCount c) (RetentionMaxBytes c) (RetentionMaxAge c) (FlushIntervalMs c) (cfg_SyncPolicy c) (CompressionType c) (MaxConnections c) (RecvBufferBytes c) (SendBufferBytes c) (MaxMessageBytes c) (ReadTimeoutMs c) (WriteTimeoutMs c) (NumNetworkGoroutines c) (NumIOGoroutines c) (MaxQueuedRequests c) (BatchSize c) (BatchMemoryBytes c) (LingerMs c) (FetchMinBytes c) v (MaxFetchBytes c) (ConsumerSessionTimeoutMs c).
Definition set_MaxFetchBytes (v : Z) (c : Config) : Config :=
  mkConfig (SegmentMaxBytes c) (SegmentMaxCount c) (RetentionMaxBytes c) (RetentionMaxAge c) (FlushIntervalMs c) (cfg_SyncPolicy c) (CompressionType c) (MaxConnections c) (RecvBufferBytes c) (SendBufferBytes c) (MaxMessageBytes c) (ReadTimeoutMs c) (WriteTimeoutMs c) (NumNetworkGoroutines c) (NumIOGoroutines c) (MaxQueuedRequests c) (BatchSize c) (BatchMemoryBytes c) (LingerMs c) (FetchMinBytes c) (FetchMaxWaitMs c) v (ConsumerSessionTimeoutMs c).
Definition set_ConsumerSessionTimeoutMs (v : Z) (c : Config) : Config :=
  mkConfig (SegmentMaxBytes c) (SegmentMaxCount c) (RetentionMaxBytes c) (RetentionMaxAge c) (FlushIntervalMs c) (cfg_SyncPolicy c) (CompressionType c) (MaxConnections c) (RecvBufferBytes c) (SendBufferBytes c) (MaxMessageBytes c) (ReadTimeoutMs c) (WriteTimeoutMs c) (NumNetworkGoroutines c) (NumIOGoroutines c) (MaxQueuedRequests c) (BatchSize c) (BatchMemoryBytes c) (LingerMs c) (FetchMinBytes c) (FetchMaxWaitMs c) (MaxFetchBytes c) v.

Definition SetParamByName (cfg : Config) (name : string) (val : float) : Config :=
  let v := to_int64 (math_Round val) in
  if decide (name = "SegmentMaxBytes") then set_SegmentMaxBytes v cfg
  else if decide (name = "SegmentMaxCount") then set_SegmentMaxCount v cfg
  else if decide (name = "RetentionMaxBytes") then set_RetentionMaxBytes (to_int64 val) cfg
  else if decide (name = "RetentionMaxAge") then set_RetentionMaxAge (to_int64 val) cfg
  else if decide (name = "FlushIntervalMs") then set_FlushIntervalMs v cfg
  else if decide (name = "CompressionType") then set_CompressionType v cfg
  else if decide (name = "MaxConnections") then set_MaxConnections v cfg
  else if decide (name = "RecvBufferBytes") then set_RecvBufferBytes v cfg
  else if decide (name = "SendBufferBytes") then set_SendBufferBytes v cfg
  else if decide (name = "MaxMessageBytes") then set_MaxMessageBytes v cfg
  else if decide (name = "ReadTimeoutMs") then set_ReadTimeoutMs v cfg
  else if decide (name = "WriteTimeoutMs") then set_WriteTimeoutMs v cfg
  else if decide (name = "NumNetworkGoroutines") then set_NumNetworkGoroutines v cfg
  else if decide (name = "NumIOGoroutines") then set_NumIOGoroutines v cfg
  else if decide (name = "MaxQueuedRequests") then set_MaxQueuedRequests v cfg
  else if decide (name = "BatchSize") then set_BatchSize v cfg
  else if decide (name = "BatchMemoryBytes") then set_BatchMemoryBytes v cfg
  else if decide (name = "LingerMs") then set_LingerMs v cfg
  else if decide (name = "FetchMinBytes") then set_FetchMinBytes v cfg
  else if decide (name = "FetchMaxWaitMs") then set_FetchMaxWaitMs v cfg
  else if decide (name = "MaxFetchBytes") then set_MaxFetchBytes v cfg
  else if decide (name = "ConsumerSessionTimeoutMs") then set_ConsumerSessionTimeoutMs v cfg
  else cfg.

Definition NumTunableParams : Z := 22.

Record ParamRange : Type := mkParamRange {
  pr_Name : string;
  pr_Min : float;
  pr_Max : float;
}.

Definition TunableParamRanges : list ParamRange := [
  mkParamRange "SegmentMaxBytes" (of_int (2 ^ 20)) (of_int (64 * 2 ^ 20));
  mkParamRange "SegmentMaxCount" 10 500;
  mkParamRange "RetentionMaxBytes" (of_int (100 * 2 ^ 20)) (of_int (10 * 2 ^ 30));
  mkParamRange "RetentionMaxAge" (of_int time_Hour) (of_int (720 * time_Hour));
  mkParamRange "FlushIntervalMs" 100 10000;
  mkParamRange "CompressionType" 0 3;
  mkParamRange "MaxConnections" 64 8192;
  mkParamRange "RecvBufferBytes" 4096 (of_int (2 ^ 20));
  mkParamRange "SendBufferBytes" 4096 (of_int (2 ^ 20));
  mkParamRange "MaxMessageBytes" 1024 (of_int (10 * 2 ^ 20));
  mkParamRange "ReadTimeoutMs" 1000 120000;
  mkParamRange "WriteTimeoutMs" 1000 120000;
  mkParamRange "NumNetworkGoroutines" 1 32;
  mkParamRange "NumIOGoroutines" 1 32;
  mkParamRange "MaxQueuedRequests" 50 5000;
  mkParamRange "BatchSize" 1 1000;
  mkParamRange "BatchMemoryBytes" 1024 (of_int (2 ^ 20));
  mkParamRange "LingerMs" 0 100;
  mkParamRange "FetchMinBytes" 1 (of_int (2 ^ 20));
  mkParamRange "FetchMaxWaitMs" 10 5000;
  mkParamRange "MaxFetchBytes" 1024 (of_int (10 * 2 ^ 20));
  mkParamRange "ConsumerSessionTimeoutMs" 5000 120000
].
