(* ===== verification/Partition.v ===== *)
(** * A partition: a write-ahead log with its priority index
    (src/pkg/broker/partition.go)

    Every method runs under the partition's mutex, except for the index
    insertions that follow a write, so a method is one function from state to
    state.  Clock readings and the contents of pooled buffers are arguments. *)

From Stdlib Require Import Strings.Byte.
From stdpp Require Import pretty.
From S2P Require Import Prelude Message PriorityIndex Wal Compression GoFloat Config.

Definition walBatchMagic : byte := xba.
Definition walRedirectMagic : byte := xff.

(** [path/filepath.Join], which joins and cleans its elements. *)
Class Filepath : Type := { filepath_Join : list string -> string }.

(** [walOptions]: only the NoSync option differs from the library's default. *)
Definition walOptions (sp : SyncPolicy) : bool :=
  match sp with SyncNone | SyncInterval => true | SyncEveryWrite => false end.

Section partition.
  Context {W : Wal} {K : Compressors}.

Record Partition : Type := mkPartition {
  p_id : Z;
  topicName : string;
  plog : wlog;
  nextOffset : Z;
  priorityIndex : option PriorityIndex;
  scheduleMode : ScheduleMode;
  lastFlushNs : Z;
  batchCodec : option Codec;
}.

Definition SetBatchCodec (c : Codec) (p : Partition) : Partition :=
  mkPartition (p_id p) (topicName p) (plog p) (nextOffset p) (priorityIndex p) (scheduleMode p)
    (lastFlushNs p) (Some c).

(** The assignments made under the lock by a write. *)
Definition written (p : Partition) (l : wlog) (next flushNs : Z) : Partition :=
  mkPartition (p_id p) (topicName p) l next (priorityIndex p) (scheduleMode p) flushNs (batchCodec p).
Definition with_log (p : Partition) (l : wlog) : Partition :=
  written p l (nextOffset p) (lastFlushNs p).
Definition with_index (p : Partition) (pi : option PriorityIndex) : Partition :=
  mkPartition (p_id p) (topicName p) (plog p) (nextOffset p) pi (scheduleMode p)
    (lastFlushNs p) (batchCodec p).

Definition NewPartition {F : Filepath} (id : Z) (topic dataDir : string) (mode : ScheduleMode)
    (syncPolicy : SyncPolicy) : result Partition :=
  let dir := filepath_Join [dataDir; topic; ("partition-" +:+ pretty id)%string] in
  log ← wrapf "open WAL partition %d" (wal_Open dir (walOptions syncPolicy));
  lastIndex ← wrapf "read last index partition %d" (wal_LastIndex log);
  Ok (mkPartition id topic log (u64 (lastIndex + 1))
        (if decide (mode = ModeFIFO) then None else Some (NewPriorityIndex [WithMaxPerLevel 50000]))
        mode 0 None).

(** Readings of the clock during an append: [appendTime], the duration of the
    write, and the [now] given to the index. *)
Record AppendClock : Type := mkClock {
  ck_append : Z;
  ck_flush : Z;
  ck_index : Time;
}.

(** The loop of AppendBatch that numbers and encodes the messages. *)
Fixpoint encode_batch (appendTime : Z) (pool : nat -> bytes) (i : nat) (next : Z) (msgs : list Message)
    : result (list Message * list Z * list (Z * bytes) * Z) :=
  match msgs with
  | [] => Ok ([], [], [], next)
  | m :: ms =>
      let m := set_AppendTime appendTime m in
      b ← MarshalPooled (pool i) m;
      '(ms', offs, batch, next') ← encode_batch appendTime pool (S i) (u64 (next + 1)) ms;
      Ok (m :: ms', next :: offs, (next, b) :: batch, next')
  end.

(** [for i, msg := range msgs { pi.Add(int(msg.Header.Priority), int64(offsets[i]), now) }]. *)
Fixpoint index_batch (pi : PriorityIndex) (now : Time) (msgs : list Message) (offsets : list Z)
    : result PriorityIndex :=
  match msgs, offsets with
  | m :: ms, o :: os =>
      '(pi, _) ← Add pi (bval (Priority (Header m))) (i64 o) now;
      index_batch pi now ms os
  | _, _ => Ok pi
  end.

Definition index_written (p : Partition) (now : Time) (msgs : list Message) (offsets : list Z)
    : Partition * list Message * result (list Z) :=
  match priorityIndex p with
  | None => (p, msgs, Ok offsets)
  | Some pi =>
      match index_batch pi now msgs offsets with
      | Ok pi' => (with_index p (Some pi'), msgs, Ok offsets)
      | Err e => (p, msgs, Err e)
      | Panic => (p, msgs, Panic)
      end
  end.

(** AppendBatch: the partition and the messages after the call, and what it
    returns. *)
Definition AppendBatch (ck : AppendClock) (pool : nat -> bytes) (p : Partition) (msgs : list Message)
    : Partition * list Message * result (list Z) :=
  if decide (length msgs = 0)%nat then (p, msgs, Ok [])
  else
    match encode_batch (ck_append ck) pool 0 (nextOffset p) msgs with
    | Ok (msgs', offsets, batch, next) =>
        let '(l, err) := wal_WriteBatch (plog p) batch in
        let p := written p l next (ck_flush ck) in
        match wrapf "WAL write batch" err with
        | Ok _ => index_written p (ck_index ck) msgs' offsets
        | Err e => (p, msgs', Err e)
        | Panic => (p, msgs', Panic)
        end
    | Err e => (p, msgs, Err e)
    | Panic => (p, msgs, Panic)
    end.

Definition Append (ck : AppendClock) (pool : nat -> bytes) (p : Partition) (msg : Message)
    : Partition * Message * result Z :=
  let '(p, msgs, r) := AppendBatch ck pool p [msg] in
  (p, default msg (msgs !! 0%nat),
   offsets ← wrapf "append to partition %d" r; index offsets 0).

(** The payload loop of AppendBatchCompressed. *)
Fixpoint fill_payload (msgs : list Message) (off : nat) (payload : bytes) : result bytes :=
  match msgs with
  | [] => Ok payload
  | m :: ms =>
      encoded ← Marshal m;
      payload ← put_at off (be_put 4 (u32 (Z.of_nat (length encoded)))) payload;
      let off := (off + 4)%nat in
      payload ← copy_at off encoded payload;
      fill_payload ms (off + length encoded) payload
  end.

Definition totalPayload (msgs : list Message) : nat :=
  foldr (fun m n => encodedSize m + 4 + n)%nat 0%nat msgs.

Definition batch_record (n : Z) (compressed : bytes) : bytes :=
  walBatchMagic :: be_put 4 (u32 n) ++ compressed.
Definition redirect_record (baseOffset i : Z) : bytes :=
  walRedirectMagic :: be_put 8 baseOffset ++ be_put 4 (u32 i).

(** The loop [for i := 1; i < n; i++] that writes the redirect records: the
    offsets, the records and the next offset. *)
Fixpoint redirects (baseOffset : Z) (i : Z) (n : nat) (next : Z) : list Z * list (Z * bytes) * Z :=
  match n with
  | O => ([], [], next)
  | S n' =>
      let '(offs, batch, next') := redirects baseOffset (i + 1) n' (u64 (next + 1)) in
      (next :: offs, (next, redirect_record baseOffset i) :: batch, next')
  end.

Definition AppendBatchCompressed (ck : AppendClock) (p : Partition) (msgs : list Message) (codec : Codec)
    : Partition * list Message * result (list Z) :=
  if decide (length msgs = 0)%nat then (p, msgs, Ok [])
  else
    let n := length msgs in
    let msgs := set_AppendTime (ck_append ck) <$> msgs in
    match (payload ← fill_payload msgs 0 (replicate (totalPayload msgs) x00);
           wrapf "batch compress" (Encode codec payload)) with
    | Ok compressed =>
        let baseOffset := nextOffset p in
        let '(offs, batch, next) := redirects baseOffset 1 (n - 1) (u64 (baseOffset + 1)) in
        let offsets := baseOffset :: offs in
        let '(l, err) :=
          wal_WriteBatch (plog p) ((baseOffset, batch_record (Z.of_nat n) compressed) :: batch) in
        let p := written p l next (ck_flush ck) in
        match wrapf "WAL write compressed batch" err with
        | Ok _ => index_written p (ck_index ck) msgs offsets
        | Err e => (p, msgs, Err e)
        | Panic => (p, msgs, Panic)
        end
    | Err e => (p, msgs, Err e)
    | Panic => (p, msgs, Panic)
    end.

(** The loop of readFromBatchData; [left] is [index - i]. *)
Fixpoint scan_batch (payload : bytes) (off : nat) (left : nat) : result Message :=
  if decide (length payload < off + 4)%nat
  then Err (Errorf "corrupt batch payload at message %d")
  else
    lz ← read_be payload off 4;
    let msgLen := Z.to_nat lz in
    let off := (off + 4)%nat in
    match left with
    | O =>
        if decide (length payload < off + msgLen)%nat
        then Err (Errorf "corrupt batch payload: message %d truncated")
        else
          d ← subslice payload off (off + msgLen);
          msg ← wrapf "unmarshal message %d in batch" (UnmarshalMessage d);
          Ok (set_BatchDecoded msg)
    | S left' => scan_batch payload (off + msgLen) left'
    end.

Definition readFromBatchData (p : Partition) (data : bytes) (idx : Z) : result Message :=
  if decide (length data < 5 \/ data !! 0 <> Some walBatchMagic)%nat
  then Err (Errorf "not a batch record")
  else
    count ← read_be data 1 4;
    if count <=? idx then Err (Errorf "batch index %d out of range [0, %d)")
    else
      compressed ← subslice data 5 (length data);
      payload ← match batchCodec p with
                | Some c => wrapf "decompress batch record" (Decode c compressed)
                | None => Ok compressed
                end;
      scan_batch payload 0 (Z.to_nat idx).

Definition readFromBatch (p : Partition) (batchOffset idx : Z) : result Message :=
  data ← wrapf "WAL read batch at offset %d" (wal_Read (plog p) batchOffset);
  readFromBatchData p data idx.

Definition Read (p : Partition) (offset : Z) : result Message :=
  data ← wrapf "WAL read offset %d" (wal_Read (plog p) offset);
  match data with
  | [] => Err (Errorf "empty WAL entry at offset %d")
  | b :: _ =>
      if decide (b = walRedirectMagic) then
        if decide (length data < 13)%nat then Err (Errorf "corrupt redirect at offset %d")
        else
          batchBase ← read_be data 1 8;
          idx ← read_be data 9 4;
          readFromBatch p batchBase idx
      else if decide (b = walBatchMagic) then readFromBatchData p data 0
      else UnmarshalMessage data
  end.

Definition HighWaterMark (p : Partition) : Z :=
  if nextOffset p =? 0 then 0 else nextOffset p - 1.

Definition QueueDepth (p : Partition) : Z :=
  match priorityIndex p with Some pi => Len pi | None => 0 end.

(** Rebuild's loop over [n] offsets from [off]: the index as far as it got. *)
Fixpoint rebuild_loop (l : wlog) (isCommitted : Z -> bool) (pi : PriorityIndex) (off : Z) (n : nat)
    : PriorityIndex * result unit :=
  match n with
  | O => (pi, Ok tt)
  | S n' =>
      match wrapf "rebuild read offset %d" (wal_Read l off) with
      | Ok data =>
          if isCommitted off then rebuild_loop l isCommitted pi (off + 1) n'
          else
            match (hdr ← wrapf "rebuild unmarshal header offset %d" (UnmarshalHeader data);
                   Add pi (bval (Priority hdr)) (i64 off) (Timestamp hdr)) with
            | Ok (pi', _) => rebuild_loop l isCommitted pi' (off + 1) n'
            | Err e => (pi, Err e)
            | Panic => (pi, Panic)
            end
      | Err e => (pi, Err e)
      | Panic => (pi, Panic)
      end
  end.

Definition Rebuild (p : Partition) (startOffset : Z) (isCommitted : Z -> bool) : Partition * result unit :=
  match priorityIndex p with
  | None => (p, Ok tt)
  | Some pi =>
      let hwm := nextOffset p in
      let '(pi', r) := rebuild_loop (plog p) isCommitted pi startOffset (Z.to_nat (hwm - startOffset)) in
      (with_index p (Some pi'), r)
  end.

Definition TruncateFront (p : Partition) (offset : Z) : Partition * result unit :=
  if offset <? 1 then (p, Ok tt)
  else let '(l, r) := wal_TruncateFront (plog p) offset in (with_log p l, r).

(** TruncateBefore's scan over [n] offsets from [off]: [truncateAt], the number
    of entries and their bytes. *)
Fixpoint scan_old (l : wlog) (cutoffNano : Z) (off : Z) (n : nat) (acc : Z * Z * Z) : Z * Z * Z :=
  match n with
  | O => acc
  | S n' =>
      match wal_Read l off with
      | Ok data =>
          match UnmarshalHeader data with
          | Ok hdr =>
              if cutoffNano <=? Timestamp hdr then acc
              else let '(_, entries, size) := acc in
                   scan_old l cutoffNano (off + 1) n'
                     (off + 1, entries + 1, size + Z.of_nat (length data))
          | _ => acc
          end
      | _ => acc
      end
  end.

Definition truncate_at (p : Partition) (acc : Z * Z * Z) : Partition * result (Z * Z) :=
  let '(truncateAt, entries, size) := acc in
  if 0 <? truncateAt then
    let '(l, r) := wal_TruncateFront (plog p) truncateAt in
    (with_log p l, _ ← r; Ok (entries, size))
  else (p, Ok (entries, size)).

Definition TruncateBefore (p : Partition) (cutoff : Time) : Partition * result (Z * Z) :=
  match wal_FirstIndex (plog p) with
  | Ok firstIdx =>
      if firstIdx =? 0 then (p, Ok (0, 0))
      else
        let cutoffNano := i64 cutoff in
        truncate_at p
          (scan_old (plog p) cutoffNano firstIdx (Z.to_nat (nextOffset p - firstIdx)) (0, 0, 0))
  | _ => (p, Ok (0, 0))
  end.

Fixpoint total_size (l : wlog) (off : Z) (n : nat) : Z :=
  match n with
  | O => 0
  | S n' =>
      match wal_Read l off with
      | Ok data => Z.of_nat (length data) + total_size l (off + 1) n'
      | _ => 0
      end
  end.

Fixpoint scan_size (l : wlog) (maxBytes : Z) (totalSize : Z) (off : Z) (n : nat) (acc : Z * Z * Z)
    : Z * Z * Z :=
  match n with
  | O => acc
  | S n' =>
      if totalSize <=? maxBytes then acc
      else
        match wal_Read l off with
        | Ok data =>
            let '(_, entries, size) := acc in
            scan_size l maxBytes (totalSize - Z.of_nat (length data)) (off + 1) n'
              (off + 1, entries + 1, size + Z.of_nat (length data))
        | _ => acc
        end
  end.

Definition TruncateOldestUntilSize (p : Partition) (maxBytes : Z) : Partition * result (Z * Z) :=
  match wal_FirstIndex (plog p) with
  | Ok firstIdx =>
      if firstIdx =? 0 then (p, Ok (0, 0))
      else
        let n := Z.to_nat (nextOffset p - firstIdx) in
        let totalSize := total_size (plog p) firstIdx n in
        if totalSize <=? maxBytes then (p, Ok (0, 0))
        else truncate_at p (scan_size (plog p) maxBytes totalSize firstIdx n (0, 0, 0))
  | _ => (p, Ok (0, 0))
  end.

Definition Close (p : Partition) : Partition * result unit :=
  let '(l, r) := wal_Close (plog p) in (with_log p l, r).
End partition.

(** ** Appending and reading back *)

Section append_proofs.
Context {W : Wal} {L : WalLaws W} {K : Compressors} {KL : CompressorLaws K}.
Implicit Types p : Partition.

(** The counter the partition keeps is the log's next index. *)
Definition in_sync p : Prop := nextOffset p = wal_next (plog p).
Definition index_ok p : Prop := from_option pi_wf True (priorityIndex p).
Definition part_ok p : Prop := in_sync p /\ index_ok p.

Lemma seqZ_S m n : seqZ m (Z.of_nat (S n)) = m :: seqZ (m + 1) (Z.of_nat n).
Proof. rewrite seqZ_cons by lia. f_equal. f_equal; lia. Qed.

Lemma encode_batch_spec t pool i next msgs :
  0 <= next -> next + Z.of_nat (length msgs) < 2 ^ 64 ->
  encode_batch t pool i next msgs =
    Ok (set_AppendTime t <$> msgs, seqZ next (Z.of_nat (length msgs)),
        zip (seqZ next (Z.of_nat (length msgs))) (wire <$> (set_AppendTime t <$> msgs)),
        next + Z.of_nat (length msgs)).
Proof.
  revert i next. induction msgs as [|m ms IH]; intros i next H0 Hb; cbn [length] in *.
  { cbn. by rewrite Z.add_0_r. }
  cbn [encode_batch]. rewrite MarshalPooled_wire. cbn [mbind result_bind].
  in_width. rewrite IH by lia. cbn [mbind result_bind].
  rewrite seqZ_S. cbn [fmap list_fmap zip zip_with].
  by replace (next + 1 + _) with (next + Z.of_nat (S (length ms))) by lia.
Qed.

Lemma consecutive_zip next (ds : list bytes) :
  consecutive next (zip (seqZ next (Z.of_nat (length ds))) ds).
Proof.
  revert next. induction ds as [|d ds IH]; intros next; [done|].
  cbn [length]. rewrite seqZ_S. cbn. split; [done|]. apply IH.
Qed.

Lemma consecutive_head i j d b : consecutive i ((j, d) :: b) -> j = i.
Proof. by intros [? _]. Qed.

Lemma index_batch_wf pi now msgs offs :
  pi_wf pi -> exists pi', index_batch pi now msgs offs = Ok pi' /\ pi_wf pi'.
Proof.
  revert pi offs. induction msgs as [|m ms IH]; intros pi [|o os] Hwf; cbn [index_batch]; eauto.
  destruct (Add_spec pi (bval (Priority (Header m))) (i64 o) now Hwf) as (pi1 & -> & Hwf1 & _).
  cbn [mbind result_bind]. by apply IH.
Qed.

(** The result of a write that succeeded: only the index can still change. *)
Lemma index_written_spec p now msgs offs :
  index_ok p ->
  exists pi, index_written p now msgs offs = (with_index p pi, msgs, Ok offs) /\ index_ok (with_index p pi).
Proof.
  intros Hi. unfold index_written, index_ok in *. destruct (priorityIndex p) as [pi|] eqn:E.
  - destruct (index_batch_wf pi now msgs offs Hi) as (pi' & -> & Hwf'). by exists (Some pi').
  - exists None. split; [|done]. destruct p; cbn in *. by subst.
Qed.

Lemma AppendBatch_cases ck pool p msgs :
  index_ok p -> msgs <> [] -> 0 <= nextOffset p ->
  nextOffset p + Z.of_nat (length msgs) < 2 ^ 64 ->
  let n := Z.of_nat (length msgs) in
  let msgs' := set_AppendTime (ck_append ck) <$> msgs in
  let w := wal_WriteBatch (plog p) (zip (seqZ (nextOffset p) n) (wire <$> msgs')) in
  let p' := written p (fst w) (nextOffset p + n) (ck_flush ck) in
  (snd w = Ok tt /\ exists pi, AppendBatch ck pool p msgs = (with_index p' pi, msgs', Ok (seqZ (nextOffset p) n)) /\
                      index_ok (with_index p' pi)) \/
  (exists e, snd w = Err e /\ AppendBatch ck pool p msgs = (p', msgs', Err (Wrapf e "WAL write batch"))).
Proof.
  intros Hi Hne H0 Hb n msgs' w p'. unfold AppendBatch.
  rewrite decide_False by (intros ?%nil_length_inv; done).
  rewrite encode_batch_spec by done. fold n msgs'. subst p' w.
  destruct (wal_WriteBatch_cases (plog p) (zip (seqZ (nextOffset p) n) (wire <$> msgs')))
    as [(l' & -> & _)|(l' & e & -> & _)]; cbn [wrapf fst snd]; [left|right; eauto].
  split; [done|]. by apply index_written_spec.
Qed.

(** A record whose first byte is neither magic number is read back as it is. *)
Lemma Read_plain p o d m :
  wal_Read (plog p) o = Ok d -> UnmarshalMessage d = Ok m ->
  Priority (Header m) <> walBatchMagic -> Priority (Header m) <> walRedirectMagic ->
  Read p o = Ok m.
Proof.
  intros Hr Hm Hb Hf. unfold Read. rewrite Hr. cbn [wrapf mbind result_bind].
  destruct (UnmarshalMessage_Ok d m Hm) as (<- & _ & _).
  unfold wire, wire_header. cbn [app]. rewrite !decide_False by done. exact Hm.
Qed.

Lemma Read_with_index p pi o : Read (with_index p pi) o = Read p o.
Proof. done. Qed.

Lemma wal_Read_appended l l' ds i d :
  wal_healthy l' -> wal_first l' = wal_first l -> wal_entries l' = wal_entries l ++ ds ->
  ds !! i = Some d -> wal_Read l' (wal_next l + Z.of_nat i) = Ok d.
Proof.
  intros Hh Hf He Hd. apply wal_Read_healthy; [done|rewrite Hf; unfold wal_next; lia|].
  rewrite He, Hf. unfold wal_next.
  replace (Z.to_nat _) with (length (wal_entries l) + i)%nat by lia.
  by rewrite lookup_app_r, Nat.add_comm, Nat.add_sub by lia.
Qed.

Lemma wal_Read_preserved l l' ds o d :
  wal_healthy l' -> wal_first l' = wal_first l -> wal_entries l' = wal_entries l ++ ds ->
  wal_Read l o = Ok d -> wal_Read l' o = Ok d.
Proof.
  intros Hh Hf He [Ho Hd]%wal_Read_Ok. apply wal_Read_healthy; [done|by rewrite Hf|].
  rewrite He, Hf. by apply lookup_app_l_Some.
Qed.

(** What a successful read of the old log returns, the new log returns too. *)
Lemma Read_preserved p p' ds o m :
  wal_healthy (plog p') -> wal_first (plog p') = wal_first (plog p) ->
  wal_entries (plog p') = wal_entries (plog p) ++ ds -> batchCodec p' = batchCodec p ->
  Read p o = Ok m -> Read p' o = Ok m.
Proof.
  intros Hh Hf He Hc. unfold Read, readFromBatch. rewrite !bind_Ok.
  intros (d & Hd%wrapf_Ok & Hm). exists d.
  split; [by apply wrapf_Ok; eapply wal_Read_preserved|].
  destruct d as [|b d]; [done|].
  destruct (decide (b = walRedirectMagic)).
  - case_decide; [done|]. revert Hm. rewrite !bind_Ok. intros (base & Hb & Hm). exists base. split; [done|].
    revert Hm. rewrite !bind_Ok. intros (i & Hi & Hm). exists i. split; [done|].
    revert Hm. rewrite !bind_Ok. intros (d' & Hd'%wrapf_Ok & Hm). exists d'.
    split; [by apply wrapf_Ok; eapply wal_Read_preserved|]. unfold readFromBatchData in *. by rewrite Hc.
  - unfold readFromBatchData in *. by rewrite Hc.
Qed.

(** The message as Unmarshal returns it: not marked as batch-decoded. *)
Definition stored (m : Message) : Message := mkMessage (Header m) (Key m) (Value m) false.

Definition storable (m : Message) : Prop :=
  message_ok m /\ Priority (Header m) <> walBatchMagic /\ Priority (Header m) <> walRedirectMagic.

Lemma message_ok_AppendTime t m : in_i64 t -> message_ok m -> message_ok (set_AppendTime t m).
Proof. intros Ht ((? & ? & ?) & ?). split_and!; done. Qed.

Lemma part_ok_nonneg p : part_ok p -> 1 <= nextOffset p.
Proof. intros [-> _]. unfold wal_next. pose proof (wal_first_pos (plog p)). lia. Qed.

Lemma append_batch_success ck pool p msgs :
  part_ok p -> wal_healthy (plog p) -> msgs <> [] ->
  nextOffset p + Z.of_nat (length msgs) < 2 ^ 64 ->
  let msgs' := set_AppendTime (ck_append ck) <$> msgs in
  exists p', AppendBatch ck pool p msgs = (p', msgs', Ok (seqZ (nextOffset p) (Z.of_nat (length msgs)))) /\
    part_ok p' /\ wal_healthy (plog p') /\ batchCodec p' = batchCodec p /\
    nextOffset p' = nextOffset p + Z.of_nat (length msgs) /\
    wal_first (plog p') = wal_first (plog p) /\
    wal_entries (plog p') = wal_entries (plog p) ++ (wire <$> msgs').
Proof.
  intros Hok Hh Hne Hb msgs'.
  assert (Hlm : length msgs' = length msgs) by apply length_fmap.
  pose proof (part_ok_nonneg p Hok) as Hpos. destruct Hok as [Hs Hi].
  pose proof (AppendBatch_cases ck pool p msgs Hi Hne ltac:(lia) Hb) as Hc. cbn zeta in Hc.
  fold msgs' in Hc. set (b := zip _ _) in Hc.
  assert (Hlen : length (seqZ (nextOffset p) (Z.of_nat (length msgs))) = length (wire <$> msgs')).
  { rewrite length_seqZ, length_fmap. lia. }
  assert (Hcons : consecutive (wal_next (plog p)) b).
  { rewrite <- Hs. subst b. rewrite <- Hlm, <- (length_fmap wire). apply consecutive_zip. }
  pose proof (wal_WriteBatch_healthy (plog p) b Hh Hcons) as Hw.
  destruct Hc as [(_ & pi & -> & Hi')|(e & He & _)]; [|congruence].
  destruct (wal_WriteBatch (plog p) b) as [l' r] eqn:E. cbn [fst snd] in *. subst r.
  apply wal_WriteBatch_Ok in E as (Hf & He & _ & Hh').
  assert (Hsnd : snd <$> b = wire <$> msgs') by (subst b; apply snd_zip; lia).
  rewrite Hsnd in He.
  eexists; split_and!; [done| | |done|done|done|done].
  - split; [|done]. unfold in_sync, wal_next in *. cbn. rewrite Hf, He, length_app, length_fmap. lia.
  - by apply Hh'.
Qed.

Lemma entry_readable p o m :
  message_ok m -> Priority (Header m) <> walBatchMagic -> Priority (Header m) <> walRedirectMagic ->
  wal_Read (plog p) o = Ok (wire m) -> Read p o = Ok (stored m).
Proof. intros Hm Hb Hf Hr. eapply Read_plain; [done|by apply UnmarshalMessage_wire|done|done]. Qed.

(** *** Compressed batches *)

Definition frame (m : Message) : bytes := be_put 4 (u32 (Z.of_nat (length (wire m)))) ++ wire m.
Definition payload_of (msgs : list Message) : bytes := concat (frame <$> msgs).

Lemma length_payload msgs : length (payload_of msgs) = totalPayload msgs.
Proof.
  induction msgs as [|m ms IH]; [done|].
  change (totalPayload (m :: ms)) with (encodedSize m + 4 + totalPayload ms)%nat.
  rewrite <- IH. unfold payload_of, frame. cbn [fmap list_fmap concat].
  rewrite !length_app, length_be_put, length_wire. lia.
Qed.

Lemma fill_payload_spec msgs pre rest :
  length rest = totalPayload msgs ->
  fill_payload msgs (length pre) (pre ++ rest) = Ok (pre ++ payload_of msgs).
Proof.
  revert pre rest. induction msgs as [|m ms IH]; intros pre rest Hl.
  { apply nil_length_inv in Hl as ->. done. }
  change (totalPayload (m :: ms)) with (encodedSize m + 4 + totalPayload ms)%nat in Hl.
  replace (encodedSize m + 4 + totalPayload ms)%nat with (4 + (encodedSize m + totalPayload ms))%nat in Hl by lia.
  apply split_length in Hl as (b4 & r & -> & H4 & Hl).
  apply split_length in Hl as (bm & r' & -> & Hm & Hl).
  cbn [fill_payload]. rewrite Marshal_wire. cbn [mbind result_bind].
  rewrite (put_at_app pre b4) by (rewrite ?length_be_put; done). cbn [mbind result_bind].
  assert (copy_at (length pre + 4) (wire m)
    (pre ++ be_put 4 (u32 (Z.of_nat (length (wire m)))) ++ bm ++ r') =
    Ok ((pre ++ frame m) ++ r')) as ->.
  { unfold copy_at, frame. rewrite decide_True by lens.
    rewrite (app_assoc pre), (take_app_length' (pre ++ _)) by lens.
    rewrite (app_assoc _ bm r'), take_ge by (rewrite !length_app, length_be_put, length_wire; lia).
    rewrite drop_app_length' by (rewrite !length_app, length_be_put, length_wire; lia).
    by rewrite <- !app_assoc. }
  cbn [mbind result_bind].
  replace (length pre + 4 + length (wire m))%nat with (length (pre ++ frame m))
    by (unfold frame; rewrite !length_app, length_be_put; lia).
  rewrite IH by done. unfold payload_of. cbn [fmap list_fmap concat]. by rewrite <- app_assoc.
Qed.

Lemma fill_payload_all msgs rest :
  length rest = totalPayload msgs -> fill_payload msgs 0 rest = Ok (payload_of msgs).
Proof. apply (fill_payload_spec msgs []). Qed.

(** A message the frame's 32-bit length can describe. *)
Definition framable (m : Message) : Prop := message_ok m /\ Z.of_nat (encodedSize m) < 2 ^ 32.

Lemma read_frame_len pre m rest :
  framable m -> read_be (pre ++ frame m ++ rest) (length pre) 4 = Ok (Z.of_nat (length (wire m))).
Proof.
  intros [_ Hl]. unfold frame. rewrite <- app_assoc, read_be_mid by (by rewrite ?length_be_put).
  rewrite be_get_put. unfold u32. rewrite length_wire, Z.mod_mod, Z.mod_small by lia. done.
Qed.

Lemma scan_batch_eq payload off left :
  scan_batch payload off left =
    if decide (length payload < off + 4)%nat
    then Err (Errorf "corrupt batch payload at message %d")
    else
      lz ← read_be payload off 4;
      let msgLen := Z.to_nat lz in
      let off := (off + 4)%nat in
      match left with
      | O =>
          if decide (length payload < off + msgLen)%nat
          then Err (Errorf "corrupt batch payload: message %d truncated")
          else
            d ← subslice payload off (off + msgLen);
            msg ← wrapf "unmarshal message %d in batch" (UnmarshalMessage d);
            Ok (set_BatchDecoded msg)
      | S left' => scan_batch payload (off + msgLen) left'
      end.
Proof. by destruct left. Qed.

Lemma length_frame m : length (frame m) = (4 + length (wire m))%nat.
Proof. unfold frame. by rewrite length_app, length_be_put. Qed.

(** One step of the scan over a payload that starts with a frame. *)
Lemma scan_batch_frame pre m0 rest i :
  framable m0 ->
  scan_batch (pre ++ frame m0 ++ rest) (length pre) i =
    match i with
    | O => msg ← wrapf "unmarshal message %d in batch" (UnmarshalMessage (wire m0)); Ok (set_BatchDecoded msg)
    | S i' => scan_batch ((pre ++ frame m0) ++ rest) (length (pre ++ frame m0)) i'
    end.
Proof.
  intros Hm0. pose proof (length_frame m0) as Hlf.
  rewrite scan_batch_eq, decide_False by lens.
  rewrite read_frame_len, Ok_bind by done. cbn zeta. rewrite Nat2Z.id. destruct i as [|i'].
  - rewrite decide_False by lens. unfold frame. rewrite <- app_assoc.
    rewrite app_assoc, subslice_app_mid by (rewrite ?length_app, ?length_be_put; lia).
    by rewrite Ok_bind.
  - rewrite <- app_assoc. f_equal. rewrite length_app. lia.
Qed.

Lemma scan_batch_spec msgs pre i m :
  Forall framable msgs -> msgs !! i = Some m ->
  scan_batch (pre ++ payload_of msgs) (length pre) i = Ok (set_BatchDecoded (stored m)).
Proof.
  intros Hf. revert pre i. induction Hf as [|m0 ms Hm0 Hf IH]; intros pre i Hi; [done|].
  change (payload_of (m0 :: ms)) with (frame m0 ++ payload_of ms).
  rewrite scan_batch_frame by done. destruct i as [|i']; cbn [lookup list_lookup] in Hi.
  - simplify_eq. destruct Hm0 as [Hm0 _]. rewrite UnmarshalMessage_wire by done. reflexivity.
  - by apply IH.
Qed.

Lemma redirects_spec base i n next :
  0 <= next -> next + Z.of_nat n < 2 ^ 64 ->
  redirects base i n next =
    (seqZ next (Z.of_nat n),
     zip (seqZ next (Z.of_nat n)) (redirect_record base <$> seqZ i (Z.of_nat n)), next + Z.of_nat n).
Proof.
  revert i next. induction n as [|n IH]; intros i next H0 Hb; cbn [redirects].
  { cbn. by rewrite Z.add_0_r. }
  in_width. rewrite IH by lia.
  rewrite !seqZ_S. cbn [fmap list_fmap zip zip_with].
  by replace (next + 1 + Z.of_nat n) with (next + Z.of_nat (S n)) by lia.
Qed.

(** The records a compressed batch of [n] messages puts in the log. *)
Definition batch_records (base : Z) (n : nat) (compressed : bytes) : list bytes :=
  batch_record (Z.of_nat n) compressed :: (redirect_record base <$> seqZ 1 (Z.of_nat (n - 1))).

Lemma append_compressed_success ck p msgs codec compressed :
  part_ok p -> wal_healthy (plog p) -> msgs <> [] ->
  nextOffset p + Z.of_nat (length msgs) < 2 ^ 64 ->
  let msgs' := set_AppendTime (ck_append ck) <$> msgs in
  Encode codec (payload_of msgs') = Ok compressed ->
  exists p', AppendBatchCompressed ck p msgs codec =
      (p', msgs', Ok (seqZ (nextOffset p) (Z.of_nat (length msgs)))) /\
    part_ok p' /\ wal_healthy (plog p') /\ batchCodec p' = batchCodec p /\
    wal_first (plog p') = wal_first (plog p) /\
    wal_entries (plog p') = wal_entries (plog p) ++ batch_records (nextOffset p) (length msgs) compressed.
Proof.
  intros Hok Hh Hne Hb msgs' Henc. pose proof (part_ok_nonneg p Hok) as Hpos. destruct Hok as [Hs Hi].
  destruct msgs as [|m0 ms]; [done|]. clear Hne. cbn [length] in Hb. unfold AppendBatchCompressed.
  rewrite decide_False by done. cbn zeta. fold msgs'.
  rewrite fill_payload_all by (by rewrite length_replicate).
  rewrite Ok_bind, Henc. cbn [wrapf].
  replace (length (m0 :: ms) - 1)%nat with (length ms) by (cbn; lia).
  in_width. rewrite redirects_spec by lia.
  set (recs := batch_records (nextOffset p) (length (m0 :: ms)) compressed).
  assert (Hlr : length recs = S (length ms)).
  { unfold recs, batch_records. cbn [length]. rewrite length_fmap, length_seqZ. lia. }
  match goal with |- context [wal_WriteBatch _ ?b] => assert (b = zip (seqZ (nextOffset p) (Z.of_nat (length recs))) recs) as -> end.
  { rewrite Hlr, seqZ_S. unfold recs, batch_records. cbn [length zip zip_with].
    by rewrite Nat.sub_succ, Nat.sub_0_r. }
  assert (Hcons : consecutive (wal_next (plog p)) (zip (seqZ (nextOffset p) (Z.of_nat (length recs))) recs)).
  { rewrite <- Hs. apply consecutive_zip. }
  pose proof (wal_WriteBatch_healthy _ _ Hh Hcons) as Hw.
  destruct (wal_WriteBatch _ _) as [l' r] eqn:E. cbn [snd] in Hw. subst r. cbn [wrapf].
  apply wal_WriteBatch_Ok in E as (Hf & He & _ & Hh').
  rewrite snd_zip in He by (rewrite length_seqZ; lia).
  match goal with |- context [index_written ?q ?t ?a ?o] =>
    destruct (index_written_spec q t a o) as (pi & -> & Hi'); [done|] end.
  cbn [length]. rewrite <- seqZ_S.
  eexists; split_and!; [done| |by apply Hh'|done|done|done].
  split; [|done]. unfold in_sync, wal_next in *. cbn. rewrite Hf, He, length_app, Hlr. lia.
Qed.

Lemma read_batch_leader p n compressed payload msgs i m :
  (forall c, batchCodec p = Some c -> Decode c compressed = Ok payload) ->
  (batchCodec p = None -> compressed = payload) ->
  payload = payload_of msgs -> Forall framable msgs -> msgs !! i = Some m ->
  n = Z.of_nat (length msgs) -> n < 2 ^ 32 ->
  readFromBatchData p (batch_record n compressed) (Z.of_nat i) = Ok (set_BatchDecoded (stored m)).
Proof.
  intros Hdec Hnone -> Hf Hi -> Hn. unfold readFromBatchData, batch_record.
  pose proof (lookup_lt_Some _ _ _ Hi) as Hlt.
  rewrite decide_False by (cbn [length]; rewrite length_app, length_be_put; cbn; intros [?|Hx]; [lia|done]).
  change (walBatchMagic :: ?x) with ([walBatchMagic] ++ x).
  rewrite read_be_mid by (by rewrite ?length_be_put). rewrite Ok_bind, be_get_put. unfold u32.
  rewrite Z.mod_mod, Z.mod_small by lia. rewrite (proj2 (Z.leb_gt _ _)) by lia.
  rewrite <- (app_nil_r compressed) at 1. rewrite app_assoc, subslice_app_mid
    by (rewrite ?length_app, ?length_be_put, ?app_nil_r; cbn; lia).
  rewrite Ok_bind, Nat2Z.id. destruct (batchCodec p) as [c|].
  - rewrite (Hdec c) by done. cbn [wrapf]. rewrite Ok_bind. by apply (scan_batch_spec msgs []).
  - rewrite Ok_bind, Hnone by done. by apply (scan_batch_spec msgs []).
Qed.

Lemma scan_batch_flag payload off left m : scan_batch payload off left = Ok m -> BatchDecoded m = true.
Proof.
  revert off. induction left as [|left IH]; intros off; rewrite scan_batch_eq; (case_decide; [done|]);
    rewrite bind_Ok; intros (lz & _ & Hm); cbn zeta in Hm; [|by eapply IH].
  revert Hm. case_decide; [done|]. rewrite bind_Ok. intros (d & _ & Hm). revert Hm. rewrite bind_Ok.
  by intros (m' & _ & [= <-]).
Qed.

Lemma readFromBatchData_flag p d i m : readFromBatchData p d i = Ok m -> BatchDecoded m = true.
Proof.
  unfold readFromBatchData. case_decide; [done|]. rewrite bind_Ok. intros (n & _ & Hm). revert Hm.
  destruct (n <=? i); [done|]. rewrite bind_Ok. intros (c & _ & Hm). revert Hm. rewrite bind_Ok.
  intros (pl & _ & Hm). by eapply scan_batch_flag.
Qed.

Lemma lookup_batch_records base n compressed i :
  (i < n)%nat ->
  batch_records base n compressed !! i =
    Some (match i with O => batch_record (Z.of_nat n) compressed
          | S _ => redirect_record base (Z.of_nat i) end).
Proof.
  intros Hi. destruct i as [|i]; [done|]. unfold batch_records.
  rewrite lookup_cons, list_lookup_fmap, lookup_seqZ_lt by lia. cbn [fmap option_fmap option_map]. do 2 f_equal. lia.
Qed.

Lemma Read_redirect p o base i :
  in_u64 base -> 0 <= i < 2 ^ 32 ->
  wal_Read (plog p) o = Ok (redirect_record base i) -> Read p o = readFromBatch p base i.
Proof.
  intros Hb Hi Hr. unfold Read, redirect_record in *. rewrite Hr. cbn [wrapf]. rewrite Ok_bind.
  rewrite decide_True by done. rewrite decide_False by (cbn [length]; rewrite length_app, !length_be_put; lia).
  change (walRedirectMagic :: ?x) with ([walRedirectMagic] ++ x).
  rewrite (read_be_mid _ _ _ 1 8) by (by rewrite ?length_be_put). rewrite Ok_bind, be_get_put.
  rewrite <- (app_nil_r (be_put 4 _)), app_assoc.
  rewrite (read_be_mid _ _ _ 9 4) by (by rewrite ?length_app, ?length_be_put).
  rewrite Ok_bind, be_get_put. unfold u32. rewrite Z.mod_mod, !Z.mod_small by (unfold in_u64 in *; lia). done.
Qed.

Lemma Read_batch_leader p o n compressed :
  wal_Read (plog p) o = Ok (batch_record n compressed) ->
  Read p o = readFromBatchData p (batch_record n compressed) 0.
Proof.
  intros Hr. unfold Read. rewrite Hr. cbn [wrapf]. rewrite Ok_bind. unfold batch_record at 1.
  rewrite decide_False by done. by rewrite decide_True by done.
Qed.

Lemma compressed_readable p base o n compressed msgs i m :
  in_u64 base -> o = base + Z.of_nat i ->
  (forall j d, batch_records base n compressed !! j = Some d -> wal_Read (plog p) (base + Z.of_nat j) = Ok d) ->
  (exists c, batchCodec p = Some c /\ Decode c compressed = Ok (payload_of msgs)) ->
  Forall framable msgs -> n = length msgs -> Z.of_nat n < 2 ^ 32 -> msgs !! i = Some m ->
  Read p o = Ok (set_BatchDecoded (stored m)).
Proof.
  intros Hb -> Hread (c & Hc & Hdec) Hf Hlen Hn Hi. pose proof (lookup_lt_Some _ _ _ Hi) as Hlt.
  assert (Hdata : readFromBatchData p (batch_record (Z.of_nat n) compressed) (Z.of_nat i) =
                  Ok (set_BatchDecoded (stored m))).
  { eapply read_batch_leader; [| |done|done|done|by rewrite Hlen|done].
    - intros c' Hc'. congruence.
    - congruence. }
  assert (H0 : wal_Read (plog p) (base + 0) = Ok (batch_record (Z.of_nat n) compressed)).
  { apply (Hread 0%nat). rewrite lookup_batch_records by lia. done. }
  rewrite Z.add_0_r in H0.
  pose proof (Hread i _ (lookup_batch_records base n compressed i ltac:(lia))) as Hri.
  destruct i as [|i].
  - rewrite Z.add_0_r. by rewrite (Read_batch_leader p base _ _ H0).
  - rewrite (Read_redirect p _ base (Z.of_nat (S i))) by (done || lia).
    unfold readFromBatch. rewrite H0. cbn [wrapf]. by rewrite Ok_bind.
Qed.

(** *** After a failed write *)

(** The partition's counter is past the log's next index. *)
Definition wedged p : Prop := wal_next (plog p) < nextOffset p.

Lemma append_wedged ck pool p msgs p' msgs' r :
  wedged p -> index_ok p -> msgs <> [] -> 0 <= nextOffset p ->
  nextOffset p + Z.of_nat (length msgs) < 2 ^ 64 ->
  AppendBatch ck pool p msgs = (p', msgs', r) ->
  (exists e, r = Err e) /\ wedged p' /\ index_ok p' /\ nextOffset p' = nextOffset p + Z.of_nat (length msgs).
Proof.
  intros Hw Hi Hne H0 Hb Happ.
  pose proof (AppendBatch_cases ck pool p msgs Hi Hne H0 Hb) as Hc. cbn zeta in Hc. rewrite Happ in Hc.
  destruct msgs as [|m ms]; [done|]. clear Hne.
  destruct Hc as [(Hs & _)|(e & He & [= -> -> ->])].
  - exfalso. revert Hs. cbn [length]. rewrite seqZ_S. cbn [fmap list_fmap zip zip_with].
    destruct (wal_WriteBatch _ _) as [l' r'] eqn:E. cbn [snd]. intros ->.
    apply wal_WriteBatch_Ok in E as (_ & _ & Hc & _). apply consecutive_head in Hc.
    unfold wedged, wal_next in Hw. lia.
  - split_and!; [eauto| |done|done]. unfold wedged, wal_next in *. cbn [plog written nextOffset].
    destruct (wal_WriteBatch _ _) as [l' r'] eqn:E. cbn [fst snd] in *. subst r'.
    apply wal_WriteBatch_fail in E as (_ & -> & ->); [|done]. lia.
Qed.

Fixpoint append_all ck pool p (batches : list (list Message)) : Partition * list (result (list Z)) :=
  match batches with
  | [] => (p, [])
  | msgs :: bs =>
      let '(p1, _, r) := AppendBatch ck pool p msgs in
      let '(p2, rs) := append_all ck pool p1 bs in (p2, r :: rs)
  end.

Definition batch_sizes (batches : list (list Message)) : Z :=
  zsum ((fun b => Z.of_nat (length b)) <$> batches).

Lemma append_all_wedged ck pool batches p :
  wedged p -> index_ok p -> Forall (fun b => b <> []) batches -> 0 <= nextOffset p ->
  nextOffset p + batch_sizes batches < 2 ^ 64 ->
  Forall (fun r => exists e, r = Err e) (snd (append_all ck pool p batches)).
Proof.
  intros Hw Hi Hne. revert p Hw Hi. induction Hne as [|b bs Hb Hbs IH]; intros p Hw Hi H0 Hs; [constructor|].
  unfold batch_sizes in *. cbn [fmap list_fmap] in Hs. change (zsum (?x :: ?l)) with (x + zsum l) in Hs.
  assert (0 <= zsum ((fun b => Z.of_nat (length b)) <$> bs)).
  { apply zsum_nonneg, Forall_fmap, Forall_true. intros. cbn. lia. }
  cbn [append_all]. destruct (AppendBatch ck pool p b) as [[p1 ms] r] eqn:E.
  apply append_wedged in E as (He & Hw1 & Hi1 & Hn1); [|done|done|done|done|lia].
  specialize (IH p1 Hw1 Hi1 ltac:(lia) ltac:(lia)).
  destruct (append_all ck pool p1 bs) as [p2 rs]. cbn in *. by constructor.
Qed.
End append_proofs.

(** ** Truncation *)

Section truncation.
Context {W : Wal} {L : WalLaws W} {K : Compressors}.
Implicit Types p : Partition.

(** The number of leading elements that satisfy [f]. *)
Fixpoint prefix_len {A} (f : A -> bool) (ds : list A) : nat :=
  match ds with
  | [] => 0
  | d :: ds' => if f d then S (prefix_len f ds') else 0
  end.

(** The record's header can be read and its timestamp is before the cutoff. *)
Definition older_than (cutoff : Z) (d : bytes) : bool :=
  match UnmarshalHeader d with Ok h => Timestamp h <? cutoff | _ => false end.

Definition byte_size (ds : list bytes) : Z := zsum ((fun d => Z.of_nat (length d)) <$> ds).

Lemma byte_size_app ds es : byte_size (ds ++ es) = byte_size ds + byte_size es.
Proof. unfold byte_size. by rewrite fmap_app, zsum_app. Qed.
Lemma byte_size_cons d ds : byte_size (d :: ds) = Z.of_nat (length d) + byte_size ds.
Proof. done. Qed.
Lemma byte_size_nonneg ds : 0 <= byte_size ds.
Proof. apply zsum_nonneg, Forall_fmap, Forall_true. intros. cbn. lia. Qed.

Lemma prefix_len_le {A} (f : A -> bool) ds : (prefix_len f ds <= length ds)%nat.
Proof. induction ds as [|d ds IH]; cbn; [lia|]. destruct (f d); lia. Qed.

Lemma prefix_len_fmap {A B} (f : B -> bool) (g : A -> B) xs : prefix_len f (g <$> xs) = prefix_len (f ∘ g) xs.
Proof. induction xs as [|x xs IH]; [done|]. cbn. by rewrite IH. Qed.

Lemma prefix_len_ext {A} (f g : A -> bool) xs : Forall (fun x => f x = g x) xs -> prefix_len f xs = prefix_len g xs.
Proof. induction 1 as [|x xs Hx _ IH]; [done|]. cbn. by rewrite Hx, IH. Qed.

Lemma prefix_len_all {A} (f : A -> bool) xs ys :
  Forall (fun x => f x = true) xs -> prefix_len f (xs ++ ys) = (length xs + prefix_len f ys)%nat.
Proof. induction 1 as [|x xs Hx _ IH]; [done|]. cbn. by rewrite Hx, IH. Qed.

(** The longest prefix on which [f] holds. *)
Lemma prefix_len_spec {A} (f : A -> bool) xs :
  Forall (fun x => f x = true) (take (prefix_len f xs) xs) /\
  forall x, xs !! prefix_len f xs = Some x -> f x = false.
Proof.
  induction xs as [|x xs [IH1 IH2]]; [by split|]. cbn. destruct (f x) eqn:E; cbn.
  - split; [by constructor|done].
  - split; [constructor|]. by intros y [= <-].
Qed.

(** Reading the entries of [ds] one after the other from [off]. *)
Definition holds_at (l : wlog) (off : Z) (ds : list bytes) : Prop :=
  forall i d, ds !! i = Some d -> wal_Read l (off + Z.of_nat i) = Ok d.

Lemma holds_at_cons l off d ds :
  holds_at l off (d :: ds) -> wal_Read l off = Ok d /\ holds_at l (off + 1) ds.
Proof.
  intros H. split; [by rewrite <- (Z.add_0_r off); apply (H 0%nat)|].
  intros i d' Hi. rewrite <- (H (S i) d' Hi). f_equal. lia.
Qed.

Lemma holds_at_entries l : wal_healthy l -> holds_at l (wal_first l) (wal_entries l).
Proof.
  intros Hh i d Hi. apply wal_Read_healthy; [done|lia|].
  by replace (Z.to_nat _) with i by lia.
Qed.

(** Where a scan that stopped after [k] of the entries leaves its counters. *)
Definition scanned (off : Z) (k : nat) (ds : list bytes) (acc : Z * Z * Z) : Z * Z * Z :=
  match k with
  | O => acc
  | S _ => (off + Z.of_nat k, snd (fst acc) + Z.of_nat k, snd acc + byte_size (take k ds))
  end.

Lemma scanned_S off k d ds t e s :
  scanned (off + 1) k ds (off + 1, e + 1, s + Z.of_nat (length d)) = scanned off (S k) (d :: ds) (t, e, s).
Proof.
  assert (Hp : forall (x y z x' y' z' : Z), x = x' -> y = y' -> z = z' -> (x, y, z) = (x', y', z')) by congruence.
  destruct k as [|k]; cbn [scanned fst snd take]; rewrite byte_size_cons; apply Hp; try lia.
  rewrite firstn_O. cbn. lia.
Qed.

Lemma scan_old_spec l cutoff off ds acc :
  holds_at l off ds ->
  scan_old l cutoff off (length ds) acc = scanned off (prefix_len (older_than cutoff) ds) ds acc.
Proof.
  revert off acc. induction ds as [|d ds IH]; intros off [[t e] s] Hd; [done|].
  apply holds_at_cons in Hd as [Hr Hd]. cbn [length scan_old prefix_len]. rewrite Hr.
  unfold older_than at 1. destruct (UnmarshalHeader d) as [h| |]; [|done..].
  destruct (Z.leb_spec cutoff (Timestamp h)); destruct (Z.ltb_spec (Timestamp h) cutoff); try lia; [done|].
  rewrite IH by done. apply scanned_S.
Qed.

(** TruncateFront at a scan's result, on every branch. *)
Definition removed (p : Partition) (k : nat) (p' : Partition) (r : result (Z * Z)) : Prop :=
  let ds := wal_entries (plog p) in
  nextOffset p' = nextOffset p /\
  (((k < length ds)%nat \/ k = 0%nat) /\ r = Ok (Z.of_nat k, byte_size (take k ds)) /\
     wal_first (plog p') = wal_first (plog p) + Z.of_nat k /\ wal_entries (plog p') = drop k ds \/
   ((0 < k)%nat /\ k = length ds /\ (exists e, r = Err e) /\
     wal_first (plog p') = wal_first (plog p) /\ wal_entries (plog p') = ds)).

Lemma truncate_at_spec p k :
  wal_healthy (plog p) -> (k <= length (wal_entries (plog p)))%nat ->
  let '(p', r) := truncate_at p (scanned (wal_first (plog p)) k (wal_entries (plog p)) (0, 0, 0)) in
  removed p k p' r.
Proof.
  intros Hh Hk. unfold removed. pose proof (wal_first_pos (plog p)) as H1.
  destruct k as [|k]; [cbn -[byte_size]; rewrite take_0, drop_0; split; [done|]; left; split_and!; eauto; lia|].
  cbn [scanned fst snd]. unfold truncate_at. zdec.
  destruct (wal_TruncateFront _ _) as [l' r] eqn:E. split; [done|].
  destruct (decide (S k = length (wal_entries (plog p)))) as [Heq|Hne].
  - right. assert (r <> Ok tt) as Hr by (intros ->; apply wal_TruncateFront_Ok in E as (? & _); lia).
    apply wal_TruncateFront_fail in E as ((e & ->) & Hf & He); [|done]. split_and!; [lia|done|eauto|done|done].
  - left. assert (Hr : snd (wal_TruncateFront (plog p) (wal_first (plog p) + Z.of_nat (S k))) = Ok tt)
      by (apply wal_TruncateFront_healthy; [done|lia]).
    rewrite E in Hr. cbn in Hr. subst r. apply wal_TruncateFront_Ok in E as (_ & Hf & He & _).
    split_and!; [lia|done|done|]. cbn [plog with_log written]. rewrite He. f_equal. lia.
Qed.

Lemma older_than_wire cutoff m : message_ok m -> older_than cutoff (wire m) = (Timestamp (Header m) <? cutoff).
Proof. intros [Hh _]. unfold older_than, wire. by rewrite UnmarshalHeader_wire. Qed.

Lemma older_than_redirect cutoff base i : older_than cutoff (redirect_record base i) = false.
Proof.
  unfold older_than, UnmarshalHeader, redirect_record. rewrite decide_True; [done|].
  cbn [length]. rewrite length_app, !length_be_put. change HeaderSize with 25%nat. lia.
Qed.

Lemma be_get_app l1 l2 : be_get (l1 ++ l2) = be_get l1 * 2 ^ (8 * Z.of_nat (length l2)) + be_get l2.
Proof.
  induction l1 as [|b l1 IH]; [done|]. cbn [app be_get]. rewrite IH, length_app.
  replace (8 * Z.of_nat (length l1 + length l2)) with (8 * Z.of_nat (length l1) + 8 * Z.of_nat (length l2)) by lia.
  rewrite Z.pow_add_r by lia. ring.
Qed.

(** The leader record of a compressed batch, taken for a message header: its
    timestamp would be made of the count and four bytes of the block. *)
Lemma older_than_leader cutoff n compressed :
  (20 <= length compressed)%nat -> 0 <= n < 2 ^ 30 -> (n + 1) * 2 ^ 32 <= cutoff ->
  older_than cutoff (batch_record n compressed) = true.
Proof.
  intros Hl Hn Hc. unfold older_than, UnmarshalHeader, batch_record. change HeaderSize with 25%nat.
  rewrite decide_False by (cbn [length]; rewrite length_app, length_be_put; lia).
  destruct (decodeHeader_spec (walBatchMagic :: be_put 4 (u32 n) ++ compressed)) as (h & -> & (Ht & _) & Hw).
  { change HeaderSize with 25%nat. cbn [length]. rewrite length_app, length_be_put. lia. }
  assert (Hb : exists c1 c2, compressed = c1 ++ c2 /\ length c1 = 4%nat).
  { exists (take 4 compressed), (drop 4 compressed). rewrite take_drop, length_take. split; [done|lia]. }
  destruct Hb as (c1 & c2 & -> & Hc1).
  assert (Hts : be_put 8 (u64 (Timestamp h)) = be_put 4 (u32 n) ++ c1).
  { apply (f_equal (take 9)) in Hw. rewrite take_take in Hw. change (9 `min` HeaderSize)%nat with 9%nat in Hw.
    unfold wire_header in Hw. cbn [app] in Hw. rewrite !firstn_cons in Hw. apply (f_equal (@tl byte)) in Hw. cbn [tl] in Hw.
    rewrite app_assoc, !take_app_length' in Hw by (by rewrite ?length_app, ?length_be_put, ?Hc1). done. }
  apply (f_equal be_get) in Hts. rewrite be_get_put, be_get_app, be_get_put, Hc1 in Hts.
  pose proof (be_get_range c1) as Hr. rewrite Hc1 in Hr.
  unfold u32, u64 in Hts. change (8 * Z.of_nat 8) with 64 in Hts. change (8 * Z.of_nat 4) with 32 in Hts, Hr.
  rewrite !Z.mod_mod in Hts by lia. rewrite (Z.mod_small n) in Hts by lia.
  apply Z.ltb_lt. unfold in_i64 in Ht. Z.div_mod_to_equations. nia.
Qed.

Lemma TruncateBefore_spec p cutoff :
  wal_healthy (plog p) -> in_sync p -> in_i64 cutoff ->
  let '(p', r) := TruncateBefore p cutoff in
  removed p (prefix_len (older_than cutoff) (wal_entries (plog p))) p' r.
Proof.
  intros Hh Hs Hc. unfold TruncateBefore. destruct (wal_FirstIndex_healthy _ Hh) as [i Hi]. rewrite Hi.
  apply wal_FirstIndex_Ok in Hi. pose proof (wal_first_pos (plog p)). case_decide as He; subst i.
  - cbn. rewrite He. unfold removed. rewrite He. cbn. split; [done|]. left. split_and!; [lia|done|lia|done].
  - zdec. cbn zeta. rewrite i64_small by done.
    replace (Z.to_nat (nextOffset p - _)) with (length (wal_entries (plog p)))
      by (unfold in_sync, wal_next in Hs; lia).
    rewrite scan_old_spec by (by apply holds_at_entries).
    apply truncate_at_spec; [done|apply prefix_len_le].
Qed.

(** The number of oldest entries to drop until the rest fits in [max] bytes. *)
Fixpoint excess_len (max : Z) (ds : list bytes) : nat :=
  match ds with
  | [] => 0
  | d :: ds' => if byte_size ds <=? max then 0 else S (excess_len max ds')
  end.

Lemma excess_len_spec max ds :
  (excess_len max ds <= length ds)%nat /\
  ((excess_len max ds < length ds)%nat -> byte_size (drop (excess_len max ds) ds) <= max) /\
  (forall j, (j < excess_len max ds)%nat -> max < byte_size (drop j ds)).
Proof.
  induction ds as [|d ds (IH1 & IH2 & IH3)]; [cbn; split_and!; intros; lia|]. cbn [excess_len].
  destruct (Z.leb_spec (byte_size (d :: ds)) max) as [Hle|Hgt].
  - split_and!; cbn [length]; [lia|done|intros; lia].
  - split_and!; cbn [length drop]; [lia|intros; apply IH2; lia|].
    intros [|j] Hj; [done|]. apply IH3. lia.
Qed.

Lemma total_size_spec l off ds : holds_at l off ds -> total_size l off (length ds) = byte_size ds.
Proof.
  revert off. induction ds as [|d ds IH]; intros off Hd; [done|].
  apply holds_at_cons in Hd as [Hr Hd]. cbn [length total_size]. by rewrite Hr, IH, byte_size_cons.
Qed.

Lemma scan_size_spec l max off ds acc :
  holds_at l off ds ->
  scan_size l max (byte_size ds) off (length ds) acc = scanned off (excess_len max ds) ds acc.
Proof.
  revert off acc. induction ds as [|d ds IH]; intros off [[t e] s] Hd; [done|].
  apply holds_at_cons in Hd as [Hr Hd]. cbn [length scan_size excess_len].
  destruct (byte_size (d :: ds) <=? max); [done|]. rewrite Hr.
  replace (byte_size (d :: ds) - Z.of_nat (length d)) with (byte_size ds) by (rewrite byte_size_cons; lia).
  rewrite IH by done. apply scanned_S.
Qed.

Lemma TruncateOldestUntilSize_spec p max :
  wal_healthy (plog p) -> in_sync p ->
  let '(p', r) := TruncateOldestUntilSize p max in
  removed p (excess_len max (wal_entries (plog p))) p' r.
Proof.
  intros Hh Hs. unfold TruncateOldestUntilSize. destruct (wal_FirstIndex_healthy _ Hh) as [i Hi]. rewrite Hi.
  apply wal_FirstIndex_Ok in Hi. pose proof (wal_first_pos (plog p)). case_decide as He; subst i.
  - cbn. unfold removed. rewrite He. cbn. split; [done|]. left. split_and!; [lia|done|lia|done].
  - zdec.
    replace (Z.to_nat (nextOffset p - _)) with (length (wal_entries (plog p)))
      by (unfold in_sync, wal_next in Hs; lia).
    cbn zeta. rewrite total_size_spec by (by apply holds_at_entries).
    destruct (excess_len_spec max (wal_entries (plog p))) as (Hle & _ & _).
    pose proof (truncate_at_spec p _ Hh Hle) as Ht.
    destruct (Z.leb_spec (byte_size (wal_entries (plog p))) max) as [Hfit|Hbig].
    + assert (excess_len max (wal_entries (plog p)) = 0%nat) as Hz.
      { destruct (wal_entries (plog p)); [done|]. cbn [excess_len]. by rewrite (proj2 (Z.leb_le _ _)). }
      rewrite Hz in *. exact Ht.
    + rewrite scan_size_spec by (by apply holds_at_entries). exact Ht.
Qed.
End truncation.
