(* ===== verification/PartitionProps.v ===== *)
(** * What a partition guarantees

    The theorems on src/pkg/broker/partition.go, over any write-ahead log and
    any compressors that satisfy their laws: appended messages are read back,
    offsets are never reused, retention removes exactly the records it should,
    and what happens to the records the format cannot tell apart.  The
    witnesses run on the log in memory. *)

From Stdlib Require Import Strings.Byte.
From stdpp Require Import sorting.
From S2P Require Import Prelude Message PriorityIndex Wal Compression GoFloat Config Partition.

(** ** The partition as a state machine *)

Section machine.
Context {W : Wal} {L : WalLaws W} {K : Compressors}.
Implicit Types p : Partition.

(** Offsets start at 1 and are never behind the log. *)
Definition part_inv p : Prop :=
  index_ok p /\ 1 <= nextOffset p /\ wal_next (plog p) <= nextOffset p.

Definition acked (r : result (list Z)) : list Z := match r with Ok offs => offs | _ => [] end.

(** A call on the partition; [n] messages were given to it, the offsets in
    the label were acknowledged. *)
Inductive pstep : Partition -> nat -> list Z -> Partition -> Prop :=
| step_AppendBatch ck pool p msgs p' msgs' r :
    AppendBatch ck pool p msgs = (p', msgs', r) -> pstep p (length msgs) (acked r) p'
| step_Append ck pool p msg p' msg' r :
    Append ck pool p msg = (p', msg', r) ->
    pstep p 1 (match r with Ok o => [o] | _ => [] end) p'
| step_AppendBatchCompressed ck p msgs codec p' msgs' r :
    AppendBatchCompressed ck p msgs codec = (p', msgs', r) -> pstep p (length msgs) (acked r) p'
| step_Rebuild p start committed p' r :
    Rebuild p start committed = (p', r) -> pstep p 0 [] p'
| step_TruncateFront p off p' r :
    TruncateFront p off = (p', r) -> pstep p 0 [] p'
| step_TruncateBefore p cutoff p' r :
    TruncateBefore p cutoff = (p', r) -> pstep p 0 [] p'
| step_TruncateOldestUntilSize p maxBytes p' r :
    TruncateOldestUntilSize p maxBytes = (p', r) -> pstep p 0 [] p'
| step_SetBatchCodec p c : pstep p 0 [] (SetBatchCodec c p)
| step_index p pi pi' :   (* a scheduler popped from, or promoted in, the index *)
    priorityIndex p = Some pi -> pi_wf pi' -> pstep p 0 [] (with_index p (Some pi')).

Inductive prun : Partition -> nat -> list Z -> Partition -> Prop :=
| prun_nil p : prun p 0 [] p
| prun_cons p n offs p1 m offs' p2 :
    pstep p n offs p1 -> prun p1 m offs' p2 -> prun p (n + m) (offs ++ offs') p2.

(** What an append does to the counters, whether it succeeds or not. *)
Definition append_outcome p (n : nat) (r : result (list Z)) p' : Prop :=
  part_inv p' /\ nextOffset p <= nextOffset p' <= nextOffset p + Z.of_nat n /\
  (forall offs, r = Ok offs -> offs = seqZ (nextOffset p) (Z.of_nat n) /\ nextOffset p' = nextOffset p + Z.of_nat n).

Lemma append_unchanged p n r : part_inv p -> (forall offs, r <> Ok offs) -> append_outcome p n r p.
Proof. intros Hp Hr. split; [done|split; [lia|]]. intros offs ->. by destruct (Hr offs). Qed.

Lemma append_empty p : part_inv p -> append_outcome p 0 (Ok []) p.
Proof. intros Hp. split; [done|split; [lia|]]. intros ? [= <-]. by rewrite Z.add_0_r. Qed.

(** The state after a write of [n] records, before the index is updated. *)
Lemma written_inv p b n :
  part_inv p -> length b = n ->
  wal_next (fst (wal_WriteBatch (plog p) b)) <= nextOffset p + Z.of_nat n.
Proof.
  intros (_ & _ & Hn) <-. destruct (wal_WriteBatch_cases (plog p) b) as [(l' & -> & Hf & He & _)|(l' & e & -> & Hf & He)];
    unfold wal_next in *; cbn [fst]; rewrite Hf, He; [rewrite length_app, length_fmap|]; lia.
Qed.

Lemma AppendBatch_outcome ck pool p msgs p' msgs' r :
  part_inv p -> nextOffset p + Z.of_nat (length msgs) < 2 ^ 64 ->
  AppendBatch ck pool p msgs = (p', msgs', r) -> append_outcome p (length msgs) r p'.
Proof.
  intros Hinv Hb Happ. destruct msgs as [|m ms].
  { unfold AppendBatch in Happ. rewrite decide_True in Happ by done. simplify_eq. by apply append_empty. }
  pose proof Hinv as (Hi & H1 & Hn).
  pose proof (AppendBatch_cases ck pool p (m :: ms) Hi ltac:(done) ltac:(lia) Hb) as Hc. cbn zeta in Hc.
  rewrite Happ in Hc. set (b := zip _ _) in Hc.
  assert (length b = length (m :: ms)) as Hlb.
  { subst b. rewrite length_zip_with, length_seqZ, !length_fmap. lia. }
  pose proof (written_inv p b _ Hinv Hlb) as Hw.
  destruct Hc as [(_ & pi & [= -> -> ->] & Hi')|(e & _ & [= -> -> ->])].
  - cbn [length] in *. split; [|cbn; split; [lia|by intros ? [= <-]]]. split_and!; [done|cbn; lia|done].
  - cbn [length] in *. split; [|cbn; split; [lia|done]]. split_and!; [done|cbn; lia|done].
Qed.

Lemma AppendBatchCompressed_outcome ck p msgs codec p' msgs' r :
  part_inv p -> nextOffset p + Z.of_nat (length msgs) < 2 ^ 64 ->
  AppendBatchCompressed ck p msgs codec = (p', msgs', r) -> append_outcome p (length msgs) r p'.
Proof.
  intros Hinv Hb. destruct msgs as [|m ms].
  { unfold AppendBatchCompressed. rewrite decide_True by done. intros [= <- <- <-]. by apply append_empty. }
  pose proof Hinv as (Hi & H1 & Hn). unfold AppendBatchCompressed. rewrite decide_False by done. cbn zeta.
  rewrite fill_payload_all by (by rewrite length_replicate). rewrite Ok_bind.
  destruct (wrapf "batch compress" _) as [compressed|e|]; [|intros [= <- <- <-]; by apply append_unchanged..].
  cbn [length] in Hb. replace (length (m :: ms) - 1)%nat with (length ms) by (cbn; lia).
  in_width. rewrite redirects_spec by lia.
  set (b := (_, _) :: zip _ _).
  assert (length b = length (m :: ms)) as Hlb.
  { subst b. cbn [length]. rewrite length_zip_with, length_fmap, !length_seqZ. lia. }
  pose proof (written_inv p b _ Hinv Hlb) as Hw. cbn [length] in *.
  destruct (wal_WriteBatch (plog p) b) as [l' w]. cbn [fst] in Hw.
  assert (Hinv' : forall pi, from_option pi_wf True pi ->
    part_inv (with_index (written p l' (nextOffset p + 1 + Z.of_nat (length ms)) (ck_flush ck)) pi)).
  { intros pi Hpi. split_and!; cbn; [done|lia|lia]. }
  destruct (wrapf _ w) as [[]|e|].
  - match goal with |- context [index_written ?q ?t ?a ?o] =>
      destruct (index_written_spec q t a o Hi) as (pi & -> & Hi') end.
    intros [= <- <- <-]. split; [by apply Hinv'|split; [cbn; lia|]].
    intros ? [= <-]. rewrite seqZ_S. cbn. split; [done|lia].
  - intros [= <- <- <-]. split; [by apply (Hinv' (priorityIndex p))|split; [cbn; lia|done]].
  - intros [= <- <- <-]. split; [by apply (Hinv' (priorityIndex p))|split; [cbn; lia|done]].
Qed.

Lemma wal_TruncateFront_next l i : wal_next (fst (wal_TruncateFront l i)) = wal_next l.
Proof.
  destruct (wal_TruncateFront l i) as [l' r] eqn:E. unfold wal_next. cbn [fst].
  destruct (decide (r = Ok tt)) as [->|Hr].
  - apply wal_TruncateFront_Ok in E as (? & -> & -> & _). rewrite length_drop. lia.
  - by apply wal_TruncateFront_fail in E as (_ & -> & ->).
Qed.

Lemma rebuild_loop_wf l committed pi off n :
  pi_wf pi -> pi_wf (fst (rebuild_loop l committed pi off n)).
Proof.
  revert pi off. induction n as [|n IH]; intros pi off Hwf; [done|]. cbn [rebuild_loop].
  destruct (wrapf _ (wal_Read l off)) as [d| |]; [|done..].
  destruct (committed off); [by apply IH|].
  destruct (wrapf _ (UnmarshalHeader d)) as [h| |]; [rewrite Ok_bind|done..].
  destruct (Add_spec pi (bval (Priority h)) (i64 off) (Timestamp h) Hwf) as (pi' & -> & Hwf' & _).
  by apply IH.
Qed.

(** The calls that leave the counter alone. *)
Lemma part_inv_log p l : part_inv p -> wal_next l = wal_next (plog p) -> part_inv (with_log p l).
Proof. intros (? & ? & ?) Hl. split_and!; [done|done|]. cbn. by rewrite Hl. Qed.

Lemma truncate_at_inv p acc : part_inv p -> part_inv (fst (truncate_at p acc)) /\ nextOffset (fst (truncate_at p acc)) = nextOffset p.
Proof.
  intros Hp. unfold truncate_at. destruct acc as [[t e] s]. destruct (0 <? t); [|done].
  pose proof (wal_TruncateFront_next (plog p) t) as Hn. destruct (wal_TruncateFront _ _) as [l r].
  split; [|done]. by apply part_inv_log.
Qed.

Lemma pstep_inv p n offs p' :
  pstep p n offs p' -> part_inv p -> nextOffset p + Z.of_nat n < 2 ^ 64 ->
  part_inv p' /\ nextOffset p <= nextOffset p' <= nextOffset p + Z.of_nat n /\
  (offs = [] \/ offs = seqZ (nextOffset p) (Z.of_nat n) /\ nextOffset p' = nextOffset p + Z.of_nat n).
Proof.
  assert (Hkeep : forall p p', part_inv p' -> nextOffset p' = nextOffset p ->
    part_inv p' /\ nextOffset p <= nextOffset p' <= nextOffset p + Z.of_nat 0 /\
    (@nil Z = [] \/ [] = seqZ (nextOffset p) (Z.of_nat 0) /\ nextOffset p' = nextOffset p + Z.of_nat 0)).
  { intros q q' Hq Hn. split; [done|]. split; [lia|]. by left. }
  assert (Hout : forall p n r p', append_outcome p n r p' ->
    part_inv p' /\ nextOffset p <= nextOffset p' <= nextOffset p + Z.of_nat n /\
    (acked r = [] \/ acked r = seqZ (nextOffset p) (Z.of_nat n) /\ nextOffset p' = nextOffset p + Z.of_nat n)).
  { intros q m r q' (Hi & Hn & Ho). split_and!; [apply Hi..|lia|lia|]. destruct r; [right; by apply Ho|by left..]. }
  destruct 1 as [ck pool p msgs p' msgs' r H|ck pool p msg p' msg' r H|ck p msgs codec p' msgs' r H
    |p start c p' r H|p off p' r H|p cutoff p' r H|p mx p' r H|p c|p pi pi' Hpi Hwf]; intros Hinv Hb.
  - eapply Hout, AppendBatch_outcome; eauto.
  - unfold Append in H. destruct (AppendBatch ck pool p [msg]) as [[p1 ms] r1] eqn:E.
    apply AppendBatch_outcome in E as Ho; [|done|done]. apply Hout in Ho. simplify_eq.
    destruct r1 as [os| |]; cbn [wrapf] in *; rewrite ?Ok_bind in *; [|exact Ho..].
    destruct Ho as (Hi & Hn & Ho). split; [done|]. split; [done|]. cbn [acked] in Ho.
    destruct Ho as [->|[-> Hn']]; [by left|]. right. by split.
  - eapply Hout, AppendBatchCompressed_outcome; eauto.
  - unfold Rebuild in H. destruct (priorityIndex p) as [pi|] eqn:Epi; [|simplify_eq; by apply Hkeep].
    pose proof Hinv as (Hi & H1 & Hn). unfold index_ok in Hi. rewrite Epi in Hi. cbn in Hi.
    pose proof (rebuild_loop_wf (plog p) c pi start (Z.to_nat (nextOffset p - start)) Hi) as Hwf.
    destruct (rebuild_loop _ _ _ _ _). simplify_eq. by apply Hkeep.
  - unfold TruncateFront in H. destruct (off <? 1); [simplify_eq; by apply Hkeep|].
    pose proof (wal_TruncateFront_next (plog p) off) as Hn. destruct (wal_TruncateFront _ _) as [l r'].
    simplify_eq. apply Hkeep; [|done]. by apply part_inv_log.
  - unfold TruncateBefore in H. repeat case_match; simplify_eq; try by apply Hkeep.
    match type of H with truncate_at ?p ?a = _ => destruct (truncate_at_inv p a Hinv); rewrite H in *; by apply Hkeep end.
  - unfold TruncateOldestUntilSize in H. repeat case_match; simplify_eq; try by apply Hkeep.
    match goal with H : truncate_at ?p ?a = _ |- _ => destruct (truncate_at_inv p a Hinv); rewrite H in *; by apply Hkeep end.
  - apply Hkeep; done.
  - apply Hkeep; [|done]. destruct Hinv as (_ & H1 & Hn). by split_and!.
Qed.
Lemma seqZ_sorted m n : StronglySorted Z.lt (seqZ m (Z.of_nat n)).
Proof.
  revert m. induction n as [|n IH]; intros m; [constructor|]. rewrite seqZ_S. constructor; [apply IH|].
  apply Forall_seqZ. lia.
Qed.

Lemma prun_inv p n offs p' :
  prun p n offs p' -> part_inv p -> nextOffset p + Z.of_nat n < 2 ^ 64 ->
  part_inv p' /\ nextOffset p <= nextOffset p' <= nextOffset p + Z.of_nat n /\
  StronglySorted Z.lt offs /\ Forall (fun o => nextOffset p <= o < nextOffset p') offs.
Proof.
  induction 1 as [p|p n offs p1 m offs' p2 Hs Hr IH]; intros Hinv Hb.
  { split_and!; [apply Hinv..|lia|lia|constructor|constructor]. }
  destruct (pstep_inv _ _ _ _ Hs Hinv ltac:(lia)) as (Hinv1 & Hn1 & Ho).
  destruct (IH Hinv1 ltac:(lia)) as (Hinv2 & Hn2 & Hss & Hall).
  split; [done|]. split; [lia|]. destruct Ho as [->|[-> Hn1']]; cbn [app].
  - split; [done|]. eapply list.Forall_impl; [exact Hall|]. cbn. lia.
  - assert (Hin : forall z, z ∈ seqZ (nextOffset p) (Z.of_nat n) -> nextOffset p <= z < nextOffset p1).
    { intros z Hz%elem_of_seqZ. lia. }
    split.
    + apply StronglySorted_app_2; [|apply seqZ_sorted|done].
      intros x y Hx%Hin Hy. rewrite list.Forall_forall in Hall. specialize (Hall y Hy). lia.
    + apply Forall_app. split; [apply list.Forall_forall; intros z Hz%Hin; lia|].
      eapply list.Forall_impl; [exact Hall|]. cbn. lia.
Qed.
End machine.

Section helpers.
Context {W : Wal} {L : WalLaws W} {K : Compressors}.
Implicit Types p : Partition.

(** [removed], with the branch decided by the entries. *)
Lemma removed_cases p k p' r :
  in_sync p -> removed p k p' r ->
  let ds := wal_entries (plog p) in
  in_sync p' /\
  if decide (k = length ds /\ ds <> [])
  then (exists e, r = Err e) /\ wal_entries (plog p') = ds /\ wal_first (plog p') = wal_first (plog p)
  else r = Ok (Z.of_nat k, byte_size (take k ds)) /\ wal_entries (plog p') = drop k ds /\
       wal_first (plog p') = wal_first (plog p) + Z.of_nat k.
Proof.
  unfold in_sync, wal_next, removed. intros Hs Hrem. cbn zeta in *. destruct Hrem as [Hn Hr].
  set (ds := wal_entries (plog p)) in *. destruct Hr as [(Hk & -> & Hf & He)|(H0 & Hk & Hr & Hf & He)].
  - rewrite decide_False by (intros [? Hne]; apply Hne, nil_length_inv; lia).
    rewrite Hf, He, Hn, length_drop. split; [lia|done].
  - rewrite decide_True by (split; [done|intros E; rewrite E in Hk; cbn in Hk; lia]). rewrite Hf, He, Hn. done.
Qed.

(** The entries the level [lvl] is owed: the offsets and timestamps of the
    uncommitted messages of that priority among [msgs], stored from [off] on. *)
Definition uncommitted_at (lvl : nat) (committed : Z -> bool) (off : Z) (msgs : list Message) : list PendingEntry :=
  omap (fun '(o, m) =>
          if negb (committed o) && bool_decide (Z.to_nat (clamp_priority (bval (Priority (Header m)))) = lvl)
          then Some (mkEntry (i64 o) (Timestamp (Header m))) else None)
    (zip (seqZ off (Z.of_nat (length msgs))) msgs).

Lemma uncommitted_at_cons lvl committed off m ms :
  uncommitted_at lvl committed off (m :: ms) =
  (if negb (committed off) && bool_decide (Z.to_nat (clamp_priority (bval (Priority (Header m)))) = lvl)
   then [mkEntry (i64 off) (Timestamp (Header m))] else []) ++ uncommitted_at lvl committed (off + 1) ms.
Proof.
  unfold uncommitted_at. cbn [length]. rewrite seqZ_S. cbn [zip zip_with omap list_omap].
  by destruct (negb _ && _).
Qed.

Lemma view_capped pi lvl q : pi_wf pi -> view pi !! lvl = Some q -> (0 < level_cap pi -> length q <= level_cap pi)%nat.
Proof.
  intros (_ & Hf & _) Hq. unfold view in Hq. rewrite list_lookup_fmap in Hq.
  destruct (levels pi !! lvl) as [lv|] eqn:El; [|done]. injection Hq as <-. rewrite length_contents.
  rewrite List.Forall_forall in Hf. destruct (Hf lv) as (_ & _ & H & _); [|exact H].
  apply list_elem_of_In, list_elem_of_lookup. by exists lvl.
Qed.

Lemma rebuild_loop_spec l committed msgs off pi :
  pi_wf pi -> Forall message_ok msgs -> holds_at l off (wire <$> msgs) ->
  exists pi', rebuild_loop l committed pi off (length msgs) = (pi', Ok tt) /\ pi_wf pi' /\
    forall lvl q, view pi !! lvl = Some q ->
      view pi' !! lvl = Some (keep_newest (level_cap pi) (q ++ uncommitted_at lvl committed off msgs)).
Proof.
  revert off pi. induction msgs as [|m ms IH]; intros off pi Hwf Hm Hd.
  { exists pi. split; [done|]. split; [done|]. intros lvl q Hq. cbn.
    rewrite app_nil_r, keep_newest_small; [done|]. by eapply view_capped. }
  apply List.Forall_cons_iff in Hm as [[Hh _] Hm]. apply (holds_at_cons l off (wire m)) in Hd as [Hr Hd].
  cbn [length rebuild_loop]. rewrite Hr. cbn [wrapf].
  destruct (committed off) eqn:Hco.
  { destruct (IH (off + 1) pi Hwf Hm Hd) as (pi' & -> & Hwf' & Hv'). exists pi'. split; [done|]. split; [done|].
    intros lvl q Hq. rewrite uncommitted_at_cons, Hco. by apply Hv'. }
  assert (UnmarshalHeader (wire m) = Ok (Header m)) as -> by (by apply UnmarshalHeader_wire).
  cbn [wrapf]. rewrite Ok_bind.
  destruct (Add_spec pi (bval (Priority (Header m))) (i64 off) (Timestamp (Header m)) Hwf)
    as (pi1 & -> & Hwf1 & Hv1 & Hc1).
  destruct (IH (off + 1) pi1 Hwf1 Hm Hd) as (pi' & -> & Hwf' & Hv').
  exists pi'. split; [done|]. split; [done|]. intros lvl q Hq. rewrite uncommitted_at_cons, Hco. cbn [negb andb].
  assert (Hcap : level_cap pi1 = level_cap pi) by (unfold level_cap; by rewrite Hc1). rewrite Hcap in Hv'.
  case_bool_decide as Hl.
  - subst lvl. rewrite (Hv' _ (fst (queue_push (level_cap pi) q (mkEntry (i64 off) (Timestamp (Header m)))))).
    + f_equal. apply keep_newest_push. by eapply view_capped.
    + rewrite Hv1, (list_lookup_total_correct _ _ _ Hq). apply list_lookup_insert_eq. by eapply lookup_lt_Some.
  - rewrite (Hv' lvl q); [done|]. by rewrite Hv1, list_lookup_insert_ne.
Qed.
End helpers.

(** ** Properties *)

Section properties.
  Context {W : Wal} {L : WalLaws W} {K : Compressors} {KL : CompressorLaws K}.
  Implicit Types p : Partition.

(** C4: Read-your-writes.  On a partition whose counter agrees with its log and
    whose log works, AppendBatch returns one offset per message, consecutive
    from the counter; reading any of them returns that message (with the append
    time stamped on it), every message that could be read before reads the same,
    and the partition is again in such a state.  The messages are well formed
    and their priority is not one of the two record magic numbers. *)
Theorem append_then_read (ck : AppendClock) (pool : nat -> bytes) (p : Partition) (msgs : list Message) :
  part_ok p -> wal_healthy (plog p) -> msgs <> [] -> in_i64 (ck_append ck) ->
  nextOffset p + Z.of_nat (length msgs) < 2 ^ 64 -> Forall storable msgs ->
  let '(p', msgs', r) := AppendBatch ck pool p msgs in
  r = Ok (seqZ (nextOffset p) (Z.of_nat (length msgs))) /\
  msgs' = set_AppendTime (ck_append ck) <$> msgs /\
  part_ok p' /\ wal_healthy (plog p') /\
  (forall i m, msgs' !! i = Some m -> Read p' (nextOffset p + Z.of_nat i) = Ok (stored m)) /\
  (forall o m, Read p o = Ok m -> Read p' o = Ok m).
Proof.
  intros Hok Hh Hne Ht Hb Hst.
  destruct (append_batch_success ck pool p msgs Hok Hh Hne Hb) as (p' & -> & Hok' & Hh' & Hc & Hn & Hf & He).
  split; [done|]. split; [done|]. split; [done|]. split; [done|]. split.
  - intros i m Hi. apply list_lookup_fmap_Some in Hi as (m0 & -> & Hi).
    destruct (Forall_lookup_1 _ _ _ _ Hst Hi) as (Hm & Hp1 & Hp2).
    apply entry_readable; [by apply message_ok_AppendTime|done|done|].
    destruct Hok as [Hs _]. rewrite Hs. eapply wal_Read_appended; [done|done|exact He|].
    by rewrite !list_lookup_fmap, Hi.
  - intros o m. by apply (Read_preserved p p' _ o m Hh' Hf He Hc).
Qed.

(** C5: The same for a batch stored compressed: every message of the batch is
    read back through the leader record or its redirect record, marked as
    decoded from a batch, and earlier messages still read the same.  The codec
    is the partition's batch codec, it compressed the payload, and each message
    fits the frame's 32-bit length. *)
Theorem compressed_append_then_read (ck : AppendClock) (p : Partition) (msgs : list Message) (codec : Codec)
    (compressed : bytes) :
  part_ok p -> wal_healthy (plog p) -> msgs <> [] -> in_i64 (ck_append ck) ->
  nextOffset p + Z.of_nat (length msgs) < 2 ^ 64 -> Z.of_nat (length msgs) < 2 ^ 32 ->
  Forall framable msgs -> batchCodec p = Some codec ->
  Encode codec (payload_of (set_AppendTime (ck_append ck) <$> msgs)) = Ok compressed ->
  let '(p', msgs', r) := AppendBatchCompressed ck p msgs codec in
  r = Ok (seqZ (nextOffset p) (Z.of_nat (length msgs))) /\
  msgs' = set_AppendTime (ck_append ck) <$> msgs /\
  part_ok p' /\ wal_healthy (plog p') /\
  (forall i m, msgs' !! i = Some m ->
     Read p' (nextOffset p + Z.of_nat i) = Ok (set_BatchDecoded (stored m))) /\
  (forall o m, Read p o = Ok m -> Read p' o = Ok m).
Proof.
  intros Hok Hh Hne Ht Hb Hn Hfr Hcodec Henc.
  pose proof (append_compressed_success ck p msgs codec compressed Hok Hh Hne Hb Henc)
    as (p' & -> & Hok' & Hh' & Hc & Hf & He).
  split; [done|]. split; [done|]. split; [done|]. split; [done|]. split.
  - intros i m Hi. pose proof (part_ok_nonneg p Hok) as H1. destruct Hok as [Hs _].
    eapply (compressed_readable p' (nextOffset p) _ (length msgs) compressed); [|done| | | | | |exact Hi].
    + unfold in_u64. lia.
    + intros j d Hj. rewrite Hs. eapply wal_Read_appended; [done|done|exact He|exact Hj].
    + exists codec. split; [by rewrite Hc|]. by apply codec_roundtrip.
    + apply Forall_fmap. eapply list.Forall_impl; [exact Hfr|]. intros m0 [Hm Hl].
      split; [by apply message_ok_AppendTime|done].
    + by rewrite length_fmap.
    + done.
  - intros o m. by apply (Read_preserved p p' _ o m Hh' Hf He Hc).
Qed.
(** The two magic numbers and the priority byte share the first byte of a
    record.  A message whose priority is 0xBA or 0xFF is accepted and gets an
    offset, but reading that offset never returns the message: the record is
    taken for a batch or redirect record, so the read fails or returns a message
    decoded out of a batch. *)
Theorem magic_priority_unreadable (ck : AppendClock) (pool : nat -> bytes) (p : Partition) (m : Message) :
  part_ok p -> wal_healthy (plog p) -> nextOffset p + 1 < 2 ^ 64 ->
  Priority (Header m) = walBatchMagic \/ Priority (Header m) = walRedirectMagic ->
  let '(p', m', r) := Append ck pool p m in
  r = Ok (nextOffset p) /\
  wal_Read (plog p') (nextOffset p) = Ok (wire m') /\
  (forall m2, Read p' (nextOffset p) = Ok m2 -> BatchDecoded m2 = true /\ m2 <> stored m').
Proof.
  intros Hok Hh Hb Hp. unfold Append.
  destruct (append_batch_success ck pool p [m] Hok Hh ltac:(done) Hb) as (p' & -> & _ & Hh' & _ & _ & Hf & He).
  cbn [wrapf]. split; [done|]. cbn [fmap list_fmap] in He.
  assert (Hr : wal_Read (plog p') (nextOffset p) = Ok (wire (set_AppendTime (ck_append ck) m))).
  { destruct Hok as [Hs _]. rewrite Hs, <- (Z.add_0_r (wal_next _)).
    eapply (wal_Read_appended _ _ _ 0); [done|done|exact He|done]. }
  split; [exact Hr|]. intros m2 Hm2.
  assert (Hd : BatchDecoded m2 = true).
  { unfold Read in Hm2. rewrite Hr in Hm2. cbn [wrapf] in Hm2. rewrite Ok_bind in Hm2.
    revert Hm2. unfold wire at 1, wire_header at 1. cbn [app Header set_AppendTime Priority].
    case_decide; [|case_decide; [|tauto]].
    - case_decide; [done|]. rewrite bind_Ok. intros (base & _ & Hm2). revert Hm2. rewrite bind_Ok.
      intros (i & _ & Hm2). revert Hm2. unfold readFromBatch. rewrite bind_Ok. intros (d & _ & Hm2).
      by eapply readFromBatchData_flag.
    - by apply readFromBatchData_flag. }
  split; [done|]. by intros ->.
Qed.

(** A write that fails costs the partition its future: once AppendBatch has
    returned a write error, the counter is past the log's next index for good,
    and every later batch is refused. *)
Theorem failed_write_wedges (ck : AppendClock) (pool : nat -> bytes) (p : Partition) (msgs : list Message)
    (batches : list (list Message)) :
  part_ok p -> msgs <> [] -> Forall (fun b => b <> []) batches ->
  nextOffset p + Z.of_nat (length msgs) + batch_sizes batches < 2 ^ 64 ->
  let '(p', _, r) := AppendBatch ck pool p msgs in
  (exists e, r = Err e) ->
  wal_entries (plog p') = wal_entries (plog p) /\ wedged p' /\
  Forall (fun r => exists e, r = Err e) (snd (append_all ck pool p' batches)).
Proof.
  intros Hok Hne Hbs Hb. pose proof (part_ok_nonneg p Hok) as H1. pose proof Hok as [Hs Hi].
  assert (0 <= batch_sizes batches) by (apply zsum_nonneg, Forall_fmap, Forall_true; intros; cbn; lia).
  pose proof (AppendBatch_cases ck pool p msgs Hi Hne ltac:(lia) ltac:(lia)) as Hc. cbn zeta in Hc.
  destruct Hc as [(_ & pi & -> & _)|(e & He & ->)]; [by intros [? ?]|]. intros _.
  destruct msgs as [|m ms]; [done|]. destruct (wal_WriteBatch _ _) as [l' w] eqn:E. cbn [fst snd] in *. subst w.
  apply wal_WriteBatch_fail in E as (_ & Hf & He); [|done].
  split; [done|].
  match goal with |- wedged ?q /\ _ => assert (wedged q) as Hw end.
  { unfold wedged, in_sync, wal_next in *. cbn. rewrite Hf, He. lia. }
  split; [done|]. apply append_all_wedged; [done|done|done|cbn in *; lia..].
Qed.
(** C6: Offsets are never handed out twice.  Along any sequence of calls on a
    partition (appends that succeed or fail, compressed appends, rebuilds,
    truncations, a scheduler popping the index) the acknowledged offsets are
    strictly increasing, lie between the counter before and after, the counter
    is never behind the log and the priority index stays well formed.  The
    counter does not reach 2^64. *)
Theorem partition_invariant (p : Partition) (n : nat) (offs : list Z) (p' : Partition) :
  part_inv p -> prun p n offs p' -> nextOffset p + Z.of_nat n < 2 ^ 64 ->
  part_inv p' /\ StronglySorted Z.lt offs /\
  Forall (fun o => nextOffset p <= o < nextOffset p') offs.
Proof. intros Hinv Hr Hb. by destruct (prun_inv p n offs p' Hr Hinv Hb) as (? & _ & ? & ?). Qed.


(** Compressed batches and the cutoff.  The scan takes the leader record of a
    compressed batch for a message and reads its timestamp out of the count and
    the compressed bytes, a few seconds after 1970, and it stops at the first
    redirect record, which is too short for a header.  So when the messages
    before the batch are older than the cutoff, the leader record, which holds
    the whole batch, is removed however young its messages are, and the
    redirect records stay: none of the batch's messages can be read again. *)
Theorem TruncateBefore_cuts_batch (p : Partition) (cutoff : Z) (msgs : list Message) (n : nat) (compressed : bytes)
    (rest : list bytes) :
  wal_healthy (plog p) -> in_sync p -> in_i64 cutoff -> nextOffset p < 2 ^ 64 ->
  let base := wal_first (plog p) + Z.of_nat (length msgs) in
  wal_entries (plog p) = (wire <$> msgs) ++ batch_records base n compressed ++ rest ->
  Forall (fun m => message_ok m /\ Timestamp (Header m) < cutoff) msgs ->
  (2 <= n)%nat -> Z.of_nat n < 2 ^ 30 -> (20 <= length compressed)%nat -> (Z.of_nat n + 1) * 2 ^ 32 <= cutoff ->
  exists p' size, TruncateBefore p cutoff = (p', Ok (Z.of_nat (length msgs) + 1, size)) /\
    wal_first (plog p') = base + 1 /\
    forall i m, (i < n)%nat -> Read p' (base + Z.of_nat i) <> Ok m.
Proof.
  intros Hh Hs Hc Hb base He Hm Hn Hn' Hl Hlead. pose proof (TruncateBefore_spec p cutoff Hh Hs Hc) as Ht.
  destruct (TruncateBefore p cutoff) as [p' r]. unfold batch_records in He.
  destruct n as [|[|n]]; [lia|lia|]. cbn [Nat.sub] in He. rewrite (seqZ_S 1) in He. cbn [fmap list_fmap app] in He.
  assert (Hk : prefix_len (older_than cutoff) (wal_entries (plog p)) = (length msgs + 1)%nat).
  { rewrite He, prefix_len_all, length_fmap.
    - cbn [prefix_len]. rewrite older_than_leader, older_than_redirect by (done || lia). lia.
    - apply Forall_fmap. eapply list.Forall_impl; [exact Hm|]. intros m [Hok Hlt].
      unfold compose; rewrite older_than_wire by done; by apply Z.ltb_lt. }
  rewrite Hk in Ht. pose proof (wal_first_pos (plog p)) as H1.
  assert (Hlen : (length msgs + 1 < length (wal_entries (plog p)))%nat).
  { rewrite He, length_app, length_fmap. cbn [length]. lia. }
  destruct Ht as (_ & [(_ & -> & Hf & He')|(_ & ? & _)]); [|lia].
  eexists p', _. split; [do 3 f_equal; lia|]. split; [rewrite Hf; unfold base; lia|].
  assert (Hgone : forall i m, readFromBatch p' base i <> Ok m).
  { intros i m. unfold readFromBatch. rewrite bind_Ok. intros (d & Hd%wrapf_Ok & _).
    apply wal_Read_Ok in Hd as [Hd _]. unfold base in Hd. lia. }
  intros i m Hi Hread. destruct i as [|i].
  - unfold Read in Hread. rewrite bind_Ok in Hread. destruct Hread as (d & Hd%wrapf_Ok & _).
    apply wal_Read_Ok in Hd as [Hd _]. unfold base in Hd. lia.
  - assert (Hr : forall d, wal_Read (plog p') (base + Z.of_nat (S i)) = Ok d -> d = redirect_record base (Z.of_nat (S i))).
    { intros d [_ Hd]%wal_Read_Ok. rewrite He', He, Hf in Hd. unfold base in Hd.
      replace (Z.to_nat _) with i in Hd by lia.
      rewrite lookup_drop, lookup_app_r, length_fmap in Hd by (rewrite length_fmap; lia).
      replace (length msgs + 1 + i - length msgs)%nat with (S i) in Hd by lia. cbn [lookup list_lookup] in Hd.
      destruct i as [|i]; [by injection Hd as <-|].
      change (((redirect_record base <$> seqZ 2 (Z.of_nat n)) ++ rest) !! i = Some d) in Hd.
      rewrite lookup_app_l in Hd by (rewrite length_fmap, length_seqZ; lia).
      rewrite list_lookup_fmap, lookup_seqZ_lt in Hd by lia. cbn in Hd. injection Hd as <-. f_equal. lia. }
    pose proof Hread as Hrd. unfold Read in Hrd. rewrite bind_Ok in Hrd. destruct Hrd as (d & Hd%wrapf_Ok & _).
    pose proof (Hr d Hd) as ->. rewrite (Read_redirect p' _ base (Z.of_nat (S i))) in Hread; [| |split; lia|exact Hd].
    + by apply Hgone in Hread.
    + unfold in_sync, wal_next in Hs. unfold in_u64, base. lia.
Qed.

(** Retention by size.  On a working log TruncateOldestUntilSize removes
    the fewest oldest records that leave at most [maxBytes] bytes; when even the
    newest record alone is larger it returns an error and removes nothing. *)
Theorem TruncateOldestUntilSize_minimal (p : Partition) (maxBytes : Z) :
  wal_healthy (plog p) -> in_sync p ->
  let ds := wal_entries (plog p) in
  let '(p', r) := TruncateOldestUntilSize p maxBytes in
  in_sync p' /\
  ((exists k, r = Ok (Z.of_nat k, byte_size (take k ds)) /\ wal_entries (plog p') = drop k ds /\
      wal_first (plog p') = wal_first (plog p) + Z.of_nat k /\
      (ds = [] \/ byte_size (drop k ds) <= maxBytes) /\
      forall j, (j < k)%nat -> maxBytes < byte_size (drop j ds)) \/
   ((exists e, r = Err e) /\ wal_entries (plog p') = ds /\ wal_first (plog p') = wal_first (plog p) /\
      exists last, drop (length ds - 1) ds = [last] /\ maxBytes < Z.of_nat (length last))).
Proof.
  intros Hh Hs ds. pose proof (TruncateOldestUntilSize_spec p maxBytes Hh Hs) as Ht.
  destruct (TruncateOldestUntilSize p maxBytes) as [p' r].
  destruct (excess_len_spec maxBytes ds) as (Hle & Hfit & Hmin). fold ds in Ht.
  destruct (removed_cases _ _ _ _ Hs Ht) as [Hs' Hc]. split; [exact Hs'|]. fold ds in Hc. case_decide as Hk.
  - right. destruct Hc as (? & ? & ?), Hk as [Hk Hne]. split_and!; [done..|].
    assert (Hl : length (drop (length ds - 1) ds) = 1%nat).
    { rewrite length_drop. destruct ds; [done|cbn; lia]. }
    specialize (Hmin (length ds - 1)%nat ltac:(destruct ds; [done|cbn in *; lia])).
    revert Hl Hmin. destruct (drop (length ds - 1) ds) as [|d [|]]; [done| |done]. intros _ Hmin.
    exists d. split; [done|]. cbn in Hmin. lia.
  - left. destruct Hc as (-> & -> & ->). eexists. split_and!; [done..| |done].
    destruct (decide (ds = [])) as [|Hne]; [by left|]. right. apply Hfit.
    destruct (decide (excess_len maxBytes ds = length ds)); [by destruct Hk|lia].
Qed.

(** Rebuild does not empty the index first: called again it adds every entry a
    second time. *)
Example Rebuild_twice :
  let m := mkMessage (mkHeader x02 7 7 7) [] [] false in
  let p := mkPartition (W := mem_wal) 0 "t" (mkMem 0 [wire m] false) 2 (Some (NewPriorityIndex [])) ModeFIFO 0 None in
  let again := fst (Rebuild (fst (Rebuild p 1 (fun _ => false))) 1 (fun _ => false)) in
  (fun pi => view pi !! 2%nat) <$> priorityIndex again = Some (Some [mkEntry 1 7; mkEntry 1 7]).
Proof. vm_compute. reflexivity. Qed.

(** A compressed batch of two or more messages leaves redirect records in
    the log, which are shorter than a message header: Rebuild fails on the first
    one it meets that is not committed, so an index cannot be rebuilt over
    such a log. *)
Theorem Rebuild_fails_on_redirect (p : Partition) (pi : PriorityIndex) (start base i : Z)
    (isCommitted : Z -> bool) :
  priorityIndex p = Some pi -> start < nextOffset p ->
  wal_Read (plog p) start = Ok (redirect_record base i) -> isCommitted start = false ->
  exists e, Rebuild p start isCommitted = (p, Err e).
Proof.
  intros Hpi Hst Hr Hc. unfold Rebuild. rewrite Hpi.
  replace (Z.to_nat (nextOffset p - start)) with (S (Z.to_nat (nextOffset p - start - 1))) by lia.
  cbn [rebuild_loop]. rewrite Hr, Hc. cbn [wrapf].
  assert (exists e, UnmarshalHeader (redirect_record base i) = Err e) as [e ->].
  { unfold UnmarshalHeader, redirect_record. rewrite decide_True; [by eexists|].
    cbn [length]. rewrite length_app, !length_be_put. change HeaderSize with 25%nat. lia. }
  cbn [wrapf mbind result_bind]. eexists. destruct p. cbn in *. by subst.
Qed.
End properties.

(** ** The properties at concrete partitions *)

Definition sample_clock : AppendClock := mkClock 1000 20 1020.
Definition no_pool : nat -> bytes := fun _ => [].
Definition msg (prio : byte) (ts : Z) (key value : bytes) : Message :=
  mkMessage (mkHeader prio ts ts 0) key value false.

Definition mem_partition (log : memlog) (next : Z) (pi : option PriorityIndex) (c : option Codec) : Partition (W := mem_wal) :=
  mkPartition (W := mem_wal) 0 "orders" log next pi ModeFIFO 0 c.

(** A log whose first record has been truncated away, with two records left. *)
Definition old_msgs : list Message := [msg x01 500 [] [x61]; msg x02 900 [x6b] [x62]].
Definition sample_log : memlog := mkMem 1 (wire <$> old_msgs) false.
Definition sample_partition : Partition := mem_partition sample_log 4 (Some sample_index) (Some snappyCodec).

Lemma sample_part_ok : part_ok sample_partition.
Proof. split; [reflexivity|]. exact sample_index_wf. Qed.

Lemma msg_ok prio ts key value :
  in_i64 ts -> Z.of_nat (length key) < 2 ^ 32 -> message_ok (msg prio ts key value).
Proof. intros Ht Hk. split; [|exact Hk]. split_and!; [done|done|]. cbn. unfold in_i64. lia. Qed.

Lemma old_msgs_ok : Forall message_ok old_msgs.
Proof. by repeat (constructor; [apply msg_ok; [unfold in_i64; lia|cbn; lia]|]). Qed.

Definition new_msgs : list Message := [msg x09 1 [x41] [x78; x79]; msg x00 2 [] []; msg x05 3 [] [xba]].

Lemma new_msgs_framable : Forall framable new_msgs.
Proof. repeat constructor; cbn; unfold in_i64; lia. Qed.

Lemma new_msgs_storable : Forall storable new_msgs.
Proof.
  pose proof new_msgs_framable as H. repeat (apply List.Forall_cons_iff in H as [[? _] H]).
  repeat constructor; done.
Qed.

Lemma append_then_read_witness :
  Forall storable new_msgs /\
  snd (AppendBatch sample_clock no_pool sample_partition new_msgs) = Ok [4; 5; 6].
Proof.
  split; [exact new_msgs_storable|].
  pose proof (append_then_read sample_clock no_pool sample_partition new_msgs sample_part_ok eq_refl
    ltac:(done) ltac:(cbn; unfold in_i64; lia) ltac:(cbn; lia) new_msgs_storable) as Happ.
  destruct (AppendBatch _ _ _ _) as [[p' ms] r]. exact (proj1 Happ).
Defined.

Lemma compressed_append_then_read_witness :
  exists p', AppendBatchCompressed sample_clock sample_partition new_msgs snappyCodec =
      (p', set_AppendTime 1000 <$> new_msgs, Ok [4; 5; 6]) /\
    Read p' 6 = Ok (mkMessage (mkHeader x05 3 3 1000) [] [xba] true).
Proof.
  pose proof (compressed_append_then_read sample_clock sample_partition new_msgs snappyCodec
    (x01 :: payload_of (set_AppendTime 1000 <$> new_msgs)) sample_part_ok eq_refl
    ltac:(done) ltac:(cbn; unfold in_i64; lia) ltac:(cbn; lia) ltac:(cbn; lia) new_msgs_framable
    eq_refl eq_refl) as Happ.
  destruct (AppendBatchCompressed _ _ _ _) as [[p' ms] r]. destruct Happ as (-> & -> & _ & _ & Hr & _).
  exists p'. split; [reflexivity|]. exact (Hr 2%nat _ eq_refl).
Defined.

Lemma magic_priority_unreadable_witness :
  exists p' m', Append sample_clock no_pool sample_partition (msg xba 7 [] [x61]) = (p', m', Ok 4) /\
    forall m2, Read p' 4 = Ok m2 -> BatchDecoded m2 = true /\ m2 <> stored m'.
Proof.
  pose proof (magic_priority_unreadable sample_clock no_pool sample_partition (msg xba 7 [] [x61])
    sample_part_ok eq_refl ltac:(cbn; lia) (or_introl eq_refl)) as Happ.
  destruct (Append _ _ _ _) as [[p' m'] r]. destruct Happ as (-> & _ & Hr). exists p', m'. by split.
Defined.

(** A log whose next write fails. *)
Definition failing_partition : Partition := mem_partition (mkMem 0 [] true) 1 None None.

Lemma failed_write_wedges_witness :
  exists p' ms e, AppendBatch sample_clock no_pool failing_partition new_msgs = (p', ms, Err e) /\
    Forall (fun r => exists e, r = Err e) (snd (append_all sample_clock no_pool p' [old_msgs; new_msgs])).
Proof.
  pose proof (failed_write_wedges sample_clock no_pool failing_partition new_msgs [old_msgs; new_msgs]
    (conj eq_refl I) ltac:(done) ltac:(by repeat constructor) ltac:(vm_compute; reflexivity)) as Happ.
  destruct (AppendBatch _ _ _ _) as [[p' ms] r] eqn:E. vm_compute in E. injection E as <- <- <-.
  eexists _, _, _. split; [reflexivity|]. by destruct Happ as (_ & _ & H); [eexists|].
Defined.

Lemma partition_invariant_witness :
  exists p', prun sample_partition 3 [4; 5; 6] p' /\ part_inv p'.
Proof.
  destruct (AppendBatch sample_clock no_pool sample_partition new_msgs) as [[p1 ms] r] eqn:E.
  assert (Hr : r = Ok [4; 5; 6]) by (apply (f_equal snd) in E; vm_compute in E; exact (eq_sym E)).
  subst r. exists p1.
  assert (Hrun : prun sample_partition 3 [4; 5; 6] p1).
  { exact (prun_cons _ 3 [4; 5; 6] _ 0 [] _ (step_AppendBatch _ _ _ _ _ _ _ E) (prun_nil p1)). }
  split; [exact Hrun|].
  apply (partition_invariant sample_partition 3 [4; 5; 6] p1); [|exact Hrun|cbn; lia].
  split_and!; [exact sample_index_wf|cbn; lia|reflexivity].
Defined.


(** A young batch (its messages' times are not even in the records the scan
    reads) behind an old message. *)
Definition batch_partition : Partition :=
  mem_partition (mkMem 0 ([wire (msg x01 500 [] [x61])] ++ batch_records 2 2 (replicate 20 x41) ++ []) false) 4 None None.

Lemma TruncateBefore_cuts_batch_witness :
  exists p' size, TruncateBefore batch_partition (2 ^ 40) = (p', Ok (2, size)) /\
    forall m, Read p' 2 <> Ok m /\ Read p' 3 <> Ok m.
Proof.
  destruct (TruncateBefore_cuts_batch batch_partition (2 ^ 40) [msg x01 500 [] [x61]] 2 (replicate 20 x41) [])
    as (p' & size & Ht & _ & Hr); try (cbn; lia); try reflexivity.
  - unfold in_i64. lia.
  - repeat constructor; cbn; unfold in_i64; lia.
  - exists p', size. split; [exact Ht|]. intros m. split; [exact (Hr 0%nat m ltac:(lia))|exact (Hr 1%nat m ltac:(lia))].
Defined.

Lemma TruncateOldestUntilSize_minimal_witness :
  exists p', TruncateOldestUntilSize sample_partition 31 = (p', Ok (1, 30)) /\ in_sync p'.
Proof.
  pose proof (TruncateOldestUntilSize_minimal sample_partition 31 eq_refl eq_refl) as Ht.
  cbn zeta in Ht. destruct (TruncateOldestUntilSize _ _) as [p' r] eqn:E. exists p'. split; [|exact (proj1 Ht)].
  apply (f_equal snd) in E. vm_compute in E. by rewrite E.
Defined.


Definition redirect_partition : Partition :=
  mem_partition (mkMem 0 [batch_record 2 []; redirect_record 1 1] false) 3 (Some sample_index) None.

Lemma Rebuild_fails_on_redirect_witness :
  exists e, Rebuild redirect_partition 2 (fun _ => false) = (redirect_partition, Err e).
Proof.
  apply (Rebuild_fails_on_redirect redirect_partition sample_index 2 1 1 (fun _ => false)); [|cbn; lia|..]; reflexivity.
Defined.
