(* ===== verification/Topic.v ===== *)
(** * Topics (src/pkg/broker/topic.go)

    A topic owns its partitions.  Creating one opens a log per partition;
    closing one closes them all and reports the first error. *)

From S2P Require Import Prelude Message PriorityIndex Wal Compression GoFloat Config Partition.

Section topic.
Context {W : Wal} {K : Compressors}.

Record Topic : Type := mkTopic {
  t_name : string;
  partitions : list Partition;
  t_config : TopicConfig;
  t_closed : bool;
}.

Definition set_NumPartitions (v : Z) (c : TopicConfig) : TopicConfig :=
  mkTopicConfig (tc_ScheduleMode c) v (PriorityLevels c) (AntiStarvationTTL c) (DQNThrottleOnLoad c).

(** The loop [for i := 0; i < cfg.NumPartitions; i++] of NewTopic.  When a
    partition cannot be opened the ones before it are closed and dropped. *)
Fixpoint open_partitions {F : Filepath} (name dataDir : string) (mode : ScheduleMode)
    (syncPolicy : SyncPolicy) (i : Z) (n : nat) : result (list Partition) :=
  match n with
  | O => Ok []
  | S n' =>
      p ← wrapf "create partition %d for topic %q" (NewPartition i name dataDir mode syncPolicy);
      ps ← open_partitions name dataDir mode syncPolicy (i + 1) n';
      Ok (p :: ps)
  end.

Definition NewTopic {F : Filepath} (name dataDir : string) (cfg : TopicConfig) (syncPolicy : SyncPolicy)
    : result Topic :=
  let cfg := if NumPartitions cfg <=? 0 then set_NumPartitions 4 cfg else cfg in
  ps ← open_partitions name dataDir (tc_ScheduleMode cfg) syncPolicy 0 (Z.to_nat (NumPartitions cfg));
  Ok (mkTopic name ps cfg false).

Definition t_NumPartitions (t : Topic) : Z := Z.of_nat (length (partitions t)).

(** The method [Partition(id)]. *)
Definition topic_Partition (t : Topic) (id : Z) : result Partition :=
  if (id <? 0) || (t_NumPartitions t <=? id) then Err (Errorf "partition %d out of range [0, %d)")
  else index (partitions t) (Z.to_nat id).

(** The partition a method was called on is shared by reference: the topic holds
    its state after the call. *)
Definition with_partition (t : Topic) (id : Z) (p : Partition) : Topic :=
  mkTopic (t_name t) (<[Z.to_nat id := p]> (partitions t)) (t_config t) (t_closed t).

Definition IsClosed (t : Topic) : bool := t_closed t.

Fixpoint close_partitions (ps : list Partition) (firstErr : option error) : list Partition * option error :=
  match ps with
  | [] => ([], firstErr)
  | p :: ps' =>
      let '(p', r) := Partition.Close p in
      let firstErr := match firstErr, r with None, Err e => Some e | _, _ => firstErr end in
      let '(ps'', e) := close_partitions ps' firstErr in (p' :: ps'', e)
  end.

Definition topic_Close (t : Topic) : Topic * result unit :=
  let '(ps, firstErr) := close_partitions (partitions t) None in
  (mkTopic (t_name t) ps (t_config t) true,
   match firstErr with Some e => Err e | None => Ok tt end).

(** ** Lemmas *)

Lemma topic_Partition_spec t id :
  match topic_Partition t id with
  | Ok p => 0 <= id < t_NumPartitions t /\ partitions t !! Z.to_nat id = Some p
  | Err _ => id < 0 \/ t_NumPartitions t <= id
  | Panic => False
  end.
Proof.
  unfold topic_Partition, t_NumPartitions.
  destruct (Z.ltb_spec id 0); cbn [orb]; [lia|].
  destruct (Z.leb_spec (Z.of_nat (length (partitions t))) id); [lia|].
  unfold index. destruct (partitions t !! Z.to_nat id) as [p|] eqn:E; cbn; [split; [lia|done]|].
  apply lookup_ge_None in E. lia.
Qed.

Lemma topic_Partition_Ok t id p :
  topic_Partition t id = Ok p <-> 0 <= id /\ partitions t !! Z.to_nat id = Some p.
Proof.
  pose proof (topic_Partition_spec t id) as H. split; [intros E; rewrite E in H; by destruct H as [[? _] ?]|].
  intros [H0 Hl]. pose proof (lookup_lt_Some _ _ _ Hl). unfold t_NumPartitions in H.
  destruct (topic_Partition t id) as [q| |] eqn:E; [destruct H; congruence|lia|done].
Qed.

Lemma open_partitions_spec {F : Filepath} name dataDir mode sp i n ps :
  open_partitions name dataDir mode sp i n = Ok ps ->
  length ps = n /\ forall k p, ps !! k = Some p ->
    p_id p = i + Z.of_nat k /\ topicName p = name /\ scheduleMode p = mode /\
    (priorityIndex p = None <-> mode = ModeFIFO) /\ batchCodec p = None.
Proof.
  revert i ps. induction n as [|n IH]; intros i ps; cbn [open_partitions]; [by intros [= <-]|].
  rewrite bind_Ok. intros (p & Hp%wrapf_Ok & H). revert H. rewrite bind_Ok.
  intros (ps' & [Hlen Hps]%IH & [= <-]). split; [cbn; lia|]. intros [|k] q Hq; cbn in Hq.
  - simplify_eq. unfold NewPartition in Hp. rewrite bind_Ok in Hp. destruct Hp as (l & _ & Hp).
    rewrite bind_Ok in Hp. destruct Hp as (li & _ & [= <-]). cbn. case_decide; split_and!; try done; lia.
  - destruct (Hps k q Hq) as (-> & ?). split; [lia|done].
Qed.

Lemma NewTopic_partitions_count {F : Filepath} name dataDir cfg sp t :
  NewTopic name dataDir cfg sp = Ok t ->
  t_NumPartitions t = (if NumPartitions cfg <=? 0 then 4 else NumPartitions cfg) /\ 0 < t_NumPartitions t.
Proof.
  unfold NewTopic. rewrite bind_Ok. intros (ps & [Hlen _]%open_partitions_spec & [= <-]).
  unfold t_NumPartitions. cbn [partitions]. rewrite Hlen.
  destruct (Z.leb_spec (NumPartitions cfg) 0); cbn [NumPartitions set_NumPartitions]; lia.
Qed.

Lemma close_partitions_length ps e : length (fst (close_partitions ps e)) = length ps.
Proof.
  revert e. induction ps as [|p ps IH]; intros e; [done|]. cbn [close_partitions].
  destruct (Partition.Close p) as [p' r].
  match goal with |- context [close_partitions ps ?x] => specialize (IH x); destruct (close_partitions ps x) end.
  cbn in *. lia.
Qed.
End topic.

Section topic_props.
Context {W : Wal} {K : Compressors} {F : Filepath}.

(** A topic that NewTopic returns has as many partitions as its
    configuration asks for (four when it asks for none), numbered from zero,
    each with a priority index unless the topic is FIFO; Partition(id) finds
    exactly those and returns an error, never a panic, for any other id. *)
Theorem NewTopic_partitions (name dataDir : string) (cfg : TopicConfig) (sp : SyncPolicy) (t : Topic) :
  NewTopic name dataDir cfg sp = Ok t ->
  t_NumPartitions t = (if NumPartitions cfg <=? 0 then 4 else NumPartitions cfg) /\
  NumPartitions (t_config t) = t_NumPartitions t /\ t_name t = name /\ IsClosed t = false /\
  forall id,
    if (0 <=? id) && (id <? t_NumPartitions t)
    then exists p, topic_Partition t id = Ok p /\ p_id p = id /\ topicName p = name /\
           (priorityIndex p = None <-> tc_ScheduleMode cfg = ModeFIFO)
    else exists e, topic_Partition t id = Err e.
Proof.
  unfold NewTopic. rewrite bind_Ok. set (cfg' := if NumPartitions cfg <=? 0 then _ else _).
  intros (ps & [Hlen Hps]%open_partitions_spec & [= <-]). unfold t_NumPartitions, IsClosed. cbn.
  assert (Hc : NumPartitions cfg' = if NumPartitions cfg <=? 0 then 4 else NumPartitions cfg).
  { unfold cfg'. by destruct (NumPartitions cfg <=? 0). }
  assert (Hm : tc_ScheduleMode cfg' = tc_ScheduleMode cfg).
  { unfold cfg'. by destruct (NumPartitions cfg <=? 0). }
  assert (0 < NumPartitions cfg') by (rewrite Hc; destruct (Z.leb_spec (NumPartitions cfg) 0); lia).
  split; [rewrite <- Hc; lia|]. split; [lia|]. split; [done|]. split; [done|]. intros id.
  set (t := mkTopic name ps cfg' false).
  pose proof (topic_Partition_spec t id) as Hspec. unfold t_NumPartitions in Hspec. cbn in Hspec.
  destruct (Z.leb_spec 0 id), (Z.ltb_spec id (Z.of_nat (length ps))); cbn [andb];
    destruct (topic_Partition t id) as [p|e|]; try lia; try done; eauto.
  destruct Hspec as [_ Hl]. destruct (Hps _ _ Hl) as (Hid & Hn & _ & Hpi & _). exists p.
  rewrite <- Hm. split_and!; [done|lia|done|apply Hpi..].
Qed.
End topic_props.

Definition join_path : Filepath := {| filepath_Join := fun l => String.concat "/" l |}.

Lemma NewTopic_partitions_witness :
  exists t, NewTopic (W := mem_wal) (F := join_path) "orders" "/data" DefaultTopicConfig SyncInterval = Ok t /\
    t_NumPartitions t = 4.
Proof.
  eexists. split; [reflexivity|].
  exact (proj1 (NewTopic_partitions (F := join_path) "orders" "/data" DefaultTopicConfig SyncInterval _ eq_refl)).
Defined.
