(* ===== verification/Backpressure.v ===== *)
(** * Backpressure (src/pkg/broker/backpressure.go)

    The controller classifies a partition as open, warned or closed from the
    loads predicted for the partitions and two system-wide signals. *)

From S2P Require Import Prelude GoFloat.

Inductive BackpressureState : Type := BPOpen | BPWarn | BPClosed.

#[export] Instance BackpressureState_eq_dec : EqDecision BackpressureState.
Proof. solve_decision. Defined.

Definition DefaultBPThreshold : float := 0.85%float.
Definition bpWarnRatio : float := 0.9%float.
Definition bpFlushLatencyWarnMs : float := 100%float.

Record SystemSignal : Type := mkSignal {
  AvgPredictedLoad : float;
  WALFlushLatencyMs : float;
}.

Record BackpressureController : Type := mkBP {
  threshold : float;
  predicted : option (list float);
  systemSignal : option SystemSignal;
  bpClosed : Z;
  bpWarn : Z;
  bpOpen : Z;
}.

Definition NewBackpressureController (t : float) : BackpressureController :=
  mkBP (if (t <=? 0)%float then DefaultBPThreshold else t) None None 0 0 0.

Definition UpdatePredictions (bp : BackpressureController) (loads : list float) : BackpressureController :=
  mkBP (threshold bp) (Some loads) (systemSignal bp) (bpClosed bp) (bpWarn bp) (bpOpen bp).

Definition UpdateSystem (bp : BackpressureController) (sig : SystemSignal) : BackpressureController :=
  mkBP (threshold bp) (predicted bp) (Some sig) (bpClosed bp) (bpWarn bp) (bpOpen bp).

(** The two system-wide tests; [None] when neither decides. *)
Definition system_state (bp : BackpressureController) : option BackpressureState :=
  match systemSignal bp with
  | Some sig =>
      if (threshold bp <? AvgPredictedLoad sig)%float then Some BPClosed
      else if (bpFlushLatencyWarnMs <? WALFlushLatencyMs sig)%float then Some BPWarn
      else None
  | None => None
  end.

Definition load_state (thr load : float) : BackpressureState :=
  if (thr <? load)%float then BPClosed
  else if (thr * bpWarnRatio <? load)%float then BPWarn
  else BPOpen.

Definition evaluate (bp : BackpressureController) (partitionID : Z) : result BackpressureState :=
  match system_state bp with
  | Some s => Ok s
  | None =>
      match predicted bp with
      | None => Ok BPOpen
      | Some loads =>
          if Z.of_nat (length loads) <=? partitionID then Ok BPOpen
          else if partitionID <? 0 then Panic
          else load ← index loads (Z.to_nat partitionID); Ok (load_state (threshold bp) load)
      end
  end.

Definition Check (bp : BackpressureController) (partitionID : Z)
    : BackpressureController * result BackpressureState :=
  match evaluate bp partitionID with
  | Ok s =>
      let '(c, w, o) :=
        match s with
        | BPClosed => (i64 (bpClosed bp + 1), bpWarn bp, bpOpen bp)
        | BPWarn => (bpClosed bp, i64 (bpWarn bp + 1), bpOpen bp)
        | BPOpen => (bpClosed bp, bpWarn bp, i64 (bpOpen bp + 1))
        end in
      (mkBP (threshold bp) (predicted bp) (systemSignal bp) c w o, Ok s)
  | r => (bp, r)
  end.

Definition ClosedCount (bp : BackpressureController) : Z := bpClosed bp.
Definition WarnCount (bp : BackpressureController) : Z := bpWarn bp.
Definition OpenCount (bp : BackpressureController) : Z := bpOpen bp.

(** ** Properties *)

Definition severity (s : BackpressureState) : Z :=
  match s with BPOpen => 0 | BPWarn => 1 | BPClosed => 2 end.

Lemma load_state_mono thr load load' :
  (load <=? load')%float = true -> severity (load_state thr load) <= severity (load_state thr load').
Proof.
  intros Hle. unfold load_state.
  destruct (thr <? load)%float eqn:E1.
  - rewrite (flt_le_trans _ _ _ E1 Hle). done.
  - destruct (thr * bpWarnRatio <? load)%float eqn:E2.
    + rewrite (flt_le_trans _ _ _ E2 Hle). by destruct (thr <? load')%float.
    + destruct (thr <? load')%float, (thr * bpWarnRatio <? load')%float; cbn; lia.
Qed.

Lemma evaluate_total bp id : 0 <= id -> exists s, evaluate bp id = Ok s.
Proof.
  intros H0. unfold evaluate. destruct (system_state bp); [eauto|]. destruct (predicted bp) as [loads|]; [|eauto].
  destruct (Z.leb_spec (Z.of_nat (length loads)) id); [eauto|].
  zdec.
  destruct (lookup_lt_is_Some_2 loads (Z.to_nat id)) as [x Hx]; [lia|]. unfold index. rewrite Hx. cbn. eauto.
Qed.

(** More load never relaxes the throttle.  Between two sets of predictions
    for the same partitions, the second at least as high for a partition, the
    controller's answer for that partition is at least as severe with the
    second (open < warn < closed); the answer always exists, and asking counts
    exactly one more answer of that kind. *)
Theorem Check_monotone (bp : BackpressureController) (loads loads' : list float) (id : Z) (x x' : float) :
  0 <= id -> loads !! Z.to_nat id = Some x -> loads' !! Z.to_nat id = Some x' -> (x <=? x')%float = true ->
  in_i64 (ClosedCount bp + 1) -> in_i64 (WarnCount bp + 1) -> in_i64 (OpenCount bp + 1) ->
  exists bp1 s bp2 s',
    Check (UpdatePredictions bp loads) id = (bp1, Ok s) /\
    Check (UpdatePredictions bp loads') id = (bp2, Ok s') /\ severity s <= severity s' /\
    ClosedCount bp1 + WarnCount bp1 + OpenCount bp1 = ClosedCount bp + WarnCount bp + OpenCount bp + 1.
Proof.
  intros H0 Hx Hx' Hle Hc Hw Ho. unfold Check.
  assert (Heval : forall ls y, ls !! Z.to_nat id = Some y ->
    evaluate (UpdatePredictions bp ls) id =
      Ok (default (load_state (threshold bp) y) (system_state bp))).
  { intros ls y Hy. pose proof (lookup_lt_Some _ _ _ Hy). unfold evaluate.
    change (system_state (UpdatePredictions bp ls)) with (system_state bp).
    destruct (system_state bp); [done|]. cbn [predicted UpdatePredictions].
    rewrite (proj2 (Z.leb_gt _ _)), (proj2 (Z.ltb_ge _ _)) by lia. unfold index. by rewrite Hy. }
  rewrite (Heval _ _ Hx), (Heval _ _ Hx').
  unfold ClosedCount, WarnCount, OpenCount in *.
  set (s := default (load_state (threshold bp) x) _). set (s' := default (load_state (threshold bp) x') _).
  assert (severity s <= severity s').
  { unfold s, s'. destruct (system_state bp); cbn; [lia|]. by apply load_state_mono. }
  destruct s, s'; eexists _, _, _, _; (split; [reflexivity|]); (split; [reflexivity|]); (split; [done|]);
    cbn; rewrite i64_small by done; lia.
Qed.

Lemma Check_monotone_witness :
  exists bp1 bp2,
    Check (UpdatePredictions (NewBackpressureController 0%float) [0.5; 0.8]%float) 1 = (bp1, Ok BPWarn) /\
    Check (UpdatePredictions (NewBackpressureController 0%float) [0.5; 0.9]%float) 1 = (bp2, Ok BPClosed).
Proof.
  destruct (Check_monotone (NewBackpressureController 0%float) [0.5; 0.8]%float [0.5; 0.9]%float 1 0.8%float 0.9%float)
    as (bp1 & s & bp2 & s' & H1 & H2 & _ & _); try done; try (cbn; unfold in_i64; lia).
  exists bp1, bp2. rewrite H1, H2. vm_compute in H1, H2. by simplify_eq.
Defined.
