(* ===== verification/OffsetStore.v ===== *)
(** * Consumer offsets (src/pkg/broker/offset_store.go)

    Offsets live in a map in memory and are copied to a BadgerDB, on every
    commit or by a background dump.  BadgerDB is a library: [Badger] lists the
    calls made to it and [BadgerLaws] what they do to its key-value contents.
    What the code only logs is the list of errors an operation returns. *)

From stdpp Require Import pretty.
From S2P Require Import Prelude PriorityIndex Partition.

Class Badger : Type := {
  bdb : Type;
  bbatch : Type;
  badger_Open : string -> result bdb;
  (** Iterating over the keys with a prefix: each key with its value or the
      error of reading it. *)
  badger_Iterate : bdb -> string -> list (string * result bytes);
  badger_Set : bdb -> string -> bytes -> bdb * result unit;      (* one Update transaction *)
  badger_NewWriteBatch : bdb -> bbatch;
  wb_Set : bbatch -> string -> bytes -> bbatch * result unit;
  wb_Delete : bbatch -> string -> bbatch * result unit;
  wb_Flush : bdb -> bbatch -> bdb * result unit;
  badger_Close : bdb -> result unit;
}.

Definition apply_op (kv : gmap string bytes) (op : string * option bytes) : gmap string bytes :=
  match snd op with Some v => <[fst op := v]> kv | None => delete (fst op) kv end.

Class BadgerLaws (D : Badger) : Type := {
  badger_kv : bdb -> gmap string bytes;
  wb_ops : bbatch -> list (string * option bytes);

  badger_Iterate_sound db pre k v :
    (k, Ok v) ∈ badger_Iterate db pre -> badger_kv db !! k = Some v /\ String.prefix pre k = true;
  badger_Iterate_complete db pre k v :
    badger_kv db !! k = Some v -> String.prefix pre k = true -> exists r, (k, r) ∈ badger_Iterate db pre;
  badger_Set_Ok db k v db' : badger_Set db k v = (db', Ok tt) -> badger_kv db' = <[k := v]> (badger_kv db);
  badger_New_ops db : wb_ops (badger_NewWriteBatch db) = [];
  wb_Set_Ok b k v b' : wb_Set b k v = (b', Ok tt) -> wb_ops b' = wb_ops b ++ [(k, Some v)];
  wb_Delete_Ok b k b' : wb_Delete b k = (b', Ok tt) -> wb_ops b' = wb_ops b ++ [(k, None)];
  wb_Flush_Ok db b db' : wb_Flush db b = (db', Ok tt) ->
    badger_kv db' = foldl apply_op (badger_kv db) (wb_ops b);
}.

Definition offsetsPrefix : string := "off/".
Definition badgerKey (cacheKey : string) : string := (offsetsPrefix +:+ cacheKey)%string.

(** [fmt.Sprintf("%s/%d/", topic, partition)] and the key of a group. *)
Definition partition_prefix (topic : string) (partition : Z) : string :=
  (topic +:+ "/" +:+ pretty partition +:+ "/")%string.
Definition bucketKey (topic : string) (partition : Z) (group : string) : string :=
  (topic +:+ "/" +:+ pretty partition +:+ "/" +:+ group)%string.

Definition encode_offset (offset : Z) : bytes := be_put 8 (u64 offset).

Section store.
Context {D : Badger}.

Record OffsetStore : Type := mkStore {
  db : bdb;
  cache : gmap string Z;
  lastCommit : gmap string Time;
  dumpInterval : Z;
}.

Definition with_cache (s : OffsetStore) (c : gmap string Z) : OffsetStore :=
  mkStore (db s) c (lastCommit s) (dumpInterval s).
Definition with_db (s : OffsetStore) (d : bdb) : OffsetStore :=
  mkStore d (cache s) (lastCommit s) (dumpInterval s).

(** The iteration of NewOffsetStore that fills the cache. *)
Fixpoint warm_cache (items : list (string * result bytes)) (c : gmap string Z) : result (gmap string Z) :=
  match items with
  | [] => Ok c
  | (k, r) :: rest =>
      let key := String.substring (String.length offsetsPrefix) (String.length k - String.length offsetsPrefix) k in
      val ← wrapf "read offset value for key %q" r;
      warm_cache rest (if decide (length val = 8)%nat then <[key := i64 (be_get val)]> c else c)
  end.

Definition NewOffsetStore {F : Filepath} (dataDir : string) (interval : list Z) : result OffsetStore :=
  let dir := filepath_Join [dataDir; "offsets.badger"] in
  d ← wrapf "open offset store" (badger_Open dir);
  c ← wrapf "warm offset cache" (warm_cache (badger_Iterate d offsetsPrefix) ∅);
  Ok (mkStore d c ∅ (match interval with i :: _ => if 0 <? i then i else 0 | [] => 0 end)).

Definition writeOne (s : OffsetStore) (key : string) (offset : Z) : OffsetStore * result unit :=
  let '(d, r) := badger_Set (db s) (badgerKey key) (encode_offset offset) in (with_db s d, r).

Definition Commit (now : Time) (s : OffsetStore) (group topic : string) (partition offset : Z)
    : OffsetStore * result unit :=
  let key := bucketKey topic partition group in
  let s := mkStore (db s) (<[key := offset]> (cache s)) (<[key := now]> (lastCommit s)) (dumpInterval s) in
  if 0 <? dumpInterval s then (s, Ok tt) else writeOne s key offset.

Definition Load (s : OffsetStore) (group topic : string) (partition : Z) : result Z :=
  match cache s !! bucketKey topic partition group with
  | Some v => Ok v
  | None => Err (Errorf "offset not found for %s/%d/%s")
  end.

Definition math_MaxInt64 : Z := 2 ^ 63 - 1.

(** One call of the function given to Range by CommitFloor. *)
Definition floor_step (prefix key : string) (off : Z) (acc : Z * bool) : Z * bool :=
  let '(minOffset, found) := acc in
  if String.prefix prefix key then ((if off <? minOffset then off else minOffset), true) else acc.

Definition CommitFloor (s : OffsetStore) (topic : string) (partition : Z) : result Z :=
  let prefix := partition_prefix topic partition in
  let '(minOffset, found) := map_fold (floor_step prefix) (math_MaxInt64, false) (cache s) in
  if found : bool then Ok minOffset else Ok 0.

Definition topic_keys (topic : string) (c : gmap string Z) : list string :=
  filter (fun k => String.prefix (topic +:+ "/")%string k = true) ((map_to_list c).*1).

(** [for _, k := range keys { _ = wb.Delete(badgerKey(k)) }]: an error is ignored. *)
Fixpoint wb_delete_all (keys : list string) (b : bbatch) : bbatch :=
  match keys with [] => b | k :: ks => wb_delete_all ks (fst (wb_Delete b (badgerKey k))) end.

Definition logged (r : result unit) : list error :=
  match r with Ok _ => [] | Err e => [e] | Panic => [Errorf "panic"] end.

Definition store_DeleteTopic (s : OffsetStore) (topic : string) : OffsetStore * list error :=
  let keys := topic_keys topic (cache s) in
  let s := with_cache s (foldr delete (cache s) keys) in
  let '(d, r) := wb_Flush (db s) (wb_delete_all keys (badger_NewWriteBatch (db s))) in
  (with_db s d, logged r).

(** The loop of dump over the cache: the batch and the errors logged. *)
Fixpoint wb_set_all (entries : list (string * Z)) (b : bbatch) : bbatch * list error :=
  match entries with
  | [] => (b, [])
  | (k, off) :: rest =>
      let '(b, r) := wb_Set b (badgerKey k) (encode_offset off) in
      let '(b, errs) := wb_set_all rest b in (b, logged r ++ errs)
  end.

Definition dump (s : OffsetStore) : OffsetStore * list error :=
  let '(b, errs) := wb_set_all (map_to_list (cache s)) (badger_NewWriteBatch (db s)) in
  if decide (size (cache s) = 0)%nat then (s, errs)
  else let '(d, r) := wb_Flush (db s) b in (with_db s d, errs ++ logged r).

Definition expired_keys (cutoff : Time) (lc : gmap string Time) : list string :=
  (filter (fun kv => time_Before (snd kv) cutoff = true) (map_to_list lc)).*1.

Definition ExpireSessions (now : Time) (s : OffsetStore) (timeout : Z) : OffsetStore :=
  let expired := expired_keys (now - timeout) (lastCommit s) in
  mkStore (db s) (foldr delete (cache s) expired) (foldr delete (lastCommit s) expired) (dumpInterval s).

(** Close: with a dump loop running, its final dump happens first. *)
Definition store_Close (s : OffsetStore) : OffsetStore * result unit :=
  let s := if 0 <? dumpInterval s then fst (dump s) else s in (s, badger_Close (db s)).

End store.

(** ** Keys *)

Lemma pretty_N_go_no_slash x s : no_slash s = true -> no_slash (pretty_N_go x s) = true.
Proof.
  revert s. induction (N.lt_wf_0 x) as [x _ IH]; intros s Hs.
  assert (x = 0 \/ 0 < x)%N as [->|?] by lia; [done|].
  rewrite pretty_N_go_step by done. apply IH; [by apply N.div_lt|].
  cbn. rewrite Hs, andb_true_r. unfold pretty_N_char. by repeat case_match.
Qed.

Lemma pretty_no_slash (z : Z) : no_slash (pretty z) = true.
Proof.
  unfold pretty, pretty_Z, pretty_positive, pretty, pretty_N. destruct z as [|p|p]; [done|..].
  - cbn [decide]. case_decide; [done|]. by apply pretty_N_go_no_slash.
  - case_decide; [done|].
    change (no_slash (pretty_N_go (N.pos p) "") = true). by apply pretty_N_go_no_slash.
Qed.

Lemma bucketKey_inj t p g t' p' g' :
  no_slash t = true -> no_slash t' = true ->
  bucketKey t p g = bucketKey t' p' g' -> t = t' /\ p = p' /\ g = g'.
Proof.
  intros Ht Ht' H. apply slash_split in H as [-> H]; [|done..].
  apply slash_split in H as [H ->]; [|apply pretty_no_slash..]. by apply (inj pretty) in H as ->.
Qed.

Lemma prefix_bucketKey t p k :
  String.prefix (partition_prefix t p) k = true <-> exists g, k = bucketKey t p g.
Proof.
  rewrite string_prefix_app. unfold partition_prefix, bucketKey.
  by setoid_rewrite string_app_assoc; setoid_rewrite string_app_assoc; setoid_rewrite string_app_assoc.
Qed.

Lemma topic_prefix_bucketKey t t' p g :
  no_slash t = true -> no_slash t' = true ->
  String.prefix (t +:+ "/")%string (bucketKey t' p g) = true <-> t' = t.
Proof.
  intros Ht Ht'. rewrite string_prefix_app. unfold bucketKey. split.
  - intros [u Hu]. rewrite string_app_assoc in Hu. by apply slash_split in Hu as [-> _].
  - intros ->. eexists. by rewrite string_app_assoc.
Qed.

Lemma strip_badgerKey k :
  String.substring (String.length offsetsPrefix) (String.length (badgerKey k) - String.length offsetsPrefix)
    (badgerKey k) = k.
Proof.
  unfold badgerKey. rewrite string_length_app, Nat.add_comm, Nat.add_sub. apply substring_drop.
Qed.

(** ** The contents of the database *)

Lemma apply_ops_other kv ops k :
  k ∉ ops.*1 -> foldl apply_op kv ops !! k = kv !! k.
Proof.
  revert kv. induction ops as [|[k' v] ops IH]; intros kv Hk; [done|]. cbn in *.
  rewrite not_elem_of_cons in Hk. rewrite IH by tauto. unfold apply_op. cbn.
  destruct v; [rewrite lookup_insert_ne|rewrite lookup_delete_ne]; intuition.
Qed.

Lemma badgerKey_inj k k' : badgerKey k = badgerKey k' -> k = k'.
Proof. apply string_app_inj. Qed.

Lemma apply_sets kv (entries : list (string * Z)) k v :
  NoDup entries.*1 -> (k, v) ∈ entries ->
  foldl apply_op kv ((fun e => (badgerKey e.1, Some (encode_offset e.2))) <$> entries) !! badgerKey k =
    Some (encode_offset v).
Proof.
  revert kv. induction entries as [|[k' v'] es IH]; intros kv Hnd Hin; cbn in *; [by apply not_elem_of_nil in Hin|].
  apply list.NoDup_cons in Hnd as [Hni Hnd]. apply elem_of_cons in Hin as [[= -> ->]|Hin]; [|by apply IH].
  rewrite apply_ops_other; [unfold apply_op; cbn; apply lookup_insert_eq|].
  rewrite <- list_fmap_compose. intros (e & He & Hin)%list_elem_of_fmap. cbn in He. apply badgerKey_inj in He as ->.
  apply Hni. apply list_elem_of_fmap. eauto.
Qed.

Lemma decode_encode v : in_i64 v -> i64 (be_get (encode_offset v)) = v.
Proof.
  intros Hv. unfold encode_offset. rewrite be_get_put. change (2 ^ (8 * Z.of_nat 8)) with (2 ^ 64).
  fold (u64 (u64 v)). rewrite u64_small by apply u64_range. by apply i64_u64.
Qed.

Section durability.
Context {D : Badger} {DL : BadgerLaws D}.

Lemma wb_set_all_ops entries b b' :
  wb_set_all entries b = (b', []) ->
  wb_ops b' = wb_ops b ++ ((fun e => (badgerKey e.1, Some (encode_offset e.2))) <$> entries).
Proof.
  revert b. induction entries as [|[k v] es IH]; intros b; cbn; [intros [= <-]; by rewrite app_nil_r|].
  destruct (wb_Set b _ _) as [b1 r] eqn:E. destruct (wb_set_all es b1) as [b2 errs] eqn:E2.
  intros [= <- Hnil]. apply app_eq_nil in Hnil as [Hr ->]. destruct r as [[]| |]; [|done..].
  apply wb_Set_Ok in E. rewrite (IH _ E2), E. by rewrite <- app_assoc.
Qed.

(** After a dump that logged nothing, the database has every cached offset. *)
Lemma dump_kv s s' k v :
  dump s = (s', []) -> cache s !! k = Some v -> badger_kv (db s') !! badgerKey k = Some (encode_offset v).
Proof.
  unfold dump. destruct (wb_set_all _ _) as [b errs] eqn:E. case_decide as Hz.
  { intros _ Hk. apply map_size_empty_iff in Hz. rewrite Hz in Hk. by rewrite lookup_empty in Hk. }
  destruct (wb_Flush _ b) as [d r] eqn:F. intros [= <- Hnil] Hk. apply app_eq_nil in Hnil as [-> Hr].
  destruct r as [[]| |]; [|done..]. cbn. apply wb_Flush_Ok in F. apply wb_set_all_ops in E.
  rewrite F, E, badger_New_ops. cbn [app].
  apply apply_sets; [apply NoDup_fst_map_to_list|by apply elem_of_map_to_list].
Qed.

Lemma warm_cache_spec items c c' (kv : gmap string bytes) k v :
  (forall K w, (K, Ok w) ∈ items -> kv !! K = Some w /\ exists u, K = badgerKey u) ->
  kv !! badgerKey k = Some (encode_offset v) -> in_i64 v ->
  c !! k = Some v \/ (exists r, (badgerKey k, r) ∈ items) ->
  warm_cache items c = Ok c' -> c' !! k = Some v.
Proof.
  intros Hsound Hk Hv. revert c Hsound. induction items as [|[K r] items IH]; intros c Hsound Hc.
  { cbn. intros [= <-]. destruct Hc as [|[r Hr]]; [done|]. by apply not_elem_of_nil in Hr. }
  cbn [warm_cache]. rewrite bind_Ok. intros (w & ->%wrapf_Ok & Hw).
  destruct (Hsound K w) as [HK (u & ->)]; [by left|]. rewrite strip_badgerKey in Hw.
  eapply IH; [| |exact Hw]; [intros K' w' Hin; apply Hsound; by right|].
  destruct (decide (u = k)) as [->|Hne].
  - left. rewrite HK in Hk. injection Hk as ->. rewrite decide_True by apply length_be_put.
    by rewrite lookup_insert_eq, decode_encode.
  - destruct Hc as [Hc|[r Hr]].
    + left. case_decide; [|done]. by rewrite lookup_insert_ne.
    + right. exists r. apply elem_of_cons in Hr as [Heq|]; [|done]. apply (f_equal fst), badgerKey_inj in Heq. congruence.
Qed.

(** What the database holds under a key, a store opened on it has in its cache. *)
Lemma NewOffsetStore_warm {F : Filepath} dataDir interval d s k v :
  badger_Open (filepath_Join [dataDir; "offsets.badger"]) = Ok d ->
  NewOffsetStore dataDir interval = Ok s ->
  badger_kv d !! badgerKey k = Some (encode_offset v) -> in_i64 v -> cache s !! k = Some v.
Proof.
  intros Ho. unfold NewOffsetStore. rewrite Ho. cbn [wrapf]. rewrite Ok_bind, bind_Ok.
  intros (c & Hc%wrapf_Ok & [= <-]) Hk Hv. cbn.
  eapply (warm_cache_spec _ ∅ c (badger_kv d)); [|done|done| |exact Hc].
  - intros K w Hin. apply badger_Iterate_sound in Hin as [HK Hp]. split; [done|].
    apply string_prefix_app in Hp. done.
  - right. eapply badger_Iterate_complete; [done|]. apply string_prefix_app. by eexists.
Qed.
End durability.

(** ** A database in memory, for the witnesses *)

#[export] Instance mem_badger : Badger := {|
  bdb := gmap string bytes;
  bbatch := list (string * option bytes);
  badger_Open _ := Ok ∅;
  badger_Iterate m pre :=
    (fun kv => (kv.1, Ok kv.2)) <$> filter (fun kv => String.prefix pre kv.1 = true) (map_to_list m);
  badger_Set m k v := (<[k := v]> m, Ok tt);
  badger_NewWriteBatch _ := [];
  wb_Set b k v := (b ++ [(k, Some v)], Ok tt);
  wb_Delete b k := (b ++ [(k, None)], Ok tt);
  wb_Flush m b := (foldl apply_op m b, Ok tt);
  badger_Close _ := Ok tt;
|}.

#[export] Instance mem_badger_laws : BadgerLaws mem_badger.
Proof.
  refine {| badger_kv := (fun m => m) : @bdb mem_badger -> _; wb_ops := (fun b => b) : @bbatch mem_badger -> _ |};
    cbn; try done; try (by intros ???? [= <-]); try (by intros ??? [= <-]).
  - intros m pre k v ([k' v'] & [= -> ->] & Hin)%list_elem_of_fmap.
    apply list_elem_of_filter in Hin as [Hp Hin]. by apply elem_of_map_to_list in Hin.
  - intros m pre k v Hk Hp. exists (Ok v). apply list_elem_of_fmap. exists (k, v). split; [done|].
    apply list_elem_of_filter. split; [done|]. by apply elem_of_map_to_list.
Defined.

(** A database that is already there when it is opened. *)
Definition opened (m : gmap string bytes) : Badger := {|
  bdb := gmap string bytes; bbatch := @bbatch mem_badger; badger_Open _ := Ok m;
  badger_Iterate := @badger_Iterate mem_badger; badger_Set := @badger_Set mem_badger;
  badger_NewWriteBatch := @badger_NewWriteBatch mem_badger; wb_Set := @wb_Set mem_badger;
  wb_Delete := @wb_Delete mem_badger; wb_Flush := @wb_Flush mem_badger; badger_Close := @badger_Close mem_badger |}.

#[export] Instance opened_laws m : BadgerLaws (opened m).
Proof. destruct mem_badger_laws. by esplit. Defined.

(** The function CommitFloor folds over the cache computes a minimum. *)
Lemma floor_fold topic partition (m : gmap string Z) :
  map_Forall (fun _ v => in_i64 v) m ->
  let '(mn, found) := map_fold (floor_step (partition_prefix topic partition)) (math_MaxInt64, false) m in
  (forall g v, m !! bucketKey topic partition g = Some v -> mn <= v /\ found = true) /\
  (found = false -> mn = math_MaxInt64) /\ (found = true -> exists g, m !! bucketKey topic partition g = Some mn).
Proof.
  apply (map_fold_weak_ind (fun (r : Z * bool) m => map_Forall (fun _ v => in_i64 v) m ->
    let '(mn, found) := r in
    (forall g v, m !! bucketKey topic partition g = Some v -> mn <= v /\ found = true) /\
    (found = false -> mn = math_MaxInt64) /\ (found = true -> exists g, m !! bucketKey topic partition g = Some mn))); clear m.
  { intros _. split_and!; [intros g v; by rewrite lookup_empty|done|done]. }
  intros k x m [mn found] Hk IH Hall.
  apply map_Forall_insert in Hall as [Hx Hall]; [|done]. destruct (IH Hall) as (H1 & H2 & H3). clear IH Hall.
  unfold floor_step. destruct (String.prefix _ k) eqn:Ep.
  - apply prefix_bucketKey in Ep as [g0 ->]. unfold in_i64, math_MaxInt64 in *.
    split_and!.
    + intros g v Hg. split; [|done]. apply lookup_insert_Some in Hg as [[_ Hg]|[_ [Hg _]%H1]];
        destruct (Z.ltb_spec x mn); lia.
    + done.
    + intros _. destruct (Z.ltb_spec x mn); [exists g0; by rewrite lookup_insert_eq|].
      destruct found; [|exists g0; rewrite lookup_insert_eq; f_equal; rewrite H2 in *; [lia|done..]].
      destruct H3 as [g Hg]; [done|]. exists g. apply lookup_insert_Some. right.
      split; [|done]. intros Heq. congruence.
  - assert (Hne : forall g, bucketKey topic partition g <> k).
    { intros g <-. apply not_true_iff_false in Ep. apply Ep, prefix_bucketKey. eauto. }
    split_and!; [intros g v Hg; rewrite lookup_insert_ne in Hg by done; eauto|done|].
    intros [g Hg]%H3. exists g. by rewrite lookup_insert_ne.
Qed.

(** ** Properties *)

Section properties.
Context {D : Badger} {DL : BadgerLaws D}.

(** After a commit, whether or not the database write succeeded, the group
    loads the offset it committed; no other group, partition or topic changes.
    Topic names without '/' are what makes the keys distinct. *)
Theorem Commit_then_Load (now : Time) (s : OffsetStore) (group topic : string) (partition offset : Z)
    (group' topic' : string) (partition' : Z) :
  no_slash topic = true -> no_slash topic' = true ->
  let s' := fst (Commit now s group topic partition offset) in
  Load s' group' topic' partition' =
    if decide (group' = group /\ topic' = topic /\ partition' = partition)
    then Ok offset else Load s group' topic' partition'.
Proof.
  intros Ht Ht' s'.
  assert (Hc : cache s' = <[bucketKey topic partition group := offset]> (cache s)).
  { unfold s', Commit. cbn [dumpInterval]. destruct (0 <? dumpInterval s); [done|].
    unfold writeOne. by destruct (badger_Set _ _ _). }
  unfold Load. rewrite Hc. case_decide as Hd.
  - destruct Hd as (-> & -> & ->). by rewrite lookup_insert_eq.
  - rewrite lookup_insert_ne; [done|]. intros (-> & -> & ->)%bucketKey_inj; [|done..]. by destruct Hd.
Qed.

(** CommitFloor is the least offset any group has committed on that
    partition, and 0 when no group has. *)
Theorem CommitFloor_least (s : OffsetStore) (topic : string) (partition : Z) :
  map_Forall (fun _ v => in_i64 v) (cache s) ->
  exists f, CommitFloor s topic partition = Ok f /\
    (forall g v, Load s g topic partition = Ok v -> f <= v) /\
    ((exists g, Load s g topic partition = Ok f) \/ (f = 0 /\ forall g v, Load s g topic partition <> Ok v)).
Proof.
  intros Hb. pose proof (floor_fold topic partition (cache s) Hb) as Hf. unfold CommitFloor, Load.
  destruct (map_fold _ _ _) as [mn found]. destruct Hf as (H1 & H2 & H3). destruct found.
  - exists mn. split; [done|]. split; [|left].
    + intros g v Hg. destruct (cache s !! _) eqn:E; [|done]. simplify_eq. by apply (H1 g).
    + destruct H3 as [g Hg]; [done|]. exists g. by rewrite Hg.
  - exists 0. split; [done|].
    assert (Hn : forall g, cache s !! bucketKey topic partition g = None).
    { intros g. destruct (cache s !! _) eqn:E; [|done]. by apply H1 in E as [_ ?]. }
    split; [intros g v; by rewrite Hn|]. right. split; [done|]. intros g v. by rewrite Hn.
Qed.

(** Restart after a clean dump.  When a dump logged no error, a store
    opened on the resulting database loads every offset the old store had. *)
Theorem dump_then_restart {F : Filepath} (s s' s2 : OffsetStore) (d : bdb) (dataDir : string) (interval : list Z)
    (group topic : string) (partition v : Z) :
  dump s = (s', []) -> badger_Open (filepath_Join [dataDir; "offsets.badger"]) = Ok d ->
  badger_kv d = badger_kv (db s') -> NewOffsetStore dataDir interval = Ok s2 ->
  in_i64 v -> Load s group topic partition = Ok v -> Load s2 group topic partition = Ok v.
Proof.
  intros Hd Ho Hkv Hn Hv. unfold Load. destruct (cache s !! _) as [v'|] eqn:Hc; [|done]. intros [= ->].
  erewrite NewOffsetStore_warm; [done|exact Ho|exact Hn| |done].
  rewrite Hkv. by eapply dump_kv.
Qed.

(** An expired session comes back.  ExpireSessions forgets an offset only
    in memory: with synchronous commits, a store opened later on the same
    database loads the offset again. *)
Theorem ExpireSessions_not_durable {F : Filepath} (now later : Time) (s s1 s3 : OffsetStore) (d : bdb)
    (dataDir : string) (interval : list Z) (group topic : string) (partition v timeout : Z) :
  dumpInterval s = 0 -> in_i64 v -> Commit now s group topic partition v = (s1, Ok tt) -> now < later - timeout ->
  badger_Open (filepath_Join [dataDir; "offsets.badger"]) = Ok d ->
  badger_kv d = badger_kv (db (ExpireSessions later s1 timeout)) -> NewOffsetStore dataDir interval = Ok s3 ->
  (exists e, Load (ExpireSessions later s1 timeout) group topic partition = Err e) /\
  Load s3 group topic partition = Ok v.
Proof.
  intros Hi Hv Hc Ht Ho Hkv Hn. set (key := bucketKey topic partition group).
  unfold Commit in Hc. cbn [dumpInterval] in Hc. rewrite Hi in Hc. cbn [Z.ltb Z.compare] in Hc.
  unfold writeOne in Hc. destruct (badger_Set _ _ _) as [d1 r] eqn:E. injection Hc as <- ->.
  apply badger_Set_Ok in E. cbn [db] in E. split.
  - unfold Load, ExpireSessions. cbn [cache lastCommit with_db db dumpInterval]. fold key.
    rewrite lookup_foldr_delete; [eauto|]. unfold expired_keys. apply list_elem_of_fmap. exists (key, now).
    split; [done|]. apply list_elem_of_filter. split; [by apply Z.ltb_lt|].
    apply elem_of_map_to_list, lookup_insert_eq.
  - unfold Load. erewrite NewOffsetStore_warm; [done|exact Ho|exact Hn| |done].
    rewrite Hkv. cbn. rewrite E. apply lookup_insert_eq.
Qed.

(** Deleting a topic forgets exactly its offsets: afterwards no group has one on
    any of its partitions, and every other topic's are as before. *)
Lemma store_DeleteTopic_Load (s : OffsetStore) (topic topic' group : string) (partition : Z) :
  no_slash topic = true -> no_slash topic' = true ->
  let s' := fst (store_DeleteTopic s topic) in
  if decide (topic' = topic) then exists e, Load s' group topic' partition = Err e
  else Load s' group topic' partition = Load s group topic' partition.
Proof.
  intros Ht Ht' s'. set (key := bucketKey topic' partition group).
  assert (Hc : cache s' = foldr delete (cache s) (topic_keys topic (cache s))).
  { unfold s', store_DeleteTopic. by destruct (wb_Flush _ _). }
  unfold Load. rewrite Hc. fold key. case_decide as Hd.
  - destruct (cache s !! key) as [v|] eqn:E.
    + rewrite lookup_foldr_delete; [eauto|]. apply list_elem_of_filter.
      split; [by apply topic_prefix_bucketKey|]. apply list_elem_of_fmap. exists (key, v).
      split; [done|]. by apply elem_of_map_to_list.
    + destruct (decide (key ∈ topic_keys topic (cache s))).
      * rewrite lookup_foldr_delete by done. eauto.
      * rewrite lookup_foldr_delete_not_elem_of, E by done. eauto.
  - rewrite lookup_foldr_delete_not_elem_of; [done|]. intros [Hp _]%list_elem_of_filter.
    apply topic_prefix_bucketKey in Hp; [|done..]. congruence.
Qed.

(** The separator is not escaped: a topic, partition and group can share
    their key with another triple when a name contains '/', so a commit by one
    group is loaded by another. *)
Theorem bucketKey_collision (now : Time) (s : OffsetStore) (offset : Z) :
  let s' := fst (Commit now s "2/g" "a" 1 offset) in
  Load s' "g" "a/1" 2 = Ok offset.
Proof.
  intros s'. assert (Hc : cache s' = <[bucketKey "a" 1 "2/g" := offset]> (cache s)).
  { unfold s', Commit. cbn [dumpInterval]. destruct (0 <? dumpInterval s); [done|].
    unfold writeOne. by destruct (badger_Set _ _ _). }
  unfold Load. rewrite Hc. change (bucketKey "a/1" 2 "g") with (bucketKey "a" 1 "2/g"). by rewrite lookup_insert_eq.
Qed.
End properties.

(** ** The properties at concrete stores *)

Definition sample_store (interval : Z) : OffsetStore (D := mem_badger) :=
  mkStore (D := mem_badger) ∅ (<[bucketKey "orders" 0 "billing" := 7]> (<[bucketKey "orders" 0 "audit" := 4]> ∅)) ∅ interval.

Lemma Commit_then_Load_witness :
  Load (fst (Commit 10 (sample_store 0) "audit" "orders" 0 9)) "audit" "orders" 0 = Ok 9 /\
  Load (fst (Commit 10 (sample_store 0) "audit" "orders" 0 9)) "billing" "orders" 0 = Ok 7.
Proof.
  split.
  - exact (Commit_then_Load 10 (sample_store 0) "audit" "orders" 0 9 "audit" "orders" 0 eq_refl eq_refl).
  - exact (Commit_then_Load 10 (sample_store 0) "audit" "orders" 0 9 "billing" "orders" 0 eq_refl eq_refl).
Defined.

Lemma CommitFloor_least_witness : exists f, CommitFloor (sample_store 0) "orders" 0 = Ok f /\ f <= 4.
Proof.
  destruct (CommitFloor_least (sample_store 0) "orders" 0) as (f & Hf & Hmin & _).
  - unfold sample_store. cbn [cache]. intros k v Hk.
    apply lookup_insert_Some in Hk as [[_ <-]|[_ Hk]]; [unfold in_i64; lia|].
    apply lookup_insert_Some in Hk as [[_ <-]|[_ Hk]]; [unfold in_i64; lia|]. by rewrite lookup_empty in Hk.
  - exists f. split; [exact Hf|]. apply (Hmin "audit"). reflexivity.
Defined.

Definition join_paths : Filepath := {| filepath_Join := fun l => String.concat "/" l |}.

(** The database after the sample store was dumped, and a store on it. *)
Definition dumped_kv : gmap string bytes := db (fst (dump (sample_store 5))).
Definition dumped_store : OffsetStore (D := opened dumped_kv) :=
  mkStore (D := opened dumped_kv) ∅ (cache (sample_store 5)) ∅ 5.

Lemma dump_then_restart_witness :
  exists s2, NewOffsetStore (D := opened dumped_kv) (F := join_paths) "/data" [] = Ok s2 /\
    Load (D := opened dumped_kv) s2 "billing" "orders" 0 = Ok 7.
Proof.
  destruct (dump (D := opened dumped_kv) dumped_store) as [s' errs] eqn:Ed.
  assert (errs = []) as -> by (apply (f_equal snd) in Ed; vm_compute in Ed; exact (eq_sym Ed)).
  assert (Hok : is_ok (NewOffsetStore (D := opened dumped_kv) (F := join_paths) "/data" []) = true)
    by (vm_compute; reflexivity).
  destruct (NewOffsetStore (D := opened dumped_kv) (F := join_paths) "/data" []) as [s2| |] eqn:Es; [|done..].
  exists s2. split; [reflexivity|].
  apply (dump_then_restart (D := opened dumped_kv) (F := join_paths) dumped_store s' s2 dumped_kv
    "/data" [] "billing" "orders" 0 7); [exact Ed|reflexivity| |exact Es|unfold in_i64; lia|vm_compute; reflexivity].
  apply (f_equal (fun x => db (fst x))) in Ed. rewrite <- (Ed : _ = db s'). vm_compute. reflexivity.
Defined.

Definition committed_kv : gmap string bytes := <[badgerKey (bucketKey "orders" 0 "audit") := encode_offset 9]> ∅.

Lemma ExpireSessions_not_durable_witness :
  exists s3, NewOffsetStore (D := opened committed_kv) (F := join_paths) "/data" [] = Ok s3 /\
    Load (D := opened committed_kv) s3 "audit" "orders" 0 = Ok 9.
Proof.
  destruct (Commit (D := opened committed_kv) 10 (mkStore (D := opened committed_kv) ∅ ∅ ∅ 0) "audit" "orders" 0 9)
    as [s1 r] eqn:E.
  assert (r = Ok tt) as -> by (apply (f_equal snd) in E; symmetry; exact E).
  assert (Hok : is_ok (NewOffsetStore (D := opened committed_kv) (F := join_paths) "/data" []) = true)
    by (vm_compute; reflexivity).
  destruct (NewOffsetStore (D := opened committed_kv) (F := join_paths) "/data" []) as [s3| |] eqn:Es; [|done..].
  exists s3. split; [reflexivity|].
  eapply (ExpireSessions_not_durable (D := opened committed_kv) (F := join_paths) 10 100 _ s1 s3 committed_kv
    "/data" [] "audit" "orders" 0 9 30); [|unfold in_i64; lia|exact E|lia|reflexivity| |exact Es]; [reflexivity|].
  apply (f_equal (fun x => db (fst x))) in E. transitivity (db s1); [|reflexivity].
  rewrite <- (E : _ = db s1). vm_compute. reflexivity.
Defined.
