(* ===== verification/LoadPredictor.v ===== *)
(** * Load prediction (src/pkg/broker/load_predictor.go)

    Per partition a ring of the last loads; a forecast by an autoregressive
    model whose coefficients are estimated by the Levinson-Durbin recursion.
    The scratch buffers of the predictor are reused between calls: a call writes
    every cell it later reads, so they are modelled as fresh lists.  Sizes and
    counters that cannot be negative are [nat]. *)

From S2P Require Import Prelude GoFloat.

(** ** The ring of recent loads *)

Record RingBuffer : Type := mkRing {
  rb_data : list float;
  rb_writeIdx : nat;
}.

Definition NewRingBuffer (size : nat) : RingBuffer := mkRing (replicate size 0%float) 0.

Definition rb_Push (rb : RingBuffer) (v : float) : result RingBuffer :=
  i ← gomod (rb_writeIdx rb) (length (rb_data rb));
  d ← store (rb_data rb) i v;
  Ok (mkRing d (S (rb_writeIdx rb))).

Definition copyInto (rb : RingBuffer) (dst : list float) (w size n : nat) : result (list float) :=
  if decide (w <= size)%nat then
    src ← subslice (rb_data rb) 0 n; copy_at 0 src dst
  else
    start ← gomod w size;
    let tail := (size - start)%nat in
    let tail := if decide (n < tail)%nat then n else tail in
    src ← subslice (rb_data rb) start (start + tail);
    dst ← copy_at 0 src dst;
    if decide (tail < n)%nat then
      src ← subslice (rb_data rb) 0 (n - tail); copy_at tail src dst
    else Ok dst.

Definition rb_Values (rb : RingBuffer) : result (list float) :=
  let w := rb_writeIdx rb in
  let size := length (rb_data rb) in
  if decide (w = 0)%nat then Ok []
  else
    let n := if decide (size < w)%nat then size else w in
    copyInto rb (replicate n 0%float) w size n.

(** ValuesInto: the destination after the call and the number of values. *)
Definition ValuesInto (rb : RingBuffer) (dst : list float) : result (list float * nat) :=
  let w := rb_writeIdx rb in
  let size := length (rb_data rb) in
  if decide (w = 0)%nat then Ok (dst, 0%nat)
  else
    let n := if decide (size < w)%nat then size else w in
    let n := if decide (length dst < n)%nat then length dst else n in
    out ← copyInto rb (take n dst) w size n;
    Ok (out ++ drop n dst, n).

(** ** The forecast *)

Definition fsum (l : list float) : float := foldl PrimFloat.add 0%float l.

(** [r[lag]]: the pairs are [vals[i], vals[i-lag]] for [i] from [lag] on. *)
Definition autocov (vals : list float) (mean : float) (lag : nat) : float :=
  (foldl (fun s '(x, y) => s + (x - mean) * (y - mean)) 0 (zip (drop lag vals) vals)
   / of_int (Z.of_nat (length vals)))%float.

Definition ar_eps : float := 1e-15%float.

(** The recursion on the order [m = length a]; [n] iterations are left.  The
    inner loops pair [a[j]] with [r[m-j]] and [aOld[j]] with [aOld[m-1-j]]. *)
Fixpoint levinson (r : list float) (e : float) (a : list float) (n : nat) : list float :=
  match n with
  | O => a
  | S n' =>
      if (e <? ar_eps)%float then a
      else
        let m := length a in
        let sum := foldl (fun s '(x, y) => s - x * y)%float (r !!! (m + 1)%nat)
                     (zip a (reverse (take m (drop 1 r)))) in
        let k := (sum / e)%float in
        let a' := zip_with (fun x y => x - k * y)%float a (reverse a) ++ [k] in
        levinson r (e * (1 - k * k))%float a' n'
  end.

Definition yuleWalker (vals : list float) (mean : float) (p : nat) : option (list float) :=
  let r := autocov vals mean <$> seq 0 (p + 1) in
  let r0 := r !!! 0%nat in
  if (r0 <? ar_eps)%float then None
  else
    let a0 := ((r !!! 1%nat) / r0)%float in
    Some (levinson r (r0 * (1 - a0 * a0))%float [a0] (p - 1)).

Definition clamp01 (x : float) : float :=
  let x := if (x <? 0)%float then 0%float else x in
  if (1 <? x)%float then 1%float else x.

(** The forecast loop; [past] is the written part of the buffer, newest first. *)
Fixpoint ar_steps (coeffs : list float) (mean : float) (past : list float) (k : nat) : list float :=
  match k with
  | O => []
  | S k' =>
      let pred := foldl (fun s '(c, x) => s + c * x)%float 0%float (zip coeffs past) in
      clamp01 (pred + mean)%float :: ar_steps coeffs mean (pred :: past) k'
  end.

(** [int(math.Sqrt(float64(n)))] capped at [max(window/4, 1)]. *)
Definition ar_order (window n : nat) : nat :=
  let maxOrder := (window / 4)%nat in
  let maxOrder := if decide (maxOrder < 1)%nat then 1%nat else maxOrder in
  let p := Z.to_nat (to_int64 (PrimFloat.sqrt (of_int (Z.of_nat n)))) in
  if decide (maxOrder < p)%nat then maxOrder else p.

Definition vals_mean (vals : list float) : float := (fsum vals / of_int (Z.of_nat (length vals)))%float.

Definition arPredictInto (window : nat) (vals : list float) (horizon : nat) : list float :=
  let n := length vals in
  if decide (n = 0)%nat then replicate horizon 0%float
  else
    let mean := vals_mean vals in
    let p := ar_order window n in
    if decide (p < 1 \/ n < 2 * p)%nat then replicate horizon mean
    else
      match yuleWalker vals mean p with
      | None => replicate horizon mean
      | Some coeffs => ar_steps coeffs mean (reverse ((fun v => v - mean)%float <$> vals)) horizon
      end.

(** ** The predictor *)

Record PartitionPrediction : Type := mkPrediction {
  PartitionID : Z;
  Current : float;
  Predicted : list float;
}.

Record LoadPredictor : Type := mkPredictor {
  predictions : list PartitionPrediction;
  history : gmap Z RingBuffer;
  window : nat;
  horizon : nat;
}.

Definition NewLoadPredictor (w h : nat) : LoadPredictor := mkPredictor [] ∅ w h.

(** The order in which [history.Range] visits the map: unspecified by xsync, it
    follows the (randomly seeded) hash of the keys. *)
Class MapRange : Type := { map_Range : gmap Z RingBuffer -> list (Z * RingBuffer) }.
Class MapRangeLaws (R : MapRange) : Prop := { map_Range_perm m : map_Range m ≡ₚ map_to_list m }.

Section predictor.
Context {R : MapRange}.

Definition predict_one (lp : LoadPredictor) (id : Z) (buf : RingBuffer) : result PartitionPrediction :=
  '(valsBuf, n) ← ValuesInto buf (replicate (window lp) 0%float);
  let vals := take n valsBuf in
  current ← (if decide (0 < n)%nat then index vals (n - 1) else Ok 0%float);
  Ok (mkPrediction id current (arPredictInto (window lp) vals (horizon lp))).

Definition predict (lp : LoadPredictor) : result LoadPredictor :=
  preds ← mapM (fun '(id, buf) => predict_one lp id buf) (map_Range (history lp));
  Ok (mkPredictor preds (history lp) (window lp) (horizon lp)).

Fixpoint push_loads (lp : LoadPredictor) (i : Z) (loads : list float) : result (gmap Z RingBuffer) :=
  match loads with
  | [] => Ok (history lp)
  | load :: rest =>
      let buf := default (NewRingBuffer (window lp)) (history lp !! i) in
      buf ← rb_Push buf load;
      push_loads (mkPredictor (predictions lp) (<[i := buf]> (history lp)) (window lp) (horizon lp)) (i + 1) rest
  end.

Definition Update (lp : LoadPredictor) (loads : list float) : result LoadPredictor :=
  h ← push_loads lp 0 loads;
  predict (mkPredictor (predictions lp) h (window lp) (horizon lp)).

Definition PredictAll (lp : LoadPredictor) : list float :=
  (fun p => match Predicted p with x :: _ => x | [] => Current p end) <$> predictions lp.

Definition lp_RemovePartition (lp : LoadPredictor) (partID : Z) : LoadPredictor :=
  mkPredictor (predictions lp) (delete partID (history lp)) (window lp) (horizon lp).
End predictor.

(** ** The ring keeps the last loads *)

(** The ring has received exactly the loads [vs], oldest first. *)
Definition ring_holds (rb : RingBuffer) (vs : list float) : Prop :=
  (0 < length (rb_data rb))%nat /\ rb_writeIdx rb = length vs /\
  forall j, (length vs - length (rb_data rb) <= j < length vs)%nat ->
    rb_data rb !! (j mod length (rb_data rb))%nat = vs !! j.

Definition last_n (n : nat) (vs : list float) : list float := drop (length vs - n) vs.

Lemma mod_diff w j s : (0 < s)%nat -> (w < j + s)%nat -> (j < w)%nat -> (j mod s <> w mod s)%nat.
Proof.
  intros Hs Hj Hw Heq. pose proof (Nat.div_mod_eq j s). pose proof (Nat.div_mod_eq w s).
  assert (j / s < w / s)%nat by (apply Nat.lt_nge; intros ?; nia). nia.
Qed.

Lemma NewRingBuffer_holds n : (0 < n)%nat -> ring_holds (NewRingBuffer n) [].
Proof. intros Hn. split_and!; cbn; rewrite ?length_replicate; [done|done|lia]. Qed.

Lemma rb_Push_holds rb vs v :
  ring_holds rb vs -> exists rb', rb_Push rb v = Ok rb' /\ ring_holds rb' (vs ++ [v]) /\
    length (rb_data rb') = length (rb_data rb).
Proof.
  intros (Hs & Hw & Hd). unfold rb_Push. rewrite gomod_Ok, Ok_bind by done.
  pose proof (Nat.mod_upper_bound (rb_writeIdx rb) (length (rb_data rb)) ltac:(lia)) as Hm.
  rewrite store_Ok, Ok_bind by done. eexists. split; [done|]. unfold ring_holds. cbn.
  rewrite length_insert, length_app. cbn. split; [|done]. split_and!; [done|lia|]. intros j Hj.
  destruct (decide (j = length vs)) as [->|Hne].
  - rewrite Hw, list_lookup_insert_eq by (rewrite <- Hw; done). by rewrite lookup_app_r, Nat.sub_diag by lia.
  - rewrite lookup_app_l by lia. rewrite list_lookup_insert_ne; [apply Hd; lia|].
    rewrite Hw. intros Heq. symmetry in Heq. revert Heq. apply mod_diff; lia.
Qed.

(** Reading [n] values out of a ring that holds at least as many. *)
Lemma copyInto_holds rb vs dst :
  ring_holds rb vs -> length dst = (length vs `min` length (rb_data rb))%nat ->
  copyInto rb dst (rb_writeIdx rb) (length (rb_data rb)) (length dst) = Ok (last_n (length (rb_data rb)) vs).
Proof.
  intros (Hs & Hw & Hd) Hl. unfold copyInto, last_n. rewrite Hw. set (s := length (rb_data rb)) in *.
  case_decide as Hle.
  - rewrite subslice_in_range, Ok_bind by lia. rewrite Nat.sub_0_r, drop_0.
    rewrite <- (app_nil_l dst) at 2. rewrite copy_at_app by (rewrite ?length_take; cbn; lia). cbn [app]. f_equal.
    replace (length vs - s)%nat with 0%nat by lia. rewrite drop_0.
    apply list_eq_same_length with (n := length vs); [|rewrite length_take; lia|].
    { done. }
    intros i x y Hi Hx Hy. rewrite lookup_take_lt in Hx by lia. rewrite <- Hd, Nat.mod_small in Hy by lia. congruence.
  - rewrite gomod_Ok, Ok_bind by done. pose proof (Nat.mod_upper_bound (length vs) s ltac:(lia)) as Hm.
    assert (length dst = s) as Hds by lia. rewrite !Hds. set (st := (length vs mod s)%nat) in *.
    cbn zeta. rewrite decide_False by lia. rewrite (subslice_in_range _ st), Ok_bind by lia.
    replace (st + (s - st) - st)%nat with (s - st)%nat by lia.
    rewrite take_ge by (rewrite length_drop; lia).
    assert (copy_at 0 (drop st (rb_data rb)) dst = Ok (drop st (rb_data rb) ++ drop (s - st) dst)) as ->.
    { unfold copy_at. rewrite decide_True by lia. rewrite take_0, Nat.sub_0_r. cbn [app].
      rewrite take_ge by (rewrite length_drop; lia). f_equal. f_equal. by rewrite length_drop. }
    rewrite Ok_bind.
    assert (Hres : drop (length vs - s) vs = drop st (rb_data rb) ++ take st (rb_data rb)).
    { apply list_eq_same_length with (n := s); [lens|rewrite length_drop; lia|].
      intros i x y Hi Hx Hy. rewrite lookup_drop in Hx. rewrite <- Hd in Hx by lia.
      pose proof (Nat.div_mod_eq (length vs) s) as Hdm. fold st in Hdm.
      assert (Hq : (length vs / s <> 0)%nat) by (intros E; rewrite E in Hdm; lia).
      destruct (decide (i < s - st)%nat) as [Hlt|Hge].
      - rewrite lookup_app_l, lookup_drop in Hy by (rewrite length_drop; lia).
        replace (length vs - s + i)%nat with ((st + i) + (length vs / s - 1) * s)%nat in Hx by nia.
        rewrite Nat.Div0.mod_add, Nat.mod_small in Hx by lia. congruence.
      - rewrite lookup_app_r, length_drop, lookup_take_lt in Hy by (rewrite ?length_drop; lia).
        replace (length vs - s + i)%nat with ((i - (s - st)) + (length vs / s) * s)%nat in Hx by nia.
        rewrite Nat.Div0.mod_add, Nat.mod_small in Hx by lia. fold s in Hy. congruence. }
    rewrite Hres. case_decide as Ht.
    + rewrite subslice_in_range, Ok_bind by lia. rewrite Nat.sub_0_r, drop_0.
      replace (s - (s - st))%nat with st by lia.
      apply copy_at_app; rewrite ?length_drop, ?length_take; lia.
    + assert (st = 0%nat) as -> by lia. rewrite take_0, Nat.sub_0_r. by rewrite (drop_ge dst) by lia.
Qed.

Lemma rb_Values_holds rb vs :
  ring_holds rb vs -> rb_Values rb = Ok (last_n (length (rb_data rb)) vs).
Proof.
  intros Hh. pose proof Hh as (Hs & Hw & _). unfold rb_Values. case_decide as Hz.
  - destruct vs; [done|]. cbn in Hw. lia.
  - match goal with |- context [replicate ?n _] => set (m := n) end.
    assert (m = (length vs `min` length (rb_data rb))%nat) by (unfold m; case_decide; lia).
    pose proof (copyInto_holds rb vs (replicate m 0%float) Hh) as Hc. rewrite length_replicate in Hc. by apply Hc.
Qed.

Lemma ValuesInto_holds rb vs dst :
  ring_holds rb vs -> length dst = length (rb_data rb) ->
  exists out, ValuesInto rb dst = Ok (out, (length vs `min` length (rb_data rb))%nat) /\
    take (length vs `min` length (rb_data rb))%nat out = last_n (length (rb_data rb)) vs.
Proof.
  intros Hh Hl. pose proof Hh as (Hs & Hw & _). unfold ValuesInto. case_decide as Hz.
  { destruct vs; [|cbn in Hw; lia]. by exists dst. }
  match goal with |- context [take ?n dst] => set (m := n) end.
  assert (m = (length vs `min` length (rb_data rb))%nat) as Hm by (unfold m; repeat case_decide; lia).
  pose proof (copyInto_holds rb vs (take m dst) Hh) as Hc. rewrite length_take in Hc.
  replace (m `min` length dst)%nat with m in Hc by lia. rewrite Hc, Ok_bind by lia.
  eexists. rewrite <- Hm. split; [done|]. apply take_app_length'.
  unfold last_n. rewrite length_drop. lia.
Qed.

Fixpoint push_all (rb : RingBuffer) (vs : list float) : result RingBuffer :=
  match vs with [] => Ok rb | v :: vs' => rb ← rb_Push rb v; push_all rb vs' end.

Lemma push_all_holds vs rb vs0 :
  ring_holds rb vs0 ->
  exists rb', push_all rb vs = Ok rb' /\ ring_holds rb' (vs0 ++ vs) /\ length (rb_data rb') = length (rb_data rb).
Proof.
  revert rb vs0. induction vs as [|v vs IH]; intros rb vs0 Hh; cbn [push_all].
  { exists rb. by rewrite app_nil_r. }
  destruct (rb_Push_holds rb vs0 v Hh) as (rb1 & -> & Hh1 & Hl1). rewrite Ok_bind.
  destruct (IH rb1 _ Hh1) as (rb' & -> & Hh' & Hl'). exists rb'. rewrite <- app_assoc in Hh'.
  split; [done|]. split; [done|lia].
Qed.

(** ** Forecasts *)

Lemma length_ar_steps coeffs mean past k : length (ar_steps coeffs mean past k) = k.
Proof. revert past. induction k; intros past; cbn; auto. Qed.

Lemma forecast_length w vals h : length (arPredictInto w vals h) = h.
Proof.
  unfold arPredictInto. repeat case_decide; rewrite ?length_replicate; try done.
  destruct (yuleWalker _ _ _); [apply length_ar_steps|apply length_replicate].
Qed.

Lemma clamp01_range x : (clamp01 x <? 0)%float = false /\ (1 <? clamp01 x)%float = false.
Proof.
  unfold clamp01. destruct (x <? 0)%float eqn:E; [done|]. destruct (1 <? x)%float eqn:E2; done.
Qed.

Lemma ar_steps_range coeffs mean past k :
  Forall (fun x => (x <? 0)%float = false /\ (1 <? x)%float = false) (ar_steps coeffs mean past k).
Proof.
  revert past. induction k as [|k IH]; intros past; constructor; [apply clamp01_range|apply IH].
Qed.

(** ** The predictor's state *)

Section predictor_proofs.
Context {R : MapRange} {RL : MapRangeLaws R}.

(** [hist] has, for every partition with a ring, the loads it received. *)
Definition predictor_holds (lp : LoadPredictor) (hist : gmap Z (list float)) : Prop :=
  (0 < window lp)%nat /\
  forall i, match history lp !! i, hist !! i with
            | Some rb, Some vs => ring_holds rb vs /\ length (rb_data rb) = window lp
            | None, None => True
            | _, _ => False
            end.

Fixpoint observe (i : Z) (loads : list float) (hist : gmap Z (list float)) : gmap Z (list float) :=
  match loads with
  | [] => hist
  | x :: rest => observe (i + 1) rest (<[i := default [] (hist !! i) ++ [x]]> hist)
  end.

Lemma push_loads_holds loads lp hist i :
  predictor_holds lp hist ->
  exists h, push_loads lp i loads = Ok h /\
    predictor_holds (mkPredictor (predictions lp) h (window lp) (horizon lp)) (observe i loads hist).
Proof.
  revert lp hist i. induction loads as [|x loads IH]; intros lp hist i Hh; cbn [push_loads observe].
  { exists (history lp). by destruct lp. }
  pose proof Hh as [Hw Hr]. pose proof (Hr i) as Hi.
  assert (exists rb', rb_Push (default (NewRingBuffer (window lp)) (history lp !! i)) x = Ok rb' /\
    ring_holds rb' (default [] (hist !! i) ++ [x]) /\ length (rb_data rb') = window lp) as (rb' & -> & Hh' & Hl').
  { destruct (history lp !! i) as [rb|], (hist !! i) as [vs|]; try done; cbn.
    - destruct Hi as [Hi Hl]. destruct (rb_Push_holds rb vs x Hi) as (rb' & ? & ? & ?). exists rb'.
      split; [done|]. split; [done|congruence].
    - destruct (rb_Push_holds _ [] x (NewRingBuffer_holds _ Hw)) as (rb' & ? & ? & Hl). exists rb'.
      split; [done|]. split; [done|]. cbn in Hl. by rewrite length_replicate in Hl. }
  rewrite Ok_bind. apply (IH (mkPredictor _ _ _ _)). split; [done|]. intros j. cbn.
  destruct (decide (j = i)) as [->|Hne]; [by rewrite !lookup_insert_eq|].
  rewrite !lookup_insert_ne by done. apply Hr.
Qed.

(** The forecast for a partition that has seen [vs]. *)
Definition forecast (lp : LoadPredictor) (vs : list float) : list float :=
  arPredictInto (window lp) (last_n (window lp) vs) (horizon lp).

Lemma predict_one_holds lp id rb vs :
  ring_holds rb vs -> length (rb_data rb) = window lp ->
  exists cur, predict_one lp id rb = Ok (mkPrediction id cur (forecast lp vs)).
Proof.
  intros Hh Hl. unfold predict_one.
  destruct (ValuesInto_holds rb vs (replicate (window lp) 0%float) Hh) as (out & -> & Ht).
  { by rewrite length_replicate. }
  rewrite Ok_bind. rewrite Hl in *. rewrite Ht. unfold forecast. case_decide as Hn; [|eauto].
  assert (length (last_n (window lp) vs) = (length vs `min` window lp)%nat) as Hlen
    by (unfold last_n; rewrite length_drop; lia).
  rewrite index_Ok by lia. rewrite Ok_bind. eauto.
Qed.

Lemma predict_holds lp hist :
  predictor_holds lp hist ->
  exists lp', predict lp = Ok lp' /\ history lp' = history lp /\ window lp' = window lp /\ horizon lp' = horizon lp /\
    PartitionID <$> predictions lp' = (map_Range (history lp)).*1 /\
    forall p, p ∈ predictions lp' -> exists vs, hist !! PartitionID p = Some vs /\ Predicted p = forecast lp vs.
Proof.
  intros [Hw Hr]. unfold predict.
  assert (Hin : forall id rb, (id, rb) ∈ map_Range (history lp) -> history lp !! id = Some rb).
  { intros id rb. rewrite map_Range_perm. apply elem_of_map_to_list. }
  induction (map_Range (history lp)) as [|[id rb] l IH].
  { eexists. split; [done|]. cbn. split_and!; try done. intros p Hp. by apply not_elem_of_nil in Hp. }
  destruct IH as (lp' & Heq & Hh' & Hw' & Hz' & Hids & Hps); [intros ? ? ?; apply Hin; by right|].
  rewrite bind_Ok in Heq. destruct Heq as (ps & Hm & [= <-]). cbn [predictions history window horizon] in *.
  specialize (Hin id rb ltac:(by left)). specialize (Hr id). rewrite Hin in Hr.
  destruct (hist !! id) as [vs|] eqn:Hvs; [|done]. destruct Hr as [Hr Hl].
  destruct (predict_one_holds lp id rb vs Hr Hl) as [cur Hone].
  cbn [mapM]. rewrite Hone, Ok_bind, Hm. cbn [mret result_ret]. rewrite !Ok_bind. eexists. split; [done|].
  cbn. split_and!; try done; [by rewrite Hids|].
  intros p [->|Hp]%elem_of_cons; [eauto|by apply Hps].
Qed.
End predictor_proofs.

(** ** Properties *)

Section predictor_props.
Context {R : MapRange} {RL : MapRangeLaws R}.

(** Feeding loads to the predictor never fails, and afterwards there is one
    prediction per partition seen so far, which is the forecast from the last
    [window] loads of exactly that partition.  [PredictAll] lists them in the
    order the map was visited. *)
Theorem Update_predicts (lp : LoadPredictor) (hist : gmap Z (list float)) (loads : list float) :
  predictor_holds lp hist -> (0 < horizon lp)%nat ->
  let hist' := observe 0 loads hist in
  exists lp', Update lp loads = Ok lp' /\ predictor_holds lp' hist' /\
    (PartitionID <$> predictions lp') ≡ₚ (map_to_list hist').*1 /\
    forall k p, predictions lp' !! k = Some p -> exists vs, hist' !! PartitionID p = Some vs /\
      Predicted p = forecast lp vs /\ PredictAll lp' !! k = head (forecast lp vs).
Proof.
  intros Hh Hz hist'. subst hist'. unfold Update. destruct (push_loads_holds loads lp hist 0 Hh) as (h & -> & Hh'). rewrite Ok_bind.
  destruct (predict_holds _ _ Hh') as (lp' & -> & Hhist & Hw & Hhz & Hids & Hps). exists lp'. split; [done|].
  cbn in Hhist, Hw, Hhz. split; [|split].
  - destruct Hh' as [H1 H2]. split; [by rewrite Hw|]. rewrite Hhist, Hw. exact H2.
  - rewrite Hids, map_Range_perm. cbn. apply NoDup_Permutation; [apply NoDup_fst_map_to_list..|].
    destruct Hh' as [_ Hh']. cbn in Hh'. intros i. rewrite !list_elem_of_fmap. specialize (Hh' i).
    split; intros ([j x] & -> & Hin%elem_of_map_to_list); cbn in *; rewrite Hin in Hh'.
    + destruct (observe 0 loads hist !! j) as [vs|] eqn:E; [|done]. exists (j, vs). split; [done|]. by apply elem_of_map_to_list.
    + destruct (h !! j) as [rb|] eqn:E; [|done]. exists (j, rb). split; [done|]. by apply elem_of_map_to_list.
  - intros k p Hk. destruct (Hps p) as (vs & Hvs & Hpred); [by eapply list_elem_of_lookup_2|].
    exists vs. split; [done|]. split; [done|]. unfold PredictAll. rewrite list_lookup_fmap, Hk. cbn. rewrite Hpred.
    unfold forecast. cbn. pose proof (forecast_length (window lp) (last_n (window lp) vs) (horizon lp)) as Hl.
    destruct (arPredictInto _ _ _); [cbn in Hl; lia|done].
Qed.
End predictor_props.

(** A ring of size [n > 0] that received the loads [vs] returns the last
    [n] of them, oldest first (all of them while fewer than [n] arrived), both
    as a fresh slice and through a caller's buffer; no push or read panics. *)
Theorem ring_keeps_last (n : nat) (vs dst : list float) :
  (0 < n)%nat -> length dst = n ->
  exists rb, push_all (NewRingBuffer n) vs = Ok rb /\
    rb_Values rb = Ok (last_n n vs) /\
    exists out k, ValuesInto rb dst = Ok (out, k) /\ take k out = last_n n vs.
Proof.
  intros Hn Hd. destruct (push_all_holds vs _ [] (NewRingBuffer_holds n Hn)) as (rb & -> & Hh & Hl).
  cbn in Hl. rewrite length_replicate in Hl. exists rb. split; [done|].
  split; [by rewrite (rb_Values_holds rb vs Hh), Hl|].
  destruct (ValuesInto_holds rb vs dst Hh) as (out & Ho & Ht); [lia|].
  rewrite Hl in *. by exists out, (length vs `min` n)%nat.
Qed.

Lemma ring_keeps_last_witness :
  exists rb, push_all (NewRingBuffer 3) [0.1; 0.2; 0.3; 0.4; 0.5]%float = Ok rb /\
    rb_Values rb = Ok [0.3; 0.4; 0.5]%float.
Proof.
  destruct (ring_keeps_last 3 [0.1; 0.2; 0.3; 0.4; 0.5]%float [0; 0; 0]%float) as (rb & Hp & Hv & _);
    [lia|reflexivity|]. exists rb. split; [exact Hp|exact Hv].
Defined.

(** A forecast has one value per step of the horizon.  It is either flat,
    every step the mean of the observed loads (0 when there are none), or every
    step is clamped: never below 0 and never above 1. *)
Theorem forecast_shape (w : nat) (vals : list float) (h : nat) :
  length (arPredictInto w vals h) = h /\
  (arPredictInto w vals h = replicate h (if decide (vals = []) then 0%float else vals_mean vals) \/
   Forall (fun x => (x <? 0)%float = false /\ (1 <? x)%float = false) (arPredictInto w vals h)).
Proof.
  split; [apply forecast_length|]. unfold arPredictInto. destruct vals as [|v vals].
  { rewrite !decide_True by done. auto. }
  rewrite decide_False by done. rewrite (decide_False (P := v :: vals = [])) by done. case_decide; [auto|].
  destruct (yuleWalker _ _ _); [right; apply ar_steps_range|auto].
Qed.

(** ** The order of the predictions *)

(** A map visited in one order and in the opposite one. *)
Definition forwards : MapRange := {| map_Range := map_to_list |}.
Definition backwards : MapRange := {| map_Range := fun m => reverse (map_to_list m) |}.

#[export] Instance forwards_laws : MapRangeLaws forwards.
Proof. by split. Qed.
#[export] Instance backwards_laws : MapRangeLaws backwards.
Proof. split. intros m. cbn. apply reverse_Permutation. Qed.

Definition sample_loads : list float := [0.25; 0.75]%float.

Lemma Update_predicts_witness :
  exists lp', Update (R := forwards) (NewLoadPredictor 100 8) sample_loads = Ok lp' /\
    (PartitionID <$> predictions lp') ≡ₚ [0; 1].
Proof.
  destruct (Update_predicts (R := forwards) (NewLoadPredictor 100 8) ∅ sample_loads) as (lp' & Hu & _ & Hp & _).
  - split; [cbn; lia|]. intros i. by rewrite !lookup_empty.
  - cbn; lia.
  - exists lp'. split; [exact Hu|]. rewrite Hp. vm_compute. first [reflexivity | apply Permutation_swap].
Defined.

(** The result of PredictAll is indexed by visiting order, not by partition:
    the same loads give the two partitions' predictions in one order or the
    other, so an index into it (as the backpressure check uses) can be another
    partition's prediction. *)
Theorem PredictAll_order_dependent :
  exists a d,
    Update (R := forwards) (NewLoadPredictor 100 8) sample_loads = Ok a /\
    Update (R := backwards) (NewLoadPredictor 100 8) sample_loads = Ok d /\
    history a = history d /\
    PredictAll d = reverse (PredictAll a) /\ PredictAll d <> PredictAll a.
Proof.
  eexists _, _. split; [vm_compute; reflexivity|]. split; [vm_compute; reflexivity|].
  split; [reflexivity|]. split; [vm_compute; reflexivity|].
  intros H. apply (f_equal (fun l => PrimFloat.eqb (l !!! 0%nat) 0.75)) in H. vm_compute in H. discriminate H.
Qed.
