(* ===== verification/Metrics.v ===== *)
(** * Metrics (src/pkg/broker/metrics.go)

    The counters behind the snapshots given to balancers and controllers.  The
    mirror of the snapshot in exported gauges, which the broker never reads, is in
    Prometheus.  Mean and standard deviation come from gonum: [Gonum] stands for
    them. *)

From S2P Require Import Prelude PriorityIndex GoFloat.

Class Gonum : Type := {
  stat_StdDev : list float -> float;
  stat_Mean : list float -> float;
}.

Record Metrics : Type := mkMetrics {
  (* BusinessMetrics *)
  Throughput : float;
  ConsumeRate : float;
  AvgLatency : float;
  DeliveryRatio : float;
  MsgRate : float;
  AvgMsgSize : float;
  (* DerivedMetrics *)
  PartitionLoads : list float;
  PredictedLoads : list float;
  QueueDepths : list Z;
  LoadStdDev : float;
  (* ObservabilityMetrics *)
  BackpressureClosedCount : Z;
  BackpressureWarnCount : Z;
  BackpressureOpenCount : Z;
  BalancerDroppedExp : Z;
  BalancerEvictions : Z;
  m_Timestamp : Time;
}.

Definition zeroMetrics : Metrics :=
  mkMetrics 0 0 0 0 0 0 [] [] [] 0 0 0 0 0 0 zeroTime.

Definition set_PredictedLoads (l : list float) (m : Metrics) : Metrics :=
  mkMetrics (Throughput m) (ConsumeRate m) (AvgLatency m) (DeliveryRatio m) (MsgRate m) (AvgMsgSize m)
    (PartitionLoads m) l (QueueDepths m) (LoadStdDev m) (BackpressureClosedCount m) (BackpressureWarnCount m)
    (BackpressureOpenCount m) (BalancerDroppedExp m) (BalancerEvictions m) (m_Timestamp m).

Record MetricsCollector : Type := mkCollector {
  produceCount : Z;
  consumeCount : Z;
  produceBytes : Z;
  lastSnap : Metrics;
  avgFlushLatencyNs : Z;
  lastCollect : Time;
  partProduces : list Z;
  partConsumes : list Z;
  prevPartProduces : list Z;
  prevPartConsumes : list Z;
  loadStdDevHistory : list float;
  retentionDeletedBytes : Z;
  retentionDeletedSegments : Z;
}.

Definition NewMetricsCollector (now : Time) : MetricsCollector :=
  mkCollector 0 0 0 zeroMetrics 0 now [] [] [] [] [] 0 0.

(** The counters touched by the Record methods. *)
Definition counted (mc : MetricsCollector) (pc cc pb : Z) (pp pcs : list Z) : MetricsCollector :=
  mkCollector pc cc pb (lastSnap mc) (avgFlushLatencyNs mc) (lastCollect mc) pp pcs (prevPartProduces mc)
    (prevPartConsumes mc) (loadStdDevHistory mc) (retentionDeletedBytes mc) (retentionDeletedSegments mc).

(** ensurePartCountersLocked: both slices grow by the same number of zeros. *)
Definition ensurePartCounters (minLen : Z) (mc : MetricsCollector) : list Z * list Z :=
  let n := (Z.to_nat minLen - length (partProduces mc))%nat in
  (partProduces mc ++ replicate n 0, partConsumes mc ++ replicate n 0).

(** [l[i].Add(n)]; a negative index panics. *)
Definition add_at (l : list Z) (i n : Z) : result (list Z) :=
  if i <? 0 then Panic
  else x ← index l (Z.to_nat i); store l (Z.to_nat i) (i64 (x + n)).

Definition RecordProduceBatch (mc : MetricsCollector) (topic : string) (partition n : Z) : result MetricsCollector :=
  let '(pp, pcs) := ensurePartCounters (partition + 1) mc in
  pp ← add_at pp partition n;
  Ok (counted mc (i64 (produceCount mc + n)) (consumeCount mc) (produceBytes mc) pp pcs).

Definition RecordProduce (mc : MetricsCollector) (topic : string) (partition : Z) : result MetricsCollector :=
  let '(pp, pcs) := ensurePartCounters (partition + 1) mc in
  pp ← add_at pp partition 1;
  Ok (counted mc (i64 (produceCount mc + 1)) (consumeCount mc) (produceBytes mc) pp pcs).

Definition RecordProduceWithSize (mc : MetricsCollector) (topic : string) (partition msgBytes : Z)
    : result MetricsCollector :=
  let '(pp, pcs) := ensurePartCounters (partition + 1) mc in
  pp ← add_at pp partition 1;
  Ok (counted mc (i64 (produceCount mc + 1)) (consumeCount mc) (i64 (produceBytes mc + msgBytes)) pp pcs).

Definition RecordConsume (mc : MetricsCollector) (topic : string) (partition : Z) (group : string)
    : result MetricsCollector :=
  let '(pp, pcs) := ensurePartCounters (partition + 1) mc in
  pcs ← add_at pcs partition 1;
  Ok (counted mc (produceCount mc) (i64 (consumeCount mc + 1)) (produceBytes mc) pp pcs).

Definition RecordRetention (mc : MetricsCollector) (segments nbytes : Z) : MetricsCollector :=
  mkCollector (produceCount mc) (consumeCount mc) (produceBytes mc) (lastSnap mc) (avgFlushLatencyNs mc)
    (lastCollect mc) (partProduces mc) (partConsumes mc) (prevPartProduces mc) (prevPartConsumes mc)
    (loadStdDevHistory mc) (i64 (retentionDeletedBytes mc + nbytes)) (i64 (retentionDeletedSegments mc + segments)).

Definition Snapshot (mc : MetricsCollector) : Metrics := lastSnap mc.

(** savePrevCountersLocked: the first [n] cells are overwritten; shorter slices
    are first replaced by [n] zeros. *)
Definition save_prev (prev cur : list Z) : list Z := cur ++ drop (length cur) prev.

(** Duration.Seconds *)
Definition Seconds (d : Z) : float := (of_int (Z.quot d 1000000000) + of_int (Z.rem d 1000000000) / 1e9)%float.

(** One partition of the double loop in Collect: its depth and its load. *)
Definition part_stats (mc : MetricsCollector) (pID : Z) : Z * float :=
  let at_ (l : list Z) := default 0 (l !! Z.to_nat pID) in
  let produces := at_ (partProduces mc) in
  let consumes := at_ (partConsumes mc) in
  let prevProd := at_ (prevPartProduces mc) in
  let prevCons := at_ (prevPartConsumes mc) in
  let pending := i64 (produces - consumes) in
  let pending := if pending <? 0 then 0 else pending in
  let deltaProd := i64 (produces - prevProd) in
  let deltaCons := i64 (consumes - prevCons) in
  let load := if 0 <? deltaProd then
                let deltaPending := i64 (deltaProd - deltaCons) in
                let deltaPending := if deltaPending <? 0 then 0 else deltaPending in
                (of_int deltaPending / of_int deltaProd)%float
              else 0%float in
  (pending, load).

(** What Collect reads from the rest of the broker: the ids of all partitions in
    the order the topic map is visited, and the counters of the backpressure
    controller and the balancer. *)
Record Surroundings : Type := mkSurroundings {
  su_pids : list Z;
  su_bp : option (Z * Z * Z);       (* closed, warned, open *)
  su_dropped : Z;
  su_evictions : Z;
}.

Definition push_history (h : list float) (sd : float) : list float :=
  let h := h ++ [sd] in if decide (100 < length h)%nat then drop 1 h else h.

Definition Collect {G : Gonum} (now : Time) (su : Surroundings) (mc : MetricsCollector)
    : Metrics * MetricsCollector :=
  let elapsed := Seconds (now - lastCollect mc) in
  let elapsed := if (elapsed <? 0.001)%float then 0.001%float else elapsed in
  let produced := produceCount mc in
  let consumed := consumeCount mc in
  let throughput := (of_int (i64 (produced + consumed)) / elapsed)%float in
  let stats := part_stats mc <$> su_pids su in
  let depths := stats.*1 in
  let loads := stats.*2 in
  let deliveryRatio :=
    if 0 <? produced then
      let r := (of_int consumed / of_int produced)%float in if (1 <? r)%float then 1%float else r
    else 1%float in
  let msgRate := (of_int produced / elapsed)%float in
  let consumeRate := (of_int consumed / elapsed)%float in
  let avgMsgSize := if 0 <? produced then (of_int (produceBytes mc) / of_int produced)%float else 0%float in
  let avgLatencyMs := (of_int (avgFlushLatencyNs mc) / of_int 1000000)%float in
  let '(hist, loadSD) :=
    if decide (2 <= length loads)%nat then
      let h := push_history (loadStdDevHistory mc) (stat_StdDev loads) in (h, stat_Mean h)
    else (loadStdDevHistory mc, 0%float) in
  let '(bc, bw, bo) := default (0, 0, 0) (su_bp su) in
  let snap := mkMetrics throughput consumeRate avgLatencyMs deliveryRatio msgRate avgMsgSize
                loads [] depths loadSD bc bw bo (su_dropped su) (su_evictions su) now in
  (snap,
   mkCollector 0 0 0 snap (avgFlushLatencyNs mc) now (partProduces mc) (partConsumes mc)
     (save_prev (prevPartProduces mc) (partProduces mc)) (save_prev (prevPartConsumes mc) (partConsumes mc))
     hist (retentionDeletedBytes mc) (retentionDeletedSegments mc)).

(** [if i < len(l) { l[i] = 0; l'[i] = 0 }]. *)
Definition zero_both (l l' : list Z) (i : Z) : result (list Z * list Z) :=
  if Z.of_nat (length l) <=? i then Ok (l, l')
  else if i <? 0 then Panic
  else a ← store l (Z.to_nat i) 0; b ← store l' (Z.to_nat i) 0; Ok (a, b).

Definition mc_RemovePartition (mc : MetricsCollector) (partID : Z) : result MetricsCollector :=
  '(pp, pcs) ← zero_both (partProduces mc) (partConsumes mc) partID;
  '(qp, qc) ← zero_both (prevPartProduces mc) (prevPartConsumes mc) partID;
  Ok (mkCollector (produceCount mc) (consumeCount mc) (produceBytes mc) (lastSnap mc) (avgFlushLatencyNs mc)
        (lastCollect mc) pp pcs qp qc (loadStdDevHistory mc) (retentionDeletedBytes mc)
        (retentionDeletedSegments mc)).

(** ** Counting *)

Inductive event : Type :=
| EvProduce (topic : string) (partition : Z)
| EvProduceSize (topic : string) (partition msgBytes : Z)
| EvProduceBatch (topic : string) (partition n : Z)
| EvConsume (topic : string) (partition : Z) (group : string)
| EvCollect (now : Time) (su : Surroundings).

Section counting.
Context {G : Gonum}.

Definition step (mc : MetricsCollector) (ev : event) : result MetricsCollector :=
  match ev with
  | EvProduce t p => RecordProduce mc t p
  | EvProduceSize t p n => RecordProduceWithSize mc t p n
  | EvProduceBatch t p n => RecordProduceBatch mc t p n
  | EvConsume t p g => RecordConsume mc t p g
  | EvCollect now su => Ok (snd (Collect now su mc))
  end.

Fixpoint run (mc : MetricsCollector) (evs : list event) : result MetricsCollector :=
  match evs with [] => Ok mc | ev :: evs' => mc ← step mc ev; run mc evs' end.

(** The messages an event adds to partition [p]. *)
Definition produced_by (p : Z) (ev : event) : Z :=
  match ev with
  | EvProduce _ q | EvProduceSize _ q _ => if decide (q = p) then 1 else 0
  | EvProduceBatch _ q n => if decide (q = p) then n else 0
  | _ => 0
  end.
Definition consumed_by (p : Z) (ev : event) : Z :=
  match ev with EvConsume _ q _ => if decide (q = p) then 1 else 0 | _ => 0 end.
Definition produced (p : Z) (evs : list event) : Z := zsum (produced_by p <$> evs).
Definition consumed (p : Z) (evs : list event) : Z := zsum (consumed_by p <$> evs).

Definition ev_ok (ev : event) : Prop :=
  match ev with
  | EvProduce _ p | EvProduceSize _ p _ | EvConsume _ p _ => 0 <= p
  | EvProduceBatch _ p n => 0 <= p /\ 0 <= n
  | EvCollect _ _ => True
  end.

Definition cell (l : list Z) (p : Z) : Z := default 0 (l !! Z.to_nat p).

(** The counters after the events [evs]. *)
Definition counts (mc : MetricsCollector) (evs : list event) : Prop :=
  length (partConsumes mc) = length (partProduces mc) /\
  (length (prevPartProduces mc) <= length (partProduces mc))%nat /\
  forall p, 0 <= p -> cell (partProduces mc) p = produced p evs /\ cell (partConsumes mc) p = consumed p evs.

Lemma cell_grow l n p : cell (l ++ replicate n 0) p = cell l p.
Proof.
  unfold cell. destruct (decide (Z.to_nat p < length l)%nat).
  - by rewrite lookup_app_l.
  - rewrite lookup_app_r by lia. rewrite (lookup_ge_None_2 l) by lia. cbn.
    destruct (decide (Z.to_nat p - length l < n)%nat); [by rewrite lookup_replicate_2|].
    by rewrite lookup_ge_None_2 by (rewrite length_replicate; lia).
Qed.

Lemma add_at_spec l q n :
  0 <= q < Z.of_nat (length l) -> in_i64 (cell l q + n) ->
  exists l', add_at l q n = Ok l' /\ length l' = length l /\
    forall p, 0 <= p -> cell l' p = cell l p + (if decide (q = p) then n else 0).
Proof.
  intros Hq Hn. unfold add_at. zdec.
  rewrite index_Ok by lia. rewrite Ok_bind, store_Ok by lia. eexists. split; [done|].
  rewrite length_insert. split; [done|]. intros p Hp. unfold cell in *. case_decide as Hd.
  - subst p. rewrite list_lookup_insert_eq by lia.
    rewrite (list_lookup_lookup_total_lt l) in * by lia. cbn in *. by apply i64_small.
  - rewrite list_lookup_insert_ne by lia. lia.
Qed.

Lemma produced_app p evs ev : produced p (evs ++ [ev]) = produced p evs + produced_by p ev.
Proof. unfold produced. rewrite fmap_app, zsum_app. cbn. lia. Qed.
Lemma consumed_app p evs ev : consumed p (evs ++ [ev]) = consumed p evs + consumed_by p ev.
Proof. unfold consumed. rewrite fmap_app, zsum_app. cbn. lia. Qed.

Definition bounded (evs : list event) : Prop :=
  forall p, 0 <= p -> in_i64 (produced p evs) /\ in_i64 (consumed p evs).

Lemma ensure_spec mc evs q :
  counts mc evs -> 0 <= q ->
  let '(pp, pcs) := ensurePartCounters (q + 1) mc in
  length pcs = length pp /\ q < Z.of_nat (length pp) /\ (length (prevPartProduces mc) <= length pp)%nat /\
  forall p, 0 <= p -> cell pp p = produced p evs /\ cell pcs p = consumed p evs.
Proof.
  intros (Hl & Hpl & Hc) Hq. unfold ensurePartCounters. split_and!; [lens| |rewrite length_app; lia|].
  - rewrite length_app, length_replicate. lia.
  - intros p Hp. rewrite !cell_grow. by apply Hc.
Qed.

(** A Record method that adds [n] to the produce counter of partition [q]. *)
Lemma record_produce_counts mc evs ev q n (k : list Z -> list Z -> MetricsCollector) :
  counts mc evs -> 0 <= q -> bounded (evs ++ [ev]) ->
  (forall p, produced_by p ev = if decide (q = p) then n else 0) -> (forall p, consumed_by p ev = 0) ->
  (forall pp pcs, partProduces (k pp pcs) = pp /\ partConsumes (k pp pcs) = pcs /\
     prevPartProduces (k pp pcs) = prevPartProduces mc) ->
  exists mc', (let '(pp, pcs) := ensurePartCounters (q + 1) mc in pp ← add_at pp q n; Ok (k pp pcs)) = Ok mc' /\
    counts mc' (evs ++ [ev]).
Proof.
  intros Hc Hq Hb Hp Hcn Hk. pose proof (ensure_spec mc evs q Hc Hq) as He.
  destruct (ensurePartCounters (q + 1) mc) as [pp pcs]. destruct He as (Hl & Hlt & Hpl & Hcell).
  destruct (add_at_spec pp q n) as (pp' & -> & Hl' & Hcell'); [lia| |].
  { destruct (Hcell q Hq) as [-> _]. destruct (Hb q Hq) as [Hi _]. rewrite produced_app, Hp, decide_True in Hi; done. }
  rewrite Ok_bind. eexists. split; [done|]. destruct (Hk pp' pcs) as (E1 & E2 & E3).
  split; [rewrite E1, E2; lia|]. split; [rewrite E1, E3; lia|].
  intros p Hpp. rewrite E1, E2, produced_app, consumed_app, Hp, Hcn, Hcell' by done.
  destruct (Hcell p Hpp) as [-> ->]. lia.
Qed.

Lemma step_counts mc evs ev :
  counts mc evs -> ev_ok ev -> bounded (evs ++ [ev]) ->
  exists mc', step mc ev = Ok mc' /\ counts mc' (evs ++ [ev]).
Proof.
  intros Hc Hok Hb. destruct ev as [t q|t q sz|t q n|t q g|now su]; cbn [step ev_ok] in *.
  - by eapply record_produce_counts.
  - by eapply record_produce_counts.
  - destruct Hok. by eapply record_produce_counts.
  - unfold RecordConsume. pose proof (ensure_spec mc evs q Hc Hok) as He.
    destruct (ensurePartCounters (q + 1) mc) as [pp pcs]. destruct He as (Hl & Hlt & Hpl & Hcell).
    destruct (add_at_spec pcs q 1) as (pcs' & -> & Hl' & Hcell'); [lia| |].
    { destruct (Hcell q Hok) as [_ ->]. destruct (Hb q Hok) as [_ Hi]. rewrite consumed_app in Hi. cbn in Hi.
      by rewrite decide_True in Hi. }
    rewrite Ok_bind. eexists. split; [done|]. split; [cbn; lia|]. split; [cbn; lia|]. intros p Hpp. cbn.
    rewrite produced_app, consumed_app, Hcell' by done. cbn. destruct (Hcell p Hpp) as [-> ->]. lia.
  - eexists. split; [done|]. unfold Collect.
    destruct (if decide _ then _ else _) as [h sd]. destruct (default _ _) as [[bc bw] bo]. cbn.
    destruct Hc as (Hl & Hpl & Hc). split; [done|].
    split; [cbn; unfold save_prev; rewrite length_app, length_drop; lia|]. intros p Hp. rewrite produced_app, consumed_app. cbn.
    destruct (Hc p Hp) as [-> ->]. lia.
Qed.

Lemma bounded_prefix evs evs' : Forall ev_ok (evs ++ evs') -> bounded (evs ++ evs') -> bounded evs.
Proof.
  intros Hok Hb p Hp. destruct (Hb p Hp) as [H1 H2]. apply Forall_app in Hok as [Ho1 Ho2].
  unfold produced, consumed, in_i64 in *. rewrite !fmap_app, !zsum_app in *.
  assert (Hnn : forall l, Forall ev_ok l -> 0 <= zsum (produced_by p <$> l) /\ 0 <= zsum (consumed_by p <$> l)).
  { intros l Hl. split; apply zsum_nonneg, Forall_fmap; (eapply list.Forall_impl; [exact Hl|]);
      intros []; cbn; intros; repeat case_decide; lia. }
  pose proof (Hnn _ Ho1). pose proof (Hnn _ Ho2). lia.
Qed.

Lemma run_counts evs mc evs0 :
  counts mc evs0 -> Forall ev_ok (evs0 ++ evs) -> bounded (evs0 ++ evs) ->
  exists mc', run mc evs = Ok mc' /\ counts mc' (evs0 ++ evs).
Proof.
  revert mc evs0. induction evs as [|ev evs IH]; intros mc evs0 Hc Hok Hb; cbn [run].
  { exists mc. by rewrite app_nil_r. }
  assert (evs0 ++ ev :: evs = (evs0 ++ [ev]) ++ evs) as Heq by (by rewrite <- app_assoc).
  rewrite Heq in *. destruct (step_counts mc evs0 ev Hc) as (mc1 & -> & Hc1).
  - apply Forall_app in Hok as [Hok _]. apply Forall_app in Hok as [_ Hok]. by apply Forall_singleton.
  - by eapply bounded_prefix.
  - rewrite Ok_bind. by apply IH.
Qed.

Lemma Collect_stats now su mc :
  PartitionLoads (fst (Collect now su mc)) = (part_stats mc <$> su_pids su).*2 /\
  QueueDepths (fst (Collect now su mc)) = (part_stats mc <$> su_pids su).*1 /\
  partProduces (snd (Collect now su mc)) = partProduces mc /\
  prevPartProduces (snd (Collect now su mc)) = save_prev (prevPartProduces mc) (partProduces mc).
Proof.
  unfold Collect. destruct (if decide _ then _ else _) as [h sd]. by destruct (default _ _) as [[bc bw] bo].
Qed.

Lemma save_prev_cell prev cur p : (length prev <= length cur)%nat -> cell (save_prev prev cur) p = cell cur p.
Proof.
  intros Hl. unfold save_prev. rewrite drop_ge by lia. by rewrite app_nil_r.
Qed.

(** A snapshot reports, for every partition id, the messages produced minus
    the messages consumed under that id since the start, and never a negative
    depth; and when nothing happens between two snapshots, every load in the
    second is zero.  Counters stay below 2^63.  Counting is by id alone: two
    topics' partitions with the same id are reported with the same depth. *)
Theorem Collect_depths (t0 : Time) (evs : list event) :
  Forall ev_ok evs -> bounded evs ->
  exists mc, run (NewMetricsCollector t0) evs = Ok mc /\
    forall now su, Forall (Z.le 0) (su_pids su) ->
    let '(snap, mc') := Collect now su mc in
    QueueDepths snap = (fun p => Z.max 0 (produced p evs - consumed p evs)) <$> su_pids su /\
    length (PartitionLoads snap) = length (su_pids su) /\
    forall now', PartitionLoads (fst (Collect now' su mc')) = replicate (length (su_pids su)) 0%float.
Proof.
  intros Hok Hb. destruct (run_counts evs (NewMetricsCollector t0) []) as (mc & Hr & Hl & Hpl & Hc); [|done|done|].
  { split; [done|]. split; [done|]. intros p Hp. done. }
  cbn [app] in *. exists mc. split; [done|]. intros now su Hp.
  pose proof (Collect_stats now su mc) as (Hs1 & Hs2 & Hs3 & Hs4).
  destruct (Collect now su mc) as [snap mc']. cbn [fst snd] in *. split_and!.
  - rewrite Hs2, <- list_fmap_compose. apply list_fmap_ext. intros i p Hip. cbn.
    pose proof (Forall_lookup_1 _ _ _ _ Hp Hip) as H0. destruct (Hc p H0) as [E1 E2]. unfold cell in E1, E2.
    rewrite E1, E2. destruct (Hb p H0) as [B1 B2].
    assert (0 <= produced p evs /\ 0 <= consumed p evs) as [N1 N2].
    { split; apply zsum_nonneg, Forall_fmap; (eapply list.Forall_impl; [exact Hok|]);
        intros []; cbn; intros; repeat case_decide; lia. }
    rewrite i64_small by (unfold in_i64 in *; lia). destruct (Z.ltb_spec (produced p evs - consumed p evs) 0); lia.
  - by rewrite Hs1, !length_fmap.
  - intros now'. destruct (Collect_stats now' su mc') as (-> & _).
    apply list_eq_same_length with (n := length (su_pids su)); [by rewrite length_replicate|by rewrite !length_fmap|].
    intros i x y Hi Hx Hy. apply lookup_replicate in Hy as [-> _].
    rewrite !list_lookup_fmap in Hx. destruct (su_pids su !! i) as [p|]; [|done]. cbn in Hx. injection Hx as <-.
    fold (cell (partProduces mc') p) (cell (prevPartProduces mc') p). rewrite Hs3, Hs4, save_prev_cell by done.
    by rewrite Z.sub_diag.
Qed.
End counting.

(** Any statistics functions will do to run the collector. *)
Definition plain_stats : Gonum := {| stat_StdDev := fun _ => 0%float; stat_Mean := fun _ => 0%float |}.

Definition sample_events : list event :=
  [EvProduce "a" 0; EvProduceBatch "b" 0 4; EvConsume "a" 0 "g"; EvProduceSize "b" 2 100;
   EvConsume "a" 1 "g"].

Lemma Collect_depths_witness :
  exists mc, run (G := plain_stats) (NewMetricsCollector 0) sample_events = Ok mc /\
    QueueDepths (fst (Collect (G := plain_stats) 5 (mkSurroundings [0; 1; 0; 2] None 0 0) mc)) = [4; 0; 4; 1].
Proof.
  destruct (Collect_depths (G := plain_stats) 0 sample_events) as (mc & Hr & Hc).
  - repeat constructor; cbn; lia.
  - intros p Hp. unfold produced, consumed, in_i64. cbn. repeat case_decide; lia.
  - exists mc. split; [exact Hr|]. specialize (Hc 5 (mkSurroundings [0; 1; 0; 2] None 0 0)).
    destruct (Collect _ _ _) as [snap mc']. destruct Hc as (Hd & _); [cbn; repeat constructor; lia|].
    exact Hd.
Defined.
