(* ===== verification/Prometheus.v ===== *)
(** * Exported metrics (prometheus/client_golang; the mirror in src/pkg/broker/metrics.go)

    The metric registry as the maps of its labelled values, for the commands and
    for the broker; and the broker's mirror of its counters and snapshots.  The
    mirror is written and never read by the broker, so that it is a state beside
    the collector of Metrics. *)

From stdpp Require Import pretty.
From S2P Require Import Prelude GoFloat Metrics.

(** ** Labelled metrics

    A counter is the number of its increments, a histogram the observations it was
    given, in order. *)

Abbreviation CounterVec := (gmap (list string) Z).
Definition counter (labels : list string) (c : CounterVec) : Z := default 0 (c !! labels).
Definition inc (labels : list string) (c : CounterVec) : CounterVec := <[labels := counter labels c + 1]> c.
Abbreviation HistogramVec := (gmap (list string) (list float)).
Definition observed_at (labels : list string) (h : HistogramVec) : list float := default [] (h !! labels).
Definition observe (labels : list string) (x : float) (h : HistogramVec) : HistogramVec := <[labels := observed_at labels h ++ [x]]> h.
Abbreviation GaugeVec := (gmap (list string) float).

(** A registry knows the fully qualified names of its metrics; promauto panics when
    a name is registered twice.  A metric is declared with its namespace, its name
    and its labels. *)
Definition metric_name (d : string * string * list string) : string := let '(ns, name, _) := d in (ns +:+ "_" +:+ name)%string.
Fixpoint register (ds : list (string * string * list string)) (reg : gset string) : result (gset string) :=
  match ds with
  | [] => Ok reg
  | d :: ds => if decide (metric_name d ∈ reg) then Panic else register ds ({[metric_name d]} ∪ reg)
  end.

Lemma counter_inc l l' c : counter l (inc l' c) = counter l c + (if decide (l = l') then 1 else 0).
Proof.
  unfold inc, counter. case_decide as H; [subst; by rewrite lookup_insert_eq|]. rewrite lookup_insert_ne by congruence. lia.
Qed.

Lemma observed_observe l l' x h : observed_at l (observe l' x h) = observed_at l h ++ if decide (l = l') then [x] else [].
Proof.
  unfold observe, observed_at. case_decide as H; [subst; by rewrite lookup_insert_eq|]. rewrite lookup_insert_ne by congruence. by rewrite app_nil_r.
Qed.

(** Registering succeeds exactly when the names are new and different. *)
Lemma register_Ok ds reg reg' :
  register ds reg = Ok reg' <->
  NoDup (metric_name <$> ds) /\ Forall (fun d => metric_name d ∉ reg) ds /\ reg' = list_to_set (metric_name <$> ds) ∪ reg.
Proof.
  revert reg. induction ds as [|d ds IH]; intros reg; cbn [register].
  { cbn. rewrite (left_id_L ∅ (∪) reg). split; [intros [= ->]; split; [constructor|by split]|by intros (_ & _ & ->)]. }
  case_decide as Hd; [split; [done|]; intros (_ & H & _); by apply list.Forall_cons in H as [? _]|].
  rewrite IH, fmap_cons, list.NoDup_cons, list.Forall_cons. cbn [list_to_set].
  assert (HS : list_to_set (metric_name <$> ds) ∪ ({[metric_name d]} ∪ reg) = {[metric_name d]} ∪ list_to_set (metric_name <$> ds) ∪ reg) by set_solver.
  rewrite HS. assert (HF : Forall (fun e => metric_name e ∉ {[metric_name d]} ∪ reg) ds <->
    (metric_name d ∉ (metric_name <$> ds)) /\ Forall (fun e => metric_name e ∉ reg) ds).
  { rewrite !list.Forall_forall. setoid_rewrite list_elem_of_fmap. set_solver. }
  rewrite HF. tauto.
Qed.

(** ** The broker's mirror *)

(** The fields prom* of MetricsCollector. *)
Record PromMirror : Type := mkMirror {
  promRegistered : bool;
  promProduce : CounterVec;      (* topic, partition *)
  promConsume : CounterVec;      (* topic, partition, group *)
  promLoad : GaugeVec;           (* topic, partition *)
  promDepth : GaugeVec;          (* topic, partition *)
  promThroughput : float;
  promLoadStdDev : float;
  promRetBytes : float;
  promRetSegs : float;
  promBPClosed : float;
  promBPWarn : float;
  promBPOpen : float;
  promBalDropped : float;
  promBalEvictions : float;
}.

(** No metric yet: the fields are nil, and nothing touches them. *)
Definition no_mirror : PromMirror := mkMirror false ∅ ∅ ∅ ∅ 0 0 0 0 0 0 0 0 0.

Definition broker_declarations : list (string * string * list string) :=
  [("nyaqueue", "produced_total", ["topic"; "partition"]); ("nyaqueue", "consumed_total", ["topic"; "partition"; "group"]);
   ("nyaqueue", "partition_load", ["topic"; "partition"]); ("nyaqueue", "queue_depth", ["topic"; "partition"]);
   ("nyaqueue", "throughput_messages_per_sec", []); ("nyaqueue", "partition_load_stddev", []);
   ("nyaqueue", "retention_deleted_bytes_total", []); ("nyaqueue", "retention_deleted_segments_total", []);
   ("nyaqueue", "backpressure_closed_total", []); ("nyaqueue", "backpressure_warn_total", []); ("nyaqueue", "backpressure_open_total", []);
   ("nyaqueue", "balancer_dropped_experience_total", []); ("nyaqueue", "balancer_evictions_total", [])]%string.

Definition RegisterPrometheus (reg : gset string) (pm : PromMirror) : result (gset string * PromMirror) :=
  if promRegistered pm then Ok (reg, pm)
  else reg ← register broker_declarations reg; Ok (reg, mkMirror true ∅ ∅ ∅ ∅ 0 0 0 0 0 0 0 0 0).

Definition RecordProduceLabeled (topic : string) (partition : Z) (pm : PromMirror) : PromMirror :=
  if promRegistered pm then
    mkMirror (promRegistered pm) (inc [topic; pretty partition] (promProduce pm)) (promConsume pm) (promLoad pm) (promDepth pm) (promThroughput pm)
      (promLoadStdDev pm) (promRetBytes pm) (promRetSegs pm) (promBPClosed pm) (promBPWarn pm) (promBPOpen pm) (promBalDropped pm) (promBalEvictions pm)
  else pm.
Definition RecordConsumeLabeled (topic : string) (partition : Z) (group : string) (pm : PromMirror) : PromMirror :=
  if promRegistered pm then
    mkMirror (promRegistered pm) (promProduce pm) (inc [topic; pretty partition; group] (promConsume pm)) (promLoad pm) (promDepth pm) (promThroughput pm)
      (promLoadStdDev pm) (promRetBytes pm) (promRetSegs pm) (promBPClosed pm) (promBPWarn pm) (promBPOpen pm) (promBalDropped pm) (promBalEvictions pm)
  else pm.

(** The partitions in the order of the visit, each with its topic's name. *)
Definition flat_parts (topics : list (string * list Z)) : list (string * Z) := concat ((fun tp : string * list Z => (fun p => (tp.1, p)) <$> tp.2) <$> topics).

(** The double loop on one of the two gauges: [partIdx] counts over all topics. *)
Fixpoint set_parts (parts : list (string * Z)) (partIdx : nat) (xs : list float) (g : GaugeVec) : GaugeVec :=
  match parts with
  | [] => g
  | (t, p) :: parts =>
      set_parts parts (partIdx + 1) xs (match xs !! partIdx with Some x => <[[t; pretty p] := x]> g | None => g end)
  end.

(** [topics]: the topics with the ids of their partitions, as this visit of the
    topic map meets them; a visit of its own, after the one of Collect. *)
Definition updatePrometheus (topics : list (string * list Z)) (snap : Metrics) (pm : PromMirror) : PromMirror :=
  if promRegistered pm then
    mkMirror (promRegistered pm) (promProduce pm) (promConsume pm)
      (set_parts (flat_parts topics) 0 (PartitionLoads snap) (promLoad pm))
      (set_parts (flat_parts topics) 0 (of_int <$> QueueDepths snap) (promDepth pm))
      (Throughput snap) (LoadStdDev snap) (promRetBytes pm) (promRetSegs pm) (promBPClosed pm) (promBPWarn pm)
      (of_int (BackpressureOpenCount snap)) (of_int (BalancerDroppedExp snap)) (of_int (BalancerEvictions snap))
  else pm.

(** ** The collector with its mirror *)

Inductive mirror_event : Type :=
| MEvent (ev : event) (topics : list (string * list Z))
| MRetention (segments nbytes : Z)
| MRegister.

Record Mirrored : Type := mkMirrored { mi_mc : MetricsCollector; mi_prom : PromMirror; mi_registry : gset string }.

Section mirror.
Context {G : Gonum}.

(** The Record methods and Collect, with the calls into the mirror they end with. *)
Definition mirror_step (s : Mirrored) (e : mirror_event) : result Mirrored :=
  match e with
  | MEvent ev topics =>
      mc ← step (mi_mc s) ev;
      Ok (mkMirrored mc
            (match ev with
             | EvProduce t p => RecordProduceLabeled t p (mi_prom s)
             | EvProduceSize _ _ _ | EvProduceBatch _ _ _ => mi_prom s
             | EvConsume t p g => RecordConsumeLabeled t p g (mi_prom s)
             | EvCollect now su => updatePrometheus topics (Collect now su (mi_mc s)).1 (mi_prom s)
             end) (mi_registry s))
  | MRetention segs n => Ok (mkMirrored (RecordRetention (mi_mc s) segs n) (mi_prom s) (mi_registry s))
  | MRegister => '(reg, pm) ← RegisterPrometheus (mi_registry s) (mi_prom s); Ok (mkMirrored (mi_mc s) pm reg)
  end.
Fixpoint mirror_run (s : Mirrored) (es : list mirror_event) : result Mirrored :=
  match es with [] => Ok s | e :: es => s ← mirror_step s e; mirror_run s es end.

(** What the labelled counters count. *)
Definition labelled_produce (t : string) (p : Z) (e : mirror_event) : Z :=
  match e with MEvent (EvProduce t' p') _ => if decide (t' = t /\ p' = p) then 1 else 0 | _ => 0 end.
Definition labelled_consume (t : string) (p : Z) (g : string) (e : mirror_event) : Z :=
  match e with MEvent (EvConsume t' p' g') _ => if decide (t' = t /\ p' = p /\ g' = g) then 1 else 0 | _ => 0 end.

(** Gauges and counters that nothing writes. *)
Definition unwritten (pm : PromMirror) : float * float * float * float := (promRetBytes pm, promRetSegs pm, promBPClosed pm, promBPWarn pm).

Lemma decide_labels2 (t t' : string) (p p' : Z) :
  (if decide ([t; pretty p] = [t'; pretty p']) then 1 else 0) = if decide (t' = t /\ p' = p) then 1 else 0.
Proof. repeat case_decide; naive_solver. Qed.
Lemma decide_labels3 (t t' g g' : string) (p p' : Z) :
  (if decide ([t; pretty p; g] = [t'; pretty p'; g']) then 1 else 0) = if decide (t' = t /\ p' = p /\ g' = g) then 1 else 0.
Proof. repeat case_decide; naive_solver. Qed.

(** One step, of a mirror that is registered. *)
Lemma mirror_step_counts s e s' :
  promRegistered (mi_prom s) = true -> mirror_step s e = Ok s' ->
  promRegistered (mi_prom s') = true /\ unwritten (mi_prom s') = unwritten (mi_prom s) /\
  (forall t p, counter [t; pretty p] (promProduce (mi_prom s')) = counter [t; pretty p] (promProduce (mi_prom s)) + labelled_produce t p e) /\
  (forall t p g, counter [t; pretty p; g] (promConsume (mi_prom s')) = counter [t; pretty p; g] (promConsume (mi_prom s)) + labelled_consume t p g e).
Proof.
  intros Hr. destruct e as [ev topics|segs n|]; cbn [mirror_step].
  - intros (mc & _ & [= <-])%bind_Ok. cbn [mi_prom].
    destruct ev; cbn [labelled_produce labelled_consume]; unfold RecordProduceLabeled, RecordConsumeLabeled, updatePrometheus; rewrite ?Hr; cbn;
      (split; [done|]); (split; [done|]); split; intros; rewrite ?counter_inc, ?decide_labels2, ?decide_labels3; lia.
  - intros [= <-]. cbn. split; [done|]. split; [done|]. split; intros; lia.
  - unfold RegisterPrometheus. rewrite Hr. intros [= <-]. cbn. split; [done|]. split; [done|]. split; intros; lia.
Qed.

(** Once registered, the labelled counters have grown by the number of single
    publishes and deliveries under their labels, whatever else happened, while the
    retention and backpressure counters stand still. *)
Lemma mirror_counts es : forall s s',
  promRegistered (mi_prom s) = true -> mirror_run s es = Ok s' ->
  unwritten (mi_prom s') = unwritten (mi_prom s) /\
  (forall t p, counter [t; pretty p] (promProduce (mi_prom s')) = counter [t; pretty p] (promProduce (mi_prom s)) + zsum (labelled_produce t p <$> es)) /\
  (forall t p g, counter [t; pretty p; g] (promConsume (mi_prom s')) = counter [t; pretty p; g] (promConsume (mi_prom s)) + zsum (labelled_consume t p g <$> es)).
Proof.
  induction es as [|e es IH]; intros s s' Hr; cbn [mirror_run].
  { intros [= <-]. cbn. split; [done|]. split; intros; lia. }
  intros (s1 & H1 & H2)%bind_Ok. destruct (mirror_step_counts _ _ _ Hr H1) as (Hr1 & Hu & Hp & Hc).
  destruct (IH _ _ Hr1 H2) as (Hu' & Hp' & Hc'). split; [congruence|].
  split; intros; rewrite fmap_cons; [rewrite Hp', Hp|rewrite Hc', Hc]; unfold zsum; cbn [foldr]; lia.
Qed.

(** The mirror is write-only: the collector runs as without it, unless a
    registration panics. *)
Definition plain_event (e : mirror_event) : list event := match e with MEvent ev _ => [ev] | _ => [] end.
Definition no_retention (e : mirror_event) : Prop := match e with MRetention _ _ => False | _ => True end.
Lemma mirror_projects es : forall s s',
  Forall no_retention es -> mirror_run s es = Ok s' -> run (mi_mc s) (concat (plain_event <$> es)) = Ok (mi_mc s').
Proof.
  induction es as [|e es IH]; intros s s' Hn; cbn [mirror_run]; [by intros [= ->]|]. apply list.Forall_cons in Hn as [He Hn].
  intros (s1 & H1 & H2)%bind_Ok. rewrite fmap_cons. cbn [concat]. specialize (IH _ _ Hn H2).
  destruct e as [ev topics|segs n|]; cbn [mirror_step plain_event app run] in *.
  - apply bind_Ok in H1 as (mc & -> & [= <-]). rewrite Ok_bind. exact IH.
  - done.
  - apply bind_Ok in H1 as ([reg pm] & _ & [= <-]). exact IH.
Qed.

(** ** The gauges *)

Lemma set_parts_other parts l : forall i xs g,
  l ∉ ((fun '(t, p) => [t; pretty p]) <$> parts) -> set_parts parts i xs g !! l = g !! l.
Proof.
  induction parts as [|[t p] parts IH]; intros i xs g Hl; cbn [set_parts]; [done|]. rewrite fmap_cons, not_elem_of_cons in Hl. destruct Hl as [Hne Hl].
  rewrite IH by done. destruct (xs !! i); [|done]. by rewrite lookup_insert_ne.
Qed.

Lemma set_parts_lookup parts : forall i xs g j t p,
  NoDup parts -> parts !! j = Some (t, p) ->
  set_parts parts i xs g !! [t; pretty p] = match xs !! (i + j)%nat with Some x => Some x | None => g !! [t; pretty p] end.
Proof.
  induction parts as [|[t0 p0] parts IH]; intros i xs g j t p Hnd Hj; [done|]. apply list.NoDup_cons in Hnd as [Hn Hnd]. cbn [set_parts].
  destruct j as [|j]; cbn in Hj.
  - injection Hj as -> ->. rewrite set_parts_other, Nat.add_0_r.
    + destruct (xs !! i); [by rewrite lookup_insert_eq|done].
    + intros ([t' p'] & [= -> E] & Hin)%list_elem_of_fmap. apply (inj pretty) in E as ->. done.
  - rewrite (IH _ _ _ j) by done. replace (i + S j)%nat with (i + 1 + j)%nat by lia. destruct (xs !! (i + 1 + j)%nat); [done|].
    destruct (xs !! i); [|done]. rewrite lookup_insert_ne; [done|]. intros [= -> E]. apply (inj pretty) in E as ->.
    apply Hn. by eapply list_elem_of_lookup_2.
Qed.

(** When both visits of the topic map meet the same partitions in the same order,
    each partition's gauges show its own numbers of the snapshot; labels not met,
    as those of a topic that was deleted, show what they showed. *)
Lemma updatePrometheus_mirrors now su mc topics pm :
  promRegistered pm = true -> NoDup (flat_parts topics) -> (flat_parts topics).*2 = su_pids su ->
  let snap := (Collect now su mc).1 in
  let pm' := updatePrometheus topics snap pm in
  promThroughput pm' = Throughput snap /\ promLoadStdDev pm' = LoadStdDev snap /\ promBPOpen pm' = of_int (BackpressureOpenCount snap) /\
  (forall t p, (t, p) ∈ flat_parts topics ->
     promLoad pm' !! [t; pretty p] = Some (part_stats mc p).2 /\ promDepth pm' !! [t; pretty p] = Some (of_int (part_stats mc p).1)) /\
  (forall t p, (t, p) ∉ flat_parts topics ->
     promLoad pm' !! [t; pretty p] = promLoad pm !! [t; pretty p] /\ promDepth pm' !! [t; pretty p] = promDepth pm !! [t; pretty p]).
Proof.
  intros Hr Hnd Hsu snap pm'. destruct (Collect_stats now su mc) as (Hl & Hd & _). fold snap in Hl, Hd.
  unfold pm', updatePrometheus. rewrite Hr. cbn. split; [done|]. split; [done|]. split; [done|]. split; intros t p Hin.
  - apply list_elem_of_lookup in Hin as [j Hj]. rewrite !(set_parts_lookup _ _ _ _ j) by done. cbn [Nat.add].
    assert (Hp : su_pids su !! j = Some p) by (by rewrite <- Hsu, list_lookup_fmap, Hj).
    rewrite Hl, Hd, !list_lookup_fmap, Hp. done.
  - rewrite !set_parts_other; [done|..]; intros ([t' p'] & [= -> E] & Hin')%list_elem_of_fmap; apply (inj pretty) in E as ->; done.
Qed.
End mirror.

(** Registration succeeds once the thirteen names are free; a second call is a
    no-op. *)
Lemma RegisterPrometheus_once reg pm :
  promRegistered pm = false -> Forall (fun d => metric_name d ∉ reg) broker_declarations ->
  exists pm', RegisterPrometheus reg pm = Ok (list_to_set (metric_name <$> broker_declarations) ∪ reg, pm') /\ promRegistered pm' = true /\
    forall reg', RegisterPrometheus reg' pm' = Ok (reg', pm').
Proof.
  intros Hr Hf. unfold RegisterPrometheus. rewrite Hr, (proj2 (register_Ok _ _ (list_to_set (metric_name <$> broker_declarations) ∪ reg))); [|split; [|done]].
  - rewrite Ok_bind. by eexists.
  - apply (bool_decide_eq_true_1 _). vm_compute. reflexivity.
Qed.

(** A batch of four and one single publish: the counter that is exported has one of
    the five. *)
Example batches_not_exported :
  match mirror_run (G := plain_stats) (mkMirrored (NewMetricsCollector 0) no_mirror ∅)
          [MRegister; MEvent (EvProduceBatch "orders" 0 4) []; MEvent (EvProduce "orders" 0) []] with
  | Ok s => counter ["orders"; "0"]%string (promProduce (mi_prom s)) = 1 /\ produceCount (mi_mc s) = 5
  | _ => False
  end.
Proof. vm_compute. done. Qed.
