(* ===== verification/Balancer.v ===== *)
(** * The balancer interface
    (src/pkg/balancer/balancer.go, and the copies of it in src/pkg/broker/broker.go)

    What the broker asks of a balancer: a partition for each message, and to be
    told about metrics and finished publishes.  [BalancerLaws] is the promise
    the broker's theorems rely on; each balancer's file says whether it keeps
    it.  Random draws are arguments. *)

From S2P Require Import Prelude PriorityIndex GoFloat Metrics.

(** The sequence of [rand.IntN] results a call sees: the [k]-th draw below [n]. *)
Definition draws : Type := nat -> Z -> Z.
Definition fair (d : draws) : Prop := forall k n, 0 < n -> 0 <= d k n < n.

(** [rand.IntN(n)]: panics unless [n > 0]. *)
Definition IntN (d : draws) (k : nat) (n : Z) : result Z := if n <=? 0 then Panic else Ok (d k n).

(** [rand.Float64()] is a draw of 53 bits, divided by [2^53]. *)
Definition rand_Float64 (d : draws) (k : nat) : float := (of_int (d k (2 ^ 53)) / 0x1p53)%float.

Class Balancer (S : Type) : Type := {
  bal_SelectPartition : draws -> Time -> S -> string -> bytes -> Z -> result (S * Z);
  bal_OnMetrics : Time -> S -> Metrics -> result S;
  (** [InflightTracker] and [BaseThroughputSetter]: the identity when the
      balancer does not implement the interface. *)
  bal_OnPublishComplete : S -> Z -> result S;
  bal_SetBaseThroughput : S -> float -> S;
  (** The counters Collect asks for: 0 when the balancer has none. *)
  bal_DroppedExperience : S -> Z;
  bal_EvictionCount : S -> Z;
}.

(** What the broker relies on: a pick is a partition of the topic, and no call
    panics. *)
Class BalancerLaws (S : Type) {B : Balancer S} : Type := {
  bal_ok : S -> Prop;
  select_in_range d now s topic key n : fair d -> bal_ok s -> 0 < n < 2 ^ 63 ->
    exists s' p, bal_SelectPartition d now s topic key n = Ok (s', p) /\ 0 <= p < n /\ bal_ok s';
  OnMetrics_ok now s m : bal_ok s -> exists s', bal_OnMetrics now s m = Ok s' /\ bal_ok s';
  OnPublishComplete_ok s p : bal_ok s -> 0 <= p -> exists s', bal_OnPublishComplete s p = Ok s' /\ bal_ok s';
}.
