(* ===== verification/RoundRobin.v ===== *)
(** * Round-robin balancing (src/pkg/balancer/round_robin.go) *)

From S2P Require Import Prelude GoFloat Metrics Balancer.

Definition defaultRRSkipThreshold : float := 0.9%float.
Definition defaultRRSkipBudget : Z := 2.

Record RoundRobin : Type := mkRR {
  rr_counter : Z;
  rr_loads : option (list float);
  skipThreshold : float;
  skipBudget : Z;
}.

Definition RROption : Type := RoundRobin -> RoundRobin.
Definition WithRRSkipThreshold (t : float) : RROption :=
  fun rr => mkRR (rr_counter rr) (rr_loads rr) t (skipBudget rr).
Definition WithRRSkipBudget (b : Z) : RROption :=
  fun rr => mkRR (rr_counter rr) (rr_loads rr) (skipThreshold rr) b.

Definition NewRoundRobin (opts : list RROption) : RoundRobin :=
  foldl (fun rr o => o rr) (mkRR 0 None defaultRRSkipThreshold defaultRRSkipBudget) opts.

(** [idx < len(ld) && ld[idx] > skipThreshold] *)
Definition overloaded (rr : RoundRobin) (ld : list float) (idx : Z) : bool :=
  match ld !! Z.to_nat idx with Some x => (skipThreshold rr <? x)%float | None => false end.

Fixpoint skip_loop (rr : RoundRobin) (ld : list float) (numPartitions : Z) (idx : Z) (tries : nat) : Z :=
  match tries with
  | O => idx
  | S tries' =>
      if overloaded rr ld idx then skip_loop rr ld numPartitions ((idx + 1) mod numPartitions) tries'
      else idx
  end.

Definition rr_SelectPartition (rr : RoundRobin) (numPartitions : Z) : result (RoundRobin * Z) :=
  let n := u64 (rr_counter rr + 1) in
  let rr := mkRR n (rr_loads rr) (skipThreshold rr) (skipBudget rr) in
  if u64 numPartitions =? 0 then Panic
  else
    let idx := i64 (n mod u64 numPartitions) in
    if skipBudget rr <=? 0 then Ok (rr, idx)
    else
      match rr_loads rr with
      | None => Ok (rr, idx)
      | Some ld => Ok (rr, skip_loop rr ld numPartitions idx (Z.to_nat (skipBudget rr)))
      end.

Definition rr_OnMetrics (rr : RoundRobin) (m : Metrics) : RoundRobin :=
  if decide (length (PartitionLoads m) = 0)%nat then rr
  else mkRR (rr_counter rr) (Some (PartitionLoads m)) (skipThreshold rr) (skipBudget rr).

#[export] Instance rr_balancer : Balancer RoundRobin := {|
  bal_SelectPartition _ _ rr _ _ n := rr_SelectPartition rr n;
  bal_OnMetrics _ rr m := Ok (rr_OnMetrics rr m);
  bal_OnPublishComplete rr _ := Ok rr;
  bal_SetBaseThroughput rr _ := rr;
  bal_DroppedExperience _ := 0;
  bal_EvictionCount _ := 0;
|}.

(** ** Lemmas *)

(** Where the skip loop stops: at the first candidate that is not overloaded, or
    after the budget is spent. *)
Lemma skip_loop_spec rr ld np idx tries :
  0 < np -> 0 <= idx < np ->
  exists j, (j <= tries)%nat /\ skip_loop rr ld np idx tries = (idx + Z.of_nat j) mod np /\
    (forall i, (i < j)%nat -> overloaded rr ld ((idx + Z.of_nat i) mod np) = true) /\
    ((j < tries)%nat -> overloaded rr ld ((idx + Z.of_nat j) mod np) = false).
Proof.
  intros Hnp. revert idx. induction tries as [|tries IH]; intros idx Hidx; cbn [skip_loop].
  - exists 0%nat. rewrite Z.add_0_r, Z.mod_small by done. split_and!; try done; lia.
  - destruct (overloaded rr ld idx) eqn:E.
    + pose proof (Z.mod_pos_bound (idx + 1) np Hnp) as Hb.
      destruct (IH ((idx + 1) mod np) Hb) as (j & Hj & -> & Hov & Hst).
      assert (Hsh : forall i, ((idx + 1) mod np + Z.of_nat i) mod np = (idx + Z.of_nat (S i)) mod np).
      { intros i. rewrite Zplus_mod_idemp_l. f_equal. lia. }
      exists (S j). split; [lia|]. split; [apply Hsh|]. split.
      * intros [|i] Hi; [by rewrite Z.add_0_r, Z.mod_small|]. rewrite <- Hsh. apply Hov. lia.
      * intros Hlt. rewrite <- Hsh. apply Hst. lia.
    + exists 0%nat. rewrite Z.add_0_r, Z.mod_small by done. split_and!; try done; lia.
Qed.

Definition rr_start (rr : RoundRobin) (np : Z) : Z := u64 (rr_counter rr + 1) mod np.

Lemma rr_SelectPartition_spec rr np :
  0 < np < 2 ^ 63 ->
  exists j, (j <= Z.to_nat (skipBudget rr))%nat /\
    let pick i := (rr_start rr np + Z.of_nat i) mod np in
    let ov i := match rr_loads rr with Some ld => overloaded rr ld (pick i) | None => false end in
    rr_SelectPartition rr np =
      Ok (mkRR (u64 (rr_counter rr + 1)) (rr_loads rr) (skipThreshold rr) (skipBudget rr), pick j) /\
    (forall i, (i < j)%nat -> ov i = true) /\ ((j < Z.to_nat (skipBudget rr))%nat -> ov j = false).
Proof.
  intros Hnp. unfold rr_SelectPartition. rewrite (u64_small np) by (unfold in_u64; lia).
  zdec. fold (rr_start rr np).
  pose proof (Z.mod_pos_bound (u64 (rr_counter rr + 1)) np ltac:(lia)) as Hb. fold (rr_start rr np) in Hb.
  rewrite i64_small by (unfold in_i64; lia). cbn [skipBudget rr_loads].
  destruct (Z.leb_spec (skipBudget rr) 0) as [Hz|Hz].
  { exists 0%nat. rewrite Z.add_0_r, Z.mod_small by lia. split_and!; try done; lia. }
  destruct (rr_loads rr) as [ld|].
  - destruct (skip_loop_spec (mkRR (u64 (rr_counter rr + 1)) (Some ld) (skipThreshold rr) (skipBudget rr)) ld np
      (rr_start rr np) (Z.to_nat (skipBudget rr)) ltac:(lia) Hb) as (j & Hj & Heq & Hov & Hst).
    exists j. rewrite Heq. by split_and!.
  - exists 0%nat. rewrite Z.add_0_r, Z.mod_small by lia. split_and!; try done; lia.
Qed.

#[export] Instance rr_laws : BalancerLaws RoundRobin.
Proof.
  refine {| bal_ok := fun _ => True |}; cbn.
  - intros d now rr topic key n _ _ Hn. destruct (rr_SelectPartition_spec rr n Hn) as (j & _ & -> & _).
    eexists _, _. split; [done|]. split; [|done]. apply Z.mod_pos_bound. lia.
  - eauto.
  - eauto.
Defined.

Fixpoint select_n (rr : RoundRobin) (np : Z) (k : nat) : result (RoundRobin * list Z) :=
  match k with
  | O => Ok (rr, [])
  | S k' =>
      '(rr, p) ← rr_SelectPartition rr np;
      '(rr, ps) ← select_n rr np k';
      Ok (rr, p :: ps)
  end.

(** ** Properties *)

(** Round robin picks the next partition in turn, and skips over
    overloaded ones: the pick is the first candidate, counting from the turn,
    that is not above the threshold, or the one after [skipBudget] skips.  The
    index is always a partition of the topic. *)
Theorem rr_skips_overloaded (rr : RoundRobin) (np : Z) :
  0 < np < 2 ^ 63 ->
  exists j, (j <= Z.to_nat (skipBudget rr))%nat /\
    let pick i := (rr_start rr np + Z.of_nat i) mod np in
    let ov i := match rr_loads rr with Some ld => overloaded rr ld (pick i) | None => false end in
    rr_SelectPartition rr np =
      Ok (mkRR (u64 (rr_counter rr + 1)) (rr_loads rr) (skipThreshold rr) (skipBudget rr), pick j) /\
    0 <= pick j < np /\
    (forall i, (i < j)%nat -> ov i = true) /\ ((j < Z.to_nat (skipBudget rr))%nat -> ov j = false).
Proof.
  intros Hnp. destruct (rr_SelectPartition_spec rr np Hnp) as (j & Hj & H1 & H2 & H3). exists j.
  split; [done|]. cbn zeta. split; [done|]. split; [apply Z.mod_pos_bound; lia|done].
Qed.

Lemma rr_skips_overloaded_witness :
  exists rr', rr_SelectPartition (mkRR 3 (Some [0.95; 0.99; 0.2; 0.1]%float) 0.9%float 2) 4 = Ok (rr', 2).
Proof.
  destruct (rr_skips_overloaded (mkRR 3 (Some [0.95; 0.99; 0.2; 0.1]%float) 0.9%float 2) 4 ltac:(lia))
    as (j & _ & H & _). eexists. vm_compute in H |- *. injection H as Hj. reflexivity.
Defined.

(** Even spread: while no load is reported and the counter does not wrap,
    any [np] consecutive picks among [np] partitions are a rotation of
    [0 .. np-1], so each partition gets exactly one. *)
Theorem rr_fair (rr : RoundRobin) (np : nat) :
  (0 < np)%nat -> Z.of_nat np < 2 ^ 63 -> rr_loads rr = None ->
  0 <= rr_counter rr -> rr_counter rr + Z.of_nat np < 2 ^ 64 ->
  exists rr' ps, select_n rr (Z.of_nat np) np = Ok (rr', ps) /\ ps ≡ₚ seqZ 0 (Z.of_nat np).
Proof.
  intros H0 Hnp Hl Hc Hw.
  assert (Hsel : forall k rr, rr_loads rr = None -> 0 <= rr_counter rr -> rr_counter rr + Z.of_nat k < 2 ^ 64 ->
    exists rr', select_n rr (Z.of_nat np) k =
      Ok (rr', (fun c => c mod Z.of_nat np) <$> seqZ (rr_counter rr + 1) (Z.of_nat k))).
  { clear rr Hl Hc Hw. induction k as [|k IH]; intros rr Hl Hc Hw; [by exists rr|]. cbn [select_n].
    destruct (rr_SelectPartition_spec rr (Z.of_nat np) ltac:(lia)) as (j & _ & -> & Hov & _). rewrite Ok_bind.
    assert (j = 0%nat) as ->. { destruct j; [done|]. specialize (Hov 0%nat ltac:(lia)). by rewrite Hl in Hov. }
    in_width.
    destruct (IH (mkRR (rr_counter rr + 1) (rr_loads rr) (skipThreshold rr) (skipBudget rr))) as [rr' ->]; [done|cbn; lia..|].
    rewrite Ok_bind. exists rr'. rewrite (seqZ_cons (rr_counter rr + 1) (Z.of_nat (S k))) by lia. cbn [fmap list_fmap rr_counter].
    unfold rr_start. rewrite Z.add_0_r, Z.mod_mod by lia. in_width.
    by replace (Z.pred (Z.of_nat (S k))) with (Z.of_nat k) by lia. }
  destruct (Hsel np rr Hl Hc Hw) as [rr' ->]. eexists _, _. split; [done|].
  apply submseteq_length_Permutation; [|rewrite length_fmap, !length_seqZ; lia].
  apply NoDup_submseteq.
  - apply NoDup_fmap_2_strong; [|apply NoDup_seqZ]. intros x y Hx%elem_of_seqZ Hy%elem_of_seqZ Heq.
    pose proof (Z.div_mod x (Z.of_nat np) ltac:(lia)). pose proof (Z.div_mod y (Z.of_nat np) ltac:(lia)).
    set (q := x / Z.of_nat np - y / Z.of_nat np).
    assert (Hq : x - y = Z.of_nat np * q) by (subst q; rewrite Z.mul_sub_distr_l; lia).
    assert (q < 1) by nia. assert (-1 < q) by nia. assert (q = 0) as Hz by lia. rewrite Hz in Hq. lia.
  - intros z (c & -> & _)%list_elem_of_fmap. apply elem_of_seqZ.
    pose proof (Z.mod_pos_bound c (Z.of_nat np) ltac:(lia)). lia.
Qed.

Lemma rr_fair_witness :
  exists rr' ps, select_n (NewRoundRobin [WithRRSkipBudget 3]) 4 4 = Ok (rr', ps) /\ ps ≡ₚ [0; 1; 2; 3].
Proof. apply (rr_fair (NewRoundRobin [WithRRSkipBudget 3]) 4); cbn; try lia; reflexivity. Defined.
