(* ===== verification/P2C.v ===== *)
(** * Power of two choices (src/pkg/balancer/p2c.go)

    Two distinct partitions are drawn and the one with the lower score wins.  The
    number of publishes in flight per partition is counted in an array that is
    replaced, not copied, when a topic with more partitions shows up.  A call is
    modelled as one step: between the load and the increment of its counter no
    other call intervenes. *)

From S2P Require Import Prelude GoFloat Metrics Balancer.

Definition defaultP2CAlpha : float := 0.3%float.
Definition defaultP2CLoadWeight : float := 1%float.
Definition defaultP2CDepthWeight : float := 1%float.
Definition defaultP2CInflightWeight : float := 2%float.

Record PowerOfTwoChoices : Type := mkP2C {
  loadEWMA : option (list float);
  depthNorm : option (list float);
  inflight : option (list Z);
  alpha : float;
  loadWeight : float;
  depthWeight : float;
  inflightWeight : float;
}.

Definition P2COption : Type := PowerOfTwoChoices -> PowerOfTwoChoices.
Definition WithP2CLoadWeight (w : float) : P2COption := fun p =>
  mkP2C (loadEWMA p) (depthNorm p) (inflight p) (alpha p) w (depthWeight p) (inflightWeight p).
Definition WithP2CDepthWeight (w : float) : P2COption := fun p =>
  mkP2C (loadEWMA p) (depthNorm p) (inflight p) (alpha p) (loadWeight p) w (inflightWeight p).
Definition WithP2CAlpha (a : float) : P2COption := fun p =>
  mkP2C (loadEWMA p) (depthNorm p) (inflight p) a (loadWeight p) (depthWeight p) (inflightWeight p).
Definition WithP2CInflightWeight (w : float) : P2COption := fun p =>
  mkP2C (loadEWMA p) (depthNorm p) (inflight p) (alpha p) (loadWeight p) (depthWeight p) w.

Definition NewPowerOfTwoChoices (opts : list P2COption) : PowerOfTwoChoices :=
  foldl (fun p o => o p)
    (mkP2C None None None defaultP2CAlpha defaultP2CLoadWeight defaultP2CDepthWeight defaultP2CInflightWeight) opts.

Definition set_inflight (p : PowerOfTwoChoices) (inf : list Z) : PowerOfTwoChoices :=
  mkP2C (loadEWMA p) (depthNorm p) (Some inf) (alpha p) (loadWeight p) (depthWeight p) (inflightWeight p).

(** ensureInflight: the array in use afterwards. *)
Definition ensureInflight (p : PowerOfTwoChoices) (n : Z) : list Z :=
  match inflight p with
  | Some arr => if n <=? Z.of_nat (length arr) then arr else replicate (Z.to_nat n) 0
  | None => replicate (Z.to_nat n) 0
  end.

Definition score (p : PowerOfTwoChoices) (idx : Z) (inf : list Z) : float :=
  let s := 0%float in
  let s := match loadEWMA p ≫= (.!! Z.to_nat idx) with
           | Some x => (s + loadWeight p * x)%float | None => s end in
  let s := match depthNorm p ≫= (.!! Z.to_nat idx) with
           | Some x => (s + depthWeight p * x)%float | None => s end in
  match inf !! Z.to_nat idx with
  | Some x => (s + inflightWeight p * of_int x)%float | None => s end.

(** [inf[i].Add(n)] *)
Definition inf_add (inf : list Z) (i n : Z) : result (list Z) :=
  x ← index inf (Z.to_nat i); store inf (Z.to_nat i) (i64 (x + n)).

Definition choose (d : draws) (p : PowerOfTwoChoices) (inf : list Z) (a b : Z) : result Z :=
  let sa := score p a inf in
  let sb := score p b inf in
  if (sa <? sb)%float then Ok a
  else if (sb <? sa)%float then Ok b
  else c ← IntN d 2 2; Ok (if c =? 0 then a else b).

Definition p2c_SelectPartition (d : draws) (p : PowerOfTwoChoices) (numPartitions : Z)
    : result (PowerOfTwoChoices * Z) :=
  if numPartitions <=? 1 then
    inf ← inf_add (ensureInflight p 1) 0 1;
    Ok (set_inflight p inf, 0)
  else
    let inf := ensureInflight p numPartitions in
    a ← IntN d 0 numPartitions;
    b ← IntN d 1 (numPartitions - 1);
    let b := if a <=? b then b + 1 else b in
    chosen ← choose d p inf a b;
    inf ← inf_add inf chosen 1;
    Ok (set_inflight p inf, chosen).

Definition OnPublishComplete (p : PowerOfTwoChoices) (partition : Z) : result PowerOfTwoChoices :=
  match inflight p with
  | Some arr =>
      if partition <? Z.of_nat (length arr) then
        if partition <? 0 then Panic else arr ← inf_add arr partition (-1); Ok (set_inflight p arr)
      else Ok p
  | None => Ok p
  end.

Definition updateLoadEWMA (p : PowerOfTwoChoices) (sample : list float) : PowerOfTwoChoices :=
  let ewma :=
    match loadEWMA p with
    | Some old =>
        if decide (length old = length sample)
        then zip_with (fun s o => alpha p * s + (1 - alpha p) * o)%float sample old
        else sample
    | None => sample
    end in
  mkP2C (Some ewma) (depthNorm p) (inflight p) (alpha p) (loadWeight p) (depthWeight p) (inflightWeight p).

Definition updateDepthNorm (p : PowerOfTwoChoices) (depths : list Z) : PowerOfTwoChoices :=
  let maxD := foldl (fun m d => if m <? d then d else m) 0 depths in
  let norm :=
    if 0 <? maxD then let inv := (1 / of_int maxD)%float in (fun d => of_int d * inv)%float <$> depths
    else replicate (length depths) 0%float in
  mkP2C (loadEWMA p) (Some norm) (inflight p) (alpha p) (loadWeight p) (depthWeight p) (inflightWeight p).

Definition p2c_OnMetrics (p : PowerOfTwoChoices) (m : Metrics) : PowerOfTwoChoices :=
  let p := if decide (0 < length (PartitionLoads m))%nat then updateLoadEWMA p (PartitionLoads m) else p in
  if decide (0 < length (QueueDepths m))%nat then updateDepthNorm p (QueueDepths m) else p.

#[export] Instance p2c_balancer : Balancer PowerOfTwoChoices := {|
  bal_SelectPartition d _ p _ _ n := p2c_SelectPartition d p n;
  bal_OnMetrics _ p m := Ok (p2c_OnMetrics p m);
  bal_OnPublishComplete := OnPublishComplete;
  bal_SetBaseThroughput p _ := p;
  bal_DroppedExperience _ := 0;
  bal_EvictionCount _ := 0;
|}.

(** ** Lemmas *)

Lemma length_ensureInflight p n : 0 <= n -> n <= Z.of_nat (length (ensureInflight p n)).
Proof.
  intros Hn. unfold ensureInflight. destruct (inflight p) as [arr|]; [destruct (Z.leb_spec n (Z.of_nat (length arr))); [done|]|];
    rewrite length_replicate; lia.
Qed.

Lemma inf_add_Ok inf i n :
  0 <= i < Z.of_nat (length inf) ->
  inf_add inf i n = Ok (<[Z.to_nat i := i64 (inf !!! Z.to_nat i + n)]> inf).
Proof. intros Hi. unfold inf_add. rewrite index_Ok, Ok_bind, store_Ok by lia. done. Qed.

Lemma choose_spec d p inf a b :
  fair d -> exists c, choose d p inf a b = Ok c /\ (c = a \/ c = b) /\
    (forall o, (o = a \/ o = b) -> (score p o inf <? score p c inf)%float = false).
Proof.
  intros Hd. unfold choose.
  destruct (score p a inf <? score p b inf)%float eqn:E1.
  { exists a. split; [done|]. split; [by left|]. intros o [-> | ->]; [apply flt_irrefl|].
    destruct (score p b inf <? score p a inf)%float eqn:E2; [|done]. pose proof (flt_trans _ _ _ E1 E2) as Ht. by rewrite flt_irrefl in Ht. }
  destruct (score p b inf <? score p a inf)%float eqn:E2.
  { exists b. split; [done|]. split; [by right|]. intros o [-> | ->]; [done|apply flt_irrefl]. }
  cbn [IntN Z.leb Z.compare]. rewrite Ok_bind. destruct (d 2%nat 2 =? 0).
  - exists a. split; [done|]. split; [by left|]. intros o [-> | ->]; [apply flt_irrefl|done].
  - exists b. split; [done|]. split; [by right|]. intros o [-> | ->]; [done|apply flt_irrefl].
Qed.

Lemma p2c_select_spec d p np :
  fair d -> 1 < np ->
  let inf := ensureInflight p np in
  exists a b c, 0 <= a < np /\ 0 <= b < np /\ a <> b /\ (c = a \/ c = b) /\
    (forall o, (o = a \/ o = b) -> (score p o inf <? score p c inf)%float = false) /\
    p2c_SelectPartition d p np =
      Ok (set_inflight p (<[Z.to_nat c := i64 (inf !!! Z.to_nat c + 1)]> inf), c).
Proof.
  intros Hd Hnp inf. unfold p2c_SelectPartition. rewrite (proj2 (Z.leb_gt _ _)) by lia. fold inf.
  unfold IntN. rewrite (proj2 (Z.leb_gt np 0)), Ok_bind by lia.
  rewrite (proj2 (Z.leb_gt (np - 1) 0)), Ok_bind by lia.
  pose proof (Hd 0%nat np ltac:(lia)) as Ha. pose proof (Hd 1%nat (np - 1) ltac:(lia)) as Hb.
  set (a := d 0%nat np) in *. set (b0 := d 1%nat (np - 1)) in *.
  set (b := if a <=? b0 then b0 + 1 else b0).
  assert (0 <= b < np /\ a <> b) as [Hb' Hab] by (unfold b; destruct (Z.leb_spec a b0); lia).
  destruct (choose_spec d p inf a b Hd) as (c & Hc & Hin & Hmin).
  exists a, b, c. rewrite Hc, Ok_bind.
  pose proof (length_ensureInflight p np ltac:(lia)) as Hlen. fold inf in Hlen.
  rewrite inf_add_Ok, Ok_bind by (destruct Hin as [-> | ->]; lia).
  split; [exact Ha|]. split; [exact Hb'|]. done.
Qed.

#[export] Instance p2c_laws : BalancerLaws PowerOfTwoChoices.
Proof.
  refine {| bal_ok := fun _ => True |}; cbn.
  - intros d now p topic key n Hd _ Hn. destruct (decide (n = 1)) as [->|Hne].
    + pose proof (length_ensureInflight p 1 ltac:(lia)). unfold p2c_SelectPartition. cbn [Z.leb Z.compare Pos.compare].
      change (1 <=? 1) with true. cbv iota. rewrite inf_add_Ok, Ok_bind by lia. eexists _, _. split; [done|]. split; [lia|done].
    + destruct (p2c_select_spec d p n Hd ltac:(lia)) as (a & b & c & ? & ? & _ & Hc & _ & ->).
      eexists _, _. split; [done|]. split; [|done]. destruct Hc; subst c; lia.
  - eauto.
  - intros p q _ Hq. unfold OnPublishComplete. destruct (inflight p) as [arr|]; [|eauto].
    destruct (Z.ltb_spec q (Z.of_nat (length arr))); [|eauto].
    rewrite (proj2 (Z.ltb_ge _ _)), inf_add_Ok, Ok_bind by lia. eauto.
Defined.

(** ** Properties *)

(** Of two distinct partitions drawn at random the one picked never has the
    higher score, it is a partition of the topic, and its in-flight count goes
    up by one while the other counts stay. *)
Theorem p2c_picks_lower (d : draws) (p : PowerOfTwoChoices) (np : Z) :
  fair d -> 1 < np ->
  let inf := ensureInflight p np in
  exists a b c, 0 <= a < np /\ 0 <= b < np /\ a <> b /\ (c = a \/ c = b) /\
    (forall o, (o = a \/ o = b) -> (score p o inf <? score p c inf)%float = false) /\
    p2c_SelectPartition d p np =
      Ok (set_inflight p (<[Z.to_nat c := i64 (inf !!! Z.to_nat c + 1)]> inf), c).
Proof. apply p2c_select_spec. Qed.

(** The draw 0, then the largest value, then 1. *)
Definition sample_draws : draws := fun k n => match k with O => 0 | S O => n - 1 | _ => Z.min 1 (n - 1) end.

Lemma sample_draws_fair : fair sample_draws.
Proof. intros [|[|k]] n Hn; cbn; lia. Qed.

Definition sample_p2c : PowerOfTwoChoices :=
  mkP2C (Some [0.5; 0.1; 0.2]%float) None None 0.3%float 1%float 1%float 2%float.

Lemma p2c_picks_lower_witness :
  exists p', p2c_SelectPartition sample_draws sample_p2c 3 = Ok (p', 2) /\
    exists o, 0 <= o < 3 /\ o <> 2 /\ (score sample_p2c o [0; 0; 0]%Z <? score sample_p2c 2%Z [0; 0; 0]%Z)%float = false.
Proof.
  destruct (p2c_picks_lower sample_draws sample_p2c 3 sample_draws_fair ltac:(lia))
    as (a & b & c & Ha & Hb & Hab & Hc & Hmin & H).
  assert (Hsel : exists p', p2c_SelectPartition sample_draws sample_p2c 3 = Ok (p', 2))
    by (eexists; vm_compute; reflexivity).
  destruct Hsel as [p' Hsel]. rewrite Hsel in H. injection H as _ <-.
  exists p'. split; [exact Hsel|].
  destruct Hc as [<- | <-]; [exists b|exists a]; (split; [assumption|]); (split; [congruence|]); apply Hmin; tauto.
Defined.

(** A publish is counted while it is in flight: selecting a partition and
    reporting its completion leaves every counter as it was (once the counters
    cover the topic, and below the int64 maximum). *)
Theorem p2c_inflight_balanced (d : draws) (p : PowerOfTwoChoices) (np : Z) (inf : list Z) :
  fair d -> 1 < np -> inflight p = Some inf -> np <= Z.of_nat (length inf) ->
  Forall (fun x => in_i64 x /\ in_i64 (x + 1)) inf ->
  exists p1 c p2, p2c_SelectPartition d p np = Ok (p1, c) /\ OnPublishComplete p1 c = Ok p2 /\ inflight p2 = Some inf.
Proof.
  intros Hd Hnp Hinf Hlen Hall. destruct (p2c_select_spec d p np Hd Hnp) as (a & b & c & Ha & Hb & _ & Hc & _ & ->).
  assert (ensureInflight p np = inf) as -> by (unfold ensureInflight; by rewrite Hinf, (proj2 (Z.leb_le _ _))).
  assert (Hcr : 0 <= c < Z.of_nat (length inf)) by (destruct Hc; subst c; lia).
  destruct (lookup_lt_is_Some_2 inf (Z.to_nat c)) as [x Hx]; [lia|].
  destruct (Forall_lookup_1 _ _ _ _ Hall Hx) as [H1 H2].
  eexists _, c, _. split; [done|]. unfold OnPublishComplete. cbn [inflight set_inflight].
  rewrite length_insert, (proj2 (Z.ltb_lt _ _)), (proj2 (Z.ltb_ge _ _)) by lia.
  rewrite inf_add_Ok, Ok_bind by (rewrite length_insert; lia). split; [done|]. cbn. f_equal.
  rewrite list_lookup_total_insert_eq by lia. rewrite (list_lookup_total_correct _ _ _ Hx).
  rewrite list_insert_insert_eq, (i64_small (x + 1)) by done.
  replace (x + 1 + -1) with x by lia. rewrite i64_small by done. by apply list_insert_id.
Qed.

Lemma p2c_inflight_balanced_witness :
  exists p1 c p2, p2c_SelectPartition sample_draws
      (set_inflight (NewPowerOfTwoChoices []) [3; 1; 2]) 3 = Ok (p1, c) /\
    OnPublishComplete p1 c = Ok p2 /\ inflight p2 = Some [3; 1; 2].
Proof.
  apply p2c_inflight_balanced; [exact sample_draws_fair|lia|reflexivity|cbn; lia|].
  repeat constructor; unfold in_i64; lia.
Defined.

(** Counts are lost when a topic with more partitions arrives: the array is
    replaced by zeros, so when a publish that was in flight completes afterwards
    its partition's count drops below zero. *)
Theorem p2c_growth_loses_counts (d : draws) (p : PowerOfTwoChoices) (np q : Z) (inf : list Z) :
  fair d -> 1 < np -> inflight p = Some inf -> Z.of_nat (length inf) < np -> 0 <= q < np ->
  exists p1 c, p2c_SelectPartition d p np = Ok (p1, c) /\
    (q <> c -> exists p2 inf2, OnPublishComplete p1 q = Ok p2 /\ inflight p2 = Some inf2 /\ inf2 !! Z.to_nat q = Some (-1)).
Proof.
  intros Hd Hnp Hinf Hlen Hq. destruct (p2c_select_spec d p np Hd Hnp) as (a & b & c & Ha & Hb & _ & Hc & _ & ->).
  assert (ensureInflight p np = replicate (Z.to_nat np) 0) as ->
    by (unfold ensureInflight; by rewrite Hinf, (proj2 (Z.leb_gt _ _))).
  assert (Hcr : 0 <= c < np) by (destruct Hc; subst c; lia).
  eexists _, c. split; [done|]. intros Hqc. unfold OnPublishComplete. cbn [inflight set_inflight].
  rewrite length_insert, length_replicate, (proj2 (Z.ltb_lt _ _)), (proj2 (Z.ltb_ge _ _)) by lia.
  rewrite inf_add_Ok, Ok_bind by (rewrite length_insert, length_replicate; lia). eexists _, _. split; [done|]. split; [done|].
  rewrite list_lookup_insert_eq by (rewrite length_insert, length_replicate; lia).
  rewrite list_lookup_total_insert_ne by lia. by rewrite lookup_total_replicate_2 by lia.
Qed.

Lemma p2c_growth_loses_counts_witness :
  exists p1 c, p2c_SelectPartition sample_draws (set_inflight (NewPowerOfTwoChoices []) [5]) 2 = Ok (p1, c) /\
    (0 <> c -> exists p2 inf2, OnPublishComplete p1 0 = Ok p2 /\ inflight p2 = Some inf2 /\ inf2 !! 0%nat = Some (-1)).
Proof.
  apply (p2c_growth_loses_counts sample_draws (set_inflight (NewPowerOfTwoChoices []) [5]) 2 0 [5]);
    [exact sample_draws_fair|lia|reflexivity|cbn; lia|lia].
Defined.
