(* ===== verification/PSA.v ===== *)
(** * Partition stickiness (src/pkg/balancer/psa.go)

    Keys are bound to partitions; a partition whose queue drains or which is
    overloaded is released.  The LRU cache of the bindings is the library
    hashicorp/golang-lru: [Lru] lists the calls and [LruLaws] their effect on
    its contents; its eviction callback runs inside Add and Remove.  The orders
    in which Go ranges over maps are parameters too. *)

From stdpp Require Import strings gmap.
From Stdlib Require Import Strings.Byte.
From S2P Require Import Prelude PriorityIndex GoFloat Metrics Balancer.

Class Lru : Type := {
  lru : Type;
  lru_New : Z -> lru;
  lru_Get : lru -> string -> lru * option Z;
  lru_Peek : lru -> string -> option Z;
  (** Add and Remove return the entry the callback is called with, if any. *)
  lru_Add : lru -> string -> Z -> lru * option (string * Z);
  lru_Remove : lru -> string -> lru * option (string * Z);
}.

Class LruLaws (U : Lru) : Type := {
  lru_map : lru -> gmap string Z;
  lru_New_map n : lru_map (lru_New n) = ∅;
  lru_Get_spec c k : snd (lru_Get c k) = lru_map c !! k /\ lru_map (fst (lru_Get c k)) = lru_map c;
  lru_Peek_spec c k : lru_Peek c k = lru_map c !! k;
  lru_Add_spec c k v : lru_map c !! k = None ->
    match lru_Add c k v with
    | (c', None) => lru_map c' = <[k := v]> (lru_map c)
    | (c', Some (k', v')) => lru_map c !! k' = Some v' /\ lru_map c' = delete k' (<[k := v]> (lru_map c))
    end;
  lru_Remove_spec c k v : lru_map c !! k = Some v ->
    lru_map (fst (lru_Remove c k)) = delete k (lru_map c) /\ snd (lru_Remove c k) = Some (k, v);
}.

(** The orders of ranging over the free set and over a shard's keys. *)
Class RangeOrders : Type := {
  range_free : gset Z -> list Z;
  range_keys : gset string -> list string;
}.
Class RangeOrdersLaws (O : RangeOrders) : Prop := {
  range_free_perm s : range_free s ≡ₚ elements s;
  range_keys_perm s : range_keys s ≡ₚ elements s;
}.

Definition defaultPSAMaxBindings : Z := 100000.
Definition psaGracePeriod : Z := 500 * 1000000.
Definition psaRebalanceStealFactor : float := 1.5%float.
Definition PSARebalanceLoadFactor : float := 2%float.

(** hash/fnv New64a *)
Definition fnv_offset64 : Z := 14695981039346656037.
Definition fnv_prime64 : Z := 1099511628211.
Definition hashKey (key : bytes) : Z :=
  foldl (fun h b => u64 (Z.lxor h (bval b) * fnv_prime64)) fnv_offset64 key.

Definition avgLoad (loads : list float) : float :=
  if decide (length loads = 0)%nat then 0%float
  else (foldl PrimFloat.add 0 loads / of_int (Z.of_nat (length loads)))%float.

Record psaShard : Type := mkShard {
  keys : gset string;
  lastBindTime : Z;
}.

Section psa.
Context {U : Lru} {O : RangeOrders}.

Record PSA : Type := mkPSA {
  bindings : lru;
  shards : list psaShard;
  free : gset Z;
  psa_loads : option (list float);
  psa_numPartitions : Z;
  evictionCount : Z;
}.

Definition NewPSA (numPartitions : Z) : PSA :=
  mkPSA (lru_New defaultPSAMaxBindings) (replicate (Z.to_nat numPartitions) (mkShard ∅ 0))
    (list_to_set (seqZ 0 numPartitions)) None numPartitions 0.

Definition with_bindings (p : PSA) (c : lru) : PSA :=
  mkPSA c (shards p) (free p) (psa_loads p) (psa_numPartitions p) (evictionCount p).
Definition with_shards (p : PSA) (s : list psaShard) : PSA :=
  mkPSA (bindings p) s (free p) (psa_loads p) (psa_numPartitions p) (evictionCount p).
Definition with_free (p : PSA) (f : gset Z) : PSA :=
  mkPSA (bindings p) (shards p) f (psa_loads p) (psa_numPartitions p) (evictionCount p).

Definition set_keys (sh : psaShard) (k : gset string) : psaShard := mkShard k (lastBindTime sh).

Definition removeFromReverseIndex (p : PSA) (key : string) (partID : Z) : PSA :=
  if partID <? 0 then p
  else
    match shards p !! Z.to_nat partID with
    | None => p
    | Some sh =>
        let ks := keys sh ∖ {[key]} in
        let p := with_shards p (<[Z.to_nat partID := set_keys sh ks]> (shards p)) in
        if decide (ks = ∅) then with_free p (free p ∪ {[partID]}) else p
    end.

(** The eviction callback of NewPSA. *)
Definition on_evict (p : PSA) (ev : option (string * Z)) : PSA :=
  match ev with
  | None => p
  | Some (key, partID) =>
      removeFromReverseIndex
        (mkPSA (bindings p) (shards p) (free p) (psa_loads p) (psa_numPartitions p) (i64 (evictionCount p + 1)))
        key partID
  end.

Definition cache_Add (p : PSA) (key : string) (part : Z) : PSA :=
  let '(c, ev) := lru_Add (bindings p) key part in on_evict (with_bindings p c) ev.
Definition cache_Remove (p : PSA) (key : string) : PSA :=
  let '(c, ev) := lru_Remove (bindings p) key in on_evict (with_bindings p c) ev.

Definition bind_key (now : Time) (p : PSA) (key : string) (part : Z) : result PSA :=
  let p := cache_Add p key part in
  if part <? 0 then Panic
  else
    sh ← index (shards p) (Z.to_nat part);
    Ok (with_shards p (<[Z.to_nat part := mkShard (keys sh ∪ {[key]}) now]> (shards p))).

(** The load claimFreePartition looks at. *)
Definition load_of (loads : option (list float)) (id : Z) : float :=
  default math_MaxFloat64 (loads ≫= (.!! Z.to_nat id)).

(** [if load < bestLoad { bestLoad, bestPart = load, id }] over the ids in order. *)
Definition least_loaded (loads : option (list float)) (ids : list Z) (best : Z * float) : Z * float :=
  foldl (fun '(bestPart, bestLoad) id =>
           let load := load_of loads id in
           if (load <? bestLoad)%float then (id, load) else (bestPart, bestLoad)) best ids.

(** [bestPart] after the two passes over the free partitions. *)
Definition best_free (p : PSA) (skip : Z) : Z :=
  let ids := range_free (free p) in
  let best := least_loaded (psa_loads p) (drop (Z.to_nat skip) ids) (-1, math_MaxFloat64) in
  fst (if fst best <? 0 then least_loaded (psa_loads p) ids best else best).

Definition claimFreePartition (d : draws) (p : PSA) : result (PSA * option Z) :=
  skip ← IntN d 0 (psa_numPartitions p);
  let bestPart := best_free p skip in
  if bestPart <? 0 then Ok (p, None)
  else if decide (bestPart ∈ free p) then Ok (with_free p (free p ∖ {[bestPart]}), Some bestPart)
  else Ok (p, None).

Definition psa_SelectPartition (d : draws) (now : Time) (p : PSA) (key : bytes) (numPartitions : Z)
    : result (PSA * Z) :=
  let keyStr := String.string_of_list_byte key in
  let '(c, found) := lru_Get (bindings p) keyStr in
  let p := with_bindings p c in
  match found with
  | Some part => Ok (p, part)
  | None =>
      '(p, claimed) ← claimFreePartition d p;
      match claimed with
      | Some part => p ← bind_key now p keyStr part; Ok (p, part)
      | None =>
          if u64 numPartitions =? 0 then Panic
          else
            let part := i64 (hashKey key mod u64 numPartitions) in
            p ← bind_key now p keyStr part; Ok (p, part)
      end
  end.

(** [for _, k := range toRemove]: drop the bindings that still point to [id]. *)
Fixpoint drop_bindings (p : PSA) (id : Z) (ks : list string) : PSA :=
  match ks with
  | [] => p
  | k :: ks' =>
      let p := if decide (lru_Peek (bindings p) k = Some id) then cache_Remove p k else p in
      drop_bindings p id ks'
  end.

Definition releasePartition (now : Time) (p : PSA) (id : Z) : PSA :=
  if id <? 0 then p
  else
    match shards p !! Z.to_nat id with
    | None => p
    | Some sh =>
        if (0 <? lastBindTime sh) && (now - lastBindTime sh <? psaGracePeriod) then p
        else if decide (keys sh = ∅) then with_free p (free p ∪ {[id]})
        else
          let toRemove := range_keys (keys sh) in
          let p := with_shards p (<[Z.to_nat id := set_keys sh ∅]> (shards p)) in
          let p := drop_bindings p id toRemove in
          with_free p (free p ∪ {[id]})
    end.

Definition stealOneBinding (now : Time) (p : PSA) (src dst : Z) : result PSA :=
  let n := Z.of_nat (length (shards p)) in
  if (src <? 0) || (n <=? src) || (dst <? 0) || (n <=? dst) then Ok p
  else
    sh ← index (shards p) (Z.to_nat src);
    match range_keys (keys sh) with
    | [] => Ok p
    | victim :: _ =>
        if decide (victim = ""%string) then Ok p
        else
          let p := with_shards p (<[Z.to_nat src := set_keys sh (keys sh ∖ {[victim]})]> (shards p)) in
          let p := if decide (lru_Peek (bindings p) victim = Some src) then cache_Remove p victim else p in
          bind_key now p victim dst
    end.

(** The three loops of OnMetrics. *)
Fixpoint release_drained (now : Time) (p : PSA) (i : Z) (depths : list Z) : PSA :=
  match depths with
  | [] => p
  | depth :: rest => release_drained now (if depth =? 0 then releasePartition now p i else p) (i + 1) rest
  end.

Fixpoint release_overloaded (now : Time) (p : PSA) (avg : float) (i : Z) (loads : list float) : PSA :=
  match loads with
  | [] => p
  | load :: rest =>
      let p := if (0 <? avg)%float && (PSARebalanceLoadFactor * avg <? load)%float
               then releasePartition now p i else p in
      release_overloaded now p avg (i + 1) rest
  end.

(** The inner loop over [j] of the rebalance: steal for [i] from the first
    overloaded neighbour. *)
Fixpoint steal_for (now : Time) (p : PSA) (avg : float) (i j : Z) (loads : list float) : result PSA :=
  match loads with
  | [] => Ok p
  | jLoad :: rest =>
      if (j =? i) || (avg =? 0)%float then steal_for now p avg i (j + 1) rest
      else if (psaRebalanceStealFactor * avg <? jLoad)%float then stealOneBinding now p j i
      else steal_for now p avg i (j + 1) rest
  end.

Fixpoint rebalance (now : Time) (p : PSA) (avg : float) (all : list float) (depths : list Z) (i : Z)
    (loads : list float) : result PSA :=
  match loads with
  | [] => Ok p
  | load :: rest =>
      p ← (if (0 <? load)%float then Ok p
           else if 0 <? default 0 (depths !! Z.to_nat i) then Ok p
           else steal_for now p avg i 0 all);
      rebalance now p avg all depths (i + 1) rest
  end.

Definition psa_OnMetrics (now : Time) (p : PSA) (m : Metrics) : result PSA :=
  let loads := PartitionLoads m in
  let p := mkPSA (bindings p) (shards p) (free p) (Some loads) (psa_numPartitions p) (evictionCount p) in
  let p := release_drained now p 0 (QueueDepths m) in
  if decide (1 < length loads)%nat then
    let avg := avgLoad loads in
    let p := release_overloaded now p avg 0 loads in
    rebalance now p avg loads (QueueDepths m) 0 loads
  else Ok p.

Definition EvictionCount (p : PSA) : Z := evictionCount p.

#[export] Instance psa_balancer : Balancer PSA := {|
  bal_SelectPartition d now p _ key n := psa_SelectPartition d now p key n;
  bal_OnMetrics := psa_OnMetrics;
  bal_OnPublishComplete p _ := Ok p;
  bal_SetBaseThroughput p _ := p;
  bal_DroppedExperience _ := 0;
  bal_EvictionCount := EvictionCount;
|}.
End psa.

(** ** The two indexes agree *)

Section psa_proofs.
Context {U : Lru} {UL : LruLaws U} {O : RangeOrders} {OL : RangeOrdersLaws O}.
Implicit Types p : PSA.

Definition bound p : gmap string Z := lru_map (bindings p).

(** The bindings [m] and the shards' key sets mirror each other, except that the
    keys in [X], while they are being moved, are in no shard. *)
Record psa_rel (X : gset string) (m : gmap string Z) p : Prop := {
  inv_len : Z.of_nat (length (shards p)) = psa_numPartitions p;
  inv_range k part : m !! k = Some part -> 0 <= part < psa_numPartitions p;
  inv_fwd k part : m !! k = Some part -> k ∉ X ->
    exists sh, shards p !! Z.to_nat part = Some sh /\ k ∈ keys sh;
  inv_bwd i sh k : shards p !! i = Some sh -> k ∈ keys sh -> m !! k = Some (Z.of_nat i) /\ k ∉ X;
  inv_free id : id ∈ free p -> 0 <= id < psa_numPartitions p;
}.

Definition psa_inv p : Prop := psa_rel ∅ (bound p) p.

(** [p'] differs from [p] only in its bindings and counters. *)
Lemma psa_rel_same X m p p' :
  psa_rel X m p -> shards p' = shards p -> free p' = free p -> psa_numPartitions p' = psa_numPartitions p ->
  psa_rel X m p'.
Proof. intros [? ? ? ? ?] Hs Hf Hn. split; rewrite ?Hs, ?Hf, ?Hn; done. Qed.

(** Replacing the key set of one shard. *)
Lemma psa_rel_set_keys X X' m m' p i sh sh' :
  psa_rel X m p -> shards p !! i = Some sh ->
  (forall k part, m' !! k = Some part -> (m !! k = Some part \/ part = Z.of_nat i)) ->
  (forall k part, m' !! k = Some part -> k ∉ X' ->
     (k ∈ keys sh' /\ part = Z.of_nat i) \/ (m !! k = Some part /\ (k ∉ X) /\ part <> Z.of_nat i)) ->
  (forall k, k ∈ keys sh' -> m' !! k = Some (Z.of_nat i) /\ k ∉ X') ->
  (forall k j, j <> Z.of_nat i -> m !! k = Some j -> k ∉ X -> m' !! k = Some j /\ k ∉ X') ->
  psa_rel X' m' (with_shards p (<[i := sh']> (shards p))).
Proof.
  intros [Hl Hr Hf Hb Hfr] Hi H1 H2 H3 H4. pose proof (lookup_lt_Some _ _ _ Hi) as Hlt. split; cbn.
  - by rewrite length_insert.
  - intros k part [Hk | ->]%H1; [by eapply Hr|lia].
  - intros k part Hk HX. destruct (H2 k part Hk HX) as [[Hin ->]|(Hm & HX0 & Hne)].
    + exists sh'. rewrite Nat2Z.id, list_lookup_insert_eq by done. done.
    + destruct (Hf k part Hm HX0) as (sh0 & Hsh0 & Hin). exists sh0. split; [|done].
      rewrite list_lookup_insert_ne; [done|]. specialize (Hr _ _ Hm). lia.
  - intros j shj k Hj Hin. apply list_lookup_insert_Some in Hj as [(-> & <- & _)|[Hne Hj]]; [by apply H3|].
    destruct (Hb j shj k Hj Hin) as [Hm HX]. apply H4; [lia|done|done].
  - done.
Qed.

(** removeFromReverseIndex on a shard that is there. *)
Lemma removeFromReverseIndex_eq p k v sh :
  0 <= v -> shards p !! Z.to_nat v = Some sh ->
  exists f, (f = free p \/ f = free p ∪ {[v]}) /\
    removeFromReverseIndex p k v =
      with_free (with_shards p (<[Z.to_nat v := set_keys sh (keys sh ∖ {[k]})]> (shards p))) f.
Proof.
  intros H0 Hsh. unfold removeFromReverseIndex. rewrite (proj2 (Z.ltb_ge _ _)), Hsh by lia.
  case_decide; eexists; (split; [|reflexivity]); cbn; auto.
Qed.

Lemma psa_rel_free X m p f :
  psa_rel X m p -> (forall id, id ∈ f -> 0 <= id < psa_numPartitions p) -> psa_rel X m (with_free p f).
Proof. intros [? ? ? ? ?] Hf. by split. Qed.

(** A binding [k -> v] has left the cache and the callback runs on it. *)
Lemma evict_rel X m p k v :
  psa_rel X m p -> m !! k = Some v ->
  let p' := on_evict p (Some (k, v)) in
  psa_rel (X ∖ {[k]}) (delete k m) p' /\ bindings p' = bindings p /\ psa_numPartitions p' = psa_numPartitions p.
Proof.
  intros Hinv Hk. cbn [on_evict]. pose proof (inv_range _ _ _ Hinv _ _ Hk) as Hv.
  pose proof (inv_len _ _ _ Hinv) as Hl.
  set (q := mkPSA _ _ _ _ _ _). assert (Hq : psa_rel X m q) by (by eapply psa_rel_same).
  destruct (lookup_lt_is_Some_2 (shards q) (Z.to_nat v)) as [sh Hsh]; [cbn; lia|].
  destruct (removeFromReverseIndex_eq q k v sh ltac:(lia) Hsh) as (f & Hf & ->). split; [|done].
  apply psa_rel_free; [|intros id Hid; cbn; destruct Hf; subst f; [by eapply (inv_free _ _ _ Hq)|];
    apply elem_of_union in Hid as [Hid|Hid]; [by eapply (inv_free _ _ _ Hq)|set_solver]].
  eapply (psa_rel_set_keys X); [exact Hq|exact Hsh|..].
  - intros k' part [_ ?]%lookup_delete_Some. by left.
  - intros k' part [Hne Hk']%lookup_delete_Some HX. destruct (decide (part = Z.of_nat (Z.to_nat v))) as [->|Hp].
    + left. split; [|done]. destruct (inv_fwd _ _ _ Hq k' _ Hk') as (sh0 & Hsh0 & Hin); [set_solver|].
      rewrite Nat2Z.id in Hsh0. rewrite Hsh in Hsh0. simplify_eq. cbn. set_solver.
    + right. split; [done|]. split; [set_solver|done].
  - intros k' Hin. cbn in Hin. destruct (inv_bwd _ _ _ Hq _ _ k' Hsh) as [Hm HX]; [set_solver|].
    rewrite lookup_delete_ne by set_solver. split; [done|set_solver].
  - intros k' j Hne Hm HX. split; [|set_solver]. apply lookup_delete_Some. split; [|done]. intros ->. rewrite Hk in Hm.
    simplify_eq. lia.
Qed.

Lemma cache_Remove_rel X p k v :
  psa_rel X (bound p) p -> bound p !! k = Some v ->
  psa_rel (X ∖ {[k]}) (bound (cache_Remove p k)) (cache_Remove p k) /\
  bound (cache_Remove p k) = delete k (bound p) /\
  psa_numPartitions (cache_Remove p k) = psa_numPartitions p.
Proof.
  intros Hinv Hk. unfold cache_Remove. destruct (lru_Remove_spec (bindings p) k v Hk) as [Hm Hev].
  destruct (lru_Remove _ _) as [c ev]. cbn in Hm, Hev. subst ev.
  destruct (evict_rel X (bound p) (with_bindings p c) k v) as (Hr & Hb & Hn); [by eapply psa_rel_same|done|].
  cbn zeta in *. set (p' := on_evict _ _) in *.
  assert (bound p' = delete k (bound p)) as -> by (unfold bound; by rewrite Hb). done.
Qed.

(** Adding a binding, the key not yet in its shard. *)
Lemma cache_Add_rel p key part :
  psa_inv p -> bound p !! key = None -> 0 <= part < psa_numPartitions p ->
  psa_rel {[key]} (bound (cache_Add p key part)) (cache_Add p key part) /\
  bound (cache_Add p key part) !! key = Some part /\
  psa_numPartitions (cache_Add p key part) = psa_numPartitions p.
Proof.
  intros [Hl Hr Hf Hb Hfr] Hk Hpart. unfold cache_Add. pose proof (lru_Add_spec (bindings p) key part Hk) as Hadd.
  destruct (lru_Add _ _ _) as [c ev].
  assert (Hmid : psa_rel {[key]} (<[key := part]> (bound p)) (with_bindings p c)).
  { split; cbn; [done| | | |done].
    - intros k pt [[<- <-]|[_ Hx]]%lookup_insert_Some; [done|]. by eapply Hr.
    - intros k pt [[<- <-]|[_ Hx]]%lookup_insert_Some HX; [set_solver|]. apply (Hf _ _ Hx). set_solver.
    - intros i sh k Hsh Hin. destruct (Hb i sh k Hsh Hin) as [H1 H2].
      assert (k <> key) by congruence. rewrite lookup_insert_ne by done. set_solver. }
  destruct ev as [[k' v']|].
  - destruct Hadd as [Hk' Hc]. assert (k' <> key) by (intros ->; unfold bound in *; congruence).
    destruct (evict_rel _ _ _ k' v' Hmid) as (Hrel & Hbd & Hn); [by rewrite lookup_insert_ne|]. cbn zeta in *.
    unfold bound. rewrite Hbd. cbn [bindings with_bindings]. rewrite Hc.
    split; [|split; [|done]].
    + replace ({[key]} : gset string) with ({[key]} ∖ {[k']} : gset string) by set_solver. exact Hrel.
    + rewrite lookup_delete_ne by done. by rewrite lookup_insert_eq.
  - cbn [on_evict]. unfold bound. cbn [bindings with_bindings]. rewrite Hadd. split; [done|].
    split; [by rewrite lookup_insert_eq|done].
Qed.

Lemma bind_key_inv now p key part :
  psa_inv p -> bound p !! key = None -> 0 <= part < psa_numPartitions p ->
  exists p', bind_key now p key part = Ok p' /\ psa_inv p' /\ bound p' !! key = Some part /\
    psa_numPartitions p' = psa_numPartitions p.
Proof.
  intros Hinv Hk Hpart. destruct (cache_Add_rel p key part Hinv Hk Hpart) as (Hrel & Hb & Hn). unfold bind_key.
  zdec. set (q := cache_Add p key part) in *.
  pose proof (inv_len _ _ _ Hrel) as Hl.
  destruct (lookup_lt_is_Some_2 (shards q) (Z.to_nat part)) as [sh Hsh]; [lia|]. unfold index. rewrite Hsh.
  cbn [must]. rewrite Ok_bind. eexists. split; [done|]. split; [|done].
  change (bound (with_shards q ?x)) with (bound q).
  eapply (psa_rel_set_keys {[key]}); [exact Hrel|exact Hsh|by left|..]; cbn.
  - intros k pt Hkp _. destruct (decide (pt = Z.of_nat (Z.to_nat part))) as [->|Hp].
    + left. split; [|done]. destruct (decide (k = key)) as [->|Hne]; [set_solver|].
      destruct (inv_fwd _ _ _ Hrel k _ Hkp) as (sh0 & Hsh0 & Hin); [set_solver|].
      rewrite Nat2Z.id in Hsh0. simplify_eq. set_solver.
    + right. split; [done|]. split; [|done]. intros Heq%elem_of_singleton. subst k.
      assert (Some pt = Some part) by (rewrite <- Hkp; exact Hb). simplify_eq. lia.
  - intros k [Hin| ->%elem_of_singleton]%elem_of_union.
    + destruct (inv_bwd _ _ _ Hrel _ _ k Hsh Hin) as [? _]. split; [done|set_solver].
    + split; [|set_solver]. transitivity (Some part); [exact Hb|f_equal; lia].
  - intros k j _ Hm _. split; [done|set_solver].
Qed.

(** Moving to a state with other bindings of the same contents, or other free
    partitions of the right range. *)
Lemma psa_inv_with_bindings p c : psa_inv p -> lru_map c = bound p -> psa_inv (with_bindings p c).
Proof. intros Hinv Hc. unfold psa_inv, bound. cbn. rewrite Hc. by eapply psa_rel_same. Qed.

Lemma psa_inv_with_free p f :
  psa_inv p -> (forall id, id ∈ f -> 0 <= id < psa_numPartitions p) -> psa_inv (with_free p f).
Proof. intros Hinv Hf. by apply psa_rel_free. Qed.

Lemma claimFreePartition_inv d p :
  fair d -> psa_inv p -> 0 < psa_numPartitions p ->
  exists p' r, claimFreePartition d p = Ok (p', r) /\ psa_inv p' /\ bound p' = bound p /\
    psa_numPartitions p' = psa_numPartitions p /\
    (forall part, r = Some part -> 0 <= part < psa_numPartitions p).
Proof.
  intros Hd Hinv Hn. unfold claimFreePartition, IntN. rewrite (proj2 (Z.leb_gt _ _)), Ok_bind by lia.
  set (best := best_free p _). destruct (best <? 0); [by eexists _, _|].
  case_decide as Hin; [|by eexists _, _]. eexists _, _. split; [done|]. split.
  - apply psa_inv_with_free; [done|]. intros id Hid. eapply (inv_free _ _ _ Hinv). set_solver.
  - split; [done|]. split; [done|]. intros part [= <-]. by eapply (inv_free _ _ _ Hinv).
Qed.

(** The partition a key gets, and that it is bound to it from then on. *)
Lemma psa_SelectPartition_inv d now p key np :
  fair d -> psa_inv p -> 0 < np <= psa_numPartitions p -> np < 2 ^ 63 ->
  exists p' part, psa_SelectPartition d now p key np = Ok (p', part) /\ psa_inv p' /\
    psa_numPartitions p' = psa_numPartitions p /\ 0 <= part < psa_numPartitions p /\
    bound p' !! String.string_of_list_byte key = Some part /\
    (forall old, bound p !! String.string_of_list_byte key = Some old -> part = old).
Proof.
  intros Hd Hinv Hnp Hw. unfold psa_SelectPartition. set (k := String.string_of_list_byte key).
  destruct (lru_Get_spec (bindings p) k) as [Hr Hm]. destruct (lru_Get _ _) as [c found]. cbn [fst snd] in *. subst found.
  pose proof (psa_inv_with_bindings p c Hinv Hm) as Hinv1. fold (bound p) in *.
  destruct (bound p !! k) as [part|] eqn:Hk.
  { eexists _, part. split; [done|]. split; [done|]. split; [done|]. split; [by eapply (inv_range _ _ _ Hinv)|].
    split; [unfold bound; cbn; by rewrite Hm|]. intros old [= ->]. done. }
  destruct (claimFreePartition_inv d (with_bindings p c) Hd Hinv1 ltac:(cbn; lia))
    as (p1 & r & -> & Hinv2 & Hb2 & Hn2 & Hpart). rewrite Ok_bind.
  assert (Hk2 : bound p1 !! k = None) by (rewrite Hb2; unfold bound; cbn; by rewrite Hm).
  cbn [psa_numPartitions with_bindings] in *.
  assert (Hfin : forall part, 0 <= part < psa_numPartitions p ->
    exists p' part', (p ← bind_key now p1 k part; Ok (p, part)) = Ok (p', part') /\ psa_inv p' /\
      psa_numPartitions p' = psa_numPartitions p /\ 0 <= part' < psa_numPartitions p /\
      bound p' !! k = Some part' /\ (forall old, None = Some old -> part' = old)).
  { intros part Hp. destruct (bind_key_inv now p1 k part Hinv2 Hk2) as (p' & -> & Hinv' & Hb' & Hn'); [lia|].
    rewrite Ok_bind. exists p', part. split_and!; done || lia || (by rewrite Hn') || apply Hinv'. }
  destruct r as [part|]; [by apply Hfin, Hpart|].
  in_width. zdec.
  pose proof (Z.mod_pos_bound (hashKey key) np ltac:(lia)) as Hmod.
  rewrite i64_small by (unfold in_i64; lia). apply Hfin. lia.
Qed.

Lemma cache_Add_shards p key part : length (shards (cache_Add p key part)) = length (shards p).
Proof.
  unfold cache_Add. destruct (lru_Add _ _ _) as [c [[k v]|]]; [|done]. cbn [on_evict]. unfold removeFromReverseIndex.
  destruct (v <? 0); [done|]. cbn [shards]. destruct (_ !! _) as [sh|]; [|done]. case_decide; cbn; by rewrite length_insert.
Qed.

(** Binding to a partition that has no shard. *)
Lemma bind_key_outside now p key part :
  psa_inv p -> ~ (0 <= part < psa_numPartitions p) -> bind_key now p key part = Panic.
Proof.
  intros Hinv Hout. unfold bind_key. destruct (Z.ltb_spec part 0); [done|]. unfold index.
  rewrite lookup_ge_None_2; [done|]. rewrite cache_Add_shards. pose proof (inv_len _ _ _ Hinv). lia.
Qed.

(** Selecting for a topic with any number of partitions. *)
Lemma psa_SelectPartition_any d now p key np :
  fair d -> psa_inv p -> psa_numPartitions p < 2 ^ 63 ->
  (exists p' part, psa_SelectPartition d now p key np = Ok (p', part) /\ psa_inv p' /\
     psa_numPartitions p' = psa_numPartitions p) \/
  psa_SelectPartition d now p key np = Panic /\ ~ (0 < np <= psa_numPartitions p).
Proof.
  intros Hd Hinv Hw. destruct (decide (0 < np <= psa_numPartitions p)) as [Hnp|Hnp].
  { left. destruct (psa_SelectPartition_inv d now p key np Hd Hinv Hnp ltac:(lia)) as (p' & part & H & ? & ? & _). by exists p', part. }
  unfold psa_SelectPartition. set (k := String.string_of_list_byte key).
  destruct (lru_Get_spec (bindings p) k) as [Hr Hm]. destruct (lru_Get _ _) as [c found]. cbn [fst snd] in *. subst found.
  pose proof (psa_inv_with_bindings p c Hinv Hm) as Hinv1. fold (bound p) in *.
  destruct (bound p !! k) as [part|] eqn:Hk; [left; by eexists _, part|].
  destruct (decide (0 < psa_numPartitions p)) as [Hpos|Hpos].
  2: { right. split; [|done]. unfold claimFreePartition, IntN. cbn [psa_numPartitions with_bindings]. by rewrite (proj2 (Z.leb_le _ _)) by lia. }
  destruct (claimFreePartition_inv d (with_bindings p c) Hd Hinv1 Hpos) as (p1 & r & -> & Hinv2 & Hb2 & Hn2 & Hpart). rewrite Ok_bind.
  assert (Hk2 : bound p1 !! k = None) by (rewrite Hb2; unfold bound; cbn; by rewrite Hm).
  cbn [psa_numPartitions with_bindings] in *.
  assert (Hbind : forall part,
    (exists p' part', (p ← bind_key now p1 k part; Ok (p, part)) = Ok (p', part') /\ psa_inv p' /\ psa_numPartitions p' = psa_numPartitions p) \/
    (p ← bind_key now p1 k part; Ok (p, part)) = Panic).
  { intros part. destruct (decide (0 <= part < psa_numPartitions p1)) as [Hin|Hout].
    - left. destruct (bind_key_inv now p1 k part Hinv2 Hk2 Hin) as (p' & -> & Hinv' & _ & Hn'). rewrite Ok_bind. exists p', part. by rewrite Hn'.
    - right. by rewrite bind_key_outside. }
  destruct r as [part|].
  - destruct (Hbind part) as [?|H]; [by left|]. by right.
  - destruct (u64 np =? 0); [by right|]. destruct (Hbind (i64 (hashKey key mod u64 np))) as [?|H]; [by left|by right].
Qed.

Lemma drop_bindings_inv ks p id X :
  psa_rel X (bound p) p -> NoDup ks -> (forall k, k ∈ X <-> k ∈ ks) -> (forall k, k ∈ ks -> bound p !! k = Some id) ->
  psa_inv (drop_bindings p id ks) /\ psa_numPartitions (drop_bindings p id ks) = psa_numPartitions p.
Proof.
  revert p X. induction ks as [|k ks IH]; intros p X Hrel Hnd HX Hb; cbn [drop_bindings].
  { split; [|done]. unfold psa_inv. replace (∅ : gset string) with X; [done|]. apply set_eq. set_solver. }
  apply list.NoDup_cons in Hnd as [Hni Hnd]. rewrite lru_Peek_spec. fold (bound p).
  assert (Hk : bound p !! k = Some id) by (apply Hb; by left). rewrite decide_True by done.
  destruct (cache_Remove_rel X p k id Hrel Hk) as (Hrel' & Hb' & Hn').
  destruct (IH (cache_Remove p k) (X ∖ {[k]}) Hrel' Hnd) as [Hinv Hn]; [set_solver| |by rewrite Hn, Hn'].
  intros k' Hk'. rewrite Hb'. apply lookup_delete_Some. split; [set_solver|]. apply Hb. by right.
Qed.

Lemma releasePartition_inv now p id :
  psa_inv p ->
  psa_inv (releasePartition now p id) /\ psa_numPartitions (releasePartition now p id) = psa_numPartitions p.
Proof.
  intros Hinv. unfold releasePartition. destruct (Z.ltb_spec id 0); [done|].
  destruct (shards p !! Z.to_nat id) as [sh|] eqn:Hsh; [|done].
  pose proof (lookup_lt_Some _ _ _ Hsh) as Hlt. pose proof (inv_len _ _ _ Hinv) as Hl.
  assert (Hfree : forall q, psa_inv q -> psa_numPartitions q = psa_numPartitions p ->
    psa_inv (with_free q (free q ∪ {[id]})) /\ psa_numPartitions (with_free q (free q ∪ {[id]})) = psa_numPartitions p).
  { intros q Hq Hn. split; [|done]. apply psa_inv_with_free; [done|].
    intros x [Hx| ->%elem_of_singleton]%elem_of_union; [by eapply (inv_free _ _ _ Hq)|lia]. }
  destruct (_ && _); [done|]. case_decide; [by apply Hfree|]. set (q := with_shards p _).
  destruct (drop_bindings_inv (range_keys (keys sh)) q id (keys sh)) as [Hinv' Hn'].
  - change (bound q) with (bound p). eapply (psa_rel_set_keys ∅); [exact Hinv|exact Hsh|by left|..]; cbn.
    + intros k pt Hk HX. right. split; [done|]. split; [set_solver|]. intros ->.
      destruct (inv_fwd _ _ _ Hinv k _ Hk) as (sh0 & Hsh0 & Hin); [set_solver|].
      rewrite Nat2Z.id in Hsh0. simplify_eq.
    + set_solver.
    + intros k j Hne Hk _. split; [done|]. intros Hin. destruct (inv_bwd _ _ _ Hinv _ _ k Hsh Hin) as [? _]. congruence.
  - rewrite range_keys_perm. apply NoDup_elements.
  - intros k. rewrite range_keys_perm. set_solver.
  - intros k. rewrite range_keys_perm. intros Hk%elem_of_elements. change (bound q) with (bound p).
    destruct (inv_bwd _ _ _ Hinv _ _ k Hsh Hk) as [-> _]. f_equal. lia.
  - by apply Hfree.
Qed.

Lemma stealOneBinding_inv now p src dst :
  psa_inv p -> exists p', stealOneBinding now p src dst = Ok p' /\ psa_inv p' /\
    psa_numPartitions p' = psa_numPartitions p.
Proof.
  intros Hinv. unfold stealOneBinding. pose proof (inv_len _ _ _ Hinv) as Hl.
  destruct ((src <? 0) || _ || _ || _) eqn:E; [eauto|]. rewrite !orb_false_iff, !Z.ltb_ge, !Z.leb_gt in E.
  destruct (lookup_lt_is_Some_2 (shards p) (Z.to_nat src)) as [sh Hsh]; [lia|].
  unfold index. rewrite Hsh. cbn [must]. rewrite Ok_bind.
  destruct (range_keys (keys sh)) as [|victim rest] eqn:Hr; [eauto|]. case_decide; [eauto|].
  assert (Hv : victim ∈ keys sh).
  { apply elem_of_elements. rewrite <- range_keys_perm, Hr. by left. }
  destruct (inv_bwd _ _ _ Hinv _ _ victim Hsh Hv) as [Hb _]. rewrite Z2Nat.id in Hb by lia.
  set (q := with_shards p _).
  assert (Hq : psa_rel {[victim]} (bound q) q).
  { change (bound q) with (bound p). eapply (psa_rel_set_keys ∅); [exact Hinv|exact Hsh|by left|..]; cbn.
    - intros k pt Hk HX. destruct (decide (pt = Z.of_nat (Z.to_nat src))) as [->|Hne]; [left|right; set_solver].
      split; [|done]. destruct (inv_fwd _ _ _ Hinv k _ Hk) as (sh0 & Hsh0 & Hin); [set_solver|].
      rewrite Nat2Z.id in Hsh0. simplify_eq. set_solver.
    - intros k Hin. destruct (inv_bwd _ _ _ Hinv _ _ k Hsh) as [? _]; [set_solver|]. set_solver.
    - intros k j Hne Hk _. split; [done|]. intros ->%elem_of_singleton. rewrite Hb in Hk. simplify_eq. lia. }
  rewrite lru_Peek_spec. change (lru_map (bindings q)) with (bound p). rewrite decide_True by done.
  destruct (cache_Remove_rel _ q victim src Hq Hb) as (Hrel & Hb' & Hn').
  destruct (bind_key_inv now (cache_Remove q victim) victim dst) as (p' & -> & Hinv' & _ & Hn).
  - unfold psa_inv. replace (∅ : gset string) with ({[victim]} ∖ {[victim]} : gset string) by set_solver. exact Hrel.
  - rewrite Hb'. apply lookup_delete_eq.
  - rewrite Hn'. cbn. lia.
  - eexists. split; [done|]. split; [done|]. by rewrite Hn, Hn'.
Qed.
End psa_proofs.

(** ** Properties *)

Section psa_props.
Context {U : Lru} {UL : LruLaws U} {O : RangeOrders} {OL : RangeOrdersLaws O}.
Implicit Types p : PSA.

Lemma release_drained_inv now depths p i :
  psa_inv p -> psa_inv (release_drained now p i depths) /\
    psa_numPartitions (release_drained now p i depths) = psa_numPartitions p.
Proof.
  revert p i. induction depths as [|dp ds IH]; intros p i Hinv; [done|]. cbn [release_drained].
  destruct (dp =? 0); [|by apply IH]. destruct (releasePartition_inv now p i Hinv) as [H1 H2].
  destruct (IH _ (i + 1) H1) as [H3 H4]. by rewrite H4.
Qed.

Lemma release_overloaded_inv now avg loads p i :
  psa_inv p -> psa_inv (release_overloaded now p avg i loads) /\
    psa_numPartitions (release_overloaded now p avg i loads) = psa_numPartitions p.
Proof.
  revert p i. induction loads as [|l ls IH]; intros p i Hinv; [done|]. cbn [release_overloaded].
  destruct (_ && _); [|by apply IH]. destruct (releasePartition_inv now p i Hinv) as [H1 H2].
  destruct (IH _ (i + 1) H1) as [H3 H4]. by rewrite H4.
Qed.

Lemma steal_for_inv now avg i loads p j :
  psa_inv p -> exists p', steal_for now p avg i j loads = Ok p' /\ psa_inv p' /\
    psa_numPartitions p' = psa_numPartitions p.
Proof.
  revert j. induction loads as [|l ls IH]; intros j Hinv; cbn [steal_for]; [eauto|].
  destruct (_ || _); [by apply IH|]. destruct (_ <? l)%float; [by apply stealOneBinding_inv|by apply IH].
Qed.

Lemma rebalance_inv now avg all depths loads p i :
  psa_inv p -> exists p', rebalance now p avg all depths i loads = Ok p' /\ psa_inv p' /\
    psa_numPartitions p' = psa_numPartitions p.
Proof.
  revert p i. induction loads as [|l ls IH]; intros p i Hinv; cbn [rebalance]; [eauto|].
  assert (exists p1, (if (0 <? l)%float then Ok p else if 0 <? default 0 (depths !! Z.to_nat i) then Ok p
    else steal_for now p avg i 0 all) = Ok p1 /\ psa_inv p1 /\ psa_numPartitions p1 = psa_numPartitions p)
    as (p1 & -> & Hinv1 & Hn1).
  { destruct (0 <? l)%float; [eauto|]. destruct (0 <? default 0 _); [eauto|]. by apply steal_for_inv. }
  rewrite Ok_bind. destruct (IH p1 (i + 1) Hinv1) as (p' & -> & ? & ?). exists p'. split; [done|]. split; [done|congruence].
Qed.

Lemma psa_OnMetrics_inv now p m :
  psa_inv p -> exists p', psa_OnMetrics now p m = Ok p' /\ psa_inv p' /\ psa_numPartitions p' = psa_numPartitions p.
Proof.
  intros Hinv. unfold psa_OnMetrics. set (q := mkPSA _ _ _ _ _ _).
  assert (Hq : psa_inv q) by (by eapply psa_rel_same).
  destruct (release_drained_inv now (QueueDepths m) q 0 Hq) as [H1 N1]. case_decide; [|eauto].
  destruct (release_overloaded_inv now (avgLoad (PartitionLoads m)) (PartitionLoads m) _ 0 H1) as [H2 N2].
  destruct (rebalance_inv now (avgLoad (PartitionLoads m)) (PartitionLoads m) (QueueDepths m) (PartitionLoads m) _ 0 H2)
    as (p' & -> & H3 & N3). exists p'. split; [done|]. split; [done|]. by rewrite N3, N2, N1.
Qed.

Inductive psa_op : Type :=
| OpSelect (d : draws) (now : Time) (key : bytes) (numPartitions : Z)
| OpMetrics (now : Time) (m : Metrics).

Definition psa_step (p : PSA) (op : psa_op) : result PSA :=
  match op with
  | OpSelect d now key np => '(p, _) ← psa_SelectPartition d now p key np; Ok p
  | OpMetrics now m => psa_OnMetrics now p m
  end.

Fixpoint psa_run (p : PSA) (ops : list psa_op) : result PSA :=
  match ops with [] => Ok p | op :: ops' => p ← psa_step p op; psa_run p ops' end.

(** The random numbers are below their bounds; the topic may have any number of
    partitions. *)
Definition psa_op_ok (op : psa_op) : Prop :=
  match op with OpSelect d _ _ _ => fair d | OpMetrics _ _ => True end.

(** A selection for a topic whose number of partitions the PSA was not made for. *)
Definition misfit (n : Z) (op : psa_op) : Prop :=
  match op with OpSelect _ _ _ np => ~ (0 < np <= n) | OpMetrics _ _ => False end.

Lemma NewPSA_inv n : 0 <= n -> psa_inv (NewPSA n).
Proof.
  intros Hn. unfold psa_inv, bound. cbn. rewrite lru_New_map. split; cbn.
  - rewrite length_replicate. lia.
  - intros k part. by rewrite lookup_empty.
  - intros k part. by rewrite lookup_empty.
  - intros i sh k [-> _]%lookup_replicate. cbn. set_solver.
  - intros id. rewrite elem_of_list_to_set, elem_of_seqZ. lia.
Qed.

Lemma psa_step_any p op :
  psa_op_ok op -> psa_inv p -> psa_numPartitions p < 2 ^ 63 ->
  (exists p', psa_step p op = Ok p' /\ psa_inv p' /\ psa_numPartitions p' = psa_numPartitions p) \/
  psa_step p op = Panic /\ misfit (psa_numPartitions p) op.
Proof.
  intros Hop Hinv Hw. destruct op as [d now key np|now m]; cbn [psa_step psa_op_ok misfit] in *.
  - destruct (psa_SelectPartition_any d now p key np Hop Hinv Hw) as [(p' & part & -> & ? & ?)|[-> Hnp]]; [left; by exists p'|by right].
  - left. by apply psa_OnMetrics_inv.
Qed.

Lemma psa_run_any ops p :
  Forall psa_op_ok ops -> psa_inv p -> psa_numPartitions p < 2 ^ 63 ->
  (exists p', psa_run p ops = Ok p' /\ psa_inv p' /\ psa_numPartitions p' = psa_numPartitions p) \/
  psa_run p ops = Panic /\ Exists (misfit (psa_numPartitions p)) ops.
Proof.
  intros Hok. revert p. induction Hok as [|op ops Hop Hok IH]; intros p Hinv Hw; cbn [psa_run]; [left; by exists p|].
  destruct (psa_step_any p op Hop Hinv Hw) as [(p1 & -> & H1 & N1)|[-> Hm]]; [|right; split; [done|by left]].
  rewrite Ok_bind. destruct (IH p1 H1 ltac:(lia)) as [(p' & -> & H2 & N2)|[-> Hm]].
  - left. exists p'. split; [done|]. split; [done|congruence].
  - right. split; [done|]. right. by rewrite <- N1.
Qed.


(** Stickiness: a key that is bound keeps its partition; a key that is not
    gets a partition and, asked again, the same one. *)
Theorem psa_sticky (d d' : draws) (now now' : Time) (p : PSA) (key : bytes) (np : Z) :
  fair d -> psa_inv p -> 0 < np <= psa_numPartitions p -> np < 2 ^ 63 ->
  exists p1 p2 part, psa_SelectPartition d now p key np = Ok (p1, part) /\
    psa_SelectPartition d' now' p1 key np = Ok (p2, part) /\ 0 <= part < psa_numPartitions p /\
    (forall old, bound p !! String.string_of_list_byte key = Some old -> part = old).
Proof.
  intros Hd Hinv Hnp Hw. destruct (psa_SelectPartition_inv d now p key np Hd Hinv Hnp Hw)
    as (p1 & part & -> & _ & _ & Hr & Hb & Hold).
  destruct (lru_Get_spec (bindings p1) (String.string_of_list_byte key)) as [Hg _].
  destruct (lru_Get (bindings p1) _) as [c found] eqn:E. cbn in Hg. unfold bound in Hb. rewrite Hb in Hg. subst found.
  exists p1, (with_bindings p1 c), part. split; [done|]. split; [|done].
  unfold psa_SelectPartition. by rewrite E.
Qed.

(** Bindings are by key alone: for a topic with fewer partitions than the
    key's bound partition number, SelectPartition returns that number all the
    same, a partition the topic does not have. *)
Theorem psa_ignores_topic (d : draws) (now : Time) (p : PSA) (key : bytes) (part np : Z) :
  bound p !! String.string_of_list_byte key = Some part -> np <= part ->
  exists p', psa_SelectPartition d now p key np = Ok (p', part).
Proof.
  intros Hb _. unfold psa_SelectPartition.
  destruct (lru_Get_spec (bindings p) (String.string_of_list_byte key)) as [Hg _].
  destruct (lru_Get _ _) as [c found]. cbn in Hg. unfold bound in Hb. rewrite Hb in Hg. subst found. eauto.
Qed.

(** Until the first metrics arrive no free partition is ever claimed: every
    load counts as the largest float, and none is less than that. *)
Theorem psa_no_claim_before_metrics (d : draws) (p : PSA) :
  psa_loads p = None -> 0 < psa_numPartitions p -> claimFreePartition d p = Ok (p, None).
Proof.
  intros Hl Hn. unfold claimFreePartition, IntN. rewrite (proj2 (Z.leb_gt _ _)), Ok_bind by lia.
  assert (Hll : forall ids, least_loaded None ids (-1, math_MaxFloat64) = (-1, math_MaxFloat64)).
  { unfold least_loaded. induction ids as [|id ids IH]; [done|]. exact IH. }
  unfold best_free. cbn zeta. rewrite Hl, !Hll. done.
Qed.
End psa_props.

(** ** A cache with one slot, for the witnesses *)

Definition slot_map (c : option (string * Z)) : gmap string Z :=
  match c with Some (k, v) => {[k := v]} | None => ∅ end.

#[export] Instance slot_lru : Lru := {|
  lru := option (string * Z);
  lru_New _ := None;
  lru_Get c k := (c, slot_map c !! k);
  lru_Peek c k := slot_map c !! k;
  lru_Add c k v := (Some (k, v), c);
  lru_Remove c k := if decide (is_Some (slot_map c !! k)) then (None, c) else (c, None);
|}.

#[export] Instance slot_lru_laws : LruLaws slot_lru.
Proof.
  refine {| lru_map := slot_map : @lru slot_lru -> _ |}; cbn; try done.
  - intros [[k' v']|] k v Hk; cbn in *; [|by rewrite insert_empty].
    apply lookup_singleton_None in Hk. rewrite lookup_singleton_eq. split; [done|].
    apply map_eq. intros i. destruct (decide (i = k')) as [->|Hne].
    + by rewrite lookup_delete_eq, lookup_singleton_ne.
    + rewrite lookup_delete_ne by done. destruct (decide (i = k)) as [->|].
      * by rewrite lookup_insert_eq, lookup_singleton_eq.
      * by rewrite lookup_insert_ne, !lookup_singleton_ne.
  - intros [[k' v']|] k v Hk; cbn in *; [|done]. apply lookup_singleton_Some in Hk as [-> ->].
    rewrite decide_True by (rewrite lookup_singleton_eq; eauto). cbn. by rewrite delete_singleton_eq.
Defined.

#[export] Instance element_orders : RangeOrders := {| range_free := elements; range_keys := elements |}.
#[export] Instance element_orders_laws : RangeOrdersLaws element_orders.
Proof. by split. Qed.

Definition zero_draws : draws := fun _ _ => 0.

Lemma zero_draws_fair : fair zero_draws.
Proof. intros k n Hn. unfold zero_draws. lia. Qed.

Definition idle_metrics : Metrics :=
  mkMetrics 0 0 0 0 0 0 [0.1; 0.9]%float [] [3; 0] 0 0 0 0 0 0 0.

Definition sample_psa_ops : list psa_op :=
  [OpSelect zero_draws 5 [x61; x62]%byte 2; OpMetrics 1000000000 idle_metrics; OpSelect zero_draws 2000000000 [x63]%byte 2].

Lemma sample_psa_ops_ok : Forall psa_op_ok sample_psa_ops.
Proof. repeat (apply List.Forall_cons; [first [exact I | exact zero_draws_fair]|]). apply List.Forall_nil. Qed.


(** A PSA made for one partition and a topic with four: the key is hashed among
    the topic's partitions and indexes past the shards. *)
Example psa_larger_topic_panics : psa_SelectPartition zero_draws 5 (NewPSA 1) [x62]%byte 4 = Panic.
Proof. vm_compute. reflexivity. Qed.

Lemma psa_sticky_witness :
  exists p1 p2 part, psa_SelectPartition zero_draws 5 (NewPSA 2) [x61]%byte 2 = Ok (p1, part) /\
    psa_SelectPartition zero_draws 9 p1 [x61]%byte 2 = Ok (p2, part).
Proof.
  destruct (psa_sticky zero_draws zero_draws 5 9 (NewPSA 2) [x61]%byte 2 zero_draws_fair
    (NewPSA_inv 2 ltac:(lia)) ltac:(cbn; lia) ltac:(lia)) as (p1 & p2 & part & H1 & H2 & _).
  exists p1, p2, part. split; [exact H1|exact H2].
Defined.

(** A key bound by a topic with four partitions. *)
Definition bound_psa : PSA := with_bindings (NewPSA 4) (Some ("a"%string, 3)).

Lemma psa_ignores_topic_witness :
  exists p', psa_SelectPartition zero_draws 5 bound_psa [x61]%byte 2 = Ok (p', 3).
Proof. apply psa_ignores_topic; [reflexivity|lia]. Defined.

Lemma psa_no_claim_before_metrics_witness : claimFreePartition zero_draws (NewPSA 4) = Ok (NewPSA 4, None).
Proof. apply psa_no_claim_before_metrics; [reflexivity|cbn; lia]. Defined.
