(* ===== verification/Scheduler.v ===== *)
(** * Schedulers (src/pkg/scheduler/scheduler.go, fifo.go, priority.go)

    The interface through which the broker asks a partition's next message, and
    the two schedulers without a learned policy.  [Next] may pop the partition's
    priority index, so it returns the partition too. *)

From Stdlib Require Import Strings.Byte.
From stdpp Require Import sorting.
From S2P Require Import Prelude Message PriorityIndex Wal Compression GoFloat Config Partition PartitionProps.

(** What a call sees of the outside: [rand.Float64()], [rand.IntN] and the clock. *)
Record SchedEnv : Type := mkSchedEnv {
  se_Float64 : float;
  se_IntN : Z -> Z;
  se_now : Time;
}.

Class Scheduler {W : Wal} {K : Compressors} (S : Type) : Type := {
  Next : SchedEnv -> S -> Partition -> Z -> S * Partition * result (Message * Z);
}.

Section schedulers.
Context {W : Wal} {K : Compressors}.

Inductive FIFO : Type := NewFIFO.

Definition fifo_Next (p : Partition) (consumerOffset : Z) : result (Message * Z) :=
  let hwm := HighWaterMark p in
  if hwm <? consumerOffset then Err ErrNoMessages
  else msg ← Read p consumerOffset; Ok (msg, u64 (consumerOffset + 1)).

#[export] Instance fifo_scheduler : Scheduler FIFO := {|
  Next _ s p off := (s, p, fifo_Next p off);
|}.

Inductive StrictPriority : Type := NewStrictPriority.

Definition strict_Next (p : Partition) : Partition * result (Message * Z) :=
  match priorityIndex p with
  | None => (p, Err (Errorf "partition %d has no PriorityIndex"))
  | Some pi =>
      match PopHighest pi with
      | Ok (Some (pi', entry)) =>
          let p := with_index p (Some pi') in
          (p, msg ← Read p (u64 (WalOffset entry)); Ok (msg, u64 (WalOffset entry)))
      | Ok None => (p, Err ErrNoMessages)
      | Err e => (p, Err e)
      | Panic => (p, Panic)
      end
  end.

#[export] Instance strict_scheduler : Scheduler StrictPriority := {|
  Next _ s p _ := let '(p, r) := strict_Next p in (s, p, r);
|}.

(** A consumer that calls Next [n] times, going on from the offset it got. *)
Fixpoint poll {S : Type} {Sch : Scheduler S} (env : nat -> SchedEnv) (s : S) (p : Partition) (off : Z) (n : nat)
    : S * Partition * list (result (Message * Z)) :=
  match n with
  | O => (s, p, [])
  | S n' =>
      let '(s, p, r) := Next (env n) s p off in
      let off := match r with Ok (_, next) => next | _ => off end in
      let '(s, p, rs) := poll env s p off n' in (s, p, r :: rs)
  end.
End schedulers.

(** ** FIFO delivery *)

Section fifo_proofs.
Context {W : Wal} {L : WalLaws W} {K : Compressors} {KL : CompressorLaws K}.
Implicit Types p : Partition.

(** Polling over the readable tail of a partition. *)
Lemma fifo_poll env p ms o :
  1 <= o -> nextOffset p = o + Z.of_nat (length ms) -> nextOffset p < 2 ^ 64 ->
  (forall i m, ms !! i = Some m -> Read p (o + Z.of_nat i) = Ok m) ->
  poll env NewFIFO p o (length ms + 1) =
    (NewFIFO, p, imap (fun i m => Ok (m, o + Z.of_nat i + 1)) ms ++ [Err ErrNoMessages]).
Proof.
  revert o. induction ms as [|m ms IH]; intros o Ho Hn Hb Hr; cbn [length Nat.add poll Next fifo_scheduler].
  - cbn in Hn. unfold fifo_Next, HighWaterMark. zdec.
    by zdec.
  - assert (fifo_Next p o = Ok (m, o + 1)) as ->.
    { unfold fifo_Next, HighWaterMark. cbn [length] in Hn. zdec.
      zdec. pose proof (Hr 0%nat m eq_refl) as H0.
      rewrite Z.add_0_r in H0. rewrite H0, Ok_bind. by in_width. }
    rewrite IH; [|lia|cbn [length] in Hn; lia|done|].
    + rewrite imap_cons. cbn [app]. rewrite Z.add_0_r. do 3 f_equal. apply imap_ext. intros i x _. cbn. do 2 f_equal. lia.
    + intros i x Hi. rewrite <- (Hr (S i) x Hi). f_equal. lia.
Qed.
End fifo_proofs.

(** ** Properties *)

Section scheduler_props.
Context {W : Wal} {L : WalLaws W} {K : Compressors} {KL : CompressorLaws K}.

(** A FIFO consumer that starts where a batch was appended receives the
    messages of the batch once each and in order, each with the next offset, and
    then is told there are no more. *)
Theorem fifo_delivers_in_order (env : nat -> SchedEnv) (ck : AppendClock) (pool : nat -> bytes) (p : Partition)
    (msgs : list Message) :
  part_ok p -> wal_healthy (plog p) -> msgs <> [] -> in_i64 (ck_append ck) ->
  nextOffset p + Z.of_nat (length msgs) < 2 ^ 64 -> Forall storable msgs ->
  let '(p', msgs', _) := AppendBatch ck pool p msgs in
  poll env NewFIFO p' (nextOffset p) (length msgs + 1) =
    (NewFIFO, p', imap (fun i m => Ok (stored m, nextOffset p + Z.of_nat i + 1)) msgs' ++ [Err ErrNoMessages]).
Proof.
  intros Hok Hh Hne Ht Hb Hst.
  destruct (append_batch_success ck pool p msgs Hok Hh Hne Hb) as (p' & -> & Hok' & Hh' & _ & Hn & Hf & He).
  pose proof (part_ok_nonneg p Hok) as H1. set (msgs' := set_AppendTime _ <$> msgs) in *.
  assert (Hl : length msgs = length (stored <$> msgs')) by (unfold msgs'; by rewrite !length_fmap).
  rewrite Hl, fifo_poll; [|done|lia|lia|].
  - by rewrite imap_fmap.
  - intros i m Hi. apply list_lookup_fmap_Some in Hi as (m1 & -> & Hi). pose proof Hi as Hi1.
    apply list_lookup_fmap_Some in Hi as (m0 & -> & Hi).
    destruct (Forall_lookup_1 _ _ _ _ Hst Hi) as (Hm & Hp1 & Hp2).
    apply entry_readable; [by apply message_ok_AppendTime|done|done|].
    destruct Hok as [Hs _]. rewrite Hs. eapply wal_Read_appended; [done|done|exact He|]. by rewrite list_lookup_fmap, Hi1.
Qed.

(** C10: Strict priority delivers what is pending in priority order, oldest first
    within a priority: [n] calls read the first [n] pending entries of the index
    in that order (each popped even when reading it fails), and calls beyond
    that are told there are no messages.  The offset returned is the message's
    own, not the next one. *)
Theorem strict_delivers_by_priority (env : nat -> SchedEnv) (p : Partition) (pi : PriorityIndex) (off : Z) (n : nat) :
  priorityIndex p = Some pi -> pi_wf pi ->
  let deliver e := msg ← Read p (u64 (WalOffset e)); Ok (msg, u64 (WalOffset e)) in
  exists pi', poll env NewStrictPriority p off n =
    (NewStrictPriority, with_index p (Some pi'),
     (deliver <$> take n (by_priority pi)) ++ replicate (n - length (by_priority pi)) (Err ErrNoMessages)) /\
    pi_wf pi' /\ by_priority pi' = drop n (by_priority pi).
Proof.
  intros Hpi Hwf deliver. revert p pi off Hpi Hwf deliver. induction n as [|n IH]; intros p pi off Hpi Hwf deliver.
  { exists pi. split; [|done]. cbn. by destruct p; cbn in *; subst. }
  pose proof (PopHighest_spec pi Hwf) as Hpop. cbn [poll Next strict_scheduler]. unfold strict_Next. rewrite Hpi.
  destruct (by_priority pi) as [|e q] eqn:Hb.
  - rewrite Hpop. destruct (IH p pi off Hpi Hwf) as (pi' & -> & Hwf' & Hd).
    exists pi'. rewrite Hb in *. cbn [length]. rewrite take_nil, drop_nil in *. rewrite !Nat.sub_0_r. done.
  - destruct Hpop as (pi1 & -> & Hwf1 & Hq & _).
    match goal with |- context [poll env _ _ ?o n] => destruct (IH (with_index p (Some pi1)) pi1 o eq_refl Hwf1) as (pi' & -> & Hwf' & Hd) end.
    exists pi'. rewrite Hq in *. cbn [length take drop fmap list_fmap app Nat.sub]. split; [|done].
    destruct p; cbn. done.
Qed.
End scheduler_props.

(** ** The properties at concrete partitions *)

Definition quiet_env : nat -> SchedEnv := fun _ => mkSchedEnv 0.5%float (fun _ => 0) 0.

Lemma fifo_delivers_in_order_witness :
  exists p', snd (poll quiet_env NewFIFO p' 4 4) =
    [Ok (mkMessage (mkHeader x09 1 1 1000) [x41] [x78; x79] false, 5);
     Ok (mkMessage (mkHeader x00 2 2 1000) [] [] false, 6);
     Ok (mkMessage (mkHeader x05 3 3 1000) [] [xba] false, 7); Err ErrNoMessages].
Proof.
  pose proof (fifo_delivers_in_order quiet_env sample_clock no_pool sample_partition new_msgs sample_part_ok eq_refl
    ltac:(done) ltac:(cbn; unfold in_i64; lia) ltac:(cbn; lia) new_msgs_storable) as Hp.
  destruct (AppendBatch sample_clock no_pool sample_partition new_msgs) as [[p' ms] r] eqn:E. exists p'.
  assert (Hms : ms = set_AppendTime 1000 <$> new_msgs).
  { apply (f_equal (fun x => snd (fst x))) in E. vm_compute in E. rewrite <- (E : _ = ms). vm_compute. reflexivity. }
  apply (f_equal snd) in Hp. rewrite Hms in Hp. etransitivity; [exact Hp|]. vm_compute. reflexivity.
Defined.

Lemma strict_delivers_by_priority_witness :
  exists pi', snd (fst (poll quiet_env NewStrictPriority sample_partition 0 2)) = with_index sample_partition (Some pi') /\
    snd (poll quiet_env NewStrictPriority sample_partition 0 1) = [Ok (mkMessage (mkHeader x01 500 500 0) [] [x61] false, 2)].
Proof.
  destruct (strict_delivers_by_priority quiet_env sample_partition sample_index 0 2 eq_refl sample_index_wf)
    as (pi' & Hp & _). exists pi'. rewrite Hp. split; [reflexivity|]. vm_compute. reflexivity.
Defined.
