(* ===== verification/NN.v ===== *)
(** * Learning support (src/pkg/nn)

    The two replay buffers, the annealing schedule, the running normaliser, the
    exploration noise and the counter of the target network.  Tensors and the
    variables of a network are gomlx's: the target network's averaging of them is
    a parameter.  The random draws are arguments; [MathLib] stands for the
    functions of the math package that are not exact.

    The normaliser and the power function only use arithmetic, so they are
    written over any number type: the program's are the instances at float64,
    and the instance at the rationals says what they compute up to rounding. *)

From Stdlib Require Import QArith.QArith_base QArith.Qcanon.
From S2P Require Import Prelude GoFloat.
Local Open Scope Z_scope.

(** math.Pow, math.Log1p, math.Exp. *)
Class MathLib : Type := {
  math_Pow : float -> float -> float;
  math_Log1p : float -> float;
  math_Exp : float -> float;
}.

(** ** Numbers *)

Class Num (A : Type) : Type := {
  num_zero : A;
  num_one : A;
  num_add : A -> A -> A;
  num_sub : A -> A -> A;
  num_mul : A -> A -> A;
  num_div : A -> A -> A;
  num_of_int : Z -> A;
}.
#[export] Instance float_num : Num float :=
  {| num_zero := 0%float; num_one := 1%float; num_add := PrimFloat.add; num_sub := PrimFloat.sub; num_mul := PrimFloat.mul;
     num_div := PrimFloat.div; num_of_int := of_int |}.
#[export] Instance Qc_num : Num Qc :=
  {| num_zero := 0%Qc; num_one := 1%Qc; num_add := Qcplus; num_sub := Qcminus; num_mul := Qcmult; num_div := Qcdiv;
     num_of_int := fun z => Q2Qc (inject_Z z) |}.

(** ** Transitions and the replay buffer *)

Record Transition : Type := mkTransition {
  tr_State : list float;
  tr_Action : list float;
  tr_Reward : float;
  tr_NextState : list float;
  tr_Done : bool;
}.
Definition zeroTransition : Transition := mkTransition [] [] 0%float [] false.

(** A slot is an atomic pointer, nil at first. *)
Record ReplayBuffer : Type := mkReplay { rb_slots : list (option Transition); rb_capacity : Z; rb_writeIdx : Z }.

Definition NewReplayBuffer (capacity : Z) : result ReplayBuffer :=
  if capacity <? 0 then Panic else Ok (mkReplay (replicate (Z.to_nat capacity) None) capacity 0).

(** Push is two atomic steps: taking an index, and storing a copy of the
    transition there.  Another goroutine can act in between. *)
Definition rb_reserve (rb : ReplayBuffer) : ReplayBuffer * Z :=
  let w := i64 (rb_writeIdx rb + 1) in (mkReplay (rb_slots rb) (rb_capacity rb) w, i64 (w - 1)).

Definition rb_store (rb : ReplayBuffer) (idx : Z) (t : Transition) : result ReplayBuffer :=
  if decide (rb_capacity rb = 0) then Panic
  else
    let slot := Z.rem idx (rb_capacity rb) in
    if slot <? 0 then Panic
    else slots ← store (rb_slots rb) (Z.to_nat slot) (Some t); Ok (mkReplay slots (rb_capacity rb) (rb_writeIdx rb)).

Definition replay_Push (rb : ReplayBuffer) (t : Transition) : result ReplayBuffer :=
  let '(rb, idx) := rb_reserve rb in rb_store rb idx t.

Definition rb_Len (rb : ReplayBuffer) : Z := if rb_capacity rb <=? rb_writeIdx rb then rb_capacity rb else rb_writeIdx rb.

(** [draw i] is the [i]-th rand.IntN(n).  A nil slot leaves the element of [dst]. *)
Fixpoint sample_slots (draw : nat -> Z) (slots : list (option Transition)) (i : nat) (dst : list Transition)
    : result (list Transition) :=
  match dst with
  | [] => Ok []
  | d :: dst =>
      s ← index slots (Z.to_nat (draw i));
      rest ← sample_slots draw slots (i + 1) dst;
      Ok (default d s :: rest)
  end.

Definition SampleInto (draw : nat -> Z) (rb : ReplayBuffer) (dst : list Transition) : result (list Transition * Z) :=
  let n := rb_Len rb in
  if decide (n = 0) then Ok (dst, 0)
  else
    let count := Z.min (Z.of_nat (length dst)) n in
    filled ← sample_slots draw (rb_slots rb) 0 (take (Z.to_nat count) dst);
    Ok (filled ++ drop (Z.to_nat count) dst, count).

(** [make([]Transition, batchSize)] panics on a negative size. *)
Definition replay_Sample (draw : nat -> Z) (rb : ReplayBuffer) (batchSize : Z) : result (list Transition) :=
  let n := rb_Len rb in
  if decide (n = 0) then Ok []
  else
    let batchSize := if n <? batchSize then n else batchSize in
    if batchSize <? 0 then Panic
    else '(batch, _) ← SampleInto draw rb (replicate (Z.to_nat batchSize) zeroTransition); Ok batch.

(** ** The prioritised replay buffer *)

Record PrioritizedReplayBuffer : Type := mkPER {
  per_transitions : list Transition;
  per_priorities : list float;
  per_capacity : Z;
  per_size : Z;
  per_writeIdx : Z;
  per_alpha : float;
  per_defaultPrio : float;
  per_maxPriority : float;
}.

Definition NewPrioritizedReplayBuffer (capacity : Z) (alpha : float) : result PrioritizedReplayBuffer :=
  if capacity <? 0 then Panic
  else Ok (mkPER (replicate (Z.to_nat capacity) zeroTransition) (replicate (Z.to_nat capacity) 0%float) capacity 0 0 alpha 1 1).

Definition per_Push (b : PrioritizedReplayBuffer) (t : Transition) : result PrioritizedReplayBuffer :=
  if decide (per_capacity b = 0) then Panic
  else
    let idx := Z.rem (per_writeIdx b) (per_capacity b) in
    if idx <? 0 then Panic
    else
      ts ← store (per_transitions b) (Z.to_nat idx) t;
      ps ← store (per_priorities b) (Z.to_nat idx) (per_maxPriority b);
      Ok (mkPER ts ps (per_capacity b) (if per_size b <? per_capacity b then per_size b + 1 else per_size b)
            (i64 (per_writeIdx b + 1)) (per_alpha b) (per_defaultPrio b) (per_maxPriority b)).

(** The inner loop: the first index whose cumulative weight reaches [r], or the
    last index. *)
Fixpoint find_cum (r cum : float) (j : nat) (idx : nat) (probs : list float) : nat :=
  match probs with
  | [] => idx
  | p :: ps => let cum := (cum + p)%float in if (r <=? cum)%float then j else find_cum r cum (j + 1) j ps
  end.

Section per.
Context {M : MathLib}.

Fixpoint per_draws (rand : nat -> float) (b : PrioritizedReplayBuffer) (probs : list float) (total n beta : float)
    (i k : nat) : result (list (Transition * nat * float)) :=
  match k with
  | O => Ok []
  | S k =>
      let r := (rand i * total)%float in
      let idx := find_cum r 0 0 0 probs in
      t ← index (per_transitions b) idx;
      p ← index probs idx;
      let w := math_Pow (n * (p / total))%float (- beta)%float in
      rest ← per_draws rand b probs total n beta (i + 1) k;
      Ok ((t, idx, w) :: rest)
  end.

Definition max_weight (ws : list float) : float := foldl (fun m w => if (m <? w)%float then w else m) 0%float ws.

Definition per_Sample (rand : nat -> float) (b : PrioritizedReplayBuffer) (batchSize : Z) (beta : float)
    : result (list Transition * list Z * list float) :=
  if decide (per_size b = 0) then Ok ([], [], [])
  else
    let batchSize := if per_size b <? batchSize then per_size b else batchSize in
    let probs := (fun p => math_Pow p (per_alpha b)) <$> take (Z.to_nat (per_size b)) (per_priorities b) in
    let total := foldl PrimFloat.add 0%float probs in
    let total := if (total =? 0)%float then 1%float else total in
    if batchSize <? 0 then Panic
    else
      draws ← per_draws rand b probs total (of_int (per_size b)) beta 0 (Z.to_nat batchSize);
      let ws := (fun x => snd x) <$> draws in
      let m := max_weight ws in
      let ws := if (0 <? m)%float then (fun w => (w / m)%float) <$> ws else ws in
      Ok ((fun x => fst (fst x)) <$> draws, (fun x => Z.of_nat (snd (fst x))) <$> draws, ws).
End per.

Definition UpdatePriority (b : PrioritizedReplayBuffer) (idx : Z) (tdError : float) : PrioritizedReplayBuffer :=
  if (idx <? 0) || (per_size b <=? idx) then b
  else
    let p := (math_Abs tdError + 0x1.0c6f7a0b5ed8dp-20)%float in   (* 1e-6 *)
    mkPER (per_transitions b) (<[Z.to_nat idx := p]> (per_priorities b)) (per_capacity b) (per_size b) (per_writeIdx b)
      (per_alpha b) (per_defaultPrio b) (if (per_maxPriority b <? p)%float then p else per_maxPriority b).

Definition per_Cap (b : PrioritizedReplayBuffer) : Z := per_capacity b.
Definition per_Len (b : PrioritizedReplayBuffer) : Z := per_size b.

(** ** The annealing schedule *)

Record BetaSchedule : Type := mkBeta { beta_start : float; beta_end : float; beta_steps : Z; beta_current : Z }.
Definition NewBetaSchedule (s e : float) (steps : Z) : BetaSchedule := mkBeta s e steps 0.

Definition beta_Next (b : BetaSchedule) : BetaSchedule * float :=
  if beta_steps b <=? 0 then (b, beta_end b)
  else
    let frac := (of_int (beta_current b) / of_int (beta_steps b))%float in
    let frac := if (1 <? frac)%float then 1%float else frac in
    (mkBeta (beta_start b) (beta_end b) (beta_steps b) (i64 (beta_current b + 1)),
     (beta_start b + (beta_end b - beta_start b) * frac)%float).

(** ** The running normaliser *)

Record RunningNormalizer (A : Type) : Type := mkNormalizer { rn_count : Z; rn_mean : list A; rn_m2 : list A; rn_size : Z }.
Arguments mkNormalizer {A}.
Arguments rn_count {A}.
Arguments rn_mean {A}.
Arguments rn_m2 {A}.
Arguments rn_size {A}.

Section normalizer.
Context {A : Type} `{Num A}.

Definition NewRunningNormalizer (size : Z) : result (RunningNormalizer A) :=
  if size <? 0 then Panic
  else Ok (mkNormalizer 0 (replicate (Z.to_nat size) num_zero) (replicate (Z.to_nat size) num_zero) size).

(** One component of Welford's update. *)
Definition welford (n x mean m2 : A) : A * A :=
  let delta := num_sub x mean in
  let mean := num_add mean (num_div delta n) in
  let delta2 := num_sub x mean in
  (mean, num_add m2 (num_mul delta delta2)).

Fixpoint welford_all (n : A) (xs means m2s : list A) : result (list A * list A) :=
  match xs with
  | [] => Ok (means, m2s)
  | x :: xs =>
      match means, m2s with
      | mean :: means, m2 :: m2s =>
          let '(mean, m2) := welford n x mean m2 in
          '(means, m2s) ← welford_all n xs means m2s;
          Ok (mean :: means, m2 :: m2s)
      | _, _ => Panic
      end
  end.

Definition Observe (rn : RunningNormalizer A) (x : list A) : result (RunningNormalizer A) :=
  if decide (Z.of_nat (length x) <> rn_size rn) then Ok rn
  else
    let count := i64 (rn_count rn + 1) in
    '(means, m2s) ← welford_all (num_of_int count) x (rn_mean rn) (rn_m2 rn);
    Ok (mkNormalizer count means m2s (rn_size rn)).
End normalizer.

(** The loop stops at the end of [x] or after [size] components. *)
Fixpoint normalize_loop (n : float) (means m2s xs : list float) : list float :=
  match xs, means, m2s with
  | x :: xs, mean :: means, m2 :: m2s =>
      let variance := (m2 / (n - 1))%float in
      let std := PrimFloat.sqrt variance in
      ((x - mean) / (std + 0x1.5798ee2308c3ap-27))%float :: normalize_loop n means m2s xs   (* 1e-8 *)
  | _, _, _ => xs
  end.

Definition NormalizeInPlace (rn : RunningNormalizer float) (x : list float) : list float :=
  if rn_count rn <? 2 then (fun _ => 0%float) <$> x
  else normalize_loop (of_int (rn_count rn)) (rn_mean rn) (rn_m2 rn) x.

Definition Normalize (rn : RunningNormalizer float) (x : list float) : list float := NormalizeInPlace rn x.

(** ** Powers and noise *)

Section powers.
Context {A : Type} `{Num A}.

(** [for e > 0 { ... }]: an int has 63 bits, so [pow_fuel] iterations end it. *)
Fixpoint pow_loop (fuel : nat) (res b : A) (e : Z) : A :=
  match fuel with
  | O => res
  | S fuel =>
      if 0 <? e then
        let res := if Z.land e 1 =? 1 then num_mul res b else res in
        pow_loop fuel res (num_mul b b) (Z.shiftr e 1)
      else res
  end.
Definition pow_fuel : nat := 63.
Definition pow (base : A) (exp : Z) : A := pow_loop pow_fuel num_one base exp.
End powers.

Record OUNoise : Type := mkOU {
  ou_mu : float;
  ou_theta : float;
  ou_sigma0 : float;
  ou_sigma : float;
  ou_sigmaDecay : float;
  ou_sigmaFloor : float;
  ou_state : list float;
  ou_step : Z;
}.

Definition NewOUNoise (size : Z) (mu theta sigma : float) : result OUNoise :=
  if size <? 0 then Panic else Ok (mkOU mu theta sigma sigma 1 0 (replicate (Z.to_nat size) mu) 0).

Definition SetDecay (decay floor : float) (ou : OUNoise) : OUNoise :=
  mkOU (ou_mu ou) (ou_theta ou) (ou_sigma0 ou) (ou_sigma ou) decay floor (ou_state ou) (ou_step ou).

(** [norm i] is the [i]-th NormFloat64. *)
Definition ou_Sample (norm : nat -> float) (ou : OUNoise) : OUNoise * list float :=
  let state := imap (fun i x => (x + (ou_theta ou * (ou_mu ou - x) + ou_sigma ou * norm i))%float) (ou_state ou) in
  let step := i64 (ou_step ou + 1) in
  let sigma := if (ou_sigmaDecay ou <? 1)%float then
                 let s := (ou_sigma0 ou * pow (ou_sigmaDecay ou) step)%float in
                 if (s <? ou_sigmaFloor ou)%float then ou_sigmaFloor ou else s
               else ou_sigma ou in
  (mkOU (ou_mu ou) (ou_theta ou) (ou_sigma0 ou) sigma (ou_sigmaDecay ou) (ou_sigmaFloor ou) state step, state).

Definition ou_Reset (ou : OUNoise) : OUNoise :=
  mkOU (ou_mu ou) (ou_theta ou) (ou_sigma0 ou) (ou_sigma ou) (ou_sigmaDecay ou) (ou_sigmaFloor ou)
    ((fun _ => ou_mu ou) <$> ou_state ou) (ou_step ou).
Definition ou_Size (ou : OUNoise) : Z := Z.of_nat (length (ou_state ou)).
Definition Sigma (ou : OUNoise) : float := ou_sigma ou.

(** ** The target network *)

(** [Ctx] is the pair of contexts; [soft] the averaging step on them, which
    depends on tau. *)
Record TargetNetwork (Ctx : Type) : Type := mkTarget { tn_ctx : Ctx; tn_tau : float; tn_syncEvery : Z; tn_steps : Z }.
Arguments mkTarget {Ctx}.
Arguments tn_ctx {Ctx}.
Arguments tn_tau {Ctx}.
Arguments tn_syncEvery {Ctx}.
Arguments tn_steps {Ctx}.

Section target.
Context {Ctx : Type} (soft : float -> Ctx -> Ctx).

Definition WithTau (tau : float) (tn : TargetNetwork Ctx) : TargetNetwork Ctx :=
  mkTarget (tn_ctx tn) tau (tn_syncEvery tn) (tn_steps tn).
Definition WithSyncEvery (n : Z) (tn : TargetNetwork Ctx) : TargetNetwork Ctx :=
  mkTarget (tn_ctx tn) (tn_tau tn) n (tn_steps tn).

Definition SoftUpdate (tn : TargetNetwork Ctx) : TargetNetwork Ctx :=
  mkTarget (soft (tn_tau tn) (tn_ctx tn)) (tn_tau tn) (tn_syncEvery tn) (tn_steps tn).

Definition tn_Step (tn : TargetNetwork Ctx) : result (TargetNetwork Ctx) :=
  let tn := mkTarget (tn_ctx tn) (tn_tau tn) (tn_syncEvery tn) (i64 (tn_steps tn + 1)) in
  if decide (tn_syncEvery tn = 0) then Panic
  else if Z.rem (tn_steps tn) (tn_syncEvery tn) =? 0 then Ok (SoftUpdate tn) else Ok tn.
End target.

(** The averaging of one variable's data, [t[i] = tau*m[i] + (1-tau)*t[i]]; a
    shorter target is a run-time error. *)
Fixpoint polyak (tau : float) (main target : list float) : result (list float) :=
  match main, target with
  | [], ts => Ok ts
  | m :: ms, t :: ts => rest ← polyak tau ms ts; Ok ((tau * m + (1 - tau) * t)%float :: rest)
  | _ :: _, [] => Panic
  end.
