(* ===== verification/NNProps.v ===== *)
(** * Learning support: what it computes

    Welford's update and the power function against their definitions, on exact
    numbers; what the replay buffers keep and sample; the floor of the noise. *)

From Stdlib Require Import Field QArith.QArith_base QArith.Qreduction QArith.Qcanon.
From S2P Require Import Prelude PriorityIndex GoFloat NN.
Local Open Scope Z_scope.

(** ** Powers *)

Section powers.
Context {A : Type} `{Num A}.
Hypothesis mul_assoc : forall x y z : A, num_mul x (num_mul y z) = num_mul (num_mul x y) z.
Hypothesis mul_one_r : forall x : A, num_mul x num_one = x.

(** The product of [n] factors. *)
Fixpoint power (b : A) (n : nat) : A :=
  match n with O => num_one | S n => num_mul b (power b n) end.

Lemma power_square b n : power (num_mul b b) n = power b (2 * n).
Proof.
  induction n as [|n IH]; [done|]. replace (2 * S n)%nat with (S (S (2 * n))) by lia.
  cbn [power]. by rewrite IH, mul_assoc.
Qed.

Lemma pow_loop_done fuel res b e : e <= 0 -> pow_loop fuel res b e = res.
Proof. intros. destruct fuel; cbn [pow_loop]; [done|]. by rewrite (proj2 (Z.ltb_ge 0 e)). Qed.

(** The loop invariant of square-and-multiply, with the halving of the exponent
    as its measure. *)
Lemma pow_loop_power fuel res b e :
  0 <= e < 2 ^ Z.of_nat fuel -> pow_loop fuel res b e = num_mul res (power b (Z.to_nat e)).
Proof.
  revert res b e. induction fuel as [|fuel IH]; intros res b e He; cbn [pow_loop].
  { replace e with 0 by lia. by rewrite mul_one_r. }
  destruct (Z.ltb_spec 0 e) as [Hpos|]; [|replace e with 0 by lia; by rewrite mul_one_r].
  rewrite Z.shiftr_div_pow2 by done. change (2 ^ 1) with 2.
  rewrite Nat2Z.inj_succ, Z.pow_succ_r in He by lia.
  pose proof (Z.div_mod e 2 ltac:(done)) as Hdm. pose proof (Z.mod_pos_bound e 2 ltac:(lia)) as Hmod.
  rewrite IH by lia. rewrite power_square. change (Z.land e 1) with (Z.land e (Z.ones 1)). rewrite Z.land_ones by lia. change (2 ^ 1) with 2.
  replace (2 * Z.to_nat (e / 2))%nat with (Z.to_nat (e - e mod 2)) by lia.
  destruct (Z.eqb_spec (e mod 2) 1) as [H1|H1].
  - rewrite H1. rewrite <- mul_assoc. f_equal. change (power b (S (Z.to_nat (e - 1))) = power b (Z.to_nat e)). f_equal. lia.
  - f_equal. f_equal. lia.
Qed.
End powers.

(** On exact numbers the square-and-multiply loop of pow computes the power,
    for every exponent an int can hold (a negative one gives 1): 63 iterations
    are enough, so the loop ends. *)
Theorem pow_exact (base : Qc) (exp : Z) :
  exp < 2 ^ 63 -> pow base exp = Qcpower base (Z.to_nat exp).
Proof.
  intros He. assert (Hp : forall n, power base n = Qcpower base n) by (induction n; cbn; congruence).
  rewrite <- Hp. unfold pow. destruct (decide (0 <= exp)) as [H0|Hneg].
  - rewrite pow_loop_power; [apply Qcmult_1_l|apply Qcmult_assoc|apply Qcmult_1_r|].
    change (2 ^ Z.of_nat pow_fuel) with (2 ^ 63). lia.
  - replace (Z.to_nat exp) with 0%nat by lia. by rewrite pow_loop_done by lia.
Qed.

(** ** Welford's update *)

Local Open Scope Qc_scope.

Fixpoint Qcsum (xs : list Qc) : Qc := match xs with [] => 0 | x :: xs => x + Qcsum xs end.
Definition Qcnat (n : nat) : Qc := Q2Qc (inject_Z (Z.of_nat n)).

(** The mean and the sum of squared deviations from it, by definition. *)
Definition average (xs : list Qc) : Qc := Qcsum xs / Qcnat (length xs).
Definition deviations (xs : list Qc) : Qc := Qcsum ((fun x => (x - average xs) * (x - average xs)) <$> xs).

Lemma Qcsum_app xs ys : Qcsum (xs ++ ys) = Qcsum xs + Qcsum ys.
Proof. induction xs as [|x xs IH]; cbn [app Qcsum]; [by rewrite Qcplus_0_l|]. rewrite IH. ring. Qed.

Lemma Qcnat_0 : Qcnat 0 = 0.
Proof. by apply Qc_is_canon. Qed.

Lemma Qcnat_S n : Qcnat (S n) = Qcnat n + 1.
Proof. unfold Qcnat. apply Qc_is_canon. cbn. rewrite !Qred_correct. unfold Qeq, inject_Z. cbn. lia. Qed.

Lemma Qcnat_nonzero n : (0 < n)%nat -> Qcnat n <> 0.
Proof.
  intros Hn Heq. unfold Qcnat in Heq. apply (f_equal this) in Heq. cbn in Heq.
  assert (Hq : Qeq (inject_Z (Z.of_nat n)) 0%Q) by (by rewrite <- (Qred_correct (inject_Z _)), Heq).
  unfold Qeq in Hq. cbn in Hq. lia.
Qed.

(** Σ (x - c)² expanded. *)
Lemma square_sum xs c :
  Qcsum ((fun x => (x - c) * (x - c)) <$> xs) =
  Qcsum ((fun x => x * x) <$> xs) - (1 + 1) * c * Qcsum xs + Qcnat (length xs) * c * c.
Proof.
  induction xs as [|x xs IH]; cbn [fmap list_fmap Qcsum length]; [rewrite Qcnat_0; ring|].
  change (list_fmap _ _ ?f xs) with (f <$> xs). rewrite IH, Qcnat_S. ring.
Qed.

(** One step of the recurrence, in the form of sums. *)
Lemma welford_step xs x :
  welford (Qcnat (S (length xs))) x (average xs) (deviations xs) = (average (xs ++ [x]), deviations (xs ++ [x])).
Proof.
  unfold welford, deviations. rewrite !square_sum. unfold average. rewrite Qcsum_app, length_app, fmap_app, Qcsum_app.
  cbn [Qcsum fmap list_fmap length num_sub num_add num_mul num_div Qc_num]. rewrite Nat.add_1_r, Qcnat_S.
  destruct xs as [|y xs].
  - cbn [Qcsum length fmap list_fmap]. rewrite Qcnat_0. replace (0 / 0) with 0 by (unfold Qcdiv; by rewrite Qcmult_0_l).
    f_equal; field; discriminate.
  - pose proof (Qcnat_nonzero (length (y :: xs)) ltac:(cbn; lia)) as Hn.
    pose proof (Qcnat_nonzero (S (length (y :: xs))) ltac:(cbn; lia)) as Hn1. rewrite Qcnat_S in Hn1.
    generalize dependent (Qcnat (length (y :: xs))). intros n Hn Hn1.
    generalize (Qcsum ((fun x => x * x) <$> y :: xs)), (Qcsum (y :: xs)). intros t z.
    f_equal; field; done.
Qed.

Fixpoint observe_all (rn : RunningNormalizer Qc) (xss : list (list Qc)) : result (RunningNormalizer Qc) :=
  match xss with
  | [] => Ok rn
  | xs :: xss => rn ← Observe rn xs; observe_all rn xss
  end.

Lemma observe_all_snoc rn xss xs : observe_all rn (xss ++ [xs]) = (rn ← observe_all rn xss; Observe rn xs).
Proof.
  revert rn. induction xss as [|ys xss IH]; intros rn; cbn [app observe_all].
  - rewrite Ok_bind. by destruct (Observe rn xs).
  - destruct (Observe rn ys) as [rn'|e|]; [|done..]. rewrite !Ok_bind. apply IH.
Qed.

(** The observations of one component. *)
Definition column (i : nat) (xss : list (list Qc)) : list Qc := (fun xs => default 0 (xs !! i)) <$> xss.

Lemma welford_all_lookup {A : Type} `{Num A} (n : A) xs means m2s :
  length means = length xs -> length m2s = length xs ->
  exists means' m2s', welford_all n xs means m2s = Ok (means', m2s') /\ length means' = length xs /\ length m2s' = length xs /\
    forall i x mean m2, xs !! i = Some x -> means !! i = Some mean -> m2s !! i = Some m2 ->
      means' !! i = Some (welford n x mean m2).1 /\ m2s' !! i = Some (welford n x mean m2).2.
Proof.
  revert means m2s. induction xs as [|x xs IH]; intros [|mean means] [|m2 m2s] Hm Hs; try done; cbn [welford_all].
  { by exists [], []. }
  destruct (welford n x mean m2) as [mean' m2'] eqn:Hw.
  destruct (IH means m2s) as (means' & m2s' & -> & Hl1 & Hl2 & Hi); [cbn in *; lia..|]. rewrite Ok_bind.
  exists (mean' :: means'), (m2' :: m2s'). split; [done|]. split; [cbn; lia|]. split; [cbn; lia|].
  intros [|i] x0 m0 s0; cbn [lookup list_lookup]; [|apply Hi]. intros [= <-] [= <-] [= <-]. by rewrite Hw.
Qed.

(** C29: On exact numbers the normaliser's running statistics are what they stand
    for: after observing vectors of its size, its count is their number, and each
    component's mean and m2 are the average of that component's observations and
    the sum of their squared deviations from it.  A vector of another size
    changes nothing. *)
Theorem welford_exact (size : Z) (rn0 : RunningNormalizer Qc) (xss : list (list Qc)) :
  NewRunningNormalizer size = Ok rn0 -> Forall (fun xs => Z.of_nat (length xs) = size) xss -> (Z.of_nat (length xss) < 2 ^ 63)%Z ->
  exists rn, observe_all rn0 xss = Ok rn /\ rn_count rn = Z.of_nat (length xss) /\
    (forall i, (i < Z.to_nat size)%nat ->
       rn_mean rn !! i = Some (average (column i xss)) /\ rn_m2 rn !! i = Some (deviations (column i xss))) /\
    (forall xs, Z.of_nat (length xs) <> size -> Observe rn xs = Ok rn).
Proof.
  unfold NewRunningNormalizer. destruct (Z.ltb_spec size 0) as [|Hsize]; [done|]. intros [= <-] Hall Hlen.
  enough (exists rn, observe_all (mkNormalizer 0 (replicate (Z.to_nat size) 0) (replicate (Z.to_nat size) 0) size) xss = Ok rn /\
    rn_size rn = size /\ rn_count rn = Z.of_nat (length xss) /\ length (rn_mean rn) = Z.to_nat size /\ length (rn_m2 rn) = Z.to_nat size /\
    forall i, (i < Z.to_nat size)%nat ->
       rn_mean rn !! i = Some (average (column i xss)) /\ rn_m2 rn !! i = Some (deviations (column i xss))) as (rn & Ho & Hs & Hc & _ & _ & Hi).
  { exists rn. split; [done|]. split; [done|]. split; [done|]. intros xs Hne. unfold Observe. by rewrite Hs, decide_True. }
  induction xss as [|xs xss IH] using rev_ind.
  { eexists. split; [done|]. cbn [rn_size rn_count rn_mean rn_m2]. rewrite !length_replicate. do 4 (split; [done|]).
    intros i Hi. rewrite lookup_replicate_2 by done.
    assert (average (column i []) = 0) as -> by (unfold average, column, Qcdiv; cbn [fmap list_fmap Qcsum]; apply Qcmult_0_l). done. }
  apply Forall_app in Hall as [Hall Hxs]. rewrite Forall_singleton in Hxs. rewrite length_app in Hlen. cbn [length] in Hlen.
  destruct IH as (rn & Ho & Hs & Hc & Hlm & Hl2 & Hi); [done|lia|]. rewrite observe_all_snoc, Ho, Ok_bind.
  unfold Observe. rewrite Hs, decide_False by (intros Hne; by apply Hne). rewrite Hc.
  rewrite i64_small by (unfold in_i64; lia).
  destruct (welford_all_lookup (num_of_int (Z.of_nat (length xss) + 1)) xs (rn_mean rn) (rn_m2 rn)) as (means & m2s & -> & Hm1 & Hm2 & Hw);
    [lia..|]. rewrite Ok_bind.
  eexists. split; [done|]. cbn [rn_size rn_count rn_mean rn_m2]. split; [done|]. split; [rewrite length_app; cbn; lia|].
  split; [lia|]. split; [lia|]. intros i Hlt. destruct (Hi i Hlt) as [Hmean Hdev].
  destruct (lookup_lt_is_Some_2 xs i) as [x Hx]; [lia|]. destruct (Hw i x _ _ Hx Hmean Hdev) as [-> ->].
  pose proof (welford_step (column i xss) x) as Hstep. unfold column in Hstep at 1. rewrite length_fmap in Hstep.
  assert (num_of_int (Z.of_nat (length xss) + 1) = Qcnat (S (length xss))) as -> by (unfold Qcnat; cbn [num_of_int Qc_num]; do 2 f_equal; lia).
  rewrite Hstep. unfold column. rewrite fmap_app. cbn [fmap list_fmap]. by rewrite Hx.
Qed.
Local Close Scope Qc_scope.

(** ** The replay buffer *)

Fixpoint replay_push_all (rb : ReplayBuffer) (ts : list Transition) : result ReplayBuffer :=
  match ts with
  | [] => Ok rb
  | t :: ts => rb ← replay_Push rb t; replay_push_all rb ts
  end.

Lemma replay_push_all_snoc rb ts t : replay_push_all rb (ts ++ [t]) = (rb ← replay_push_all rb ts; replay_Push rb t).
Proof.
  revert rb. induction ts as [|u ts IH]; intros rb; cbn [app replay_push_all].
  - rewrite Ok_bind. by destruct (replay_Push rb t).
  - destruct (replay_Push rb u) as [rb'|e|]; [|done..]. rewrite !Ok_bind. apply IH.
Qed.

(** The buffer after pushing [ts]: the last [c] of them, each in its slot. *)
Definition holds_last (c : Z) (ts : list Transition) (rb : ReplayBuffer) : Prop :=
  rb_capacity rb = c /\ rb_writeIdx rb = Z.of_nat (length ts) /\ length (rb_slots rb) = Z.to_nat c /\
  forall k t, ts !! k = Some t -> Z.of_nat (length ts) - c <= Z.of_nat k ->
    rb_slots rb !! Z.to_nat (Z.of_nat k mod c) = Some (Some t).

Lemma replay_Push_holds c ts rb t :
  0 < c -> Z.of_nat (length ts) + 1 < 2 ^ 63 -> holds_last c ts rb ->
  exists rb', replay_Push rb t = Ok rb' /\ holds_last c (ts ++ [t]) rb'.
Proof.
  intros Hc Hlen (Hcap & Hw & Hsl & Hk). unfold replay_Push, rb_reserve, rb_store. cbn [rb_capacity rb_slots rb_writeIdx]. rewrite Hcap, Hw.
  rewrite decide_False by lia. rewrite (i64_small (_ + 1)) by (unfold in_i64; lia).
  rewrite Z.add_simpl_r, i64_small, Z.rem_mod_nonneg by (unfold in_i64; lia). pose proof (Z.mod_pos_bound (Z.of_nat (length ts)) c Hc) as Hm. zdec.
  rewrite store_Ok, Ok_bind by lia. eexists. split; [done|].
  split; [done|]. split; [cbn [rb_writeIdx]; rewrite length_app; cbn; lia|]. cbn [rb_slots]. split; [by rewrite length_insert|].
  intros k u Hu Hwin. rewrite length_app in Hwin. cbn [length] in Hwin.
  destruct (decide (k = length ts)) as [->|Hne].
  - rewrite lookup_app_r, Nat.sub_diag in Hu by lia. cbn in Hu. simplify_eq. apply list_lookup_insert_eq. lia.
  - pose proof (lookup_lt_Some _ _ _ Hu) as Hlt. rewrite length_app in Hlt. cbn [length] in Hlt.
    rewrite lookup_app_l in Hu by lia. pose proof (Z.mod_pos_bound (Z.of_nat k) c Hc).
    rewrite list_lookup_insert_ne; [apply Hk; [done|lia]|]. intros Heq. apply Z2Nat.inj in Heq; [|lia..].
    pose proof (Z.div_mod (Z.of_nat k) c ltac:(lia)) as H1. pose proof (Z.div_mod (Z.of_nat (length ts)) c ltac:(lia)) as H2.
    assert (Hd : Z.of_nat (length ts) - Z.of_nat k = c * (Z.of_nat (length ts) / c - Z.of_nat k / c)) by lia.
    destruct (decide (Z.of_nat (length ts) / c - Z.of_nat k / c <= 0)); nia.
Qed.

(** Any index below Len is the slot of one of the last transitions. *)
Lemma holds_last_slot c ts rb j :
  0 < c -> holds_last c ts rb -> 0 <= j < rb_Len rb ->
  exists t, rb_slots rb !! Z.to_nat j = Some (Some t) /\ t ∈ drop (length ts - Z.to_nat c) ts.
Proof.
  intros Hc (Hcap & Hw & Hsl & Hk) Hj. unfold rb_Len in Hj. rewrite Hcap, Hw in Hj.
  set (n := Z.of_nat (length ts)) in *.
  assert (Hex : exists k, 0 <= k < n /\ n - c <= k /\ k mod c = j).
  { destruct (Z.leb_spec c n).
    - exists (n - c + (j - (n - c)) mod c). pose proof (Z.mod_pos_bound (j - (n - c)) c Hc). split; [lia|]. split; [lia|].
      rewrite Zplus_mod_idemp_r. replace (n - c + (j - (n - c))) with j by lia. apply Z.mod_small. lia.
    - exists j. split; [lia|]. split; [lia|]. apply Z.mod_small. lia. }
  destruct Hex as (k & Hkn & Hwin & Hmod).
  destruct (lookup_lt_is_Some_2 ts (Z.to_nat k)) as [t Ht]; [lia|]. exists t. split.
  - specialize (Hk (Z.to_nat k) t Ht). rewrite Z2Nat.id in Hk by lia. rewrite Hmod in Hk. apply Hk. lia.
  - apply (list_elem_of_lookup_2 _ (Z.to_nat k - (length ts - Z.to_nat c))). rewrite lookup_drop. rewrite <- Ht. f_equal. lia.
Qed.

Lemma sample_slots_spec draw slots i dst (P : Transition -> Prop) :
  (forall k, (k < length dst)%nat -> exists t, slots !! Z.to_nat (draw (i + k)%nat) = Some (Some t) /\ P t) ->
  exists batch, sample_slots draw slots i dst = Ok batch /\ length batch = length dst /\ Forall P batch.
Proof.
  revert i. induction dst as [|d dst IH]; intros i Hd; cbn [sample_slots]; [by exists []|].
  destruct (Hd 0%nat) as (t & Ht & HP); [cbn; lia|]. rewrite Nat.add_0_r in Ht.
  unfold index. rewrite Ht. cbn [must]. rewrite Ok_bind.
  destruct (IH (i + 1)%nat) as (batch & -> & Hl & HF).
  { intros k Hk. replace (i + 1 + k)%nat with (i + S k)%nat by lia. apply Hd. cbn. lia. }
  rewrite Ok_bind. exists (t :: batch). split; [done|]. split; [cbn; lia|]. by constructor.
Qed.

(** The replay buffer keeps the last [capacity] transitions: however many are
    pushed, Len is their number up to the capacity, and a sample of the buffer has
    the size asked for, up to Len, and consists of transitions among the last
    [capacity] ones, never the zero transition. *)
Theorem replay_keeps_last (c : Z) (rb0 : ReplayBuffer) (ts : list Transition) (batchSize : Z) (draw : nat -> Z) :
  NewReplayBuffer c = Ok rb0 -> 0 < c -> Z.of_nat (length ts) < 2 ^ 63 - 1 -> 0 <= batchSize -> ts <> [] ->
  exists rb, replay_push_all rb0 ts = Ok rb /\ rb_Len rb = Z.min c (Z.of_nat (length ts)) /\
    ((forall i, 0 <= draw i < rb_Len rb) ->
     exists batch, replay_Sample draw rb batchSize = Ok batch /\ Z.of_nat (length batch) = Z.min batchSize (rb_Len rb) /\
       Forall (fun t => t ∈ drop (length ts - Z.to_nat c) ts) batch).
Proof.
  unfold NewReplayBuffer. intros Hnew Hc Hlen Hbatch Hne. rewrite (proj2 (Z.ltb_ge c 0)) in Hnew by lia. injection Hnew as <-.
  assert (Hall : exists rb, replay_push_all (mkReplay (replicate (Z.to_nat c) None) c 0) ts = Ok rb /\ holds_last c ts rb).
  { clear Hne. induction ts as [|t ts IH] using rev_ind.
    - eexists. split; [done|]. split; [done|]. split; [done|]. split; [apply length_replicate|]. intros k t Hk. by rewrite lookup_nil in Hk.
    - rewrite length_app in Hlen. cbn [length] in Hlen. destruct IH as (rb & Hp & Hh); [lia|].
      rewrite replay_push_all_snoc, Hp, Ok_bind. apply replay_Push_holds; [done|lia|done]. }
  destruct Hall as (rb & Hp & Hh). exists rb. split; [done|].
  assert (Hl : rb_Len rb = Z.min c (Z.of_nat (length ts))).
  { destruct Hh as (Hcap & Hw & _). unfold rb_Len. rewrite Hcap, Hw. destruct (Z.leb_spec c (Z.of_nat (length ts))); lia. }
  split; [done|]. intros Hdraw. unfold replay_Sample, SampleInto.
  assert (0 < rb_Len rb) by (rewrite Hl; destruct ts; [done|cbn [length]; lia]).
  rewrite decide_False by lia.
  set (n := if rb_Len rb <? batchSize then rb_Len rb else batchSize).
  assert (Hn : n = Z.min batchSize (rb_Len rb)) by (unfold n; destruct (Z.ltb_spec (rb_Len rb) batchSize); lia).
  rewrite (proj2 (Z.ltb_ge n 0)) by lia. rewrite decide_False by lia. rewrite length_replicate, Z2Nat.id by lia.
  rewrite Z.min_l, take_ge, drop_ge by (rewrite ?length_replicate; lia).
  destruct (sample_slots_spec draw (rb_slots rb) 0 (replicate (Z.to_nat n) zeroTransition) (fun t => t ∈ drop (length ts - Z.to_nat c) ts))
    as (batch & -> & Hlb & HF).
  { intros k _. apply (holds_last_slot c ts rb); [done|done|apply Hdraw]. }
  rewrite Ok_bind, app_nil_r, Ok_bind. exists batch. split; [done|]. rewrite Hlb, length_replicate. split; [lia|done].
Qed.

(** While a Push is between its two steps, Len already counts it: a sample taken
    then can contain the zero transition, which nobody pushed. *)
Theorem sample_during_push (rb0 rb1 : ReplayBuffer) (idx : Z) :
  NewReplayBuffer 4 = Ok rb0 -> rb_reserve rb0 = (rb1, idx) ->
  rb_Len rb1 = 1 /\ replay_Sample (fun _ => 0) rb1 1 = Ok [zeroTransition].
Proof. intros [= <-] [= <- <-]. by split. Qed.

(** ** The prioritised buffer *)

Definition per_ok (b : PrioritizedReplayBuffer) : Prop :=
  0 < per_capacity b /\ 0 <= per_size b <= per_capacity b /\ 0 <= per_writeIdx b /\
  length (per_transitions b) = Z.to_nat (per_capacity b) /\ length (per_priorities b) = Z.to_nat (per_capacity b).

Lemma per_Push_ok b t :
  per_ok b -> per_writeIdx b + 1 < 2 ^ 63 ->
  exists b', per_Push b t = Ok b' /\ per_ok b' /\ per_size b' = Z.min (per_capacity b) (per_size b + 1) /\ per_writeIdx b' = per_writeIdx b + 1 /\
    per_priorities b' !! Z.to_nat (per_writeIdx b mod per_capacity b) = Some (per_maxPriority b).
Proof.
  intros (Hc & Hs & Hw & Ht & Hp) Hlt. unfold per_Push. rewrite decide_False by lia. rewrite Z.rem_mod_nonneg by lia.
  pose proof (Z.mod_pos_bound (per_writeIdx b) (per_capacity b) Hc). rewrite (proj2 (Z.ltb_ge _ 0)) by lia.
  rewrite !store_Ok, !Ok_bind by lia. eexists. split; [done|]. unfold per_ok. cbn [per_capacity per_size per_writeIdx per_transitions per_priorities].
  rewrite i64_small by (unfold in_i64; lia). rewrite !length_insert, list_lookup_insert_eq by lia.
  destruct (Z.ltb_spec (per_size b) (per_capacity b)); split_and!; lia || done.
Qed.

Lemma UpdatePriority_ok b idx e : per_ok b -> per_ok (UpdatePriority b idx e) /\ per_size (UpdatePriority b idx e) = per_size b.
Proof.
  intros (Hc & Hs & Hw & Ht & Hp). unfold UpdatePriority. destruct (_ || _); [done|]. unfold per_ok.
  cbn [per_capacity per_size per_writeIdx per_transitions per_priorities]. by rewrite length_insert.
Qed.

(** The weight of the first [j + 1] entries, added up in order. *)
Definition cum_at (cum : float) (probs : list float) (j : nat) : float := foldl PrimFloat.add cum (take (S j) probs).

(** [j] is the first entry at which the cumulative weight reaches [r], or the
    last one when it never does. *)
Definition first_reaching (r cum : float) (probs : list float) (j : nat) : Prop :=
  (j < length probs)%nat /\ (forall i, (i < j)%nat -> (r <=? cum_at cum probs i)%float = false) /\
  ((r <=? cum_at cum probs j)%float = true \/ S j = length probs).

Lemma find_cum_spec r cum k idx probs :
  match probs with [] => find_cum r cum k idx probs = idx
  | _ => exists j, find_cum r cum k idx probs = (k + j)%nat /\ first_reaching r cum probs j end.
Proof.
  revert cum k idx. induction probs as [|p ps IH]; intros cum k idx; cbn [find_cum]; [done|].
  destruct (r <=? cum + p)%float eqn:Hr.
  { exists 0%nat. split; [lia|]. split; [cbn; lia|]. split; [lia|]. by left. }
  specialize (IH (cum + p)%float (k + 1)%nat k). destruct ps as [|q ps].
  - exists 0%nat. cbn [find_cum]. split; [lia|]. split; [cbn; lia|]. split; [lia|]. by right.
  - destruct IH as (j & -> & Hl & Hb & He). exists (S j). split; [lia|]. split; [cbn [length] in *; lia|]. split.
    + intros [|i] Hi; [exact Hr|]. apply (Hb i). lia.
    + destruct He as [He|He]; [by left|right; cbn [length] in *; lia].
Qed.

Section per.
Context {M : MathLib}.

Lemma per_draws_spec rand b probs total n beta i k :
  probs <> [] -> (length probs <= length (per_transitions b))%nat ->
  exists draws, per_draws rand b probs total n beta i k = Ok draws /\ length draws = k /\
    forall j t idx w, draws !! j = Some (t, idx, w) ->
      first_reaching (rand (i + j)%nat * total) 0 probs idx /\ per_transitions b !! idx = Some t.
Proof.
  intros Hne Hlen. revert i. induction k as [|k IH]; intros i; cbn [per_draws]; [by exists []|].
  set (r := (rand i * total)%float).
  assert (Hfind : first_reaching r 0 probs (find_cum r 0 0 0 probs)).
  { pose proof (find_cum_spec r 0 0 0 probs) as H. destruct probs; [done|]. by destruct H as (j & -> & Hj). }
  set (idx := find_cum r 0 0 0 probs) in *. pose proof Hfind as (Hlt & _).
  destruct (lookup_lt_is_Some_2 (per_transitions b) idx) as [t Ht]; [lia|]. destruct (lookup_lt_is_Some_2 probs idx Hlt) as [p Hp].
  replace (index (per_transitions b) idx) with (Ok t) by (unfold index; by rewrite Ht). rewrite Ok_bind.
  replace (index probs idx) with (Ok p) by (unfold index; by rewrite Hp). rewrite Ok_bind.
  destruct (IH (i + 1)%nat) as (draws & -> & Hl & Hd). rewrite Ok_bind. eexists. split; [done|]. split; [cbn; lia|].
  intros [|j] t' idx' w'; cbn [lookup list_lookup].
  - intros [= <- <- _]. by rewrite Nat.add_0_r.
  - intros Hj. destruct (Hd j t' idx' w' Hj). by replace (i + S j)%nat with (i + 1 + j)%nat by lia.
Qed.

(** The weights a sample is drawn with, and their sum. *)
Definition sample_probs (b : PrioritizedReplayBuffer) : list float :=
  (fun p => math_Pow p (per_alpha b)) <$> take (Z.to_nat (per_size b)) (per_priorities b).
Definition sample_total (b : PrioritizedReplayBuffer) : float :=
  let total := foldl PrimFloat.add 0%float (sample_probs b) in if (total =? 0)%float then 1%float else total.

Lemma per_Sample_spec (rand : nat -> float) (b : PrioritizedReplayBuffer) (batchSize : Z) (beta : float) :
  per_ok b -> 0 < per_size b -> 0 <= batchSize ->
  exists batch idxs ws, per_Sample rand b batchSize beta = Ok (batch, idxs, ws) /\
    Z.of_nat (length batch) = Z.min batchSize (per_size b) /\ length idxs = length batch /\ length ws = length batch /\
    forall i idx, idxs !! i = Some idx ->
      0 <= idx < per_size b /\ batch !! i = per_transitions b !! Z.to_nat idx /\
      first_reaching (rand i * sample_total b) 0 (sample_probs b) (Z.to_nat idx).
Proof.
  intros (Hc & Hs & Hw & Ht & Hp) Hpos Hb. unfold per_Sample. rewrite decide_False by lia.
  fold (sample_probs b). change (if (foldl _ _ (sample_probs b) =? 0)%float then 1%float else _) with (sample_total b).
  set (n := if per_size b <? batchSize then per_size b else batchSize).
  assert (Hn : n = Z.min batchSize (per_size b)) by (unfold n; destruct (Z.ltb_spec (per_size b) batchSize); lia).
  rewrite (proj2 (Z.ltb_ge n 0)) by lia.
  assert (Hlp : length (sample_probs b) = Z.to_nat (per_size b)) by (unfold sample_probs; rewrite length_fmap, length_take; lia).
  destruct (per_draws_spec rand b (sample_probs b) (sample_total b) (of_int (per_size b)) beta 0 (Z.to_nat n)) as (draws & -> & Hl & Hd).
  { intros H. rewrite H in Hlp. cbn in Hlp. lia. }
  { lia. }
  rewrite Ok_bind. do 3 eexists. split; [done|]. rewrite !length_fmap. split; [lia|]. split; [done|].
  split; [by case_match; rewrite !length_fmap|]. intros i idx Hi. rewrite !list_lookup_fmap in *.
  destruct (draws !! i) as [[[t j] w]|] eqn:Hdi; [|done]. cbn in Hi. simplify_eq. destruct (Hd i t j w Hdi) as [Hf Hti].
  rewrite Nat2Z.id. pose proof Hf as (Hlt & _). split; [lia|]. cbn. by rewrite Hti.
Qed.

(** Sampling by priority, on a buffer that is not empty: never a panic; as
    many transitions as asked for, up to the size; the index of each lies in the
    buffer and is where its transition is stored.  It is the first index at which
    the cumulative weight priority^alpha reaches the drawn fraction of the total,
    and the last index when rounding keeps the sum from reaching it. *)
Theorem per_Sample_picks (rand : nat -> float) (b : PrioritizedReplayBuffer) (batchSize : Z) (beta : float) :
  per_ok b -> 0 < per_size b -> 0 <= batchSize ->
  exists batch idxs ws, per_Sample rand b batchSize beta = Ok (batch, idxs, ws) /\
    Z.of_nat (length batch) = Z.min batchSize (per_size b) /\ length idxs = length batch /\ length ws = length batch /\
    forall i idx, idxs !! i = Some idx ->
      0 <= idx < per_size b /\ batch !! i = per_transitions b !! Z.to_nat idx /\
      first_reaching (rand i * sample_total b) 0 (sample_probs b) (Z.to_nat idx).
Proof. apply per_Sample_spec. Qed.
End per.

(** *** A priority that is not a number *)

Definition is_nan (f : float) : Prop := Prim2SF f = S754_nan.

Lemma add_nan_l x y : is_nan x -> is_nan (x + y)%float.
Proof. unfold is_nan. intros H. rewrite add_spec, H. by destruct (Prim2SF y). Qed.
Lemma add_nan_r x y : is_nan y -> is_nan (x + y)%float.
Proof. unfold is_nan. intros H. rewrite add_spec, H. by destruct (Prim2SF x). Qed.
Lemma mul_nan_r x y : is_nan y -> is_nan (x * y)%float.
Proof. unfold is_nan. intros H. rewrite mul_spec, H. by destruct (Prim2SF x). Qed.
Lemma leb_nan_l x y : is_nan x -> (x <=? y)%float = false.
Proof. unfold is_nan. intros H. rewrite leb_spec, H. done. Qed.
Lemma eqb_nan_l x y : is_nan x -> (x =? y)%float = false.
Proof. unfold is_nan. intros H. rewrite eqb_spec, H. done. Qed.

Lemma sum_nan cum ps : is_nan cum \/ Exists is_nan ps -> is_nan (foldl PrimFloat.add cum ps).
Proof.
  revert cum. induction ps as [|p ps IH]; intros cum [H|H]; cbn [foldl]; try done; [by inversion H| |].
  - apply IH. left. by apply add_nan_l.
  - apply IH. inversion H; subst; [left; by apply add_nan_r|by right].
Qed.

(** One TD error that is not a number, once given to UpdatePriority, makes every
    sample the transition at the last index, whatever is drawn. *)
Theorem nan_priority_poisons {M : MathLib} (rand : nat -> float) (b : PrioritizedReplayBuffer) (batchSize : Z) (beta : float) :
  per_ok b -> 0 < per_size b -> 0 <= batchSize -> Exists is_nan (sample_probs b) ->
  exists batch idxs ws, per_Sample rand b batchSize beta = Ok (batch, idxs, ws) /\ Forall (fun idx => idx = per_size b - 1) idxs.
Proof.
  intros Hok Hpos Hb Hnan. pose proof Hok as (Hc & Hs & Hw & Ht & Hp).
  assert (Hlp : length (sample_probs b) = Z.to_nat (per_size b)) by (unfold sample_probs; rewrite length_fmap, length_take; lia).
  destruct (per_draws_spec rand b (sample_probs b) (sample_total b) (of_int (per_size b)) beta 0
    (Z.to_nat (if per_size b <? batchSize then per_size b else batchSize))) as (draws & Hdraws & _ & Hd); [intros H; rewrite H in Hlp; cbn in Hlp; lia|lia|].
  unfold per_Sample. rewrite decide_False by lia.
  fold (sample_probs b). change (if (foldl _ _ (sample_probs b) =? 0)%float then 1%float else _) with (sample_total b).
  rewrite (proj2 (Z.ltb_ge _ 0)) by (case_match; lia). rewrite Hdraws, Ok_bind. do 3 eexists. split; [done|].
  rewrite Forall_fmap, Forall_lookup. intros i [[t j] w] Hi. cbn. destruct (Hd i t j w Hi) as [(Hlt & _ & Hlast) _].
  assert (Htot : is_nan (sample_total b)).
  { unfold sample_total. pose proof (sum_nan 0 (sample_probs b) (or_intror Hnan)) as Hn. by rewrite (eqb_nan_l _ _ Hn). }
  destruct Hlast as [Hle|Hlast]; [|lia]. rewrite leb_nan_l in Hle; [done|]. by apply mul_nan_r.
Qed.

(** ** The noise *)

Fixpoint ou_samples (norm : nat -> nat -> float) (ou : OUNoise) (k : nat) : OUNoise :=
  match k with O => ou | S k => (ou_Sample (norm k) (ou_samples norm ou k)).1 end.

(** After [t] samples, at least one, of a noise with decay below 1, sigma is
    max(sigmaFloor, sigma0 * decay^t), as the type's comment says; Reset does not
    restart the decay. *)
Theorem ou_sigma_schedule (norm : nat -> nat -> float) (size : Z) (mu theta sigma decay floor : float) (ou0 : OUNoise) (t : nat) :
  NewOUNoise size mu theta sigma = Ok ou0 -> (decay <? 1)%float = true -> Z.of_nat t + 1 < 2 ^ 63 ->
  let ou := ou_samples norm (SetDecay decay floor ou0) (S t) in
  let s := (sigma * pow decay (Z.of_nat (S t)))%float in
  Sigma ou = (if (s <? floor)%float then floor else s) /\ Sigma (ou_Reset ou) = Sigma ou /\ ou_Size ou = size.
Proof.
  unfold NewOUNoise. destruct (Z.ltb_spec size 0); [done|]. intros [= <-] Hd Ht. cbn zeta.
  assert (Hinv : forall k, Z.of_nat k < 2 ^ 63 -> let ou := ou_samples norm (SetDecay decay floor (mkOU mu theta sigma sigma 1 0 (replicate (Z.to_nat size) mu) 0)) k in
    ou_sigma0 ou = sigma /\ ou_sigmaDecay ou = decay /\ ou_sigmaFloor ou = floor /\ ou_step ou = Z.of_nat k /\ ou_Size ou = size).
  { induction k as [|k IH]; intros Hk; cbn zeta.
    - split_and!; try done. unfold ou_Size. cbn. rewrite length_replicate. lia.
    - destruct IH as (H1 & H2 & H3 & H4 & H5); [lia|]. cbn [ou_samples]. unfold ou_Sample. cbn [fst].
      unfold ou_Size in *. cbn [ou_sigma0 ou_sigmaDecay ou_sigmaFloor ou_step ou_state]. rewrite length_imap.
      split_and!; try done. rewrite H4, i64_small by (unfold in_i64; lia). lia. }
  destruct (Hinv t) as (H1 & H2 & H3 & H4 & H5); [lia|]. destruct (Hinv (S t)) as (_ & _ & _ & _ & H6); [lia|].
  split; [|split; [done|exact H6]]. cbn [ou_samples]. unfold Sigma, ou_Sample. cbn [fst ou_sigma]. rewrite H1, H2, H3, H4, Hd.
  rewrite i64_small by (unfold in_i64; lia). by replace (Z.of_nat t + 1) with (Z.of_nat (S t)) by lia.
Qed.

(** ** The target network *)

Section target.
Context {Ctx : Type} (soft : float -> Ctx -> Ctx).

Fixpoint tn_steps_run (tn : TargetNetwork Ctx) (n : nat) : result (TargetNetwork Ctx) :=
  match n with O => Ok tn | S n => tn ← tn_steps_run tn n; tn_Step soft tn end.

(** [n] calls of Step average the weights exactly [n / syncEvery] times. *)
Theorem target_sync_count (ctx : Ctx) (tau : float) (every : Z) (n : nat) :
  0 < every -> Z.of_nat n < 2 ^ 63 ->
  tn_steps_run (mkTarget ctx tau every 0) n =
    Ok (mkTarget (Nat.iter (Z.to_nat (Z.of_nat n / every)) (soft tau) ctx) tau every (Z.of_nat n)).
Proof.
  intros He. induction n as [|n IH]; intros Hn; [by rewrite Z.div_0_l by lia|]. cbn [tn_steps_run]. rewrite IH, Ok_bind by lia.
  unfold tn_Step, SoftUpdate. cbn [tn_ctx tn_tau tn_syncEvery tn_steps]. rewrite decide_False by lia.
  rewrite i64_small by (unfold in_i64; lia). replace (Z.of_nat n + 1) with (Z.of_nat (S n)) by lia.
  rewrite Z.rem_mod_nonneg by lia. set (m := Z.of_nat (S n)).
  assert (Hm : Z.of_nat n = m - 1) by lia. rewrite Hm.
  pose proof (Z.div_mod m every ltac:(lia)) as H1. pose proof (Z.mod_pos_bound m every He) as H2.
  pose proof (Z.div_mod (m - 1) every ltac:(lia)) as H3. pose proof (Z.mod_pos_bound (m - 1) every He) as H4.
  assert (0 <= (m - 1) / every) by (apply Z.div_pos; lia).
  destruct (Z.eqb_spec (m mod every) 0) as [H0|H0].
  - assert (Hq : m / every = (m - 1) / every + 1) by nia. rewrite Hq. by rewrite Z2Nat.inj_add, Nat.add_1_r by lia.
  - assert (Hq : m / every = (m - 1) / every) by nia. by rewrite Hq.
Qed.
End target.

(** ** The properties at concrete inputs *)

Lemma pow_exact_witness : pow (Q2Qc (3 # 2)) 5 = Q2Qc (243 # 32).
Proof. rewrite (pow_exact (Q2Qc (3 # 2)) 5 ltac:(lia)). apply Qc_is_canon. reflexivity. Defined.

(** Observing 1, 2 and 6: mean 3, squared deviations 4 + 1 + 9. *)
Lemma welford_exact_witness :
  exists rn, observe_all (mkNormalizer 0 [0%Qc] [0%Qc] 1) [[Q2Qc 1]; [Q2Qc 2]; [Q2Qc 6]] = Ok rn /\
    rn_mean rn = [Q2Qc 3] /\ rn_m2 rn = [Q2Qc 14].
Proof.
  destruct (welford_exact 1 (mkNormalizer 0 [0%Qc] [0%Qc] 1) [[Q2Qc 1]; [Q2Qc 2]; [Q2Qc 6]] eq_refl
    ltac:(repeat constructor) ltac:(cbn; lia)) as (rn & Ho & _ & Hi & _).
  exists rn. split; [exact Ho|]. destruct (Hi 0%nat ltac:(cbn; lia)) as [Hm H2].
  assert (Hl : match observe_all (mkNormalizer 0 [0%Qc] [0%Qc] 1) [[Q2Qc 1]; [Q2Qc 2]; [Q2Qc 6]] with
    | Ok rn => length (rn_mean rn) = 1%nat /\ length (rn_m2 rn) = 1%nat | _ => False end) by (vm_compute; split; reflexivity).
  rewrite Ho in Hl. destruct Hl as [Hl1 Hl2].
  assert (Ha : average (column 0 [[Q2Qc 1]; [Q2Qc 2]; [Q2Qc 6]]) = Q2Qc 3) by (apply Qc_is_canon; reflexivity).
  assert (Hd : deviations (column 0 [[Q2Qc 1]; [Q2Qc 2]; [Q2Qc 6]]) = Q2Qc 14) by (apply Qc_is_canon; reflexivity).
  rewrite Ha in Hm. rewrite Hd in H2. clear Ho Ha Hd.
  destruct (rn_mean rn) as [|m [|? ?]]; [discriminate Hl1| |discriminate Hl1].
  destruct (rn_m2 rn) as [|s [|? ?]]; [discriminate Hl2| |discriminate Hl2].
  injection Hm as ->. injection H2 as ->. split; reflexivity.
Defined.

Definition reward (r : float) : Transition := mkTransition [] [] r [] false.

Lemma replay_keeps_last_witness :
  exists rb, replay_push_all (mkReplay [None; None] 2 0) [reward 1; reward 2; reward 3] = Ok rb /\ rb_Len rb = 2 /\
    exists batch, replay_Sample (fun i => Z.of_nat i mod 2) rb 5 = Ok batch /\ length batch = 2%nat /\
      Forall (fun t => t ∈ [reward 2; reward 3]) batch.
Proof.
  destruct (replay_keeps_last 2 (mkReplay [None; None] 2 0) [reward 1; reward 2; reward 3] 5 (fun i => Z.of_nat i mod 2) eq_refl
    ltac:(lia) ltac:(cbn; lia) ltac:(lia) ltac:(discriminate)) as (rb & Hp & Hl & Hs).
  exists rb. split; [exact Hp|]. split; [exact Hl|]. rewrite Hl in Hs.
  destruct Hs as (batch & Hb & Hlen & HF); [intros i; pose proof (Z.mod_pos_bound (Z.of_nat i) 2); cbn [length]; lia|].
  exists batch. split; [exact Hb|]. split; [cbn [length] in Hlen; lia|exact HF].
Defined.

(** Weights 1 and 3: the fraction 0.5 of the total 4 is reached at index 1. *)
Definition linear_math : MathLib := {| math_Pow := fun x _ => x; math_Log1p := fun x => x; math_Exp := fun x => x |}.
Definition two_weights : PrioritizedReplayBuffer := mkPER [reward 1; reward 2; reward 0] [1; 3; 0]%float 3 2 2 1 1 3.

Lemma per_Sample_picks_witness :
  exists batch idxs ws, per_Sample (M := linear_math) (fun _ => 0.5%float) two_weights 1 0.4%float = Ok (batch, idxs, ws) /\
    idxs = [1] /\ batch = [reward 2].
Proof.
  destruct (per_Sample_picks (M := linear_math) (fun _ => 0.5%float) two_weights 1 0.4%float
    ltac:(unfold per_ok, two_weights; cbn; lia) ltac:(cbn; lia) ltac:(lia)) as (batch & idxs & ws & Hs & Hl & Hli & _ & Hi).
  assert (Hr : match per_Sample (M := linear_math) (fun _ => 0.5%float) two_weights 1 0.4%float with
    | Ok (_, idxs, _) => idxs = [1] | _ => False end) by (vm_compute; reflexivity).
  rewrite Hs in Hr. subst idxs. destruct (Hi 0%nat 1 eq_refl) as (_ & Hb & _). clear Hi.
  exists batch, [1], ws. split; [exact Hs|]. split; [reflexivity|].
  destruct batch as [|t [|? ?]]; [discriminate Hli| |discriminate Hli]. injection Hb as ->. reflexivity.
Defined.
