(* ===== verification/TargetNet.v ===== *)
(** * The target network's weights (src/pkg/nn/target_network.go)

    NN has the schedule of the target network, with the averaging of the weights as
    a parameter.  Here are the weights: a GoMLX context is the list of its variables,
    in the order in which they are enumerated, and averaging goes over the variables
    of the main network and their counterparts.  A context that NewTargetNetwork made
    and training does not reshape is averaged without a panic, so that the averaging
    is the total function NN expects. *)

From S2P Require Import Prelude GoFloat NN.

(** The flat data of a variable. *)
Inductive FlatData : Type :=
| Flat32 (l : list float)
| Flat64 (l : list float)
| FlatOther.

(** [v_Value]: what Value() gives; [None]: an error or nil. *)
Record CtxVariable : Type := mkVariable { v_ScopeAndName : string; v_Trainable : bool; v_Value : option FlatData }.
Abbreviation GContext := (list CtxVariable).

(** [CloneToContext] of GoMLX: a copy of the variable in another context, or an
    error. *)
Class GoMLXClone : Type := { CloneToContext : CtxVariable -> GContext -> option GContext }.
Class GoMLXCloneLaws (C : GoMLXClone) : Prop := {
  Clone_appends v c c' : CloneToContext v c = Some c' -> c' = c ++ [v];
  Clone_fresh v c : v_ScopeAndName v ∉ (v_ScopeAndName <$> c) -> is_Some (CloneToContext v c);
}.

(** The contexts of a target network: the main one and its copy. *)
Record NetContexts : Type := mkContexts { nc_main : GContext; nc_target : GContext }.

(** The enumeration that clones the trainable variables; an error panics. *)
Fixpoint clone_trainable {C : GoMLXClone} (vs : GContext) (target : GContext) : result GContext :=
  match vs with
  | [] => Ok target
  | v :: vs =>
      if v_Trainable v then target ← must (CloneToContext v target); clone_trainable vs target
      else clone_trainable vs target
  end.

Definition NewTargetNetwork {C : GoMLXClone} (mainCtx : GContext) (opts : list (TargetNetwork NetContexts -> TargetNetwork NetContexts))
    : result (TargetNetwork NetContexts) :=
  let tn := foldl (fun tn opt => opt tn) (mkTarget (mkContexts mainCtx []) 0x1.47ae147ae147bp-8 (* 0.005 *) 10 0) opts in
  target ← clone_trainable mainCtx (nc_target (tn_ctx tn));
  Ok (mkTarget (mkContexts (nc_main (tn_ctx tn)) target) (tn_tau tn) (tn_syncEvery tn) (tn_steps tn)).

Definition TargetCtx (tn : TargetNetwork NetContexts) : GContext := nc_target (tn_ctx tn).

(** The averaging of float32 data; [tau] and [1 - tau] are rounded first. *)
Fixpoint polyak32 (tau : float) (main target : list float) : result (list float) :=
  match main, target with
  | [], ts => Ok ts
  | m :: ms, t :: ts =>
      rest ← polyak32 tau ms ts; Ok (float32 (float32 (float32 tau * m) + float32 (float32 (1 - tau) * t)) :: rest)
  | _ :: _, [] => Panic
  end.

(** The type switch; a target of another type fails the type assertion. *)
Definition average (tau : float) (main target : FlatData) : result FlatData :=
  match main, target with
  | Flat32 m, Flat32 t => t ← polyak32 tau m t; Ok (Flat32 t)
  | Flat64 m, Flat64 t => t ← polyak tau m t; Ok (Flat64 t)
  | Flat32 _, _ | Flat64 _, _ => Panic
  | FlatOther, t => Ok t
  end.

(** The last variable with this name: the search goes over all of them. *)
Fixpoint last_named (name : string) (i : nat) (vs : GContext) (found : option nat) : option nat :=
  match vs with
  | [] => found
  | v :: vs => last_named name (i + 1) vs (if decide (v_ScopeAndName v = name) then Some i else found)
  end.

(** One variable of the main context. *)
Definition update_variable (tau : float) (mainVar : CtxVariable) (target : GContext) : result GContext :=
  if negb (v_Trainable mainVar) then Ok target
  else
    match last_named (v_ScopeAndName mainVar) 0 target None with
    | None => Ok target
    | Some i =>
        targetVar ← index target i;
        match v_Value mainVar, v_Value targetVar with
        | Some mainVal, Some targetVal =>
            val ← average tau mainVal targetVal;
            Ok (<[i := mkVariable (v_ScopeAndName targetVar) (v_Trainable targetVar) (Some val)]> target)
        | _, _ => Ok target
        end
    end.

Fixpoint update_variables (tau : float) (main target : GContext) : result GContext :=
  match main with
  | [] => Ok target
  | v :: main => target ← update_variable tau v target; update_variables tau main target
  end.

(** SoftUpdate on the contexts. *)
Definition soft_contexts (tau : float) (c : NetContexts) : result NetContexts :=
  target ← update_variables tau (nc_main c) (nc_target c); Ok (mkContexts (nc_main c) target).

(** As a total function: where the code panics, the contexts stay. *)
Definition soft_weights (tau : float) (c : NetContexts) : NetContexts :=
  match soft_contexts tau c with Ok c => c | _ => c end.

(** ** Averaging contexts that match *)

(** The data of a variable and of its copy have the same type and size. *)
Definition same_shape (d d' : FlatData) : Prop :=
  match d, d' with
  | Flat32 l, Flat32 l' | Flat64 l, Flat64 l' => length l = length l'
  | FlatOther, FlatOther => True
  | _, _ => False
  end.

Definition copies (m t : CtxVariable) : Prop :=
  v_ScopeAndName m = v_ScopeAndName t /\ v_Trainable t = true /\
  match v_Value m, v_Value t with Some a, Some b => same_shape a b | None, None => True | _, _ => False end.

Definition trainable (vs : GContext) : GContext := filter (fun v => v_Trainable v = true) vs.

(** The target has a copy of every trainable variable of the main network, whose
    names are different. *)
Definition contexts_ok (c : NetContexts) : Prop :=
  NoDup (v_ScopeAndName <$> trainable (nc_main c)) /\ Forall2 copies (trainable (nc_main c)) (nc_target c).

(** The copy after averaging. *)
Definition averaged (tau : float) (m t : CtxVariable) : CtxVariable :=
  match v_Value m, v_Value t with
  | Some a, Some b => match average tau a b with Ok v => mkVariable (v_ScopeAndName t) (v_Trainable t) (Some v) | _ => t end
  | _, _ => t
  end.

Lemma polyak_length tau m : forall t, length m = length t -> exists t', polyak tau m t = Ok t' /\ length t' = length t.
Proof.
  induction m as [|x m IH]; intros [|y t] Hl; try done; cbn [polyak]; [by exists []|].
  destruct (IH t) as (t' & -> & Hl'); [by injection Hl|]. rewrite Ok_bind. eexists. split; [done|]. cbn [length]. lia.
Qed.
Lemma polyak32_length tau m : forall t, length m = length t -> exists t', polyak32 tau m t = Ok t' /\ length t' = length t.
Proof.
  induction m as [|x m IH]; intros [|y t] Hl; try done; cbn [polyak32]; [by exists []|].
  destruct (IH t) as (t' & -> & Hl'); [by injection Hl|]. rewrite Ok_bind. eexists. split; [done|]. cbn [length]. lia.
Qed.

Lemma average_total tau a b : same_shape a b -> exists v, average tau a b = Ok v /\ same_shape a v.
Proof.
  destruct a as [m|m|], b as [t|t|]; cbn; try done; intros Hl.
  - destruct (polyak32_length tau m t Hl) as (t' & -> & Hl'). rewrite Ok_bind. eexists. split; [done|]. cbn. lia.
  - destruct (polyak_length tau m t Hl) as (t' & -> & Hl'). rewrite Ok_bind. eexists. split; [done|]. cbn. lia.
  - by eexists.
Qed.

Lemma averaged_copies tau m t : copies m t -> copies m (averaged tau m t).
Proof.
  intros (Hn & Ht & Hv). unfold averaged. destruct (v_Value m) as [a|] eqn:Ha, (v_Value t) as [b|] eqn:Hb; try done; [|unfold copies; by rewrite Ha, Hb].
  destruct (average_total tau a b Hv) as (v & -> & Hs). unfold copies. cbn. by rewrite Ha.
Qed.
Lemma averaged_name tau m t : v_ScopeAndName (averaged tau m t) = v_ScopeAndName t.
Proof. unfold averaged. by repeat case_match. Qed.

Lemma last_named_app n i vs1 vs2 f : last_named n i (vs1 ++ vs2) f = last_named n (i + length vs1) vs2 (last_named n i vs1 f).
Proof. revert i f. induction vs1 as [|v vs1 IH]; intros i f; cbn [app last_named length]; [by rewrite Nat.add_0_r|]. rewrite IH. f_equal. lia. Qed.
Lemma last_named_absent n i vs f : n ∉ (v_ScopeAndName <$> vs) -> last_named n i vs f = f.
Proof.
  revert i f. induction vs as [|v vs IH]; intros i f Hn; cbn [last_named]; [done|]. rewrite fmap_cons, not_elem_of_cons in Hn.
  destruct Hn as [Hv Hn]. rewrite decide_False by congruence. by apply IH.
Qed.

(** One trainable variable, its copy behind [pre]. *)
Lemma update_variable_at tau m pre t rest :
  v_Trainable m = true -> copies m t -> v_ScopeAndName t ∉ (v_ScopeAndName <$> pre) -> v_ScopeAndName t ∉ (v_ScopeAndName <$> rest) ->
  update_variable tau m (pre ++ t :: rest) = Ok (pre ++ averaged tau m t :: rest).
Proof.
  intros Hm (Hn & Ht & Hv) Hpre Hrest. unfold update_variable. rewrite Hm. cbn [negb].
  rewrite last_named_app, (last_named_absent _ _ pre) by (by rewrite Hn). cbn [last_named]. rewrite decide_True, last_named_absent by (congruence || by rewrite Hn).
  cbn [Nat.add]. unfold index. rewrite list_lookup_middle by done. cbn [must]. rewrite Ok_bind. unfold averaged.
  destruct (v_Value m) as [a|], (v_Value t) as [b|]; try done. destruct (average_total tau a b Hv) as (v & -> & _). rewrite Ok_bind.
  by rewrite insert_app_r_alt, Nat.sub_diag by done.
Qed.

Lemma update_variables_spec tau main : forall pre target,
  NoDup ((v_ScopeAndName <$> pre) ++ (v_ScopeAndName <$> trainable main)) -> Forall2 copies (trainable main) target ->
  update_variables tau main (pre ++ target) = Ok (pre ++ zip_with (averaged tau) (trainable main) target).
Proof.
  unfold trainable. induction main as [|m main IH]; intros pre target; cbn [update_variables].
  { intros _ H. apply Forall2_nil_inv_l in H as ->. done. }
  rewrite filter_cons. case_decide as Hm.
  - rewrite fmap_cons. intros Hnd HF. apply Forall2_cons_inv_l in HF as (t & rest & Hc & HF & ->). pose proof Hc as (Hn & _ & _).
    assert (Hnames : v_ScopeAndName <$> rest = v_ScopeAndName <$> filter (fun v => v_Trainable v = true) main).
    { clear -HF. induction HF as [|x y l k Hx _ IHF]; [done|]. rewrite !fmap_cons, IHF. f_equal. symmetry. apply Hx. }
    apply list.NoDup_app in Hnd as (H1 & H2 & H3). apply list.NoDup_cons in H3 as [H3 H4].
    rewrite update_variable_at; [|done|done|rewrite <- Hn; intros Hin; by apply (H2 _ Hin); left|by rewrite Hnames, <- Hn]. rewrite Ok_bind. cbn [zip_with].
    rewrite (app_assoc pre [averaged tau m t] rest : pre ++ averaged tau m t :: rest = _).
    rewrite IH; [by rewrite <- app_assoc| |done]. rewrite fmap_app, <- app_assoc. cbn [fmap list_fmap app]. rewrite averaged_name, <- Hn.
    apply list.NoDup_app. split; [done|]. split; [|by apply list.NoDup_cons]. done.
  - intros Hnd HF. unfold update_variable. destruct (v_Trainable m); [done|]. cbn [negb]. rewrite Ok_bind. by apply IH.
Qed.

(** Averaging contexts that match does not panic, changes every copy and nothing
    else, and leaves contexts that match. *)
Lemma soft_contexts_ok tau c : contexts_ok c ->
  soft_contexts tau c = Ok (soft_weights tau c) /\ contexts_ok (soft_weights tau c) /\
  nc_main (soft_weights tau c) = nc_main c /\ nc_target (soft_weights tau c) = zip_with (averaged tau) (trainable (nc_main c)) (nc_target c).
Proof.
  intros [Hnd HF]. unfold soft_weights, soft_contexts. rewrite (update_variables_spec tau (nc_main c) [] (nc_target c) Hnd HF : update_variables tau (nc_main c) (nc_target c) = _).
  rewrite Ok_bind. cbn [nc_main nc_target app]. split; [done|]. split; [|done]. split; [done|]. cbn [nc_main nc_target]. clear Hnd.
  induction HF as [|m t l k Hc _ IH]; [constructor|]. cbn [zip_with]. constructor; [by apply averaged_copies|done].
Qed.

(** ** A new target network *)

Lemma clone_trainable_spec {C : GoMLXClone} {CL : GoMLXCloneLaws C} vs : forall target,
  NoDup ((v_ScopeAndName <$> target) ++ (v_ScopeAndName <$> trainable vs)) -> clone_trainable vs target = Ok (target ++ trainable vs).
Proof.
  unfold trainable. induction vs as [|v vs IH]; intros target Hnd; cbn [clone_trainable]; [by rewrite app_nil_r|].
  rewrite filter_cons in *. case_decide as Hv; [|destruct (v_Trainable v); [done|]; by apply IH].
  rewrite Hv. rewrite fmap_cons in Hnd. pose proof Hnd as (_ & H2 & _)%list.NoDup_app.
  destruct (Clone_fresh v target) as [c Hc]; [intros Hin; apply (H2 _ Hin); by left|]. rewrite Hc. cbn [must]. rewrite Ok_bind.
  rewrite (Clone_appends _ _ _ Hc), IH; [by rewrite <- app_assoc|]. by rewrite fmap_app, <- app_assoc.
Qed.

(** An option sets the rate or the period, not the contexts. *)
Definition keeps_contexts (opt : TargetNetwork NetContexts -> TargetNetwork NetContexts) : Prop := forall tn, tn_ctx (opt tn) = tn_ctx tn.
Lemma WithTau_keeps tau : keeps_contexts (WithTau tau).
Proof. done. Qed.
Lemma WithSyncEvery_keeps n : keeps_contexts (WithSyncEvery n).
Proof. done. Qed.

Lemma options_keep opts tn : Forall keeps_contexts opts -> tn_ctx (foldl (fun tn opt => opt tn) tn opts) = tn_ctx tn.
Proof. intros H. revert tn. induction H as [|opt opts Ho _ IH]; intros tn; [done|]. cbn [foldl]. by rewrite IH. Qed.

Lemma copies_refl vs : Forall2 copies (trainable vs) (trainable vs).
Proof.
  apply Forall_Forall2_diag, list.Forall_forall. intros v [Hv _]%list_elem_of_filter.
  split; [done|]. split; [done|]. by destruct (v_Value v) as [[]|].
Qed.

(** A new target network has a copy of every trainable variable, in contexts that
    match. *)
Lemma NewTargetNetwork_ok {C : GoMLXClone} {CL : GoMLXCloneLaws C} mainCtx opts :
  NoDup (v_ScopeAndName <$> trainable mainCtx) -> Forall keeps_contexts opts ->
  exists tn, NewTargetNetwork mainCtx opts = Ok tn /\ TargetCtx tn = trainable mainCtx /\ contexts_ok (tn_ctx tn).
Proof.
  intros Hnd Hopts. unfold NewTargetNetwork. rewrite (options_keep _ _ Hopts). cbn [tn_ctx nc_main nc_target].
  rewrite clone_trainable_spec by done. rewrite Ok_bind. eexists. split; [done|]. split; [done|]. split; [done|]. apply copies_refl.
Qed.

(** With the default options. *)
Lemma NewTargetNetwork_start {C : GoMLXClone} {CL : GoMLXCloneLaws C} mainCtx :
  NoDup (v_ScopeAndName <$> trainable mainCtx) ->
  exists tn, NewTargetNetwork mainCtx [] = Ok tn /\ nc_main (tn_ctx tn) = mainCtx /\ contexts_ok (tn_ctx tn) /\ tn_syncEvery tn = 10.
Proof.
  intros Hnd. unfold NewTargetNetwork. cbn [foldl tn_ctx nc_main nc_target tn_tau tn_syncEvery tn_steps]. rewrite clone_trainable_spec by done.
  rewrite Ok_bind. eexists. split; [done|]. split; [done|]. split; [|done]. split; [done|]. apply copies_refl.
Qed.

(** ** Training and averaging *)

(** Training changes the data of the main network's variables, and none of their
    names, kinds or shapes. *)
Definition reshapes (v v' : CtxVariable) : Prop :=
  v_ScopeAndName v' = v_ScopeAndName v /\ v_Trainable v' = v_Trainable v /\
  match v_Value v', v_Value v with Some a, Some b => same_shape a b | None, None => True | _, _ => False end.

Lemma same_shape_trans a b c : same_shape a b -> same_shape b c -> same_shape a c.
Proof. destruct a, b, c; cbn; intros; try done; congruence. Qed.

Lemma trained_trainable main main' : Forall2 reshapes main main' -> Forall2 reshapes (trainable main) (trainable main').
Proof.
  unfold trainable. induction 1 as [|v v' l l' Hv _ IH]; [constructor|]. rewrite !filter_cons. destruct Hv as (Hn & Ht & Hs).
  rewrite Ht. case_decide; [|done]. by constructor.
Qed.

Lemma training_keeps_ok main main' target :
  contexts_ok (mkContexts main target) -> Forall2 reshapes main main' -> contexts_ok (mkContexts main' target).
Proof.
  intros [Hnd HF] Hr%trained_trainable. cbn [nc_main nc_target] in *. split; cbn [nc_main nc_target].
  - replace (v_ScopeAndName <$> trainable main') with (v_ScopeAndName <$> trainable main); [done|].
    clear -Hr. induction Hr as [|v v' l l' Hv _ IH]; [done|]. rewrite !fmap_cons, IH. f_equal. symmetry. apply Hv.
  - clear Hnd. revert target HF. induction Hr as [|v v' l l' (Hn & _ & Hs) _ IH]; intros target HF.
    { by apply Forall2_nil_inv_l in HF as ->. }
    apply Forall2_cons_inv_l in HF as (t & rest & (Hcn & Hct & Hcs) & HF & ->). constructor; [|by apply IH].
    split; [congruence|]. split; [done|].
    destruct (v_Value v') as [a|], (v_Value v) as [b|], (v_Value t) as [c|]; try done. by eapply same_shape_trans.
Qed.

(** One gradient step on the main network, then [Step] of the target network: with
    contexts that match and a positive period it returns contexts that match, and
    the main network's weights are the trained ones. *)
Lemma train_step_ok (tn : TargetNetwork NetContexts) main' :
  0 < tn_syncEvery tn -> contexts_ok (tn_ctx tn) -> Forall2 reshapes (nc_main (tn_ctx tn)) main' ->
  exists tn', tn_Step soft_weights (mkTarget (mkContexts main' (nc_target (tn_ctx tn))) (tn_tau tn) (tn_syncEvery tn) (tn_steps tn)) = Ok tn' /\
    contexts_ok (tn_ctx tn') /\ nc_main (tn_ctx tn') = main' /\ tn_syncEvery tn' = tn_syncEvery tn.
Proof.
  intros Hs Hc Hr. assert (Hc' : contexts_ok (mkContexts main' (nc_target (tn_ctx tn)))).
  { apply (training_keeps_ok (nc_main (tn_ctx tn))); [by destruct tn as [[]]|done]. }
  unfold tn_Step. cbn [tn_syncEvery]. rewrite decide_False by lia. case_match; eexists; (split; [done|]); [|done].
  unfold SoftUpdate. cbn [tn_ctx tn_tau tn_syncEvery]. destruct (soft_contexts_ok (tn_tau tn) _ Hc') as (_ & H1 & H2 & _). done.
Qed.

(** ** Example *)

(** A library in which a clone goes to the end of the context and a name that is
    taken is an error. *)
Definition appending : GoMLXClone :=
  {| CloneToContext v c := if decide (v_ScopeAndName v ∈ v_ScopeAndName <$> c) then None else Some (c ++ [v]) |}.
#[export] Instance appending_laws : GoMLXCloneLaws appending.
Proof.
  split; intros v c; cbn.
  - intros c'. case_decide; [done|]. by intros [= <-].
  - intros H. rewrite decide_False by done. by eexists.
Qed.

Definition sample_main : GContext :=
  [mkVariable "/q/w" true (Some (Flat64 [1; 3]%float)); mkVariable "/step" false (Some FlatOther); mkVariable "/q/b" true (Some (Flat32 [2]%float))].
Definition sample_later : GContext :=
  [mkVariable "/q/w" true (Some (Flat64 [3; 7]%float)); mkVariable "/step" false (Some FlatOther); mkVariable "/q/b" true (Some (Flat32 [4]%float))].

(** Half of the way with a rate of one half; the counter is not copied. *)
Example target_halfway :
  (tn ← NewTargetNetwork (C := appending) sample_main [WithTau 0.5; WithSyncEvery 1];
   tn ← tn_Step soft_weights (mkTarget (mkContexts sample_later (nc_target (tn_ctx tn))) (tn_tau tn) (tn_syncEvery tn) (tn_steps tn));
   Ok (TargetCtx tn))
  = Ok [mkVariable "/q/w" true (Some (Flat64 [2; 5]%float)); mkVariable "/q/b" true (Some (Flat32 [3]%float))].
Proof. vm_compute. reflexivity. Qed.
