(* ===== verification/QNet.v ===== *)
(** * What the two learning policies share

    src/pkg/scheduler/dqn.go and src/pkg/balancer/dqn.go train the same kind of
    network with the same code, each with a copy of its own of the helpers below.
    [QNet] stands for running and training a network, with the shapes of its answers
    as laws; DuelNet has the network. *)

From S2P Require Import Prelude GoFloat NN NNProps.

(** The value of a tensor; a float32 is a float64 with few digits. *)
Inductive TensorValue : Type :=
| Floats64 (l : list float)
| Floats32 (l : list float)
| Float64 (x : float)
| Float32 (x : float)
| Ints32 (l : list Z)
| OtherValue.

Definition tensorToFloat64Sched (t : TensorValue) : list float :=
  match t with
  | Floats64 l | Floats32 l => l
  | Float64 x | Float32 x => [x]
  | Ints32 _ | OtherValue => []
  end.

(** The compiled graphs, as functions of the weights of both networks. *)
Class QNet (Net : Type) : Type := {
  net_forward : Net -> list float -> TensorValue;
  net_bestActions : Net -> list (list float) -> TensorValue;
  net_targetQ : Net -> list (list float) -> TensorValue -> TensorValue;
  net_batchQ : Net -> list (list float) -> list float -> TensorValue;
  net_train : Net -> list (list float) -> list float -> list float -> list float -> Net * TensorValue;
  net_soft : float -> Net -> Net;
}.

(** ** Choosing an action *)

(** [s[i] > s[best]] for [i] from 1 on: the first of the greatest values. *)
Fixpoint argmax_loop (i : nat) (best : nat) (bestVal : float) (s : list float) : nat :=
  match s with
  | [] => best
  | x :: s => if (bestVal <? x)%float then argmax_loop (i + 1) i x s else argmax_loop (i + 1) best bestVal s
  end.
Definition argmaxSched (s : list float) : nat :=
  match s with [] => 0%nat | x :: s => argmax_loop 1 0 x s end.

Definition padOrTruncSched (s : list float) (n : nat) : list float :=
  if decide (length s = n) then s else take n s ++ replicate (n - length s) 0%float.

(** ** Training *)

(** The rows of the batch, padded to the size of the state. *)
Definition batch_states (size : nat) (batch : list Transition) : list (list float) :=
  (fun t => padOrTruncSched (tr_State t) size) <$> batch.
Definition batch_next (size : nat) (batch : list Transition) : list (list float) :=
  (fun t => padOrTruncSched (tr_NextState t) size) <$> batch.
Definition batch_actions (batch : list Transition) : list float := (fun t => default 0%float (head (tr_Action t))) <$> batch.
Definition batch_dones (batch : list Transition) : list float := (fun t => if tr_Done t then 1%float else 0%float) <$> batch.

(** [targets[i] = rewards[i] + gamma*maxNextQ[i]*(1-dones[i])] *)
Fixpoint td_targets (gamma : float) (batch : list Transition) (nextQ : list float) : result (list float) :=
  match batch with
  | [] => Ok []
  | t :: batch =>
      match nextQ with
      | [] => Panic
      | q :: nextQ =>
          rest ← td_targets gamma batch nextQ;
          Ok ((tr_Reward t + gamma * q * (1 - (if tr_Done t then 1 else 0)))%float :: rest)
      end
  end.

(** The loop over the sampled indices. *)
Fixpoint update_priorities (indices : list Z) (targets currentQ : list float) (b : PrioritizedReplayBuffer)
    : result PrioritizedReplayBuffer :=
  match indices with
  | [] => Ok b
  | idx :: indices =>
      match targets, currentQ with
      | t :: targets, q :: currentQ => update_priorities indices targets currentQ (UpdatePriority b idx (t - q)%float)
      | _, _ => Panic
      end
  end.

(** From the batch to the weights after a training step, and its loss. *)
Definition learn {Net : Type} {Q : QNet Net} (gamma : float) (size : nat) (batch : list Transition) (indices : list Z)
    (isWeights : list float) (tn : TargetNetwork Net) (replay : PrioritizedReplayBuffer)
    : result (TargetNetwork Net * PrioritizedReplayBuffer * float) :=
  let net := tn_ctx tn in
  let states := batch_states size batch in
  let next := batch_next size batch in
  let actions := batch_actions batch in
  let nextQ := tensorToFloat64Sched (net_targetQ net next (net_bestActions net next)) in
  let currentQ := tensorToFloat64Sched (net_batchQ net states actions) in
  targets ← td_targets gamma batch nextQ;
  replay ← update_priorities indices targets currentQ replay;
  let '(net, loss) := net_train net states targets actions isWeights in
  tn ← tn_Step net_soft (mkTarget net (tn_tau tn) (tn_syncEvery tn) (tn_steps tn));
  Ok (tn, replay, default 0%float (head (tensorToFloat64Sched loss))).

(** trainLoop after the context is cancelled: what is left goes to the buffer. *)
Fixpoint drain_exp (ts : list Transition) (b : PrioritizedReplayBuffer) : result PrioritizedReplayBuffer :=
  match ts with [] => Ok b | t :: ts => b ← per_Push b t; drain_exp ts b end.


(** ** Lemmas *)

Lemma argmax_loop_lt i best v s : (best < i)%nat -> (argmax_loop i best v s < i + length s)%nat.
Proof.
  revert i best v. induction s as [|x s IH]; intros i best v Hb; cbn [argmax_loop length]; [lia|].
  destruct (v <? x)%float; [specialize (IH (i + 1)%nat i x)|specialize (IH (i + 1)%nat best v)]; lia.
Qed.

Lemma argmaxSched_lt s : s <> [] -> (argmaxSched s < length s)%nat.
Proof. destruct s as [|x s]; [done|]. intros _. unfold argmaxSched. pose proof (argmax_loop_lt 1 0 x s). cbn [length]. lia. Qed.

Lemma argmax_loop_max i best v s all :
  Forall is_num all -> all !! best = Some v -> (forall j x, (j < i)%nat -> all !! j = Some x -> (v <? x)%float = false) ->
  drop i all = s ->
  exists w, all !! argmax_loop i best v s = Some w /\ forall j x, all !! j = Some x -> (w <? x)%float = false.
Proof.
  intros Hnum. revert i best v. induction s as [|y s IH]; intros i best v Hv Hb Hd; cbn [argmax_loop].
  - exists v. split; [done|]. intros j x Hj. apply (Hb j); [|done]. apply lookup_lt_Some in Hj.
    assert (length (drop i all) = 0%nat) as Hl by (by rewrite Hd). rewrite length_drop in Hl. lia.
  - assert (Hy : all !! i = Some y) by (rewrite <- (Nat.add_0_r i), <- lookup_drop, Hd; done).
    assert (Hd' : drop (i + 1) all = s) by (rewrite <- drop_drop, Hd; done).
    destruct (v <? y)%float eqn:Hlt.
    + apply (IH (i + 1)%nat i y); [done| |done]. intros j x Hj Hx. destruct (decide (j = i)) as [->|].
      * simplify_eq. apply flt_irrefl.
      * apply not_true_is_false. intros Hyx. assert (Hvx : (v <? x)%float = true) by (by eapply flt_trans).
        rewrite (Hb j x) in Hvx; [done|lia|done].
    + apply (IH (i + 1)%nat best v); [done| |done]. intros j x Hj Hx. destruct (decide (j = i)) as [->|]; [by simplify_eq|].
      apply (Hb j); [lia|done].
Qed.

(** The policy's threshold is an action of greatest value, if the network's
    values are numbers. *)
Theorem argmaxSched_greatest (q : list float) :
  q <> [] -> Forall is_num q ->
  exists w, q !! argmaxSched q = Some w /\ forall j x, q !! j = Some x -> (w <? x)%float = false.
Proof.
  intros Hne Hnum. destruct q as [|x q]; [done|]. unfold argmaxSched. apply (argmax_loop_max 1 0 x q (x :: q)); try done.
  intros [|j] y Hj Hy; [|lia]. cbn in Hy. simplify_eq. apply flt_irrefl.
Qed.

(** What the code relies on of the compiled graphs: their output shapes.  The
    network has one output per action. *)
Class QNetLaws (Net : Type) (actions : nat) {Q : QNet Net} : Prop := {
  forward_shape : forall net s, length (tensorToFloat64Sched (net_forward net s)) = actions;
  targetQ_shape : forall net states, length (tensorToFloat64Sched (net_targetQ net states (net_bestActions net states))) = length states;
  batchQ_shape : forall net states a, length a = length states -> length (tensorToFloat64Sched (net_batchQ net states a)) = length states;
}.

Lemma Observe_total (rn : RunningNormalizer float) x size :
  rn_size rn = size -> length (rn_mean rn) = Z.to_nat size -> length (rn_m2 rn) = Z.to_nat size ->
  exists rn', Observe rn x = Ok rn' /\ rn_size rn' = size /\ length (rn_mean rn') = Z.to_nat size /\ length (rn_m2 rn') = Z.to_nat size.
Proof.
  intros Hs Hm H2. unfold Observe. case_decide as Hl; [by exists rn|].
  destruct (welford_all_lookup (num_of_int (i64 (rn_count rn + 1))) x (rn_mean rn) (rn_m2 rn)) as (ms & ss & -> & H1' & H2' & _); [lia..|].
  rewrite Ok_bind. eexists. split; [done|]. cbn [rn_size rn_mean rn_m2]. split; [done|]. lia.
Qed.

Section totals.
Context {M : MathLib} {Net : Type} {Q : QNet Net}.

Lemma per_Sample_total rnd b n beta :
  per_ok b -> 0 <= n -> exists batch idxs ws, per_Sample rnd b n beta = Ok (batch, idxs, ws) /\ length idxs = length batch.
Proof.
  intros Hb Hn. destruct (decide (per_size b = 0)) as [Hz|Hz].
  - unfold per_Sample. rewrite decide_True by done. by do 3 eexists.
  - destruct (per_Sample_spec rnd b n beta Hb) as (batch & idxs & ws & Hs & _ & Hl & _); [destruct Hb; lia|done|]. eauto 10.
Qed.

Lemma sample_slots_total draw slots i dst :
  (forall k, 0 <= draw k < Z.of_nat (length slots)) -> exists batch, sample_slots draw slots i dst = Ok batch.
Proof.
  intros Hd. revert i. induction dst as [|t dst IH]; intros i; cbn [sample_slots]; [by eexists|].
  specialize (Hd i) as Hi. destruct (lookup_lt_is_Some_2 slots (Z.to_nat (draw i))) as [x Hx]; [lia|].
  replace (index slots (Z.to_nat (draw i))) with (Ok x) by (unfold index; by rewrite Hx). rewrite Ok_bind.
  destruct (IH (i + 1)%nat) as (rest & ->). by eexists.
Qed.

Definition buffer_ok (rb : ReplayBuffer) : Prop :=
  0 < rb_capacity rb /\ length (rb_slots rb) = Z.to_nat (rb_capacity rb) /\ 0 <= rb_writeIdx rb.

Lemma rb_Len_range rb : buffer_ok rb -> 0 <= rb_Len rb <= rb_capacity rb.
Proof. intros (Hc & _ & Hw). unfold rb_Len. destruct (Z.leb_spec (rb_capacity rb) (rb_writeIdx rb)); lia. Qed.

Lemma replay_Sample_total pick rb n :
  buffer_ok rb -> 0 <= n -> (forall m i, 0 < m -> 0 <= pick m i < m) -> exists batch, replay_Sample (pick (rb_Len rb)) rb n = Ok batch.
Proof.
  intros Hrb Hn Hpick. pose proof (rb_Len_range rb Hrb) as Hlen. unfold replay_Sample, SampleInto. case_decide as Hz; [by eexists|].
  rewrite (proj2 (Z.ltb_ge _ 0)) by (destruct (Z.ltb_spec (rb_Len rb) n); lia). destruct Hrb as (Hc & Hsl & Hw).
  match goal with |- context [sample_slots ?dr ?sl ?i ?dst] => destruct (sample_slots_total dr sl i dst) as (batch & ->) end.
  { intros i. specialize (Hpick (rb_Len rb) i ltac:(lia)). lia. }
  rewrite Ok_bind. by eexists.
Qed.

Lemma replay_Push_total rb t k :
  buffer_ok rb -> rb_writeIdx rb <= k -> k + 1 < 2 ^ 63 ->
  exists rb', replay_Push rb t = Ok rb' /\ buffer_ok rb' /\ rb_writeIdx rb' <= k + 1.
Proof.
  intros (Hc & Hsl & Hw) Hk Hb. unfold replay_Push, rb_reserve, rb_store. cbn [rb_capacity rb_slots rb_writeIdx].
  rewrite decide_False by lia. rewrite (i64_small (_ + 1)) by (unfold in_i64; lia).
  rewrite Z.add_simpl_r, i64_small, Z.rem_mod_nonneg by (unfold in_i64; lia).
  pose proof (Z.mod_pos_bound (rb_writeIdx rb) (rb_capacity rb) Hc). rewrite (proj2 (Z.ltb_ge _ 0)) by lia.
  rewrite store_Ok, Ok_bind by lia. eexists. split; [done|]. unfold buffer_ok. cbn [rb_capacity rb_slots rb_writeIdx].
  rewrite length_insert. split_and!; lia.
Qed.

Lemma td_targets_total gamma batch nextQ :
  length nextQ = length batch -> exists ts, td_targets gamma batch nextQ = Ok ts /\ length ts = length batch.
Proof.
  revert nextQ. induction batch as [|t batch IH]; intros nextQ Hl; cbn [td_targets]; [by exists []|].
  destruct nextQ as [|q nextQ]; [done|]. destruct (IH nextQ) as (ts & -> & Hts); [cbn in Hl; lia|]. rewrite Ok_bind.
  eexists. split; [done|]. cbn. lia.
Qed.

Lemma update_priorities_total idxs ts qs b :
  per_ok b -> (length idxs <= length ts)%nat -> (length idxs <= length qs)%nat ->
  exists b', update_priorities idxs ts qs b = Ok b' /\ per_ok b' /\ per_writeIdx b' = per_writeIdx b.
Proof.
  revert ts qs b. induction idxs as [|i idxs IH]; intros ts qs b Hb H1 H2; cbn [update_priorities]; [by exists b|].
  destruct ts as [|t ts]; [cbn in H1; lia|]. destruct qs as [|q qs]; [cbn in H2; lia|].
  destruct (UpdatePriority_ok b i (t - q)%float Hb) as [Hb' _].
  destruct (IH ts qs _ Hb') as (b' & -> & Hok & Hw); [cbn in *; lia..|]. exists b'. split; [done|]. split; [done|]. rewrite Hw.
  unfold UpdatePriority. by destruct (_ || _).
Qed.

Lemma tn_Step_total (tn : TargetNetwork Net) : 0 < tn_syncEvery tn -> exists tn', tn_Step net_soft tn = Ok tn' /\ 0 < tn_syncEvery tn'.
Proof. intros H. unfold tn_Step. cbn [tn_syncEvery]. rewrite decide_False by lia. destruct (_ =? _); by eexists. Qed.

Lemma learn_total {actions : nat} {QL : QNetLaws Net actions} gamma size batch idxs ws (tn : TargetNetwork Net) rep :
  per_ok rep -> (length idxs <= length batch)%nat -> 0 < tn_syncEvery tn ->
  exists tn' rep' loss, learn gamma size batch idxs ws tn rep = Ok (tn', rep', loss) /\
    per_ok rep' /\ per_writeIdx rep' = per_writeIdx rep /\ 0 < tn_syncEvery tn'.
Proof.
  intros Hrep Hidx Htn. unfold learn.
  destruct (td_targets_total gamma batch (tensorToFloat64Sched (net_targetQ (tn_ctx tn) (batch_next size batch)
    (net_bestActions (tn_ctx tn) (batch_next size batch))))) as (ts & -> & Hts).
  { rewrite targetQ_shape. unfold batch_next. apply length_fmap. }
  rewrite Ok_bind.
  destruct (update_priorities_total idxs ts (tensorToFloat64Sched (net_batchQ (tn_ctx tn) (batch_states size batch) (batch_actions batch))) rep)
    as (rep' & -> & Hrep' & Hw); [done|lia| |].
  { rewrite batchQ_shape; unfold batch_states, batch_actions; by rewrite !length_fmap. }
  rewrite Ok_bind. destruct (net_train _ _ _ _ _) as [net loss].
  match goal with |- context [tn_Step net_soft ?t] => destruct (tn_Step_total t) as (tn' & -> & Htn'); [exact Htn|] end.
  rewrite Ok_bind. by exists tn', rep', (default 0%float (head (tensorToFloat64Sched loss))).
Qed.
End totals.
