(* ===== verification/DuelNet.v ===== *)
(** * The Q network (src/pkg/balancer/dqn.go, src/pkg/scheduler/dqn.go)

    The graphs that both learning policies build with GoMLX, line by line: the
    duelling network, the selection of the values of given actions, the loss and the
    gradient step, and the target network's copy.  A graph is the function from the
    variables and the inputs to its output; the operations of the library are the
    parameters [GraphOps] and [GraphTrain], with the shapes of their results and,
    where a theorem needs them, their values as laws.  From these the file derives
    what QNet's clients rely on, so that it is an implementation of [QNet]. *)

From Stdlib Require Import Field QArith.QArith_base QArith.Qcanon.
From stdpp Require Import pretty.
From S2P Require Import Prelude GoFloat NN NNProps TargetNet QNet.

(** ** Operations on nodes

    A matrix is the list of its rows.  [Vars] holds the variables; a layer reads
    those of its scope, the path of the names given to In. *)

Class GraphOps (Vars A : Type) : Type := {
  layers_Dense : Vars -> list string -> list (list A) -> Z -> list (list A);
  activations_Relu : list (list A) -> list (list A);
  g_Tanh : list (list A) -> list (list A);
  g_Add : list (list A) -> list (list A) -> list (list A);
  g_Sub : list (list A) -> list (list A) -> list (list A);
  g_Mul : list (list A) -> list (list A) -> list (list A);
  ReduceMean : list (list A) -> list A;
  ReduceSum : list (list A) -> list A;
  ExpandDims : list A -> list (list A);
  InsertAxes : list A -> list (list A);
  Reshape : list (list A) -> Z -> list A;
  g_Squeeze : list (list A) -> list A;
  g_Concatenate : list (list A) -> list (list A) -> list (list A);
  OneHot : list Z -> Z -> list (list A);
  ConvertDType : list A -> list Z;
  ArgMax : list (list A) -> list Z;
}.

(** A matrix of [r] rows of [c] entries. *)
Definition shape {A} (m : list (list A)) (r c : nat) : Prop := length m = r /\ Forall (fun row => length row = c) m.

(** The shapes of the results; an axis of length 1 is repeated. *)
Class GraphShapes {Vars A : Type} (O : GraphOps Vars A) : Prop := {
  Dense_shape vars path x n : shape (layers_Dense vars path x n) (length x) (Z.to_nat n);
  Relu_shape x r c : shape x r c -> shape (activations_Relu x) r c;
  Tanh_shape x r c : shape x r c -> shape (g_Tanh x) r c;
  Add_shape x y r c : shape x r 1 -> shape y r c -> shape (g_Add x y) r c;
  Sub_shape x y r c : shape x r c -> shape y r 1 -> shape (g_Sub x y) r c;
  Mul_shape x y r c : shape x r c -> shape y r c -> shape (g_Mul x y) r c;
  ReduceMean_length x : length (ReduceMean x) = length x;
  ReduceSum_length x : length (ReduceSum x) = length x;
  ExpandDims_shape l : shape (ExpandDims l) (length l) 1;
  InsertAxes_shape l : shape (InsertAxes l) 1 (length l);
  Reshape_length x n : shape x 1 (Z.to_nat n) -> length (Reshape x n) = Z.to_nat n;
  Concatenate_shape x y r c c' : shape x r c -> shape y r c' -> shape (g_Concatenate x y) r (c + c');
  Squeeze_length x r : shape x r 1 -> length (g_Squeeze x) = r;
  OneHot_shape idx n : shape (OneHot idx n) (length idx) (Z.to_nat n);
  ConvertDType_length l : length (ConvertDType l) = length l;
  ArgMax_length x : length (ArgMax x) = length x;
}.

(** ** The graphs *)

Section graph.
Context {Vars A : Type} {O : GraphOps Vars A}.
(** hiddenSize, and numPartitions or numActions. *)
Context (hiddenSize actions : Z).

Definition features (vars : Vars) (x : list (list A)) : list (list A) :=
  let h := layers_Dense vars ["feature1"] x hiddenSize in
  let h := activations_Relu h in
  let h := layers_Dense vars ["feature2"] h (Z.quot hiddenSize 2) in
  activations_Relu h.
Definition value_stream (vars : Vars) (h : list (list A)) : list (list A) :=
  let vStream := layers_Dense vars ["value_hidden"] h (Z.quot hiddenSize 4) in
  let vStream := activations_Relu vStream in
  layers_Dense vars ["value_out"] vStream 1.
Definition advantage_stream (vars : Vars) (h : list (list A)) : list (list A) :=
  let aStream := layers_Dense vars ["adv_hidden"] h (Z.quot hiddenSize 4) in
  let aStream := activations_Relu aStream in
  layers_Dense vars ["adv_out"] aStream actions.

Definition qNetworkBatch (vars : Vars) (x : list (list A)) : list (list A) :=
  let h := features vars x in
  let v := value_stream vars h in
  let a := advantage_stream vars h in
  let aMean := ReduceMean a in
  let aMean := ExpandDims aMean in
  g_Add v (g_Sub a aMean).

Definition qNetworkGraph (vars : Vars) (state : list A) : list A :=
  let x := InsertAxes state in
  let q := qNetworkBatch vars x in
  Reshape q actions.

(** The greedy action of every row. *)
Definition best_actions (vars : Vars) (states : list (list A)) : list Z := ArgMax (qNetworkBatch vars states).

(** The value of the given action of every row: targetQForActionsExec and
    batchQExec, and in the loss. *)
Definition q_selected (vars : Vars) (states : list (list A)) (actionIdx : list Z) : list A :=
  let qAll := qNetworkBatch vars states in
  let oneHot := OneHot actionIdx actions in
  ReduceSum (g_Mul qAll oneHot).

(** The layers with the sizes of their inputs and outputs. *)
Definition q_layers (stateSize : Z) : list (list string * Z * Z) :=
  [(["feature1"], stateSize, hiddenSize); (["feature2"], hiddenSize, Z.quot hiddenSize 2);
   (["value_hidden"], Z.quot hiddenSize 2, Z.quot hiddenSize 4); (["value_out"], Z.quot hiddenSize 4, 1);
   (["adv_hidden"], Z.quot hiddenSize 2, Z.quot hiddenSize 4); (["adv_out"], Z.quot hiddenSize 4, actions)]%string.

(** *** Their shapes *)

Context {S : GraphShapes O}.

Lemma dense_relu_length vars path x n : length (activations_Relu (layers_Dense vars path x n)) = length x.
Proof. apply (Relu_shape _ (length x) (Z.to_nat n)), Dense_shape. Qed.

Lemma features_length vars x : length (features vars x) = length x.
Proof. unfold features. by rewrite !dense_relu_length. Qed.

Lemma value_shape vars h : shape (value_stream vars h) (length h) 1.
Proof. unfold value_stream. rewrite <- (dense_relu_length vars ["value_hidden"] h (Z.quot hiddenSize 4)). apply (Dense_shape _ _ _ 1). Qed.
Lemma advantage_shape vars h : shape (advantage_stream vars h) (length h) (Z.to_nat actions).
Proof. unfold advantage_stream. rewrite <- (dense_relu_length vars ["adv_hidden"] h (Z.quot hiddenSize 4)). apply Dense_shape. Qed.

Lemma qNetworkBatch_shape vars x : shape (qNetworkBatch vars x) (length x) (Z.to_nat actions).
Proof.
  unfold qNetworkBatch. rewrite <- (features_length vars x). set (h := features vars x).
  apply Add_shape; [apply value_shape|]. apply Sub_shape; [apply advantage_shape|].
  rewrite <- (proj1 (advantage_shape vars h)), <- ReduceMean_length. apply ExpandDims_shape.
Qed.

Lemma qNetworkGraph_length vars state : length (qNetworkGraph vars state) = Z.to_nat actions.
Proof.
  apply Reshape_length. pose proof (qNetworkBatch_shape vars (InsertAxes state)) as H. by rewrite (proj1 (InsertAxes_shape state)) in H.
Qed.

Lemma q_selected_length vars states idx : length idx = length states -> length (q_selected vars states idx) = length states.
Proof.
  intros Hi. unfold q_selected. rewrite ReduceSum_length. apply (Mul_shape _ _ _ (Z.to_nat actions)); [apply qNetworkBatch_shape|].
  rewrite <- Hi. apply OneHot_shape.
Qed.
End graph.

(** ** Values, in exact arithmetic *)

Definition num_sum {A} {N : Num A} (l : list A) : A := foldr num_add num_zero l.
Definition one_hot_row {A} {N : Num A} (n : nat) (i : Z) : list A := (fun j => if decide (Z.of_nat j = i) then num_one else num_zero) <$> seq 0 n.

(** Elementwise operations, a column repeated along the rows; means and sums along
    the last axis. *)
Class GraphValues {Vars A : Type} {N : Num A} (O : GraphOps Vars A) : Prop := {
  ExpandDims_value l : ExpandDims l = (fun x => [x]) <$> l;
  Add_value (vs : list A) y : length vs = length y -> g_Add ((fun v => [v]) <$> vs) y = zip_with (fun v row => num_add v <$> row) vs y;
  Sub_value x (ms : list A) : length ms = length x -> g_Sub x ((fun m => [m]) <$> ms) = zip_with (fun row m => (fun a => num_sub a m) <$> row) x ms;
  Mul_value x y r c : shape x r c -> shape y r c -> g_Mul x y = zip_with (zip_with num_mul) x y;
  ReduceMean_value x : ReduceMean x = (fun row : list A => num_div (num_sum row) (num_of_int (Z.of_nat (length row)))) <$> x;
  ReduceSum_value x : ReduceSum x = num_sum <$> x;
  OneHot_value idx n : OneHot idx n = one_hot_row (Z.to_nat n) <$> idx;
}.

(** A matrix with one column is a column. *)
Lemma shape_column {A} (m : list (list A)) r : shape m r 1 -> exists vs, m = (fun v => [v]) <$> vs /\ length vs = r.
Proof.
  intros [<- HF]. induction HF as [|row m Hrow _ (vs & -> & Hl)]; [by exists []|]. destruct row as [|v [|]]; try done.
  exists (v :: vs). split; [done|]. cbn. by rewrite length_fmap.
Qed.

Lemma num_sum_Qc (l : list Qc) : num_sum l = Qcsum l.
Proof. unfold num_sum. induction l as [|x l IH]; [done|]. cbn [foldr Qcsum]. by rewrite IH. Qed.

Lemma Qcsum_shift (m : Qc) row : Qcsum ((fun a => a - m)%Qc <$> row) = (Qcsum row - m * Qcnat (length row))%Qc.
Proof.
  induction row as [|x row IH]; [cbn [fmap list_fmap Qcsum length]; rewrite Qcnat_0; ring|]. rewrite fmap_cons. cbn [Qcsum length]. rewrite IH, Qcnat_S. ring.
Qed.

(** A row of what the network computes: the value plus the centred advantages. *)
Definition duel_row (v : Qc) (adv : list Qc) : list Qc := (fun a => (v + (a - NNProps.average adv))%Qc) <$> adv.

(** The mean of the row is the value. *)
Lemma duel_row_mean v adv : adv <> [] -> NNProps.average (duel_row v adv) = v.
Proof.
  intros Hne. assert (Hn : Qcnat (length adv) <> 0%Qc) by (apply Qcnat_nonzero; destruct adv; [done|cbn; lia]).
  unfold duel_row. replace ((fun a => (v + (a - NNProps.average adv))%Qc) <$> adv) with ((fun a => (a - (NNProps.average adv - v))%Qc) <$> adv).
  - unfold NNProps.average at 1. rewrite Qcsum_shift, length_fmap. unfold NNProps.average. field. exact Hn.
  - apply list_fmap_ext. intros i x _. cbn beta. ring.
Qed.

Section exact.
Context {Vars : Type} {O : GraphOps Vars Qc} {S : GraphShapes O} {V : GraphValues O}.
Context (hiddenSize actions : Z).

(** Value and advantages of the rows, and what the network makes of them. *)
Lemma qNetworkBatch_rows vars x :
  exists vs, value_stream hiddenSize vars (features hiddenSize vars x) = (fun v => [v]) <$> vs /\ length vs = length x /\
    qNetworkBatch hiddenSize actions vars x = zip_with duel_row vs (advantage_stream hiddenSize actions vars (features hiddenSize vars x)).
Proof.
  unfold qNetworkBatch. cbv zeta. set (h := features hiddenSize vars x). destruct (shape_column _ _ (value_shape hiddenSize vars h)) as (vs & Hv & Hl).
  pose proof (advantage_shape hiddenSize actions vars h) as [Ha _]. exists vs. split; [done|]. rewrite Hl. split; [apply (features_length hiddenSize)|].
  rewrite Hv, ExpandDims_value, Sub_value by (by rewrite ReduceMean_length). rewrite ReduceMean_value. set (a := advantage_stream _ _ _ _) in *.
  rewrite Add_value by (rewrite length_zip_with, length_fmap; lia). rewrite <- Ha in Hl. clearbody a. clear -Hl.
  revert a Hl. induction vs as [|v vs IH]; intros [|row a] Hl; try done. cbn [fmap list_fmap zip_with]. f_equal; [|apply IH; by injection Hl].
  rewrite num_sum_Qc, <- list_fmap_compose. done.
Qed.

Lemma one_hot_sum_below i (q : list Qc) : forall k n,
  length q = n -> i < Z.of_nat k -> Qcsum (zip_with Qcmult q ((fun j => if decide (Z.of_nat j = i) then 1%Qc else 0%Qc) <$> seq k n)) = 0%Qc.
Proof.
  induction q as [|x q IH]; intros k [|n] Hl Hi; try done. rewrite <- cons_seq, fmap_cons. cbn [zip_with Qcsum].
  rewrite decide_False, IH by (cbn in Hl; lia). ring.
Qed.
Lemma one_hot_sum i (q : list Qc) : forall k n,
  length q = n -> Z.of_nat k <= i < Z.of_nat (k + n) ->
  Some (Qcsum (zip_with Qcmult q ((fun j => if decide (Z.of_nat j = i) then 1%Qc else 0%Qc) <$> seq k n))) = q !! Z.to_nat (i - Z.of_nat k).
Proof.
  induction q as [|x q IH]; intros k [|n] Hl Hi; cbn in Hl; try lia. rewrite <- cons_seq, fmap_cons. cbn [zip_with Qcsum]. case_decide as Hd.
  - rewrite one_hot_sum_below by lia. replace (Z.to_nat (i - Z.of_nat k)) with 0%nat by lia. cbn. f_equal. ring.
  - replace (Z.to_nat (i - Z.of_nat k)) with (Datatypes.S (Z.to_nat (i - Z.of_nat (Datatypes.S k)))) by lia.
    etrans; [|exact (IH (Datatypes.S k) n ltac:(lia) ltac:(lia))]. f_equal. ring.
Qed.

(** Selecting by one-hot vectors gives the value of the action of each row. *)
Lemma q_selected_value vars states idx i row a :
  length idx = length states -> qNetworkBatch hiddenSize actions vars states !! i = Some row -> idx !! i = Some a -> 0 <= a < actions ->
  q_selected hiddenSize actions vars states idx !! i = row !! Z.to_nat a.
Proof.
  intros Hl Hrow Hi Ha. unfold q_selected. pose proof (qNetworkBatch_shape hiddenSize actions vars states) as Hs. rewrite ReduceSum_value.
  rewrite (Mul_value _ _ (length states) (Z.to_nat actions)); [|done|rewrite <- Hl; apply OneHot_shape].
  rewrite OneHot_value, list_lookup_fmap, lookup_zip_with, Hrow, list_lookup_fmap, Hi. cbn [fmap option_fmap option_map mbind option_bind].
  rewrite num_sum_Qc. replace (Z.to_nat a) with (Z.to_nat (a - Z.of_nat 0)) by lia. apply (one_hot_sum a row 0 (Z.to_nat actions)); [|lia].
  destruct Hs as [_ Hs]. by apply (Forall_lookup_1 _ _ _ _ Hs Hrow).
Qed.

(** C32: In exact arithmetic, for every state of a batch: the mean of the action values
    is the output of the value stream, two actions differ by the difference of their
    advantages, so that the greedy action is the one with the greatest advantage,
    and the one-hot selection used for the targets, the priorities and the loss
    yields the value of the chosen action. *)
Theorem duelling_network (vars : Vars) (states : list (list Qc)) (idx : list Z) (i : nat) (a : Z) :
  0 < actions -> length idx = length states -> idx !! i = Some a -> 0 <= a < actions ->
  exists v adv row,
    value_stream hiddenSize vars (features hiddenSize vars states) !! i = Some [v] /\
    advantage_stream hiddenSize actions vars (features hiddenSize vars states) !! i = Some adv /\
    qNetworkBatch hiddenSize actions vars states !! i = Some row /\
    NNProps.average row = v /\
    (forall j k qj qk, row !! j = Some qj -> row !! k = Some qk ->
       exists aj ak, adv !! j = Some aj /\ adv !! k = Some ak /\ (qj - qk = aj - ak)%Qc) /\
    q_selected hiddenSize actions vars states idx !! i = row !! Z.to_nat a.
Proof.
  intros Hpos Hl Hi Ha. destruct (qNetworkBatch_rows vars states) as (vs & Hv & Hlv & Hq).
  pose proof (advantage_shape hiddenSize actions vars (features hiddenSize vars states)) as [Hal HaF]. rewrite (features_length hiddenSize vars states) in Hal.
  assert (Hlt : (i < length states)%nat) by (rewrite <- Hl; by eapply lookup_lt_Some).
  destruct (lookup_lt_is_Some_2 vs i) as [v Hvi]; [lia|]. destruct (lookup_lt_is_Some_2 (advantage_stream hiddenSize actions vars (features hiddenSize vars states)) i) as [adv Hadv]; [lia|].
  assert (Hrow : qNetworkBatch hiddenSize actions vars states !! i = Some (duel_row v adv)) by (by rewrite Hq, lookup_zip_with, Hvi, Hadv).
  exists v, adv, (duel_row v adv). split; [by rewrite Hv, list_lookup_fmap, Hvi|]. split; [done|]. split; [done|]. split; [|split].
  - apply duel_row_mean. intros ->. pose proof (Forall_lookup_1 _ _ _ _ HaF Hadv) as Hz. cbn in Hz. lia.
  - intros j k qj qk. unfold duel_row. rewrite !list_lookup_fmap. intros (aj & -> & ->)%fmap_Some (ak & -> & ->)%fmap_Some.
    exists aj, ak. split; [done|]. split; [done|]. ring.
  - by apply q_selected_value.
Qed.
End exact.

(** ** Training

    The loss is a function of the variables, and [gradients] differentiates it with
    respect to those that are selected.  [layer_vars]: the variables a dense layer
    creates on a new context, with their initial values. *)

Class GraphTrain : Type := {
  huber_loss : float -> list float -> list float -> list float -> float;
  InUseByGraph : list (list string) -> CtxVariable -> bool;
  gradients : (GContext -> float) -> GContext -> (CtxVariable -> bool) -> list FlatData;
  node_Mul : float -> FlatData -> FlatData;
  node_Sub : FlatData -> FlatData -> FlatData;
  layer_vars : list string -> Z -> Z -> GContext;
}.

(** A gradient has the shape of its variable; a layer's variables are trainable and
    initialised, and their names tell the layers apart. *)
Class GraphTrainLaws (T : GraphTrain) : Prop := {
  gradients_shape loss c p :
    Forall2 (fun v g => forall w, v_Value v = Some w -> same_shape w g) (filter (fun v => p v = true) c) (gradients loss c p);
  node_Mul_shape lr w g : same_shape w g -> same_shape w (node_Mul lr g);
  node_Sub_shape w g : same_shape w g -> same_shape (node_Sub w g) w;
  layer_vars_ready path i o : Forall (fun v => v_Trainable v = true /\ is_Some (v_Value v)) (layer_vars path i o);
  layer_vars_names path i o : NoDup (v_ScopeAndName <$> layer_vars path i o);
  layer_vars_apart path i o path' i' o' n :
    path <> path' -> n ∈ v_ScopeAndName <$> layer_vars path i o -> n ∈ v_ScopeAndName <$> layer_vars path' i' o' -> False;
}.

(** The loop over the variables of a context that takes the next gradient for each
    variable selected; [idx] counts those. *)
Fixpoint descend_with {V D : Type} (update : V -> D -> result V) (selected : V -> bool) (grads : list D) (vs : list V) : result (list V) :=
  match vs with
  | [] => Ok []
  | v :: vs =>
      if selected v then
        match grads with
        | [] => Panic
        | g :: grads => v ← update v g; rest ← descend_with update selected grads vs; Ok (v :: rest)
        end
      else rest ← descend_with update selected grads vs; Ok (v :: rest)
  end.

(** With a gradient that fits each selected variable the loop returns. *)
Lemma descend_with_ok {V D : Type} (update : V -> D -> result V) (selected : V -> bool) (fits : V -> D -> Prop) (P : V -> V -> Prop) :
  (forall v, P v v) -> (forall v g, selected v = true -> fits v g -> exists v', update v g = Ok v' /\ P v v') ->
  forall vs grads, Forall2 fits (filter (fun v => selected v = true) vs) grads ->
  exists vs', descend_with update selected grads vs = Ok vs' /\ Forall2 P vs vs'.
Proof.
  intros HP Hu. induction vs as [|v vs IH]; intros grads HF; cbn [descend_with]; [exists []; split; [done|constructor]|].
  rewrite filter_cons in HF. case_decide as Hs.
  - rewrite Hs. apply Forall2_cons_inv_l in HF as (g & grads' & Hg & HF & ->). destruct (Hu v g Hs Hg) as (v' & -> & Hv). rewrite Ok_bind.
    destruct (IH grads' HF) as (vs' & -> & Hvs). rewrite Ok_bind. eexists. split; [done|]. by constructor.
  - rewrite (not_true_is_false _ Hs). destruct (IH grads HF) as (vs' & -> & Hvs). rewrite Ok_bind. eexists. split; [done|]. by constructor.
Qed.

(** [w - lr*grads[idx]] for the variables that are trainable and used. *)
Definition set_data (lr : float) {T : GraphTrain} (v : CtxVariable) (g : FlatData) : result CtxVariable :=
  w ← must (v_Value v); Ok (mkVariable (v_ScopeAndName v) (v_Trainable v) (Some (node_Sub w (node_Mul lr g)))).
Definition descend {T : GraphTrain} (lr : float) (used : CtxVariable -> bool) : list FlatData -> GContext -> result GContext :=
  descend_with (set_data lr) (fun v => v_Trainable v && used v).

Section training.
Context {O : GraphOps GContext float} {T : GraphTrain} {C : GoMLXClone}.
Context (hiddenSize actions : Z) (lr huberDelta : float).

(** The scopes of the layers. *)
Definition q_paths : list (list string) := (fun l => l.1.1) <$> q_layers hiddenSize actions 0.

(** trainExec: the loss, and the variables after the step. *)
Definition train_graph (c : GContext) (states : list (list float)) (targetQ : list float) (actionIdx : list Z) (isWeights : list float)
    : result (GContext * float) :=
  let loss (c : GContext) : float := huber_loss huberDelta targetQ isWeights (q_selected hiddenSize actions c states actionIdx) in
  let grads := gradients loss c (fun v => v_Trainable v && InUseByGraph q_paths v) in
  c' ← descend lr (InUseByGraph q_paths) grads c;
  Ok (c', loss c).

(** The indices of a tensor that is converted to Int32. *)
Definition action_index (t : TensorValue) : list Z :=
  match t with
  | Ints32 l => l
  | Floats64 l | Floats32 l => ConvertDType (Vars := GContext) l
  | Float64 x | Float32 x => ConvertDType (Vars := GContext) [x]
  | OtherValue => []
  end.

(** A panic of the gradient step would leave the variables alone. *)
Definition train_weights (c : GContext) (states : list (list float)) (targetQ actionIdx isWeights : list float) : GContext * TensorValue :=
  match train_graph c states targetQ (action_index (Floats64 actionIdx)) isWeights with
  | Ok (c', loss) => (c', Float64 loss)
  | _ => (c, OtherValue)
  end.

Definition forward (c : GContext) (state : list float) : list float := tensorToFloat64Sched (Floats64 (qNetworkGraph hiddenSize actions c state)).

(** The compiled graphs of the code: bestActions, batchQ and training on the main
    network, targetQForActions on the copy. *)
#[local] Instance graph_net : QNet NetContexts := {|
  net_forward := fun n s => Floats64 (qNetworkGraph hiddenSize actions (nc_main n) s);
  net_bestActions := fun n states => Ints32 (best_actions hiddenSize actions (nc_main n) states);
  net_targetQ := fun n states a => Floats64 (q_selected hiddenSize actions (nc_target n) states (action_index a));
  net_batchQ := fun n states a => Floats64 (q_selected hiddenSize actions (nc_main n) states (action_index (Floats64 a)));
  net_train := fun n states targets a ws => let '(main, loss) := train_weights (nc_main n) states targets a ws in (mkContexts main (nc_target n), loss);
  net_soft := soft_weights;
|}.

(** The dummy pass creates the variables, the target network copies them. *)
Definition initGoMLX (stateSize : Z) : result (TargetNetwork NetContexts) :=
  let ctx := concat ((fun '(path, i, o) => layer_vars path i o) <$> q_layers hiddenSize actions stateSize) in
  NewTargetNetwork ctx [].

(** *** The laws QNet asks for *)

#[local] Instance graph_net_laws {S : GraphShapes O} : QNetLaws NetContexts (Z.to_nat actions).
Proof.
  split.
  - intros net s. apply (qNetworkGraph_length hiddenSize actions).
  - intros net states. apply (q_selected_length hiddenSize actions). cbn. unfold best_actions. rewrite ArgMax_length.
    apply (qNetworkBatch_shape hiddenSize actions).
  - intros net states a Ha. apply (q_selected_length hiddenSize actions). cbn. by rewrite (ConvertDType_length (O := O)).
Qed.

(** *** Training keeps the shapes *)

Context {TL : GraphTrainLaws T}.

Lemma same_shape_refl a : same_shape a a.
Proof. by destruct a. Qed.
Lemma reshapes_refl v : reshapes v v.
Proof. split; [done|]. split; [done|]. destruct (v_Value v); [apply same_shape_refl|done]. Qed.

Definition initialised (c : GContext) : Prop := Forall (fun v => v_Trainable v = true -> is_Some (v_Value v)) c.

Lemma reshapes_initialised c c' : initialised c -> Forall2 reshapes c c' -> initialised c'.
Proof.
  unfold initialised. intros Hi HF. induction HF as [|v v' c c' (_ & Ht & Hs) _ IH]; [constructor|]. apply list.Forall_cons in Hi as [Hv Hi].
  apply list.Forall_cons. split; [|by apply IH]. rewrite Ht. intros H%Hv. destruct (v_Value v'), (v_Value v); try done.
Qed.

Lemma descend_ok used c grads :
  initialised c -> Forall2 (fun v g => forall w, v_Value v = Some w -> same_shape w g) (filter (fun v => v_Trainable v && used v = true) c) grads ->
  exists c', descend lr used grads c = Ok c' /\ Forall2 reshapes c c' /\ initialised c'.
Proof.
  intros Hi HF. destruct (descend_with_ok (set_data lr) (fun v => v_Trainable v && used v)
    (fun v g => is_Some (v_Value v) /\ forall w, v_Value v = Some w -> same_shape w g) reshapes reshapes_refl) with (vs := c) (grads := grads) as (c' & Hd & Hc).
  - intros v g _ [[w Hw] Hg]. unfold set_data. rewrite Hw. cbn [must]. rewrite Ok_bind. eexists. split; [done|]. split; [done|]. split; [done|].
    cbn. rewrite Hw. by apply node_Sub_shape, node_Mul_shape, Hg.
  - clear -Hi HF. remember (filter _ c) as l eqn:El. assert (Hl : Forall (fun v => is_Some (v_Value v)) l).
    { apply list.Forall_forall. intros v Hv. rewrite El in Hv. apply list_elem_of_filter in Hv as [[Ht _]%andb_true_iff Hv].
      by apply (proj1 (list.Forall_forall _ _) Hi v). }
    clear El. induction HF as [|v g l grads Hg _ IH]; [constructor|]. apply list.Forall_cons in Hl as [? ?]. constructor; [by split|by apply IH].
  - exists c'. split; [done|]. split; [done|]. by eapply reshapes_initialised.
Qed.

(** The step returns, and changes data only. *)
Lemma train_graph_ok c states targets idx ws :
  initialised c -> exists c' loss, train_graph c states targets idx ws = Ok (c', loss) /\ Forall2 reshapes c c' /\ initialised c'.
Proof.
  intros Hi. unfold train_graph. destruct (descend_ok (InUseByGraph q_paths) c
    (gradients (fun c => huber_loss huberDelta targets ws (q_selected hiddenSize actions c states idx)) c (fun v => v_Trainable v && InUseByGraph q_paths v)))
    as (c' & -> & Hc & Hi'); [done|apply gradients_shape|]. rewrite Ok_bind. by eexists _, _.
Qed.

(** Both networks match, and what is trained has values. *)
Definition net_ok (n : NetContexts) : Prop := contexts_ok n /\ initialised (nc_main n).

(** A batch with the indices and weights it was sampled with. *)
Record train_input : Type := mkTrainInput { tn_batch : list Transition; tn_indices : list Z; tn_isWeights : list float }.
Fixpoint train_many (gamma : float) (size : nat) (ins : list train_input) (tn : TargetNetwork NetContexts) (replay : PrioritizedReplayBuffer)
    : result (TargetNetwork NetContexts * PrioritizedReplayBuffer) :=
  match ins with
  | [] => Ok (tn, replay)
  | i :: ins =>
      '(tn, replay, _) ← learn gamma size (tn_batch i) (tn_indices i) (tn_isWeights i) tn replay;
      train_many gamma size ins tn replay
  end.

(** The names and shapes of the main network's variables are those of [c0]. *)
Definition trained_from (c0 : GContext) (n : NetContexts) : Prop := net_ok n /\ Forall2 reshapes c0 (nc_main n).

Lemma reshapes_trans u v w : reshapes u v -> reshapes v w -> reshapes u w.
Proof.
  intros (Hn & Ht & Hs) (Hn' & Ht' & Hs'). split; [congruence|]. split; [congruence|].
  destruct (v_Value u), (v_Value v), (v_Value w); try done. by eapply same_shape_trans.
Qed.
Lemma reshapes_trans_all l1 l2 l3 : Forall2 reshapes l1 l2 -> Forall2 reshapes l2 l3 -> Forall2 reshapes l1 l3.
Proof. intros H. revert l3. induction H as [|u v l1 l2 Huv _ IH]; intros l3 H3; inversion H3; subst; constructor; eauto using reshapes_trans. Qed.

(** One call of trainStep's [learn]. *)
Lemma learn_trained {S : GraphShapes O} c0 gamma size i (tn : TargetNetwork NetContexts) replay :
  per_ok replay -> (length (tn_indices i) <= length (tn_batch i))%nat -> 0 < tn_syncEvery tn -> trained_from c0 (tn_ctx tn) ->
  exists tn' replay' loss, learn gamma size (tn_batch i) (tn_indices i) (tn_isWeights i) tn replay = Ok (tn', replay', loss) /\
    per_ok replay' /\ 0 < tn_syncEvery tn' /\ trained_from c0 (tn_ctx tn').
Proof.
  intros Hrep Hidx Hs ((Hc & Hi) & Hr). destruct (learn_total gamma size _ _ (tn_isWeights i) tn replay Hrep Hidx Hs) as (tn' & replay' & loss & Hl & Hrep' & _ & Hs').
  exists tn', replay', loss. split; [done|]. split; [done|]. split; [done|]. revert Hl. unfold learn.
  intros (ts & _ & (rp & _ & Hl)%bind_Ok)%bind_Ok. cbn [net_train graph_net] in Hl. unfold train_weights in Hl.
  destruct (train_graph_ok (nc_main (tn_ctx tn)) (batch_states size (tn_batch i)) ts (action_index (Floats64 (batch_actions (tn_batch i)))) (tn_isWeights i) Hi)
    as (main' & l & Ht & Hm & Hi'). rewrite Ht in Hl. apply bind_Ok in Hl as (tn1 & Hstep & [= <- _ _]).
  destruct (train_step_ok tn main' Hs Hc Hm) as (tn2 & Hstep2 & Hok & Hmain & _). cbn [net_soft graph_net] in Hstep. rewrite Hstep2 in Hstep.
  injection Hstep as <-. split; [split; [done|by rewrite Hmain]|]. rewrite Hmain. by eapply reshapes_trans_all.
Qed.

Lemma train_many_trained {S : GraphShapes O} c0 gamma size ins : forall (tn : TargetNetwork NetContexts) replay,
  per_ok replay -> Forall (fun i => (length (tn_indices i) <= length (tn_batch i))%nat) ins -> 0 < tn_syncEvery tn -> trained_from c0 (tn_ctx tn) ->
  exists tn' replay', train_many gamma size ins tn replay = Ok (tn', replay') /\ trained_from c0 (tn_ctx tn').
Proof.
  induction ins as [|i ins IH]; intros tn replay Hrep Hidx Hs Hc; cbn [train_many]; [by eexists _, _|].
  apply list.Forall_cons in Hidx as [Hi Hidx]. destruct (learn_trained c0 gamma size i tn replay) as (tn1 & rep1 & loss & -> & H1 & H2 & H3); [done..|].
  rewrite Ok_bind. by apply IH.
Qed.

(** *** The initial networks *)

Lemma layers_names (ls : list (list string * Z * Z)) :
  NoDup ((fun l => l.1.1) <$> ls) -> NoDup (v_ScopeAndName <$> concat ((fun '(path, i, o) => layer_vars path i o) <$> ls)).
Proof.
  induction ls as [|[[path i] o] ls IH]; [constructor|]. rewrite !fmap_cons. cbn [concat fst]. intros [Hn Hnd]%list.NoDup_cons.
  rewrite fmap_app. apply list.NoDup_app. split; [apply layer_vars_names|]. split; [|by apply IH].
  intros n Hin (v & -> & Hv)%list_elem_of_fmap. apply list_elem_of_In, in_concat in Hv as (vs & Hvs & Hv).
  apply list_elem_of_In, list_elem_of_fmap in Hvs as ([[path' i'] o'] & -> & Hl). apply list_elem_of_In in Hv.
  apply (layer_vars_apart path i o path' i' o' (v_ScopeAndName v)); [|done|by apply list_elem_of_fmap_2].
  intros <-. apply Hn. by apply (list_elem_of_fmap_2 (fun l => l.1.1)) in Hl.
Qed.

Lemma initial_variables stateSize v :
  v ∈ concat ((fun '(path, i, o) => layer_vars path i o) <$> q_layers hiddenSize actions stateSize) -> v_Trainable v = true /\ is_Some (v_Value v).
Proof.
  intros (vs & Hvs & Hv)%list_elem_of_In%in_concat. apply list_elem_of_In, list_elem_of_fmap in Hvs as ([[path i] o] & -> & _).
  apply list_elem_of_In in Hv. pose proof (layer_vars_ready path i o) as H. rewrite list.Forall_forall in H. by apply H.
Qed.

(** From initGoMLX on, any sequence of training steps returns; the target network
    keeps a copy of each trained variable in its shape, so that no averaging in
    between hit a missing or misshapen copy, and the variables of the main network are
    those of the start with other data. *)
Theorem training_keeps_networks {S : GraphShapes O} {CL : GoMLXCloneLaws C} (stateSize : Z) (gamma : float) (ins : list train_input) (replay : PrioritizedReplayBuffer) :
  per_ok replay -> Forall (fun i => (length (tn_indices i) <= length (tn_batch i))%nat) ins ->
  exists tn0 tn replay',
    initGoMLX stateSize = Ok tn0 /\ train_many gamma (Z.to_nat stateSize) ins tn0 replay = Ok (tn, replay') /\
    contexts_ok (tn_ctx tn) /\ Forall2 reshapes (nc_main (tn_ctx tn0)) (nc_main (tn_ctx tn)) /\
    forall tau, soft_contexts tau (tn_ctx tn) = Ok (net_soft tau (tn_ctx tn)).
Proof.
  intros Hrep Hidx. unfold initGoMLX. set (ctx := concat _). assert (Htr : Forall (fun v => v_Trainable v = true /\ is_Some (v_Value v)) ctx).
  { apply list.Forall_forall, initial_variables. }
  assert (Hall : trainable ctx = ctx). { clear -Htr. unfold trainable. induction Htr as [|v l [Hv _] _ IH]; [done|]. by rewrite filter_cons, decide_True, IH by done. }
  destruct (NewTargetNetwork_start ctx) as (tn0 & H0 & Hmain & Hok & Hsync).
  { rewrite Hall. apply layers_names. apply (bool_decide_eq_true_1 _). vm_compute. reflexivity. }
  destruct (train_many_trained ctx gamma (Z.to_nat stateSize) ins tn0 replay) as (tn & rep' & Hrun & ((Hc & _) & Hr)); [done|done|lia| |].
  { split; [split; [done|]|]; rewrite Hmain.
    - eapply list.Forall_impl; [exact Htr|]. by intros v [_ ?] _.
    - clear. induction ctx; constructor; [apply reshapes_refl|done]. }
  exists tn0, tn, rep'. split; [done|]. split; [done|]. split; [done|]. rewrite Hmain. split; [done|]. intros tau. apply (soft_contexts_ok tau _ Hc).
Qed.
End training.

(** ** A library that keeps the laws *)

Section lists.
Context {Vars A : Type} {N : Num A}.
(** The weights, row by row, and the biases of a layer. *)
Context (layer : Vars -> list string -> list A * list A) (relu tanh : A -> A) (to_int : A -> Z) (best : list A -> Z).

Definition dense_row (wb : list A * list A) (n : nat) (x : list A) : list A :=
  (fun j => num_add (num_sum (imap (fun i xi => num_mul xi (default num_zero (wb.1 !! (i * n + j)%nat))) x)) (default num_zero (wb.2 !! j))) <$> seq 0 n.

Definition list_ops : GraphOps Vars A := {|
  layers_Dense := fun vars path x n => dense_row (layer vars path) (Z.to_nat n) <$> x;
  activations_Relu := fun x => (fun row : list A => relu <$> row) <$> x;
  g_Tanh := fun x => (fun row : list A => tanh <$> row) <$> x;
  g_Add := zip_with (fun xr yr => match xr with [v] => num_add v <$> yr | _ => zip_with num_add xr yr end);
  g_Sub := zip_with (fun xr yr => match yr with [m] => (fun a => num_sub a m) <$> xr | _ => zip_with num_sub xr yr end);
  g_Mul := zip_with (zip_with num_mul);
  ReduceMean := fun x => (fun row : list A => num_div (num_sum row) (num_of_int (Z.of_nat (length row)))) <$> x;
  ReduceSum := fun x => (num_sum : list A -> A) <$> x;
  ExpandDims := fun l => (fun x : A => [x]) <$> l;
  InsertAxes := fun l => [l];
  Reshape := fun x _ => concat x;
  g_Squeeze := fun x => concat x;
  g_Concatenate := zip_with app;
  OneHot := fun idx n => one_hot_row (Z.to_nat n) <$> idx;
  ConvertDType := fun l => to_int <$> l;
  ArgMax := fun x => best <$> x;
|}.

Lemma zip_shape {B C D} (f : list B -> list C -> list D) x y r cx cy c :
  (forall xr yr, length xr = cx -> length yr = cy -> length (f xr yr) = c) -> shape x r cx -> shape y r cy -> shape (zip_with f x y) r c.
Proof.
  intros Hf [<- Hx] [Hl Hy]. split; [rewrite length_zip_with; lia|]. revert y Hl Hy. induction Hx as [|xr x Hxr _ IH]; intros [|yr y] Hl Hy; try done.
  apply list.Forall_cons in Hy as [Hyr Hy]. cbn [zip_with]. apply list.Forall_cons. split; [by apply Hf|]. apply IH; [by injection Hl|done].
Qed.
Lemma fmap_shape {B C} (f : list B -> list C) x r c c' : (forall row, length row = c -> length (f row) = c') -> shape x r c -> shape (f <$> x) r c'.
Proof. intros Hf [<- Hx]. split; [apply length_fmap|]. apply Forall_fmap. eapply list.Forall_impl; [exact Hx|]. intros row. apply Hf. Qed.
Lemma column_total (x : list (list A)) r : shape x r 1 -> length (concat x) = r.
Proof. intros (vs & -> & <-)%shape_column. induction vs; [done|]. cbn. by f_equal. Qed.

Lemma list_ops_shapes : GraphShapes list_ops.
Proof.
  split; cbn.
  - intros vars path x n. split; [apply length_fmap|]. apply Forall_fmap, list.Forall_forall. intros row _. unfold dense_row. cbn. by rewrite length_fmap, length_seq.
  - intros x r c. apply fmap_shape. intros row <-. apply length_fmap.
  - intros x r c. apply fmap_shape. intros row <-. apply length_fmap.
  - intros x y r c. apply zip_shape. intros [|v []] yr Hx Hy; try done. by rewrite length_fmap.
  - intros x y r c. apply zip_shape. intros xr [|m []] Hx Hy; try done. by rewrite length_fmap.
  - intros x y r c. apply zip_shape. intros xr yr Hx Hy. rewrite length_zip_with. lia.
  - intros x. apply length_fmap.
  - intros x. apply length_fmap.
  - intros l. split; [apply length_fmap|]. apply Forall_fmap, list.Forall_forall. done.
  - intros l. by split; [|repeat constructor].
  - intros x n [Hl HF]. destruct x as [|row []]; try done. cbn. rewrite app_nil_r. by apply list.Forall_cons in HF as [? _].
  - intros x y r c c'. apply zip_shape. intros xr yr Hx Hy. rewrite length_app. lia.
  - apply column_total.
  - intros idx n. split; [apply length_fmap|]. apply Forall_fmap, list.Forall_forall. intros i _. unfold one_hot_row. cbn. by rewrite length_fmap, length_seq.
  - intros l. apply length_fmap.
  - intros x. apply length_fmap.
Qed.
Lemma list_ops_values : GraphValues list_ops.
Proof.
  split; cbn; try done.
  - intros vs y _. by rewrite zip_with_fmap_l.
  - intros x ms _. by rewrite zip_with_fmap_r.
Qed.
End lists.

(** The flat data of a variable. *)
Definition flat (d : FlatData) : list float := match d with Flat32 l | Flat64 l => l | FlatOther => [] end.
Definition flat_map2 (f : list float -> list float) (d : FlatData) : FlatData := match d with Flat32 l => Flat32 (f l) | Flat64 l => Flat64 (f l) | FlatOther => FlatOther end.
Definition var_name (kind : string) (path : list string) : string := (kind +:+ pretty (N.pos (encode path)))%string.
Definition var_data (c : GContext) (name : string) : list float :=
  from_option (fun v => from_option flat [] (v_Value v)) [] (List.find (fun v => bool_decide (v_ScopeAndName v = name)) c).

(** Every layer starts at one half; the gradient is the variable itself. *)
Definition list_train : GraphTrain := {|
  huber_loss := fun delta targets ws qs => num_sum (zip_with (fun t q => (t - q) * (t - q))%float targets qs);
  InUseByGraph := fun paths v => bool_decide (v_ScopeAndName v ∈ (var_name "w" <$> paths) ++ (var_name "b" <$> paths));
  gradients := fun _ c p => (fun v => default FlatOther (v_Value v)) <$> filter (fun v => p v = true) c;
  node_Mul := fun lr => flat_map2 (fmap (PrimFloat.mul lr));
  node_Sub := fun w g => match w, g with Flat32 l, Flat32 k => Flat32 (zip_with PrimFloat.sub l k) | Flat64 l, Flat64 k => Flat64 (zip_with PrimFloat.sub l k) | _, _ => w end;
  layer_vars := fun path i o => [mkVariable (var_name "w" path) true (Some (Flat64 (replicate (Z.to_nat (i * o)) 0.5%float)));
                                 mkVariable (var_name "b" path) true (Some (Flat64 (replicate (Z.to_nat o) 0%float)))];
|}.

Lemma var_name_inj kind kind' path path' :
  (kind = "w" \/ kind = "b")%string -> (kind' = "w" \/ kind' = "b")%string -> var_name kind path = var_name kind' path' -> kind = kind' /\ path = path'.
Proof.
  intros Hk Hk' Hn. assert (kind = kind') as <- by (destruct Hk as [-> | ->], Hk' as [-> | ->]; by injection Hn). split; [done|].
  assert (pretty (N.pos (encode path)) = pretty (N.pos (encode path'))) as [=E]%(inj pretty) by (destruct Hk as [-> | ->]; by injection Hn). by apply (inj encode) in E.
Qed.

Lemma list_train_laws : GraphTrainLaws list_train.
Proof.
  split; cbn.
  - intros _ c p. induction (filter _ c) as [|v l IH]; constructor; [|done]. intros w ->. apply same_shape_refl.
  - intros lr [l|l|] [k|k|]; cbn; rewrite ?length_fmap; done.
  - intros [l|l|] [k|k|]; cbn; try done; rewrite length_zip_with; lia.
  - intros path i o. repeat constructor; by eexists.
  - intros path i o. rewrite list.NoDup_cons, list_elem_of_singleton. split; [done|apply list.NoDup_singleton].
  - intros path i o path' i' o' n Hne Hn Hn'. apply Hne. rewrite !elem_of_cons, elem_of_nil in Hn, Hn'.
    destruct Hn as [-> | [-> | []]], Hn' as [E | [E | []]]; apply var_name_inj in E as [_ ?]; eauto.
Qed.

(** ** The properties at a concrete network *)

Definition exact_ops : GraphOps (list string -> list Qc * list Qc) Qc :=
  list_ops (fun f path => f path) (fun x => if Qclt_le_dec x 0 then 0%Qc else x) id (fun _ => 0) (fun _ => 0).
Definition ones (_ : list string) : list Qc * list Qc := (replicate 64 1%Qc, [1; 1 + 1]%Qc).

(** Two states, two actions, of which the second and the first are selected. *)
Lemma duelling_network_witness :
  exists v row q, value_stream (O := exact_ops) 4 ones (features (O := exact_ops) 4 ones [[1%Qc]; [(1 + 1)%Qc]]) !! 0%nat = Some [v] /\
    qNetworkBatch (O := exact_ops) 4 2 ones [[1%Qc]; [(1 + 1)%Qc]] !! 0%nat = Some row /\ NNProps.average row = v /\
    row !! 1%nat = Some q /\ q_selected (O := exact_ops) 4 2 ones [[1%Qc]; [(1 + 1)%Qc]] [1; 0] !! 0%nat = Some q.
Proof.
  destruct (duelling_network (O := exact_ops) (S := list_ops_shapes _ _ _ _ _) (V := list_ops_values _ _ _ _ _) 4 2 ones [[1%Qc]; [(1 + 1)%Qc]] [1; 0] 0 1)
    as (v & adv & row & Hv & _ & Hrow & Hmean & _ & Hsel); [lia|done|done|lia|].
  destruct row as [|q0 [|q row]]; [exfalso; revert Hrow; vm_compute; congruence..|]. exists v, (q0 :: q :: row), q. split; [exact Hv|]. split; [exact Hrow|].
  split; [exact Hmean|]. split; [done|]. exact Hsel.
Defined.

Definition list_layer (c : GContext) (path : list string) : list float * list float := (var_data c (var_name "w" path), var_data c (var_name "b" path)).
Definition float_ops : GraphOps GContext float :=
  list_ops list_layer (fun x => if (x <? 0)%float then 0%float else x) id (fun x => if (x <? 1)%float then 0 else 1) (fun row => Z.of_nat (argmaxSched row)).

Definition two_steps : list train_input :=
  [mkTrainInput [mkTransition [1; 2]%float [1%float] 1 [2; 1]%float false] [0] [1%float];
   mkTrainInput [mkTransition [2; 1]%float [0%float] 0.5 [1; 1]%float true] [1] [1%float]].
Definition two_slots : PrioritizedReplayBuffer := mkPER [zeroTransition; zeroTransition] [1; 1]%float 2 2 2 1 1 1.

Lemma training_keeps_networks_witness :
  exists tn0 tn replay',
    initGoMLX (T := list_train) (C := appending) 4 2 2 = Ok tn0 /\
    train_many (O := float_ops) (T := list_train) 4 2 0.1 1 0.9 2 two_steps tn0 two_slots = Ok (tn, replay') /\
    Forall2 reshapes (nc_main (tn_ctx tn0)) (nc_main (tn_ctx tn)) /\ length (nc_target (tn_ctx tn)) = 12%nat.
Proof.
  destruct (training_keeps_networks (O := float_ops) (T := list_train) (C := appending) 4 2 0.1 1 (TL := list_train_laws)
    (S := list_ops_shapes _ _ _ _ _) 2 0.9 two_steps two_slots) as (tn0 & tn & replay' & H0 & H1 & [_ Hc] & Hr & _).
  - unfold per_ok, two_slots. cbn. lia.
  - repeat constructor.
  - exists tn0, tn, replay'. split; [exact H0|]. split; [exact H1|]. split; [exact Hr|]. rewrite <- (list.Forall2_length _ _ _ Hc).
    rewrite <- (list.Forall2_length _ _ _ (trained_trainable _ _ Hr)). assert (E : initGoMLX (T := list_train) (C := appending) 4 2 2 = Ok tn0) by exact H0.
    vm_compute in E. injection E as <-. vm_compute. reflexivity.
Defined.
