(* ===== verification/DqnScheduler.v ===== *)
(** * The learning scheduler (src/pkg/scheduler/dqn.go, const.go)

    DQNScheduler serves a partition's priority index with a threshold that a
    network chooses from the state of the queue.  The network is gomlx's: [QNet]
    stands for running and training it.  Everything around it is modelled: the
    pop and its latency counters, the reward, the state vector, the policy tick,
    the experience channel, the two replay buffers and the training step.

    The scheduler keeps a pointer to the index it served last and reads it again
    at later ticks; here it keeps which partition that was, and a tick is given
    the contents of the indexes at that time. *)

From Stdlib Require Import Strings.Byte.
From S2P Require Import Prelude Message PriorityIndex Wal Compression GoFloat Config Partition PartitionProps Metrics Scheduler NN QNet.

Definition DefaultDQNSchedStateSize : Z := Z.of_nat MaxPriority * 2 + 3.
Definition DefaultDQNSchedActions : Z := Z.of_nat MaxPriority.
Definition DefaultDQNSchedEpsilon : float := 0x1.999999999999ap-5%float.        (* 0.05 *)
Definition DefaultDQNSchedGamma : float := 0x1.ccccccccccccdp-1%float.          (* 0.9 *)
Definition DefaultDQNSchedLearningRate : float := 0x1.0624dd2f1a9fcp-10%float.  (* 0.001 *)
Definition DefaultDQNSchedHiddenSize : Z := 128.
Definition DefaultDQNSchedReplayBufSize : Z := 50000.
Definition DefaultDQNSchedBatchSize : Z := 32.
Definition DefaultDQNSchedMinReplay : Z := 64.
Definition DefaultDQNSchedThreshold : Z := 5.
Definition DefaultDQNSchedTrainEvery : Z := 4.
Definition DefaultDQNSchedExpChSize : nat := 2048.
Definition dqnSchedVelocityScale : float := 10000%float.
Definition dqnSchedGrowthPenaltyW : float := 0x1.3333333333333p-2%float.        (* 0.3 *)
Definition dqnSchedPriorityOrderBonus : float := 0x1.999999999999ap-4%float.    (* 0.1 *)
Definition dqnSchedOverloadDepth : Z := 1000.
Definition dqnSchedExpertSeeds : nat := 200.
Definition dqnSchedCrisisBufSize : Z := 2000.
Definition dqnSchedCrisisRatio : float := 0x1.3333333333333p-2%float.           (* 0.3 *)

Record schedPolicySnap : Type := mkSnap { ss_state : list float; ss_threshold : Z }.

(** Which index [lastPI] points to. *)
Definition pi_ref : Type := string * Z.

Record DQNScheduler (Net : Type) : Type := mkDQN {
  ds_stateSize : Z;
  ds_numActions : Z;
  ds_epsilon : float;
  ds_gamma : float;
  ds_lr : float;
  ds_huberDelta : float;
  ds_hiddenSize : Z;
  ds_batchSize : Z;
  ds_minReplay : Z;
  ds_trainEvery : Z;
  ds_targetNet : TargetNetwork Net;
  ds_replay : PrioritizedReplayBuffer;
  ds_crisis : ReplayBuffer;
  ds_beta : BetaSchedule;
  ds_normalizer : RunningNormalizer float;
  ds_expCh : list Transition;
  ds_lastState : list float;
  ds_lastPI : option pi_ref;
  ds_threshold : Z;
  ds_cachedThreshold : Z;
  ds_prevSnap : option schedPolicySnap;
  ds_currSnap : option schedPolicySnap;
  ds_latencySums : list Z;
  ds_latencyCounts : list Z;
  ds_prevTotalDepth : Z;
  ds_prevRewardDepth : Z;
  ds_produceRate : float;
  ds_consumeRate : float;
  ds_lastPolicyDepth : Z;
  ds_steps : Z;                     (* the counter of trainLoop *)
}.

Arguments mkDQN {Net}.
Arguments ds_stateSize {Net}.
Arguments ds_numActions {Net}.
Arguments ds_epsilon {Net}.
Arguments ds_gamma {Net}.
Arguments ds_lr {Net}.
Arguments ds_huberDelta {Net}.
Arguments ds_hiddenSize {Net}.
Arguments ds_batchSize {Net}.
Arguments ds_minReplay {Net}.
Arguments ds_trainEvery {Net}.
Arguments ds_targetNet {Net}.
Arguments ds_replay {Net}.
Arguments ds_crisis {Net}.
Arguments ds_beta {Net}.
Arguments ds_normalizer {Net}.
Arguments ds_expCh {Net}.
Arguments ds_lastState {Net}.
Arguments ds_lastPI {Net}.
Arguments ds_threshold {Net}.
Arguments ds_cachedThreshold {Net}.
Arguments ds_prevSnap {Net}.
Arguments ds_currSnap {Net}.
Arguments ds_latencySums {Net}.
Arguments ds_latencyCounts {Net}.
Arguments ds_prevTotalDepth {Net}.
Arguments ds_prevRewardDepth {Net}.
Arguments ds_produceRate {Net}.
Arguments ds_consumeRate {Net}.
Arguments ds_lastPolicyDepth {Net}.
Arguments ds_steps {Net}.

(** Updates of the fields an operation changes together, and the options. *)
Definition with_latency {Net} (sums counts : list Z) (d : DQNScheduler Net) : DQNScheduler Net :=
  mkDQN (ds_stateSize d) (ds_numActions d) (ds_epsilon d) (ds_gamma d) (ds_lr d) (ds_huberDelta d) (ds_hiddenSize d)
    (ds_batchSize d) (ds_minReplay d) (ds_trainEvery d) (ds_targetNet d) (ds_replay d) (ds_crisis d) (ds_beta d)
    (ds_normalizer d) (ds_expCh d) (ds_lastState d) (ds_lastPI d) (ds_threshold d) (ds_cachedThreshold d)
    (ds_prevSnap d) (ds_currSnap d) sums counts (ds_prevTotalDepth d) (ds_prevRewardDepth d) (ds_produceRate d)
    (ds_consumeRate d) (ds_lastPolicyDepth d) (ds_steps d).
Definition with_lastPI {Net} (r : pi_ref) (d : DQNScheduler Net) : DQNScheduler Net :=
  mkDQN (ds_stateSize d) (ds_numActions d) (ds_epsilon d) (ds_gamma d) (ds_lr d) (ds_huberDelta d) (ds_hiddenSize d)
    (ds_batchSize d) (ds_minReplay d) (ds_trainEvery d) (ds_targetNet d) (ds_replay d) (ds_crisis d) (ds_beta d)
    (ds_normalizer d) (ds_expCh d) (ds_lastState d) (Some r) (ds_threshold d) (ds_cachedThreshold d) (ds_prevSnap d)
    (ds_currSnap d) (ds_latencySums d) (ds_latencyCounts d) (ds_prevTotalDepth d) (ds_prevRewardDepth d)
    (ds_produceRate d) (ds_consumeRate d) (ds_lastPolicyDepth d) (ds_steps d).
Definition with_rates {Net} (produce consume : float) (d : DQNScheduler Net) : DQNScheduler Net :=
  mkDQN (ds_stateSize d) (ds_numActions d) (ds_epsilon d) (ds_gamma d) (ds_lr d) (ds_huberDelta d) (ds_hiddenSize d)
    (ds_batchSize d) (ds_minReplay d) (ds_trainEvery d) (ds_targetNet d) (ds_replay d) (ds_crisis d) (ds_beta d)
    (ds_normalizer d) (ds_expCh d) (ds_lastState d) (ds_lastPI d) (ds_threshold d) (ds_cachedThreshold d)
    (ds_prevSnap d) (ds_currSnap d) (ds_latencySums d) (ds_latencyCounts d) (ds_prevTotalDepth d)
    (ds_prevRewardDepth d) produce consume (ds_lastPolicyDepth d) (ds_steps d).
Definition with_expCh {Net} (ch : list Transition) (d : DQNScheduler Net) : DQNScheduler Net :=
  mkDQN (ds_stateSize d) (ds_numActions d) (ds_epsilon d) (ds_gamma d) (ds_lr d) (ds_huberDelta d) (ds_hiddenSize d)
    (ds_batchSize d) (ds_minReplay d) (ds_trainEvery d) (ds_targetNet d) (ds_replay d) (ds_crisis d) (ds_beta d)
    (ds_normalizer d) ch (ds_lastState d) (ds_lastPI d) (ds_threshold d) (ds_cachedThreshold d) (ds_prevSnap d)
    (ds_currSnap d) (ds_latencySums d) (ds_latencyCounts d) (ds_prevTotalDepth d) (ds_prevRewardDepth d)
    (ds_produceRate d) (ds_consumeRate d) (ds_lastPolicyDepth d) (ds_steps d).
Definition with_prevRewardDepth {Net} (n : Z) (d : DQNScheduler Net) : DQNScheduler Net :=
  mkDQN (ds_stateSize d) (ds_numActions d) (ds_epsilon d) (ds_gamma d) (ds_lr d) (ds_huberDelta d) (ds_hiddenSize d)
    (ds_batchSize d) (ds_minReplay d) (ds_trainEvery d) (ds_targetNet d) (ds_replay d) (ds_crisis d) (ds_beta d)
    (ds_normalizer d) (ds_expCh d) (ds_lastState d) (ds_lastPI d) (ds_threshold d) (ds_cachedThreshold d)
    (ds_prevSnap d) (ds_currSnap d) (ds_latencySums d) (ds_latencyCounts d) (ds_prevTotalDepth d) n (ds_produceRate d)
    (ds_consumeRate d) (ds_lastPolicyDepth d) (ds_steps d).
Definition with_observed {Net} (n : Z) (rn : RunningNormalizer float) (d : DQNScheduler Net) : DQNScheduler Net :=
  mkDQN (ds_stateSize d) (ds_numActions d) (ds_epsilon d) (ds_gamma d) (ds_lr d) (ds_huberDelta d) (ds_hiddenSize d)
    (ds_batchSize d) (ds_minReplay d) (ds_trainEvery d) (ds_targetNet d) (ds_replay d) (ds_crisis d) (ds_beta d) rn
    (ds_expCh d) (ds_lastState d) (ds_lastPI d) (ds_threshold d) (ds_cachedThreshold d) (ds_prevSnap d)
    (ds_currSnap d) (ds_latencySums d) (ds_latencyCounts d) n (ds_prevRewardDepth d) (ds_produceRate d)
    (ds_consumeRate d) (ds_lastPolicyDepth d) (ds_steps d).
Definition with_policy {Net} (state : list float) (t cached : Z) (prev curr : option schedPolicySnap) (depth : Z) (eps : float) (d : DQNScheduler Net) : DQNScheduler Net :=
  mkDQN (ds_stateSize d) (ds_numActions d) eps (ds_gamma d) (ds_lr d) (ds_huberDelta d) (ds_hiddenSize d)
    (ds_batchSize d) (ds_minReplay d) (ds_trainEvery d) (ds_targetNet d) (ds_replay d) (ds_crisis d) (ds_beta d)
    (ds_normalizer d) (ds_expCh d) state (ds_lastPI d) t cached prev curr (ds_latencySums d) (ds_latencyCounts d)
    (ds_prevTotalDepth d) (ds_prevRewardDepth d) (ds_produceRate d) (ds_consumeRate d) depth (ds_steps d).
Definition with_buffers {Net} (replay : PrioritizedReplayBuffer) (crisis : ReplayBuffer) (steps : Z) (d : DQNScheduler Net) : DQNScheduler Net :=
  mkDQN (ds_stateSize d) (ds_numActions d) (ds_epsilon d) (ds_gamma d) (ds_lr d) (ds_huberDelta d) (ds_hiddenSize d)
    (ds_batchSize d) (ds_minReplay d) (ds_trainEvery d) (ds_targetNet d) replay crisis (ds_beta d) (ds_normalizer d)
    (ds_expCh d) (ds_lastState d) (ds_lastPI d) (ds_threshold d) (ds_cachedThreshold d) (ds_prevSnap d)
    (ds_currSnap d) (ds_latencySums d) (ds_latencyCounts d) (ds_prevTotalDepth d) (ds_prevRewardDepth d)
    (ds_produceRate d) (ds_consumeRate d) (ds_lastPolicyDepth d) steps.
Definition with_training {Net} (tn : TargetNetwork Net) (replay : PrioritizedReplayBuffer) (beta : BetaSchedule) (d : DQNScheduler Net) : DQNScheduler Net :=
  mkDQN (ds_stateSize d) (ds_numActions d) (ds_epsilon d) (ds_gamma d) (ds_lr d) (ds_huberDelta d) (ds_hiddenSize d)
    (ds_batchSize d) (ds_minReplay d) (ds_trainEvery d) tn replay (ds_crisis d) beta (ds_normalizer d) (ds_expCh d)
    (ds_lastState d) (ds_lastPI d) (ds_threshold d) (ds_cachedThreshold d) (ds_prevSnap d) (ds_currSnap d)
    (ds_latencySums d) (ds_latencyCounts d) (ds_prevTotalDepth d) (ds_prevRewardDepth d) (ds_produceRate d)
    (ds_consumeRate d) (ds_lastPolicyDepth d) (ds_steps d).
Definition WithDQNSchedEpsilon {Net} (e : float) (d : DQNScheduler Net) : DQNScheduler Net :=
  mkDQN (ds_stateSize d) (ds_numActions d) e (ds_gamma d) (ds_lr d) (ds_huberDelta d) (ds_hiddenSize d)
    (ds_batchSize d) (ds_minReplay d) (ds_trainEvery d) (ds_targetNet d) (ds_replay d) (ds_crisis d) (ds_beta d)
    (ds_normalizer d) (ds_expCh d) (ds_lastState d) (ds_lastPI d) (ds_threshold d) (ds_cachedThreshold d)
    (ds_prevSnap d) (ds_currSnap d) (ds_latencySums d) (ds_latencyCounts d) (ds_prevTotalDepth d)
    (ds_prevRewardDepth d) (ds_produceRate d) (ds_consumeRate d) (ds_lastPolicyDepth d) (ds_steps d).
Definition WithDQNSchedGamma {Net} (g : float) (d : DQNScheduler Net) : DQNScheduler Net :=
  mkDQN (ds_stateSize d) (ds_numActions d) (ds_epsilon d) g (ds_lr d) (ds_huberDelta d) (ds_hiddenSize d)
    (ds_batchSize d) (ds_minReplay d) (ds_trainEvery d) (ds_targetNet d) (ds_replay d) (ds_crisis d) (ds_beta d)
    (ds_normalizer d) (ds_expCh d) (ds_lastState d) (ds_lastPI d) (ds_threshold d) (ds_cachedThreshold d)
    (ds_prevSnap d) (ds_currSnap d) (ds_latencySums d) (ds_latencyCounts d) (ds_prevTotalDepth d)
    (ds_prevRewardDepth d) (ds_produceRate d) (ds_consumeRate d) (ds_lastPolicyDepth d) (ds_steps d).
Definition WithDQNSchedLearningRate {Net} (lr : float) (d : DQNScheduler Net) : DQNScheduler Net :=
  mkDQN (ds_stateSize d) (ds_numActions d) (ds_epsilon d) (ds_gamma d) lr (ds_huberDelta d) (ds_hiddenSize d)
    (ds_batchSize d) (ds_minReplay d) (ds_trainEvery d) (ds_targetNet d) (ds_replay d) (ds_crisis d) (ds_beta d)
    (ds_normalizer d) (ds_expCh d) (ds_lastState d) (ds_lastPI d) (ds_threshold d) (ds_cachedThreshold d)
    (ds_prevSnap d) (ds_currSnap d) (ds_latencySums d) (ds_latencyCounts d) (ds_prevTotalDepth d)
    (ds_prevRewardDepth d) (ds_produceRate d) (ds_consumeRate d) (ds_lastPolicyDepth d) (ds_steps d).
Definition WithDQNSchedHiddenSize {Net} (n : Z) (d : DQNScheduler Net) : DQNScheduler Net :=
  mkDQN (ds_stateSize d) (ds_numActions d) (ds_epsilon d) (ds_gamma d) (ds_lr d) (ds_huberDelta d) n (ds_batchSize d)
    (ds_minReplay d) (ds_trainEvery d) (ds_targetNet d) (ds_replay d) (ds_crisis d) (ds_beta d) (ds_normalizer d)
    (ds_expCh d) (ds_lastState d) (ds_lastPI d) (ds_threshold d) (ds_cachedThreshold d) (ds_prevSnap d)
    (ds_currSnap d) (ds_latencySums d) (ds_latencyCounts d) (ds_prevTotalDepth d) (ds_prevRewardDepth d)
    (ds_produceRate d) (ds_consumeRate d) (ds_lastPolicyDepth d) (ds_steps d).
Definition WithDQNSchedHuberDelta {Net} (delta : float) (d : DQNScheduler Net) : DQNScheduler Net :=
  mkDQN (ds_stateSize d) (ds_numActions d) (ds_epsilon d) (ds_gamma d) (ds_lr d) delta (ds_hiddenSize d)
    (ds_batchSize d) (ds_minReplay d) (ds_trainEvery d) (ds_targetNet d) (ds_replay d) (ds_crisis d) (ds_beta d)
    (ds_normalizer d) (ds_expCh d) (ds_lastState d) (ds_lastPI d) (ds_threshold d) (ds_cachedThreshold d)
    (ds_prevSnap d) (ds_currSnap d) (ds_latencySums d) (ds_latencyCounts d) (ds_prevTotalDepth d)
    (ds_prevRewardDepth d) (ds_produceRate d) (ds_consumeRate d) (ds_lastPolicyDepth d) (ds_steps d).
Definition WithDQNSchedBatchSize {Net} (n : Z) (d : DQNScheduler Net) : DQNScheduler Net :=
  mkDQN (ds_stateSize d) (ds_numActions d) (ds_epsilon d) (ds_gamma d) (ds_lr d) (ds_huberDelta d) (ds_hiddenSize d) n
    (ds_minReplay d) (ds_trainEvery d) (ds_targetNet d) (ds_replay d) (ds_crisis d) (ds_beta d) (ds_normalizer d)
    (ds_expCh d) (ds_lastState d) (ds_lastPI d) (ds_threshold d) (ds_cachedThreshold d) (ds_prevSnap d)
    (ds_currSnap d) (ds_latencySums d) (ds_latencyCounts d) (ds_prevTotalDepth d) (ds_prevRewardDepth d)
    (ds_produceRate d) (ds_consumeRate d) (ds_lastPolicyDepth d) (ds_steps d).

(** An option that allocates: a negative capacity panics. *)
Definition WithDQNSchedReplayBufSize {Net} (n : Z) (d : DQNScheduler Net) : result (DQNScheduler Net) :=
  b ← NewPrioritizedReplayBuffer n 0x1.3333333333333p-1; Ok (with_buffers b (ds_crisis d) (ds_steps d) d).   (* 0.6 *)

Fixpoint apply_opts {Net} (opts : list (DQNScheduler Net -> result (DQNScheduler Net))) (d : DQNScheduler Net)
    : result (DQNScheduler Net) :=
  match opts with [] => Ok d | opt :: opts => d ← opt d; apply_opts opts d end.

(** *** Expert transitions *)

(** [rnd i k]: the [k]-th rand.Float64() of seed [i]. *)
Definition expert_state (stateSize : Z) (rnd : nat -> float) : result (list float) :=
  let depthIdx := (MaxPriority * 2)%nat in
  let at_ (i : nat) (x : float) (s : list float) := if Z.of_nat i <? stateSize then store s i x else Ok s in
  s ← store (replicate (Z.to_nat stateSize) 0%float) depthIdx (0x1.999999999999ap-1 + rnd 0%nat * 0x1.999999999999ap-3)%float;
  s ← at_ (depthIdx + 1)%nat (0.5 + rnd 1%nat * 0.5)%float s;
  at_ (depthIdx + 2)%nat (3 + rnd 2%nat * 2)%float s.

Definition expert_transition (stateSize : Z) (rnd : nat -> float) : result Transition :=
  s ← expert_state stateSize rnd;
  x ← index s (MaxPriority * 2)%nat;
  next ← store s (MaxPriority * 2)%nat (x * 0x1.3333333333333p-1)%float;
  Ok (mkTransition s [0%float] 2 next false).

Fixpoint seed_loop (stateSize : Z) (rnd : nat -> nat -> float) (n : nat) (b : PrioritizedReplayBuffer) : result PrioritizedReplayBuffer :=
  match n with
  | O => Ok b
  | S n => t ← expert_transition stateSize (rnd n); b ← per_Push b t; seed_loop stateSize rnd n b
  end.

Definition seedExpertTransitions {Net} (rnd : nat -> nat -> float) (d : DQNScheduler Net) : result (DQNScheduler Net) :=
  b ← seed_loop (ds_stateSize d) rnd dqnSchedExpertSeeds (ds_replay d);
  Ok (with_buffers b (ds_crisis d) (ds_steps d) d).

(** [net] are the initial weights of both networks; tau and the synchronisation
    period are NewTargetNetwork's defaults. *)
Definition NewDQNScheduler {Net} (rnd : nat -> nat -> float) (net : Net) (opts : list (DQNScheduler Net -> result (DQNScheduler Net)))
    : result (DQNScheduler Net) :=
  replay ← NewPrioritizedReplayBuffer DefaultDQNSchedReplayBufSize 0x1.3333333333333p-1;
  crisis ← NewReplayBuffer dqnSchedCrisisBufSize;
  d ← apply_opts opts
    (mkDQN DefaultDQNSchedStateSize DefaultDQNSchedActions DefaultDQNSchedEpsilon DefaultDQNSchedGamma DefaultDQNSchedLearningRate
       1 DefaultDQNSchedHiddenSize DefaultDQNSchedBatchSize DefaultDQNSchedMinReplay DefaultDQNSchedTrainEvery
       (mkTarget net 0x1.47ae147ae147bp-8 10 0) replay crisis (NewBetaSchedule 0 0 0) (mkNormalizer 0 [] [] 0)
       [] [] None DefaultDQNSchedThreshold 0 None None (replicate MaxPriority 0) (replicate MaxPriority 0) 0 0 0 0 0 0);
  rn ← NewRunningNormalizer (ds_stateSize d);
  if decide (ds_batchSize d = 0) then Panic
  else
    let beta := NewBetaSchedule 0x1.999999999999ap-2 1 (Z.quot DefaultDQNSchedReplayBufSize (ds_batchSize d)) in
    let d := with_training (ds_targetNet d) (ds_replay d) beta d in
    let d := with_observed 0 rn d in
    let d := with_policy (ds_lastState d) (ds_threshold d) (i32 (ds_threshold d)) None None 0 (ds_epsilon d) d in
    seedExpertTransitions rnd d.

(** ** Serving *)

Section serving.
Context {W : Wal} {K : Compressors} {Net : Type}.
Implicit Types d : DQNScheduler Net.

(** [explore := rand.Float64() < eps]: the threshold of this call. *)
Definition choose_threshold (env : SchedEnv) d : result Z :=
  if (se_Float64 env <? ds_epsilon d)%float then
    if ds_numActions d <=? 0 then Panic else Ok (se_IntN env (ds_numActions d))
  else Ok (ds_cachedThreshold d).

(** The counters of the delivered message's priority. *)
Definition record_latency (now : Time) (entry : PendingEntry) (msg : Message) d : result (DQNScheduler Net) :=
  let latencyNs := u64 (time_Sub now (ArrivedAt entry)) in
  let prio := Z.to_nat (bval (Priority (Header msg))) in
  let level := if (MaxPriority <=? prio)%nat then (MaxPriority - 1)%nat else prio in
  s ← index (ds_latencySums d) level;
  c ← index (ds_latencyCounts d) level;
  Ok (with_latency (<[level := u64 (s + latencyNs)]> (ds_latencySums d)) (<[level := u64 (c + 1)]> (ds_latencyCounts d)) d).

Definition dqn_Next (env : SchedEnv) d (p : Partition) (consumerOffset : Z) : DQNScheduler Net * Partition * result (Message * Z) :=
  match priorityIndex p with
  | None => (d, p, Err (Errorf "partition %d has no PriorityIndex"))
  | Some pi =>
      let d := with_lastPI (topicName p, p_id p) d in
      match choose_threshold env d with
      | Ok threshold =>
          match PopWithThreshold pi threshold with
          | Ok (Some (pi', entry)) =>
              let p := with_index p (Some pi') in
              match Read p (u64 (WalOffset entry)) with
              | Ok msg =>
                  match record_latency (se_now env) entry msg d with
                  | Ok d => (d, p, Ok (msg, u64 (WalOffset entry)))
                  | Err e => (d, p, Err e)
                  | Panic => (d, p, Panic)
                  end
              | Err e => (d, p, Err e)
              | Panic => (d, p, Panic)
              end
          | Ok None => (d, p, Err ErrNoMessages)
          | Err e => (d, p, Err e)
          | Panic => (d, p, Panic)
          end
      | Err e => (d, p, Err e)
      | Panic => (d, p, Panic)
      end
  end.

#[export] Instance dqn_scheduler : Scheduler (DQNScheduler Net) := {| Next := dqn_Next |}.
End serving.

(** ** The reward *)

Section reward.
Context {M : MathLib} {Net : Type}.
Implicit Types d : DQNScheduler Net.

(** The mean latency of a level in seconds; 0 when nothing was delivered. *)
Definition mean_latency (sum count : Z) : float :=
  if decide (count = 0) then 0%float else (of_int sum / of_int count / 1e9)%float.

Fixpoint reward_loop (level : nat) (sums counts : list Z) (reward totalWeight : float) : float * float :=
  match sums, counts with
  | s :: sums, c :: counts =>
      if decide (c = 0) then reward_loop (level + 1) sums counts reward totalWeight
      else
        let weight := of_int (Z.of_nat MaxPriority - Z.of_nat level) in
        reward_loop (level + 1) sums counts (reward - mean_latency s c * weight)%float (totalWeight + weight)%float
  | _, _ => (reward, totalWeight)
  end.

(** The mean latency of the first level, in this order, that delivered anything. *)
Fixpoint first_active (sums counts : list Z) : option float :=
  match sums, counts with
  | s :: sums, c :: counts => if decide (c = 0) then first_active sums counts else Some (mean_latency s c)
  | _, _ => None
  end.

(** [lens]: the Len of the index a pointer refers to, at this moment. *)
Definition computePerPriorityReward (lens : pi_ref -> Z) d : DQNScheduler Net * float :=
  let sums := ds_latencySums d in
  let counts := ds_latencyCounts d in
  let d := with_latency (replicate MaxPriority 0) (replicate MaxPriority 0) d in
  let '(reward, totalWeight) := reward_loop 0 sums counts 0 0 in
  let reward := if (0 <? totalWeight)%float then (reward / totalWeight)%float else reward in
  let '(d, reward) :=
    match ds_lastPI d with
    | None => (d, reward)
    | Some r =>
        let currentDepth := i64 (lens r) in
        let growth := of_int (i64 (currentDepth - ds_prevRewardDepth d)) in
        (with_prevRewardDepth currentDepth d,
         if (0 <? growth)%float then (reward - dqnSchedGrowthPenaltyW * math_Log1p growth)%float else reward)
    end in
  (d, match first_active sums counts, first_active (reverse sums) (reverse counts) with
      | Some high, Some low => if (high <? low)%float then (reward + dqnSchedPriorityOrderBonus)%float else reward
      | _, _ => reward
      end).

(** The send on the experience channel: dropped when the channel is full. *)
Definition send_exp (t : Transition) d : DQNScheduler Net :=
  if (length (ds_expCh d) <? DefaultDQNSchedExpChSize)%nat then with_expCh (ds_expCh d ++ [t]) d else d.

Definition dqn_OnMetrics (lens : pi_ref -> Z) d (m : Metrics) : DQNScheduler Net :=
  let d := with_rates (MsgRate m) (ConsumeRate m) d in
  match ds_prevSnap d, ds_currSnap d with
  | Some prev, Some curr =>
      let '(d, reward) := computePerPriorityReward lens d in
      send_exp (mkTransition (ss_state prev) [of_int (ss_threshold prev)] reward (ss_state curr) false) d
  | _, _ => d
  end.
End reward.

(** ** The policy *)

Section policy.
Context {Net : Type}.
Implicit Types d : DQNScheduler Net.

(** [state[i] = x] for an index known to be below the size. *)
Definition set_at (size : Z) (i : nat) (x : float) (s : list float) : list float :=
  if Z.of_nat i <? size then <[i := x]> s else s.

(** The first loop: the sizes of the levels that fit, and their sum. *)
Fixpoint fill_levels (size : Z) (i : nat) (dist : list Z) (s : list float) (total : Z) : list float * Z :=
  match dist with
  | [] => (s, total)
  | x :: dist => if Z.of_nat i <? size then fill_levels size (i + 1) dist (<[i := of_int x]> s) (i64 (total + x)) else (s, total)
  end.

(** The second loop: the waits, at [levels + i]. *)
Fixpoint fill_waits (size : Z) (levels i : nat) (n : nat) d (s : list float) : result (list float) :=
  match n with
  | O => Ok s
  | S n =>
      if Z.of_nat (levels + i) <? size then
        cnt ← index (ds_latencyCounts d) i;
        if 0 <? cnt then
          sum ← index (ds_latencySums d) i;
          fill_waits size levels (i + 1) n d (<[(levels + i)%nat := (of_int sum / of_int cnt / 1e9)%float]> s)
        else fill_waits size levels (i + 1) n d s
      else fill_waits size levels (i + 1) n d s
  end.

(** The vector before it is normalised, and the depth it was built from. *)
Definition raw_state (pi : PriorityIndex) d : result (list float * Z) :=
  let size := ds_stateSize d in
  let dist := LevelDistribution pi in
  let levels := length dist in
  let '(s, totalDepth) := fill_levels size 0 dist (replicate (Z.to_nat size) 0%float) 0 in
  s ← fill_waits size levels 0 levels d s;
  let depthIdx := (levels * 2)%nat in
  let s := set_at size depthIdx (of_int totalDepth) s in
  let velocity := of_int (i64 (totalDepth - ds_prevTotalDepth d)) in
  let s := set_at size (depthIdx + 1) (velocity / dqnSchedVelocityScale)%float s in
  Ok (if (0 <? ds_consumeRate d)%float then set_at size (depthIdx + 2) (ds_produceRate d / ds_consumeRate d)%float s else s,
      totalDepth).

Definition buildState (pi : PriorityIndex) d : result (DQNScheduler Net * list float) :=
  '(s, totalDepth) ← raw_state pi d;
  rn ← Observe (ds_normalizer d) s;
  let prev := if Z.of_nat (length (LevelDistribution pi) * 2 + 1) <? ds_stateSize d then totalDepth else ds_prevTotalDepth d in
  Ok (with_observed prev rn d, NormalizeInPlace rn s).

(** One tick of policyLoop; [heap] gives the index a pointer refers to. *)
Definition policy_tick {Q : QNet Net} (heap : pi_ref -> PriorityIndex) d : result (DQNScheduler Net) :=
  match ds_lastPI d with
  | None => Ok d
  | Some r =>
      let pi := heap r in
      '(d, state) ← buildState pi d;
      let q := tensorToFloat64Sched (net_forward (tn_ctx (ds_targetNet d)) state) in
      let threshold := Z.of_nat (argmaxSched q) in
      let depth := Len pi in
      let velocity := i64 (depth - ds_lastPolicyDepth d) in
      let eps := if (dqnSchedOverloadDepth <? depth) && (0 <? velocity) then 0%float else DefaultDQNSchedEpsilon in
      Ok (with_policy state threshold (i32 threshold) (ds_currSnap d) (Some (mkSnap state threshold)) depth eps d)
  end.
End policy.

(** ** Training *)

Section training.
Context {M : MathLib} {Net : Type} {Q : QNet Net}.
Implicit Types d : DQNScheduler Net.

Definition isOverloadTransition (t : Transition) : bool :=
  match tr_State t !! (MaxPriority * 2)%nat with
  | None => false
  | Some depth =>
      let velocity := default 0%float (tr_State t !! (MaxPriority * 2 + 1)%nat) in
      (of_int dqnSchedOverloadDepth <? depth)%float && (0 <? velocity)%float
  end.

(** [rnd] are the draws of the prioritised sample, [pick n] those below [n] of the
    crisis one. *)
Definition trainStep (rnd : nat -> float) (pick : Z -> nat -> Z) d : result (DQNScheduler Net * float) :=
  if per_Len (ds_replay d) <? ds_minReplay d then Ok (d, 0%float)
  else
    let crisisSize := if 0 <? rb_Len (ds_crisis d) then to_int64 (of_int (ds_batchSize d) * dqnSchedCrisisRatio)%float else 0 in
    let mainSize := if 0 <? rb_Len (ds_crisis d) then i64 (ds_batchSize d - crisisSize) else ds_batchSize d in
    let '(beta, b) := beta_Next (ds_beta d) in
    let d := with_training (ds_targetNet d) (ds_replay d) beta d in
    '(mainBatch, indices, isWeights) ← per_Sample rnd (ds_replay d) mainSize b;
    if Z.of_nat (length mainBatch) <? mainSize then Ok (d, 0%float)
    else
      crisisBatch ← replay_Sample (pick (rb_Len (ds_crisis d))) (ds_crisis d) crisisSize;
      let batch := mainBatch ++ crisisBatch in
      let isWeights := isWeights ++ replicate (length crisisBatch) 1%float in
      '(tn, replay, loss) ← learn (ds_gamma d) (Z.to_nat (ds_stateSize d)) batch indices isWeights (ds_targetNet d) (ds_replay d);
      Ok (with_training tn replay (ds_beta d) d, loss).

(** trainLoop on one transition from the channel. *)
Definition train_receive (rnd : nat -> float) (pick : Z -> nat -> Z) d : result (DQNScheduler Net) :=
  match ds_expCh d with
  | [] => Ok d
  | t :: ch =>
      let d := with_expCh ch d in
      replay ← per_Push (ds_replay d) t;
      crisis ← (if isOverloadTransition t then replay_Push (ds_crisis d) t else Ok (ds_crisis d));
      let steps := i64 (ds_steps d + 1) in
      let d := with_buffers replay crisis steps d in
      if decide (ds_trainEvery d = 0) then Panic
      else if Z.rem steps (ds_trainEvery d) =? 0 then ('(d, _) ← trainStep rnd pick d; Ok d) else Ok d
  end.

Definition dqn_Stop d : result (DQNScheduler Net) :=
  b ← drain_exp (ds_expCh d) (ds_replay d); Ok (with_expCh [] (with_buffers b (ds_crisis d) (ds_steps d) d)).
End training.
