(* ===== verification/DqnSchedulerProps.v ===== *)
(** * The learning scheduler: what holds whatever the network says

    Every pending message is delivered once, in some order; no operation panics
    along any interleaving of deliveries, metrics, policy ticks and training. *)

From Stdlib Require Import Strings.Byte.
From S2P Require Import Prelude Message PriorityIndex Wal Compression GoFloat Config Partition PartitionProps Metrics Scheduler NN NNProps QNet DqnScheduler.

(** ** Delivery *)

Section delivery.
Context {W : Wal} {L : WalLaws W} {K : Compressors} {KL : CompressorLaws K} {Net : Type}.
Implicit Types d : DQNScheduler Net.

(** The fields Next relies on. *)
Definition serving_ok d : Prop :=
  0 < ds_numActions d /\ 0 <= ds_cachedThreshold d /\
  length (ds_latencySums d) = MaxPriority /\ length (ds_latencyCounts d) = MaxPriority.

(** The draws are below their bound. *)
Definition sched_env_ok (env : SchedEnv) : Prop := forall n, 0 < n -> 0 <= se_IntN env n < n.

Lemma choose_threshold_ok env d : serving_ok d -> sched_env_ok env -> exists t, choose_threshold env d = Ok t /\ 0 <= t.
Proof.
  intros (Hn & Hc & _) Henv. unfold choose_threshold. destruct (_ <? _)%float; [|by eexists].
  rewrite (proj2 (Z.leb_gt _ _)) by lia. eexists. split; [done|]. apply Henv. lia.
Qed.

Lemma record_latency_ok now e msg d :
  serving_ok d -> exists d', record_latency now e msg d = Ok d' /\ serving_ok d' /\ ds_numActions d' = ds_numActions d.
Proof.
  intros (Hn & Hc & Hs & Hk). unfold record_latency.
  set (lv := if (_ <=? _)%nat then _ else _). assert (Hlv : (lv < MaxPriority)%nat).
  { unfold lv. destruct (Nat.leb_spec MaxPriority (Z.to_nat (bval (Priority (Header msg))))); [unfold MaxPriority; lia|done]. }
  rewrite !index_Ok, !Ok_bind by lia. eexists. split; [done|]. split; [|done].
  split; [done|]. split; [done|]. cbn [ds_latencySums ds_latencyCounts with_latency]. by rewrite !length_insert.
Qed.

(** What is delivered for an entry of the index. *)
Definition deliver (p : Partition) (e : PendingEntry) : result (Message * Z) :=
  msg ← Read p (u64 (WalOffset e)); Ok (msg, u64 (WalOffset e)).

(** Reading it may fail, but not with a panic. *)
Definition readable (p : Partition) (e : PendingEntry) : Prop := Read p (u64 (WalOffset e)) <> Panic.

Lemma dqn_Next_spec env d p pi off :
  priorityIndex p = Some pi -> pi_wf pi -> serving_ok d -> sched_env_ok env -> Forall (readable p) (by_priority pi) ->
  exists d' pi', serving_ok d' /\ pi_wf pi' /\
    Forall (readable p) (by_priority pi') /\
    (by_priority pi = [] /\ pi' = pi /\ Next env d p off = (d', p, Err ErrNoMessages) \/
     exists e, by_priority pi ≡ₚ e :: by_priority pi' /\ Next env d p off = (d', with_index p (Some pi'), deliver p e)).
Proof.
  intros Hpi Hwf Hok Henv Hread. cbn [Next dqn_scheduler]. unfold dqn_Next. rewrite Hpi.
  destruct (choose_threshold_ok env (with_lastPI (topicName p, p_id p) d) Hok Henv) as (t & -> & Ht).
  destruct (PopWithThreshold_removes_one pi t Hwf Ht) as [[-> Hnil]|(pi' & e & -> & Hwf' & Hperm)].
  { exists (with_lastPI (topicName p, p_id p) d), pi. split; [exact Hok|]. split; [done|]. split; [done|]. left. by split_and!. }
  rewrite Hperm, List.Forall_cons_iff in Hread. destruct Hread as [Hr Hread].
  change (Read (with_index p (Some pi')) (u64 (WalOffset e))) with (Read p (u64 (WalOffset e))).
  unfold deliver, readable in *. destruct (Read p (u64 (WalOffset e))) as [msg|err|] eqn:Hrd; [| |done].
  - destruct (record_latency_ok (se_now env) e msg (with_lastPI (topicName p, p_id p) d) Hok) as (d' & -> & Hok' & _).
    exists d', pi'. split; [done|]. split; [done|]. split; [done|]. right. exists e. by rewrite Hrd.
  - exists (with_lastPI (topicName p, p_id p) d), pi'. split; [exact Hok|]. split; [done|]. split; [done|]. right. exists e. by rewrite Hrd.
Qed.

(** C27: Whatever thresholds the network or the exploration choose, polling the
    DQN scheduler takes each pending entry exactly once: [n] calls deliver [n]
    different entries of the index, all of them when [n] is large enough, what is
    left stays pending, and only then is the consumer told there are no messages.
    So no priority starves for good.  The offset returned is the message's own. *)
Theorem dqn_delivers_each_once (env : nat -> SchedEnv) (d : DQNScheduler Net) (p : Partition) (pi : PriorityIndex) (off : Z) (n : nat) :
  priorityIndex p = Some pi -> pi_wf pi -> serving_ok d -> (forall k, sched_env_ok (env k)) ->
  Forall (readable p) (by_priority pi) ->
  exists d' pi' es, poll env d p off n =
      (d', with_index p (Some pi'), (deliver p <$> es) ++ replicate (n - length (by_priority pi)) (Err ErrNoMessages)) /\
    serving_ok d' /\ pi_wf pi' /\ by_priority pi ≡ₚ es ++ by_priority pi' /\ length es = Nat.min n (length (by_priority pi)).
Proof.
  intros Hpi Hwf Hok Henv Hread. revert d p pi off Hpi Hwf Hok Hread. induction n as [|n IH]; intros d p pi off Hpi Hwf Hok Hread.
  { exists d, pi, []. cbn. split; [by destruct p; cbn in *; subst|]. by split_and!. }
  cbn [poll]. destruct (dqn_Next_spec (env (S n)) d p pi off Hpi Hwf (Hok) (Henv _) Hread)
    as (d1 & pi1 & Hok1 & Hwf1 & Hread1 & [(Hnil & -> & ->)|(e & Hperm & ->)]).
  - destruct (IH d1 p pi off Hpi Hwf Hok1 Hread) as (d' & pi' & es & -> & Hok' & Hwf' & Hp & Hl).
    rewrite Hnil in *. cbn [length] in *. rewrite Nat.min_0_r in Hl. apply nil_length_inv in Hl. subst es.
    exists d', pi', []. split; [|by split_and!]. by rewrite !Nat.sub_0_r.
  - match goal with |- context [poll env d1 _ ?o n] =>
      destruct (IH d1 (with_index p (Some pi1)) pi1 o eq_refl Hwf1 Hok1 Hread1) as (d' & pi' & es & -> & Hok' & Hwf' & Hp & Hl) end.
    apply Permutation_length in Hperm as Hlen. cbn [length] in Hlen.
    exists d', pi', (e :: es). split.
    { rewrite Hlen. cbn [Nat.sub fmap list_fmap app]. destruct p; cbn. done. }
    split; [done|]. split; [done|]. split; [rewrite Hperm, Hp; done|]. cbn [length]. lia.
Qed.
End delivery.

(** ** No operation panics *)

Definition crisis_share (batchSize : Z) : Z := to_int64 (of_int batchSize * dqnSchedCrisisRatio)%float.

(** The state of the scheduler after at most [k] events. *)
Record dqn_ok {Net} (k : Z) (d : DQNScheduler Net) : Prop := {
  dk_serving : serving_ok d;
  dk_actions : ds_numActions d = DefaultDQNSchedActions /\ ds_cachedThreshold d < DefaultDQNSchedActions;
  dk_size : ds_stateSize d = DefaultDQNSchedStateSize;
  dk_every : ds_trainEvery d <> 0;
  dk_batch : 0 <= crisis_share (ds_batchSize d) <= ds_batchSize d /\ ds_batchSize d < 2 ^ 63;
  dk_replay : per_ok (ds_replay d) /\ per_writeIdx (ds_replay d) <= k;
  dk_crisis : 0 < rb_capacity (ds_crisis d) /\ length (rb_slots (ds_crisis d)) = Z.to_nat (rb_capacity (ds_crisis d)) /\
              0 <= rb_writeIdx (ds_crisis d) <= k;
  dk_target : 0 < tn_syncEvery (ds_targetNet d);
  dk_norm : rn_size (ds_normalizer d) = DefaultDQNSchedStateSize /\
            length (rn_mean (ds_normalizer d)) = Z.to_nat DefaultDQNSchedStateSize /\
            length (rn_m2 (ds_normalizer d)) = Z.to_nat DefaultDQNSchedStateSize;
  dk_exp : (length (ds_expCh d) <= DefaultDQNSchedExpChSize)%nat;
}.

Lemma dqn_ok_mono {Net} k k' (d : DQNScheduler Net) : k <= k' -> dqn_ok k d -> dqn_ok k' d.
Proof. intros Hk []. split; try done; [split; [apply dk_replay0|lia]|]. destruct dk_crisis0 as (? & ? & ?). split_and!; [done|done|lia|lia]. Qed.

(** *** The state vector *)

Lemma fill_levels_length size i dist s total : length (fill_levels size i dist s total).1 = length s.
Proof.
  revert i s total. induction dist as [|x dist IH]; intros i s total; cbn [fill_levels]; [done|].
  destruct (_ <? _); [|done]. by rewrite IH, length_insert.
Qed.

Lemma fill_waits_total {Net} size levels i n (d : DQNScheduler Net) s :
  (i + n <= length (ds_latencyCounts d))%nat -> (i + n <= length (ds_latencySums d))%nat ->
  exists s', fill_waits size levels i n d s = Ok s' /\ length s' = length s.
Proof.
  revert i s. induction n as [|n IH]; intros i s Hc Hs; cbn [fill_waits]; [by exists s|].
  destruct (_ <? size); [|apply IH; lia]. rewrite (index_Ok (ds_latencyCounts d)), Ok_bind by lia. destruct (_ <? _); [|apply IH; lia].
  rewrite index_Ok, Ok_bind by lia.
  match goal with |- context [fill_waits _ _ _ _ _ ?s1] => destruct (IH (i + 1)%nat s1) as (s' & -> & Hl); [lia..|] end.
  exists s'. split; [done|]. by rewrite Hl, length_insert.
Qed.

Lemma set_at_length size i x s : length (set_at size i x s) = length s.
Proof. unfold set_at. destruct (_ <? _); [apply length_insert|done]. Qed.

Section steps.
Context {W : Wal} {L : WalLaws W} {K : Compressors} {KL : CompressorLaws K} {M : MathLib} {Net : Type} {Q : QNet Net} {QL : QNetLaws Net (Z.to_nat DefaultDQNSchedActions)}.
Implicit Types d : DQNScheduler Net.

Lemma buildState_total k pi d :
  dqn_ok k d -> pi_wf pi -> exists d' s, buildState pi d = Ok (d', s) /\ dqn_ok k d'.
Proof.
  intros Hok (Hlev & _). pose proof Hok as []. unfold buildState, raw_state.
  assert (Hdist : length (LevelDistribution pi) = MaxPriority) by (unfold LevelDistribution; by rewrite length_fmap).
  rewrite Hdist. destruct dk_serving0 as (Hs1 & Hs2 & Hs3 & Hs4).
  destruct (fill_levels _ _ _ _ _) as [s total] eqn:Hfill.
  destruct (fill_waits_total (ds_stateSize d) MaxPriority 0 MaxPriority d s) as (s' & -> & Hs'); [lia..|].
  rewrite !Ok_bind. destruct dk_norm0 as (Hn1 & Hn2 & Hn3).
  match goal with |- context [Observe _ ?x] => destruct (Observe_total (ds_normalizer d) x _ Hn1 Hn2 Hn3) as (rn & -> & Hrn) end.
  rewrite Ok_bind. eexists _, _. split; [done|]. by split.
Qed.

Lemma policy_tick_total k heap d :
  dqn_ok k d -> (forall r, pi_wf (heap r)) -> exists d', policy_tick heap d = Ok d' /\ dqn_ok k d'.
Proof.
  intros Hok Hheap. unfold policy_tick. destruct (ds_lastPI d) as [r|]; [|by exists d].
  destruct (buildState_total k (heap r) d Hok (Hheap r)) as (d1 & s & -> & Hok1). rewrite Ok_bind.
  eexists. split; [done|]. pose proof (forward_shape (tn_ctx (ds_targetNet d1)) s) as Hshape.
  set (q := tensorToFloat64Sched _) in *.
  assert (Hlt : Z.of_nat (argmaxSched q) < DefaultDQNSchedActions).
  { pose proof (argmaxSched_lt q) as H. unfold DefaultDQNSchedActions in *. destruct q as [|x q']; [done|].
    assert (argmaxSched (x :: q') < length (x :: q'))%nat by (by apply H). lia. }
  assert (Hi32 : i32 (Z.of_nat (argmaxSched q)) = Z.of_nat (argmaxSched q)).
  { unfold i32, DefaultDQNSchedActions, MaxPriority in *. rewrite Z.mod_small; lia. }
  destruct Hok1 as [(Hs1 & Hs2 & Hs3 & Hs4) (Ha1 & Ha2)]. split; try done; cbn [ds_cachedThreshold with_policy].
  - split_and!; cbn; [done|rewrite Hi32; lia|done|done].
  - by rewrite Hi32.
Qed.

(** *** Training *)

Lemma trainStep_total k rnd pick d :
  dqn_ok k d -> (forall m i, 0 < m -> 0 <= pick m i < m) -> exists d' loss, trainStep rnd pick d = Ok (d', loss) /\ dqn_ok k d'.
Proof.
  intros Hok Hpick. pose proof Hok as []. unfold trainStep. destruct (_ <? _); [by exists d, 0%float|].
  destruct (beta_Next (ds_beta d)) as [beta b].
  fold (crisis_share (ds_batchSize d)). set (crisis := if 0 <? rb_Len (ds_crisis d) then crisis_share _ else 0).
  set (main := if 0 <? rb_Len (ds_crisis d) then _ else ds_batchSize d).
  assert (Hcr : 0 <= crisis) by (unfold crisis; destruct (0 <? _); lia).
  assert (Hmain : 0 <= main).
  { unfold main, crisis. destruct (0 <? rb_Len (ds_crisis d)); [|lia]. rewrite i64_small by (unfold in_i64; lia). lia. }
  set (d1 := with_training _ _ _ d). assert (Hok1 : dqn_ok k d1) by (by split). clearbody main crisis.
  destruct (per_Sample_total rnd (ds_replay d1) main b) as (batch & idxs & ws & -> & Hidx); [apply dk_replay0|done|]. rewrite Ok_bind.
  destruct (_ <? _); [by exists d1, 0%float|].
  destruct (replay_Sample_total pick (ds_crisis d1) crisis) as (cb & ->); [destruct dk_crisis0 as (? & ? & ? & ?); by split_and!|done|done|].
  rewrite Ok_bind.
  destruct (learn_total (ds_gamma d1) (Z.to_nat (ds_stateSize d1)) (batch ++ cb) idxs (ws ++ replicate (length cb) 1%float) (ds_targetNet d1) (ds_replay d1))
    as (tn & rep & loss & -> & Hrep & Hw & Htn); [apply dk_replay0|rewrite length_app; lia|exact dk_target0|].
  rewrite Ok_bind. eexists _, _. split; [done|]. split; try done. cbn [ds_replay with_training]. split; [done|]. rewrite Hw. apply dk_replay0.
Qed.

Lemma train_receive_total k rnd pick d :
  dqn_ok k d -> k + 1 < 2 ^ 63 -> (forall m i, 0 < m -> 0 <= pick m i < m) ->
  exists d', train_receive rnd pick d = Ok d' /\ dqn_ok (k + 1) d'.
Proof.
  intros Hok Hk Hpick. unfold train_receive. destruct (ds_expCh d) as [|t ch] eqn:Hch; [exists d; split; [done|apply (dqn_ok_mono k); [lia|done]]|].
  pose proof Hok as []. destruct dk_replay0 as [Hrep Hwi]. cbn [ds_replay ds_crisis with_expCh].
  destruct (per_Push_ok (ds_replay d) t Hrep) as (rep & -> & Hrep' & _ & Hw & _); [lia|]. rewrite Ok_bind.
  assert (Hcr : exists cr, (if isOverloadTransition t then replay_Push (ds_crisis d) t else Ok (ds_crisis d)) = Ok cr /\
    buffer_ok cr /\ rb_writeIdx cr <= k + 1).
  { destruct dk_crisis0 as (Hc1 & Hc2 & Hc3 & Hc4). destruct (isOverloadTransition t).
    - apply replay_Push_total; [by split_and!|lia|lia].
    - eexists. split; [done|]. split; [by split_and!|lia]. }
  destruct Hcr as (cr & -> & (Hcr1 & Hcr2 & Hcr3) & Hcr4). rewrite Ok_bind.
  set (d1 := with_buffers _ _ _ _).
  assert (Hok1 : dqn_ok (k + 1) d1).
  { split; try done; cbn [ds_replay ds_crisis ds_expCh with_buffers with_expCh d1].
    - split; [done|lia].
    - rewrite Hch in dk_exp0. cbn [length] in dk_exp0. lia. }
  rewrite decide_False by done. destruct (_ =? 0); [|by exists d1].
  destruct (trainStep_total (k + 1) rnd pick d1 Hok1 Hpick) as (d2 & loss & -> & Hok2). rewrite Ok_bind. by exists d2.
Qed.

(** *** Interleavings *)

Inductive dqn_event : Type :=
| EvNext (env : SchedEnv) (p : Partition) (off : Z)
| EvMetrics (lens : pi_ref -> Z) (m : Metrics)
| EvPolicy (heap : pi_ref -> PriorityIndex)
| EvTrain (rnd : nat -> float) (pick : Z -> nat -> Z).

Definition dqn_step d (ev : dqn_event) : result (DQNScheduler Net) :=
  match ev with
  | EvNext env p off => match dqn_Next env d p off with (_, _, Panic) => Panic | (d, _, _) => Ok d end
  | EvMetrics lens m => Ok (dqn_OnMetrics lens d m)
  | EvPolicy heap => policy_tick heap d
  | EvTrain rnd pick => train_receive rnd pick d
  end.

Definition dqn_event_ok (ev : dqn_event) : Prop :=
  match ev with
  | EvNext env p _ => sched_env_ok env /\ forall pi, priorityIndex p = Some pi -> pi_wf pi /\ Forall (readable p) (by_priority pi)
  | EvMetrics _ _ => True
  | EvPolicy heap => forall r, pi_wf (heap r)
  | EvTrain _ pick => forall m i, 0 < m -> 0 <= pick m i < m
  end.

Fixpoint dqn_run d (evs : list dqn_event) : result (DQNScheduler Net) :=
  match evs with [] => Ok d | ev :: evs => d ← dqn_step d ev; dqn_run d evs end.

Lemma dqn_Next_keeps k env p off d :
  dqn_ok k d -> dqn_event_ok (EvNext env p off) -> exists d', dqn_step d (EvNext env p off) = Ok d' /\ dqn_ok k d'.
Proof.
  intros Hok [Henv Hp]. cbn [dqn_step]. unfold dqn_Next. destruct (priorityIndex p) as [pi|] eqn:Hpi; [|by exists d].
  destruct (Hp pi eq_refl) as [Hwf Hread]. set (d1 := with_lastPI _ d). assert (Hok1 : dqn_ok k d1) by (destruct Hok; by split).
  destruct (choose_threshold_ok env d1 (dk_serving k d1 Hok1) Henv) as (t & -> & Ht).
  destruct (PopWithThreshold_removes_one pi t Hwf Ht) as [[-> _]|(pi' & e & -> & _ & Hperm)]; [by exists d1|].
  rewrite Hperm, List.Forall_cons_iff in Hread. destruct Hread as [Hr _]. unfold readable in Hr.
  change (Read (with_index p (Some pi')) (u64 (WalOffset e))) with (Read p (u64 (WalOffset e))).
  destruct (Read p (u64 (WalOffset e))) as [msg|err|]; [|by exists d1|done].
  destruct (record_latency_ok (se_now env) e msg d1 (dk_serving k d1 Hok1)) as (d2 & Hd2 & Hs2 & _). rewrite Hd2. exists d2. split; [done|].
  unfold record_latency in Hd2. rewrite bind_Ok in Hd2. destruct Hd2 as (s & _ & Hd2). rewrite bind_Ok in Hd2.
  destruct Hd2 as (c & _ & [= <-]). destruct Hok1. by split.
Qed.

Lemma dqn_OnMetrics_keeps k lens m d : dqn_ok k d -> dqn_ok k (dqn_OnMetrics lens d m).
Proof.
  intros Hok. unfold dqn_OnMetrics. set (d1 := with_rates _ _ d). assert (Hok1 : dqn_ok k d1) by (destruct Hok; by split).
  destruct (ds_prevSnap d1) as [prev|]; [|done]. destruct (ds_currSnap d1) as [curr|]; [|done].
  assert (Hr : forall d2 r, computePerPriorityReward lens d1 = (d2, r) -> dqn_ok k d2).
  { intros d2 r. unfold computePerPriorityReward. destruct (reward_loop _ _ _ _ _) as [rw tw].
    destruct Hok1 as [(Hs1 & Hs2 & _ & _)]. cbn [ds_lastPI with_latency]. destruct (ds_lastPI d1); intros [= <- _]; by split. }
  destruct (computePerPriorityReward lens d1) as [d2 r]. specialize (Hr d2 r eq_refl).
  unfold send_exp. destruct (Nat.ltb_spec (length (ds_expCh d2)) DefaultDQNSchedExpChSize); [|done].
  destruct Hr. split; try done. cbn [ds_expCh with_expCh]. rewrite length_app. cbn [length]. lia.
Qed.

Lemma dqn_run_ok k d evs :
  dqn_ok k d -> Forall dqn_event_ok evs -> k + Z.of_nat (length evs) < 2 ^ 63 ->
  exists d', dqn_run d evs = Ok d' /\ dqn_ok (k + Z.of_nat (length evs)) d'.
Proof.
  intros Hok Hevs. revert k d Hok. induction Hevs as [|ev evs Hev _ IH]; intros k d Hok Hk; cbn [dqn_run length].
  { exists d. split; [done|]. by rewrite Z.add_0_r. }
  cbn [length] in Hk.
  assert (Hstep : exists d1, dqn_step d ev = Ok d1 /\ dqn_ok (k + 1) d1).
  { destruct ev as [env p off|lens m|heap|rnd pick].
    - destruct (dqn_Next_keeps k env p off d Hok Hev) as (d1 & H1 & H2). exists d1. split; [done|]. apply (dqn_ok_mono k); [lia|done].
    - eexists. split; [done|]. apply (dqn_ok_mono k); [lia|]. by apply dqn_OnMetrics_keeps.
    - destruct (policy_tick_total k heap d Hok Hev) as (d1 & H1 & H2). exists d1. split; [done|]. apply (dqn_ok_mono k); [lia|done].
    - apply train_receive_total; [done|lia|done]. }
  destruct Hstep as (d1 & -> & Hok1). rewrite Ok_bind.
  destruct (IH (k + 1) d1 Hok1) as (d' & Hrun & Hok'); [lia|]. exists d'. split; [done|].
  by replace (k + Z.of_nat (S (length evs))) with (k + 1 + Z.of_nat (length evs)) by lia.
Qed.

(** *** The new scheduler *)

Lemma expert_transition_total rnd : exists t, expert_transition DefaultDQNSchedStateSize rnd = Ok t.
Proof. by eexists. Qed.

Lemma seed_loop_ok rnd n b :
  per_ok b -> per_writeIdx b + Z.of_nat n < 2 ^ 63 ->
  exists b', seed_loop DefaultDQNSchedStateSize rnd n b = Ok b' /\ per_ok b' /\ per_writeIdx b' = per_writeIdx b + Z.of_nat n.
Proof.
  revert b. induction n as [|n IH]; intros b Hb Hn; cbn [seed_loop]; [exists b; split_and!; [done|done|lia]|].
  destruct (expert_transition_total (rnd n)) as (t & ->). rewrite Ok_bind.
  destruct (per_Push_ok b t Hb) as (b1 & -> & Hb1 & _ & Hw & _); [lia|]. rewrite Ok_bind.
  destruct (IH b1 Hb1) as (b2 & -> & Hb2 & Hw2); [lia|]. exists b2. split_and!; [done|done|lia].
Qed.

Lemma NewDQNScheduler_ok (rnd : nat -> nat -> float) (net : Net) :
  exists d, NewDQNScheduler rnd net [] = Ok d /\ dqn_ok (Z.of_nat dqnSchedExpertSeeds) d.
Proof.
  unfold NewDQNScheduler, NewPrioritizedReplayBuffer, NewReplayBuffer. cbn [Z.ltb Z.compare DefaultDQNSchedReplayBufSize dqnSchedCrisisBufSize].
  rewrite !Ok_bind. cbn [apply_opts]. rewrite Ok_bind. cbn [ds_stateSize ds_batchSize].
  unfold NewRunningNormalizer. change (DefaultDQNSchedStateSize <? 0) with false. cbv iota. rewrite Ok_bind. rewrite decide_False by done.
  unfold seedExpertTransitions. cbn [ds_stateSize ds_replay with_policy with_observed with_training].
  match goal with |- context [seed_loop _ _ _ ?b] => destruct (seed_loop_ok rnd dqnSchedExpertSeeds b) as (b' & -> & Hb' & Hw') end.
  { unfold per_ok. cbn [per_capacity per_size per_writeIdx per_transitions per_priorities]. rewrite !length_replicate. unfold DefaultDQNSchedReplayBufSize. split_and!; lia || done. }
  { cbn [per_writeIdx]. unfold dqnSchedExpertSeeds. lia. }
  rewrite Ok_bind. eexists. split; [done|]. cbn [per_writeIdx] in Hw'. split; try done.
  - split; [done|]. cbn [ds_replay with_buffers]. lia.
  - cbn [ds_expCh with_buffers with_policy with_observed with_training length]. lia.
Qed.

(** C28: A new scheduler never panics, in no interleaving of deliveries, metrics,
    policy ticks and training, whatever the network answers, as long as its
    answers have the declared shapes: the threshold stays a valid priority and the
    experience channel within its capacity. *)
Theorem dqn_never_panics (rnd : nat -> nat -> float) (net : Net) (evs : list dqn_event) :
  Forall dqn_event_ok evs -> Z.of_nat (length evs) < 2 ^ 62 ->
  exists d d', NewDQNScheduler rnd net [] = Ok d /\ dqn_run d evs = Ok d' /\
    0 <= ds_cachedThreshold d' < Z.of_nat MaxPriority /\ (length (ds_expCh d') <= DefaultDQNSchedExpChSize)%nat.
Proof.
  intros Hevs Hk. destruct (NewDQNScheduler_ok rnd net) as (d & Hd & Hok).
  destruct (dqn_run_ok _ d evs Hok Hevs) as (d' & Hrun & [(_ & Hc & _) (_ & Ha)]); [unfold dqnSchedExpertSeeds; lia|].
  exists d, d'. split; [done|]. split; [done|]. split; [|done]. unfold DefaultDQNSchedActions in Ha. lia.
Qed.
End steps.

(** ** The properties at a concrete scheduler *)

(** A network that always prefers threshold 3. *)
Definition fixed_net : QNet unit := {|
  net_forward := fun _ _ => Floats64 [0; 0; 0; 1; 0; 0; 0; 0; 0; 0]%float;
  net_bestActions := fun _ states => Floats64 ((fun _ => 3%float) <$> states);
  net_targetQ := fun _ states _ => Floats64 ((fun _ => 1%float) <$> states);
  net_batchQ := fun _ states _ => Floats32 ((fun _ => 0.5%float) <$> states);
  net_train := fun net _ _ _ _ => (net, Float64 0.25);
  net_soft := fun _ net => net;
|}.

Lemma fixed_net_laws : QNetLaws unit (Z.to_nat DefaultDQNSchedActions) (Q := fixed_net).
Proof. split; intros; cbn; [done|apply length_fmap..]. Qed.

Section sample.
Local Existing Instance fixed_net.
Local Existing Instance fixed_net_laws.
Local Existing Instance linear_math.

(** A scheduler with the threshold 3, and one that always explores. *)
Definition small_dqn (eps : float) : DQNScheduler unit :=
  mkDQN DefaultDQNSchedStateSize DefaultDQNSchedActions eps DefaultDQNSchedGamma DefaultDQNSchedLearningRate 1 128 32 64 4
    (mkTarget tt 0 10 0) two_weights (mkReplay [None; None] 2 0) (NewBetaSchedule 0 1 5) (mkNormalizer 0 [] [] 0) [] [] None 5 3
    None None (replicate MaxPriority 0) (replicate MaxPriority 0) 0 0 0 0 0 0.

Lemma sample_readable : Forall (readable sample_partition) (by_priority sample_index).
Proof.
  assert (Hb : by_priority sample_index = [mkEntry 2 200; mkEntry 1 100; mkEntry 3 50; mkEntry 4 60]) by (vm_compute; reflexivity).
  rewrite Hb. repeat apply List.Forall_cons; [..|apply List.Forall_nil]; intros H; vm_compute in H; discriminate H.
Qed.

(** Four entries are pending; five calls that explore get each of them and then
    no message. *)
Lemma dqn_delivers_each_once_witness :
  exists d' p' es, poll (fun _ => mkSchedEnv 0.5%float (fun n => 0) 900) (small_dqn 1) sample_partition 0 5 =
      (d', p', (deliver sample_partition <$> es) ++ [Err ErrNoMessages]) /\ es ≡ₚ by_priority sample_index.
Proof.
  destruct (dqn_delivers_each_once (fun _ => mkSchedEnv 0.5%float (fun n => 0) 900) (small_dqn 1) sample_partition sample_index 0 5
    eq_refl sample_index_wf ltac:(repeat split; vm_compute; reflexivity || discriminate) ltac:(intros k n Hn; cbn; lia) sample_readable)
    as (d' & pi' & es & Hp & _ & _ & Hperm & Hl).
  exists d', (with_index sample_partition (Some pi')), es. split; [exact Hp|].
  assert (Hlen : length (by_priority sample_index) = 4%nat) by (vm_compute; reflexivity). rewrite Hlen in Hl.
  assert (Hrest : by_priority pi' = []).
  { apply nil_length_inv. apply Permutation_length in Hperm. rewrite length_app, Hlen, Hl in Hperm. cbn in Hperm. lia. }
  rewrite Hrest, app_nil_r in Hperm. symmetry. exact Hperm.
Defined.

(** Two policy ticks over the same index, metrics that turn them into an
    experience, and the training loop that takes it. *)
Lemma dqn_never_panics_witness :
  exists d d', NewDQNScheduler (fun _ _ => 0.5%float) tt [] = Ok d /\
    dqn_run d [EvNext (mkSchedEnv 0.5%float (fun n => 0) 900) sample_partition 0; EvPolicy (fun _ => sample_index);
               EvPolicy (fun _ => sample_index); EvMetrics (fun _ => 4) zeroMetrics;
               EvTrain (fun _ => 0.5%float) (fun _ _ => 0)] = Ok d' /\
    0 <= ds_cachedThreshold d' < Z.of_nat MaxPriority.
Proof.
  destruct (dqn_never_panics (fun _ _ => 0.5%float) tt
    [EvNext (mkSchedEnv 0.5%float (fun n => 0) 900) sample_partition 0; EvPolicy (fun _ => sample_index);
     EvPolicy (fun _ => sample_index); EvMetrics (fun _ => 4) zeroMetrics; EvTrain (fun _ => 0.5%float) (fun _ _ => 0)])
    as (d & d' & Hd & Hrun & Hc & _).
  - repeat apply List.Forall_cons; [|exact (fun _ => sample_index_wf)|exact (fun _ => sample_index_wf)|exact I| |apply List.Forall_nil].
    + split; [intros n Hn; cbn; lia|]. intros pi [= <-]. exact (conj sample_index_wf sample_readable).
    + intros m i Hm. lia.
  - cbn [length]. lia.
  - exists d, d'. exact (conj Hd (conj Hrun Hc)).
Defined.

(** With the same latencies, waiting at priority 0 costs more reward than waiting
    at priority 9, although [PopHighest] serves 9 first. *)
Example reward_prefers_level_zero :
  let at_level (lv : nat) := with_latency (<[lv := 4000000000]> (<[5%nat := 1000000000]> (replicate MaxPriority 0)))
                       (<[lv := 1]> (<[5%nat := 1]> (replicate MaxPriority 0))) (small_dqn 0) in
  let reward_at lv := snd (computePerPriorityReward (fun _ => 0) (at_level lv)) in
  (reward_at 0%nat <? reward_at 9%nat)%float = true.
Proof. vm_compute. reflexivity. Qed.

(** The depth an overload is recognised by is compared with 1000 although the state
    is normalised: the expert states, which stand for overload, are not one. *)
Example expert_is_no_overload :
  match expert_transition DefaultDQNSchedStateSize (fun _ => 0.5%float) with
  | Ok t => isOverloadTransition t = false | _ => False end.
Proof. vm_compute. reflexivity. Qed.
End sample.
