(* ===== verification/DqnBalancer.v ===== *)
(** * The learning balancer (src/pkg/balancer/dqn.go, const.go)

    DQNBalancer picks the partition of greatest value according to a network that
    is trained on the reward of past metrics.  It explores with probability
    epsilon, and falls back to round robin while throughput is too low or load
    too high.  The network is a parameter ([QNet]); selection, the fallback, the
    reward, the state vector, the policy tick and the training loop are modelled.

    The fields of the struct are grouped in records by the operations that write
    them.  policyStateBuf is overwritten at each tick before it is read, and the
    capacities of the load slices do not show in their contents: neither is kept. *)

From S2P Require Import Prelude PriorityIndex GoFloat Metrics Balancer RoundRobin P2C NN NNProps QNet.

Definition DefaultDQNHiddenSize : Z := 128.
Definition DefaultDQNEpsilon : float := 0x1.999999999999ap-5%float.        (* 0.05 *)
Definition DefaultDQNGamma : float := 0x1.ccccccccccccdp-1%float.          (* 0.9 *)
Definition DefaultDQNLearningRate : float := 0x1.0624dd2f1a9fcp-10%float.  (* 0.001 *)
Definition DefaultDQNReplayBufSize : Z := 50000.
Definition DefaultDQNBatchSize : Z := 32.
Definition DefaultDQNMinReplay : Z := 64.
Definition DefaultDQNTrainEvery : Z := 4.
Definition DefaultDQNFallbackRatio : float := 0x1.999999999999ap-1%float.  (* 0.8 *)
Definition DefaultDQNLoadThreshold : float := 0.75%float.
Definition DefaultDQNExpChannelSize : nat := 4096.
Definition dqnThroughputScale : float := 10000%float.
Definition dqnMaxThroughput : float := 300000%float.
Definition dqnOverloadThreshold : float := 0x1.6666666666666p-1%float.     (* 0.7 *)
Definition dqnBaseBalanceWeight : float := 0.5%float.
(* dqnMaxBalanceWeight - dqnBaseBalanceWeight, an exact constant: 0.45 *)
Definition dqnBalanceWeightRange : float := 0x1.ccccccccccccdp-2%float.
Definition dqnMsgRateScale : float := 100000%float.
Definition dqnMsgSizeScale : float := 1024%float.
Definition dqnInflightScale : float := 10000%float.
Definition dqnNormalRateThreshold : float := 10000%float.
Definition dqnDepthSoftCap : float := 100000%float.
Definition dqnDepthWeight : float := 0x1.3333333333333p-2%float.           (* 0.3 *)
Definition fallbackEnterTicks : Z := 3.
Definition fallbackExitTicks : Z := 10.

Record policySnap : Type := mkPolicySnap { sn_state : list float; sn_action : Z; sn_gen : Z }.

(** Set by NewDQNBalancer and its options. *)
Record dqn_params : Type := mkParams {
  numPartitions : Z;
  hiddenSize : Z;
  epsilon : float;
  gamma : float;
  lr : float;
  huberDelta : float;
  dp_batchSize : Z;
  minReplay : Z;
  trainEvery : Z;
  fallbackRatio : float;
  loadThreshold : float;
}.

(** The hysteresis of the fallback. *)
Record fallback_state : Type := mkFallback {
  fallbackActive : bool;
  epsilonSuppressed : bool;
  consecutiveFallbackTicks : Z;
  consecutiveRecoveryTicks : Z;
}.

(** What stateMu protects. *)
Record observed : Type := mkObserved { loads : list float; predictedLoads : list float; msgRate : float; avgMsgSize : float }.

(** What a policy tick publishes, and which of it OnMetrics has used. *)
Record policy_state : Type := mkPolicy {
  adaptiveEpsilon : float;
  cachedQValues : option (list float);
  prevSnap : option policySnap;
  currSnap : option policySnap;
  snapGen : Z;
  lastProcessedGen : Z;
}.

(** What the training loop owns; [tl_steps] is its local counter. *)
Record learner (Net : Type) : Type := mkLearner {
  targetNet : TargetNetwork Net;
  replayBuffer : PrioritizedReplayBuffer;
  betaSchedule : BetaSchedule;
  tl_steps : Z;
}.
Arguments mkLearner {Net}.
Arguments targetNet {Net}.
Arguments replayBuffer {Net}.
Arguments betaSchedule {Net}.
Arguments tl_steps {Net}.

Record DQNBalancer (Net : Type) : Type := mkDQNBal {
  db_params : dqn_params;
  db_stateSize : Z;
  db_learner : learner Net;
  db_normalizer : RunningNormalizer float;
  db_expCh : list Transition;
  db_fallbackRR : RoundRobin;
  db_baseThroughput : Z;
  db_fallback : fallback_state;
  db_observed : observed;
  db_droppedExperience : Z;
  db_inflight : option (list Z);
  db_policy : policy_state;
}.
Arguments mkDQNBal {Net}.
Arguments db_params {Net}.
Arguments db_stateSize {Net}.
Arguments db_learner {Net}.
Arguments db_normalizer {Net}.
Arguments db_expCh {Net}.
Arguments db_fallbackRR {Net}.
Arguments db_baseThroughput {Net}.
Arguments db_fallback {Net}.
Arguments db_observed {Net}.
Arguments db_droppedExperience {Net}.
Arguments db_inflight {Net}.
Arguments db_policy {Net}.

Section updates.
Context {Net : Type}.
Implicit Types d : DQNBalancer Net.

Definition set_params (p : dqn_params) d : DQNBalancer Net :=
  mkDQNBal p (db_stateSize d) (db_learner d) (db_normalizer d) (db_expCh d) (db_fallbackRR d) (db_baseThroughput d)
    (db_fallback d) (db_observed d) (db_droppedExperience d) (db_inflight d) (db_policy d).
Definition set_learner (l : learner Net) d : DQNBalancer Net :=
  mkDQNBal (db_params d) (db_stateSize d) l (db_normalizer d) (db_expCh d) (db_fallbackRR d) (db_baseThroughput d)
    (db_fallback d) (db_observed d) (db_droppedExperience d) (db_inflight d) (db_policy d).
Definition set_exp (ch : list Transition) (dropped : Z) d : DQNBalancer Net :=
  mkDQNBal (db_params d) (db_stateSize d) (db_learner d) (db_normalizer d) ch (db_fallbackRR d) (db_baseThroughput d)
    (db_fallback d) (db_observed d) dropped (db_inflight d) (db_policy d).
Definition set_serving (rr : RoundRobin) (inf : option (list Z)) d : DQNBalancer Net :=
  mkDQNBal (db_params d) (db_stateSize d) (db_learner d) (db_normalizer d) (db_expCh d) rr (db_baseThroughput d)
    (db_fallback d) (db_observed d) (db_droppedExperience d) inf (db_policy d).
Definition set_base (b : Z) d : DQNBalancer Net :=
  mkDQNBal (db_params d) (db_stateSize d) (db_learner d) (db_normalizer d) (db_expCh d) (db_fallbackRR d) b
    (db_fallback d) (db_observed d) (db_droppedExperience d) (db_inflight d) (db_policy d).
Definition set_observed (o : observed) (f : fallback_state) d : DQNBalancer Net :=
  mkDQNBal (db_params d) (db_stateSize d) (db_learner d) (db_normalizer d) (db_expCh d) (db_fallbackRR d)
    (db_baseThroughput d) f o (db_droppedExperience d) (db_inflight d) (db_policy d).
Definition set_policy (rn : RunningNormalizer float) (pl : policy_state) d : DQNBalancer Net :=
  mkDQNBal (db_params d) (db_stateSize d) (db_learner d) rn (db_expCh d) (db_fallbackRR d) (db_baseThroughput d)
    (db_fallback d) (db_observed d) (db_droppedExperience d) (db_inflight d) pl.
End updates.

(** ** Options and construction *)

Definition DQNOption (Net : Type) : Type := DQNBalancer Net -> result (DQNBalancer Net).

Definition param_option {Net} (f : dqn_params -> dqn_params) : DQNOption Net := fun d => Ok (set_params (f (db_params d)) d).

Definition WithDQNEpsilon {Net} (e : float) : DQNOption Net := param_option (fun p =>
  mkParams (numPartitions p) (hiddenSize p) e (gamma p) (lr p) (huberDelta p) (dp_batchSize p) (minReplay p) (trainEvery p) (fallbackRatio p) (loadThreshold p)).
Definition WithDQNGamma {Net} (g : float) : DQNOption Net := param_option (fun p =>
  mkParams (numPartitions p) (hiddenSize p) (epsilon p) g (lr p) (huberDelta p) (dp_batchSize p) (minReplay p) (trainEvery p) (fallbackRatio p) (loadThreshold p)).
Definition WithDQNLearningRate {Net} (r : float) : DQNOption Net := param_option (fun p =>
  mkParams (numPartitions p) (hiddenSize p) (epsilon p) (gamma p) r (huberDelta p) (dp_batchSize p) (minReplay p) (trainEvery p) (fallbackRatio p) (loadThreshold p)).
Definition WithDQNHiddenSize {Net} (n : Z) : DQNOption Net := param_option (fun p =>
  mkParams (numPartitions p) n (epsilon p) (gamma p) (lr p) (huberDelta p) (dp_batchSize p) (minReplay p) (trainEvery p) (fallbackRatio p) (loadThreshold p)).
Definition WithDQNHuberDelta {Net} (delta : float) : DQNOption Net := param_option (fun p =>
  mkParams (numPartitions p) (hiddenSize p) (epsilon p) (gamma p) (lr p) delta (dp_batchSize p) (minReplay p) (trainEvery p) (fallbackRatio p) (loadThreshold p)).
Definition WithDQNBatchSize {Net} (n : Z) : DQNOption Net := param_option (fun p =>
  mkParams (numPartitions p) (hiddenSize p) (epsilon p) (gamma p) (lr p) (huberDelta p) n (minReplay p) (trainEvery p) (fallbackRatio p) (loadThreshold p)).
Definition WithDQNMinReplay {Net} (n : Z) : DQNOption Net := param_option (fun p =>
  mkParams (numPartitions p) (hiddenSize p) (epsilon p) (gamma p) (lr p) (huberDelta p) (dp_batchSize p) n (trainEvery p) (fallbackRatio p) (loadThreshold p)).
Definition WithDQNFallbackRatio {Net} (r : float) : DQNOption Net := param_option (fun p =>
  mkParams (numPartitions p) (hiddenSize p) (epsilon p) (gamma p) (lr p) (huberDelta p) (dp_batchSize p) (minReplay p) (trainEvery p) r (loadThreshold p)).
Definition WithDQNLoadThreshold {Net} (t : float) : DQNOption Net := param_option (fun p =>
  mkParams (numPartitions p) (hiddenSize p) (epsilon p) (gamma p) (lr p) (huberDelta p) (dp_batchSize p) (minReplay p) (trainEvery p) (fallbackRatio p) t).
Definition WithDQNTrainEvery {Net} (n : Z) : DQNOption Net := param_option (fun p =>
  mkParams (numPartitions p) (hiddenSize p) (epsilon p) (gamma p) (lr p) (huberDelta p) (dp_batchSize p) (minReplay p) n (fallbackRatio p) (loadThreshold p)).

(** An option that allocates: a negative capacity panics. *)
Definition WithDQNReplayBufSize {Net} (n : Z) : DQNOption Net := fun d =>
  b ← NewPrioritizedReplayBuffer n 0x1.3333333333333p-1;   (* 0.6 *)
  let l := db_learner d in
  Ok (set_learner (mkLearner (targetNet l) b (betaSchedule l) (tl_steps l)) d).

Fixpoint apply_options {Net} (opts : list (DQNOption Net)) (d : DQNBalancer Net) : result (DQNBalancer Net) :=
  match opts with [] => Ok d | opt :: opts => d ← opt d; apply_options opts d end.

(** [net]: the initial weights of both networks; tau and the synchronisation
    period are the defaults of NewTargetNetwork. *)
Definition NewDQNBalancer {Net} (net : Net) (n : Z) (opts : list (DQNOption Net)) : result (DQNBalancer Net) :=
  replay ← NewPrioritizedReplayBuffer DefaultDQNReplayBufSize 0x1.3333333333333p-1;
  if n <? 0 then Panic
  else
    let params := mkParams n DefaultDQNHiddenSize DefaultDQNEpsilon DefaultDQNGamma DefaultDQNLearningRate 1 DefaultDQNBatchSize
      DefaultDQNMinReplay DefaultDQNTrainEvery DefaultDQNFallbackRatio DefaultDQNLoadThreshold in
    let zeros := replicate (Z.to_nat n) 0%float in
    d ← apply_options opts
      (mkDQNBal params 0 (mkLearner (mkTarget net 0x1.47ae147ae147bp-8 10 0) replay (NewBetaSchedule 0 0 0) 0) (mkNormalizer 0 [] [] 0) []
         (NewRoundRobin []) 0 (mkFallback false false 0 0) (mkObserved zeros zeros 0 0) 0 None (mkPolicy 0 None None None 0 0));
    let stateSize := i64 (n * 3 + 2) in
    if dp_batchSize (db_params d) =? 0 then Panic
    else
      rn ← NewRunningNormalizer stateSize;
      let l := db_learner d in
      let beta := NewBetaSchedule 0x1.999999999999ap-2 1 (Z.quot DefaultDQNReplayBufSize (dp_batchSize (db_params d))) in
      Ok (mkDQNBal (db_params d) stateSize (mkLearner (targetNet l) (replayBuffer l) beta (tl_steps l)) rn (db_expCh d) (db_fallbackRR d)
            (db_baseThroughput d) (db_fallback d) (db_observed d) (db_droppedExperience d) (db_inflight d)
            (mkPolicy (epsilon (db_params d)) None None None 0 0)).

(** ** Selection *)

Definition argmax (s : list float) : Z := Z.of_nat (argmaxSched s).
Definition padOrTrunc (s : list float) (n : nat) : list float := padOrTruncSched s n.
Definition tensorToFloat64Slice (t : TensorValue) : list float := tensorToFloat64Sched t.

Section serving.
Context {Net : Type}.
Implicit Types d : DQNBalancer Net.

(** The array in use afterwards; allocating a negative number of counters panics. *)
Definition dqn_ensureInflight d (n : Z) : result (list Z) :=
  match db_inflight d with
  | Some arr => if n <=? Z.of_nat (length arr) then Ok arr else Ok (replicate (Z.to_nat n) 0)
  | None => if n <? 0 then Panic else Ok (replicate (Z.to_nat n) 0)
  end.

(** The chosen counter goes up by one, and the call returns. *)
Definition take_partition (rr : RoundRobin) (inf : list Z) (idx : Z) d : result (DQNBalancer Net * Z) :=
  inf ← inf_add inf idx 1; Ok (set_serving rr (Some inf) d, idx).

(** The first draw decides whether to explore, the second where. *)
Definition dqn_SelectPartition (rnd : draws) d (n : Z) : result (DQNBalancer Net * Z) :=
  inf ← dqn_ensureInflight d n;
  let fallback :=
    '(rr, idx) ← rr_SelectPartition (db_fallbackRR d) n;
    take_partition rr inf idx d in
  if fallbackActive (db_fallback d) then fallback
  else if negb (epsilonSuppressed (db_fallback d)) && (rand_Float64 rnd 0 <? adaptiveEpsilon (db_policy d))%float then
    idx ← IntN rnd 1 n;
    take_partition (db_fallbackRR d) inf idx d
  else
    match cachedQValues (db_policy d) with
    | Some cached =>
        if n <=? Z.of_nat (length cached) then
          if n <? 0 then Panic else take_partition (db_fallbackRR d) inf (argmax (take (Z.to_nat n) cached)) d
        else fallback
    | None => fallback
    end.

Definition dqn_OnPublishComplete d (partition : Z) : result (DQNBalancer Net) :=
  match db_inflight d with
  | Some arr =>
      if partition <? Z.of_nat (length arr) then
        if partition <? 0 then Panic else arr ← inf_add arr partition (-1); Ok (set_serving (db_fallbackRR d) (Some arr) d)
      else Ok d
  | None => Ok d
  end.

Definition dqn_SetBaseThroughput d (t : float) : DQNBalancer Net := set_base (to_int64 t) d.
Definition SetPredictedLoads d (predicted : list float) : DQNBalancer Net :=
  set_observed (mkObserved (loads (db_observed d)) predicted (msgRate (db_observed d)) (avgMsgSize (db_observed d))) (db_fallback d) d.
Definition IsFallbackActive d : bool := fallbackActive (db_fallback d).
Definition DroppedExperience d : Z := db_droppedExperience d.
End serving.

(** ** Reward and fallback *)

Section metrics.
Context {M : MathLib} {G : Gonum} {Net : Type}.
Implicit Types d : DQNBalancer Net.

Definition dqnThroughputLogNorm : float := math_Log1p (dqnMaxThroughput / dqnThroughputScale)%float.

Definition computeReward (m : Metrics) : float :=
  if decide (length (PartitionLoads m) = 0)%nat then 0%float
  else
    let meanLoad := stat_Mean (PartitionLoads m) in
    let balancePenalty :=
      if (0 <? meanLoad)%float then (- math_Min (stat_StdDev (PartitionLoads m) / meanLoad) 1)%float else 0%float in
    let utilityReward :=
      if (0 <? Throughput m)%float then (math_Log1p (Throughput m / dqnThroughputScale) / dqnThroughputLogNorm)%float else 0%float in
    let pressure := math_Min (meanLoad / dqnOverloadThreshold)%float 1 in
    let balanceW := (dqnBaseBalanceWeight + dqnBalanceWeightRange * pressure)%float in
    let reward := (balanceW * balancePenalty + (1 - balanceW) * utilityReward)%float in
    let totalDepth := foldl (fun t x => i64 (t + x)) 0 (QueueDepths m) in
    if 0 <? totalDepth then
      let normalized := (of_int totalDepth / dqnDepthSoftCap)%float in
      (reward + dqnDepthWeight * - math_Min (normalized * normalized) 1)%float
    else reward.

(** Throughput below the fallback ratio of the base, or the mean load above the
    threshold. *)
Definition shouldFallback (p : dqn_params) (base : Z) (m : Metrics) : bool :=
  let baseTP := of_int base in
  ((0 <? baseTP)%float && (Throughput m <? fallbackRatio p * baseTP)%float) ||
  ((0 <? loadThreshold p)%float && negb (bool_decide (PartitionLoads m = [])) &&
   (loadThreshold p <? foldl PrimFloat.add 0 (PartitionLoads m) / of_int (Z.of_nat (length (PartitionLoads m))))%float).

Definition fallback_tick (should : bool) (f : fallback_state) : fallback_state :=
  if should then
    let n := i64 (consecutiveFallbackTicks f + 1) in
    mkFallback (if fallbackEnterTicks <=? n then true else fallbackActive f) true n 0
  else
    let n := i64 (consecutiveRecoveryTicks f + 1) in
    if fallbackExitTicks <=? n then mkFallback false false 0 n
    else mkFallback (fallbackActive f) (epsilonSuppressed f) 0 n.

(** The transition between the last two snapshots, once per pair. *)
Definition send_transition (reward : float) d : DQNBalancer Net :=
  match prevSnap (db_policy d), currSnap (db_policy d) with
  | Some prev, Some curr =>
      if lastProcessedGen (db_policy d) <? sn_gen curr then
        let pl := db_policy d in
        let d := set_policy (db_normalizer d)
          (mkPolicy (adaptiveEpsilon pl) (cachedQValues pl) (prevSnap pl) (currSnap pl) (snapGen pl) (sn_gen curr)) d in
        let t := mkTransition (sn_state prev) [of_int (sn_action prev)] reward (sn_state curr) false in
        if (length (db_expCh d) <? DefaultDQNExpChannelSize)%nat then set_exp (db_expCh d ++ [t]) (db_droppedExperience d) d
        else set_exp (db_expCh d) (i64 (db_droppedExperience d + 1)) d
      else d
  | _, _ => d
  end.

Definition keep_nonempty (new old : list float) : list float := if decide (0 < length new)%nat then new else old.

Definition dqnbal_OnMetrics d (m : Metrics) : DQNBalancer Net :=
  let reward := computeReward m in
  let o := db_observed d in
  let d := set_observed
    (mkObserved (keep_nonempty (PartitionLoads m) (loads o)) (keep_nonempty (PredictedLoads m) (predictedLoads o)) (MsgRate m) (AvgMsgSize m))
    (fallback_tick (shouldFallback (db_params d) (db_baseThroughput d) m) (db_fallback d)) d in
  send_transition reward d.

#[export] Instance dqn_balancer : Balancer (DQNBalancer Net) := {|
  bal_SelectPartition rnd _ d _ _ n := dqn_SelectPartition rnd d n;
  bal_OnMetrics _ d m := Ok (dqnbal_OnMetrics d m);
  bal_OnPublishComplete := dqn_OnPublishComplete;
  bal_SetBaseThroughput := dqn_SetBaseThroughput;
  bal_DroppedExperience := DroppedExperience;
  bal_EvictionCount _ := 0;
|}.
End metrics.

(** ** The policy *)

Section policy.
Context {Net : Type} {Q : QNet Net}.
Implicit Types d : DQNBalancer Net.

(** The vector before it is normalised: loads, predicted loads, publishes in
    flight, message rate and size. *)
Definition bal_raw_state d : result (list float) :=
  let n := Z.to_nat (numPartitions (db_params d)) in
  let o := db_observed d in
  dst ← copy_at 0 (loads o) (replicate (Z.to_nat (db_stateSize d)) 0%float);
  dst ← copy_at n (predictedLoads o) dst;
  dst ← match db_inflight d with
        | Some arr => put_at (n * 2) ((fun x => of_int x / dqnInflightScale)%float <$> take n arr) dst
        | None => Ok dst
        end;
  Ok (<[(n * 3 + 1)%nat := (avgMsgSize o / dqnMsgSizeScale)%float]> (<[(n * 3)%nat := (msgRate o / dqnMsgRateScale)%float]> dst)).

Definition buildStateInto d : result (RunningNormalizer float * list float) :=
  dst ← bal_raw_state d;
  rn ← Observe (db_normalizer d) dst;
  Ok (rn, NormalizeInPlace rn dst).

(** Above the normal message rate epsilon shrinks with it. *)
Definition adapt_epsilon (eps rate : float) : float :=
  if (dqnNormalRateThreshold <? rate)%float then (eps * (dqnNormalRateThreshold / rate))%float else eps.

(** One tick of policyLoop. *)
Definition bal_policy_tick d : result (DQNBalancer Net) :=
  '(rn, state) ← buildStateInto d;
  let eps := adapt_epsilon (epsilon (db_params d)) (msgRate (db_observed d)) in
  let qValues := tensorToFloat64Slice (net_forward (tn_ctx (targetNet (db_learner d))) state) in
  let pl := db_policy d in
  let gen := i64 (snapGen pl + 1) in
  q ← subslice qValues 0 (Z.to_nat (numPartitions (db_params d)));
  let snap := mkPolicySnap state (argmax q) gen in
  Ok (set_policy rn (mkPolicy eps (Some qValues) (currSnap pl) (Some snap) gen (lastProcessedGen pl)) d).
End policy.

(** ** Training *)

Section training.
Context {M : MathLib} {Net : Type} {Q : QNet Net}.
Implicit Types d : DQNBalancer Net.

(** [rnd]: the draws of the prioritised sample. *)
Definition bal_trainStep (rnd : nat -> float) d : result (DQNBalancer Net * float) :=
  let l := db_learner d in
  if per_Len (replayBuffer l) <? minReplay (db_params d) then Ok (d, 0%float)
  else
    let '(beta, b) := beta_Next (betaSchedule l) in
    '(batch, indices, isWeights) ← per_Sample rnd (replayBuffer l) (dp_batchSize (db_params d)) b;
    if Z.of_nat (length batch) <? dp_batchSize (db_params d)
    then Ok (set_learner (mkLearner (targetNet l) (replayBuffer l) beta (tl_steps l)) d, 0%float)
    else
      '(tn, replay, loss) ← learn (gamma (db_params d)) (Z.to_nat (db_stateSize d)) batch indices isWeights (targetNet l) (replayBuffer l);
      Ok (set_learner (mkLearner tn replay beta (tl_steps l)) d, loss).

(** trainLoop on one transition from the channel. *)
Definition bal_train_receive (rnd : nat -> float) d : result (DQNBalancer Net) :=
  match db_expCh d with
  | [] => Ok d
  | t :: ch =>
      let l := db_learner d in
      replay ← per_Push (replayBuffer l) t;
      let steps := i64 (tl_steps l + 1) in
      let d := set_learner (mkLearner (targetNet l) replay (betaSchedule l) steps) (set_exp ch (db_droppedExperience d) d) in
      if trainEvery (db_params d) =? 0 then Panic
      else if Z.rem steps (trainEvery (db_params d)) =? 0 then ('(d, _) ← bal_trainStep rnd d; Ok d) else Ok d
  end.

(** trainLoop after Stop cancelled its context. *)
Definition bal_Stop d : result (DQNBalancer Net) :=
  let l := db_learner d in
  b ← drain_exp (db_expCh d) (replayBuffer l);
  Ok (set_learner (mkLearner (targetNet l) b (betaSchedule l) (tl_steps l)) (set_exp [] (db_droppedExperience d) d)).
End training.
