(* ===== verification/DqnBalancerProps.v ===== *)
(** * The learning balancer: what holds whatever the network says

    A pick is always a partition of the topic, so the broker's theorems apply to
    this balancer ([dqnbal_laws]); the fallback to round robin is a hysteresis
    over the verdicts on the metrics; no interleaving of its operations panics,
    and at most one experience is made per policy tick. *)

From S2P Require Import Prelude Runs PriorityIndex GoFloat Metrics Balancer RoundRobin P2C NN NNProps QNet DqnBalancer.

(** ** Selection *)

Section selection.
Context {Net : Type}.
Implicit Types d : DQNBalancer Net.

(** Whether a call explores. *)
Definition explores (rnd : draws) d : bool :=
  negb (epsilonSuppressed (db_fallback d)) && (rand_Float64 rnd 0 <? adaptiveEpsilon (db_policy d))%float.

Lemma dqn_ensureInflight_ok d n : 0 <= n -> exists inf, dqn_ensureInflight d n = Ok inf /\ n <= Z.of_nat (length inf).
Proof.
  intros Hn. unfold dqn_ensureInflight. destruct (db_inflight d) as [arr|].
  - destruct (Z.leb_spec n (Z.of_nat (length arr))); eexists; (split; [done|]); [done|]. rewrite length_replicate. lia.
  - rewrite (proj2 (Z.ltb_ge _ _)) by lia. eexists. split; [done|]. rewrite length_replicate. lia.
Qed.

Lemma argmax_range q : q <> [] -> 0 <= argmax q < Z.of_nat (length q).
Proof. intros Hq. pose proof (argmaxSched_lt q Hq). unfold argmax. lia. Qed.

(** The counters after a pick. *)
Definition counted_up (inf : list Z) (p : Z) : list Z := <[Z.to_nat p := i64 (inf !!! Z.to_nat p + 1)]> inf.

Lemma dqn_select_spec rnd d n :
  fair rnd -> 0 < n < 2 ^ 63 ->
  exists rr p inf, dqn_ensureInflight d n = Ok inf /\
    dqn_SelectPartition rnd d n = Ok (set_serving rr (Some (counted_up inf p)) d, p) /\ 0 <= p < n /\
    (rr_SelectPartition (db_fallbackRR d) n = Ok (rr, p) /\
       (IsFallbackActive d = true \/
        explores rnd d = false /\ forall q, cachedQValues (db_policy d) = Some q -> Z.of_nat (length q) < n) \/
     IsFallbackActive d = false /\ explores rnd d = true /\ p = rnd 1%nat n \/
     IsFallbackActive d = false /\ explores rnd d = false /\
       exists q, cachedQValues (db_policy d) = Some q /\ n <= Z.of_nat (length q) /\ p = argmax (take (Z.to_nat n) q)).
Proof.
  intros Hr Hn. destruct (dqn_ensureInflight_ok d n) as (inf & Hinf & Hlen); [lia|].
  unfold dqn_SelectPartition. rewrite Hinf, Ok_bind. unfold IsFallbackActive, take_partition. fold (explores rnd d).
  destruct (rr_SelectPartition_spec (db_fallbackRR d) n ltac:(lia)) as (j & _ & Hrr & _).
  match type of Hrr with _ = Ok (?r, ?i) => set (rr := r) in *; set (k := i) in *; assert (Hk : 0 <= k < n) by (apply Z.mod_pos_bound; lia) end.
  rewrite Hrr, Ok_bind. clearbody rr k.
  destruct (fallbackActive (db_fallback d)) eqn:Hfb.
  { exists rr, k, inf. rewrite inf_add_Ok, Ok_bind by lia. split; [done|]. split; [done|]. split; [lia|]. left. split; [done|]. by left. }
  destruct (explores rnd d) eqn:Hex.
  { unfold IntN. rewrite (proj2 (Z.leb_gt _ _)), Ok_bind by lia. pose proof (Hr 1%nat n ltac:(lia)) as Hd1.
    exists (db_fallbackRR d), (rnd 1%nat n), inf. rewrite inf_add_Ok, Ok_bind by lia. split; [done|]. split; [done|]. split; [lia|]. right. by left. }
  destruct (cachedQValues (db_policy d)) as [q|] eqn:Hq.
  2:{ exists rr, k, inf. rewrite inf_add_Ok, Ok_bind by lia. split; [done|]. split; [done|]. split; [lia|]. left. split; [done|]. by right. }
  destruct (Z.leb_spec n (Z.of_nat (length q))) as [Hnq|Hnq].
  - rewrite (proj2 (Z.ltb_ge _ _)) by lia.
    assert (Hl : length (take (Z.to_nat n) q) = Z.to_nat n) by (rewrite length_take; lia).
    pose proof (argmax_range (take (Z.to_nat n) q)) as Ha. rewrite Hl in Ha.
    assert (Hne : take (Z.to_nat n) q <> []) by (intros H0; rewrite H0 in Hl; cbn in Hl; lia). specialize (Ha Hne).
    exists (db_fallbackRR d), (argmax (take (Z.to_nat n) q)), inf. rewrite inf_add_Ok, Ok_bind by lia.
    split; [done|]. split; [done|]. split; [lia|]. right. right. split; [done|]. split; [done|]. by exists q.
  - exists rr, k, inf. rewrite inf_add_Ok, Ok_bind by lia. split; [done|]. split; [done|]. split; [lia|]. left. split; [done|]. right. split; [done|].
    intros q' [= <-]. lia.
Qed.

#[export] Instance dqnbal_laws {M : MathLib} {G : Gonum} : BalancerLaws (DQNBalancer Net).
Proof.
  refine {| bal_ok := fun _ => True |}; cbn.
  - intros rnd now d topic key n Hr _ Hn. destruct (dqn_select_spec rnd d n Hr Hn) as (rr & p & inf & _ & -> & Hp & _). eauto 10.
  - eauto.
  - intros d p _ Hp. unfold dqn_OnPublishComplete. destruct (db_inflight d) as [arr|]; [|eauto].
    destruct (Z.ltb_spec p (Z.of_nat (length arr))); [|eauto]. rewrite (proj2 (Z.ltb_ge _ _)), inf_add_Ok, Ok_bind by lia. eauto.
Defined.

(** Every pick is a partition of the topic, and its in-flight counter, no
    other, goes up.  In fallback the pick is round robin's; otherwise, when the
    call explores, it is the random draw; otherwise, when the network has valued
    at least as many partitions, it is one of greatest value, if the values are
    numbers; and when it has not, round robin's again. *)
Theorem dqn_select_policy (rnd : draws) (d : DQNBalancer Net) (n : Z) :
  fair rnd -> 0 < n < 2 ^ 63 ->
  exists d' p inf, dqn_SelectPartition rnd d n = Ok (d', p) /\ 0 <= p < n /\
    dqn_ensureInflight d n = Ok inf /\ db_inflight d' = Some (counted_up inf p) /\
    (IsFallbackActive d = true -> exists rr, rr_SelectPartition (db_fallbackRR d) n = Ok (rr, p)) /\
    (IsFallbackActive d = false -> explores rnd d = true -> p = rnd 1%nat n) /\
    (IsFallbackActive d = false -> explores rnd d = false -> forall q, cachedQValues (db_policy d) = Some q ->
       if n <=? Z.of_nat (length q)
       then Forall is_num (take (Z.to_nat n) q) ->
            exists w, q !! Z.to_nat p = Some w /\ forall j x, (j < Z.to_nat n)%nat -> q !! j = Some x -> (w <? x)%float = false
       else exists rr, rr_SelectPartition (db_fallbackRR d) n = Ok (rr, p)).
Proof.
  intros Hr Hn. destruct (dqn_select_spec rnd d n Hr Hn) as (rr & p & inf & Hinf & -> & Hp & Hcase).
  exists (set_serving rr (Some (counted_up inf p)) d), p, inf. split; [done|]. split; [done|]. split; [done|]. split; [done|].
  destruct Hcase as [[Hrr Hwhy]|[(Hf & He & ->)|(Hf & He & q & Hq & Hl & ->)]].
  - split; [by exists rr|]. split; [intros; destruct Hwhy as [|[]]; congruence|]. intros Hf _ q Hq.
    destruct Hwhy as [|[_ Hq']]; [congruence|]. rewrite (proj2 (Z.leb_gt _ _)) by (by apply Hq'). by exists rr.
  - split; [congruence|]. split; [done|]. congruence.
  - split; [congruence|]. split; [congruence|]. intros _ _ q' Hq'. rewrite Hq in Hq'. injection Hq' as <-.
    rewrite (proj2 (Z.leb_le _ _)) by done. intros Hnum.
    destruct (argmaxSched_greatest (take (Z.to_nat n) q)) as (w & Hw & Hmax); [|done|].
    { intros H0. apply (f_equal length) in H0. rewrite length_take in H0. cbn in H0. lia. }
    exists w. unfold argmax. rewrite Nat2Z.id. apply lookup_take_Some in Hw as [Hw _]. split; [done|].
    intros j x Hj Hx. apply (Hmax j). by rewrite lookup_take_lt.
Qed.
End selection.

(** ** Hysteresis *)

(** At some point [k] bad verdicts in a row, and since then never ten good ones. *)
Definition entered (k : nat) (vs : list bool) : Prop :=
  exists l1 l2, vs = l1 ++ replicate k true ++ l2 /\ ~ has_run (Z.to_nat fallbackExitTicks) false l2.

Lemma entered_true k vs : (0 < k)%nat -> entered k (vs ++ [true]) <-> entered k vs \/ (k <= trailing true (vs ++ [true]))%nat.
Proof.
  intros Hk. rewrite trailing_spec. split.
  - intros (l1 & l2 & H & Hno). destruct l2 as [|y l2 _] using rev_ind; [right; exists l1; by rewrite app_nil_r in H|].
    left. rewrite !app_assoc in H. apply app_inj_tail in H as [-> <-]. exists l1, l2. rewrite app_assoc. split; [done|].
    intros Hrun. apply Hno. apply has_run_snoc; [unfold fallbackExitTicks; lia|by left].
  - intros [(l1 & l2 & -> & Hno)|(l1 & ->)].
    + exists l1, (l2 ++ [true]). rewrite !app_assoc. split; [done|]. intros Hrun. apply has_run_snoc in Hrun; [|unfold fallbackExitTicks; lia].
      destruct Hrun as [|Ht]; [done|]. rewrite trailing_snoc in Ht. unfold fallbackExitTicks in Ht. cbn [Bool.eqb] in Ht. lia.
    + exists l1, []. rewrite app_nil_r. split; [done|]. intros (a & c & H). destruct a; done.
Qed.

Lemma entered_false k vs :
  (0 < k)%nat -> entered k (vs ++ [false]) <-> entered k vs /\ ~ (Z.to_nat fallbackExitTicks <= trailing false (vs ++ [false]))%nat.
Proof.
  intros Hk. destruct k as [|k]; [lia|]. split.
  - intros (l1 & l2 & H & Hno). rewrite replicate_S_end in H. destruct l2 as [|y l2 _] using rev_ind.
    { rewrite app_nil_r, app_assoc in H. apply app_inj_tail in H as [_ H]. done. }
    rewrite has_run_snoc in Hno by (unfold fallbackExitTicks; lia). pose proof H as Ht. rewrite !app_assoc in H. apply app_inj_tail in H as [-> <-]. split.
    + exists l1, l2. rewrite replicate_S_end, !app_assoc. split; [done|]. tauto.
    + rewrite <- !app_assoc in *. rewrite (app_assoc l1), (app_assoc (l1 ++ replicate k true)).
      change [true] with [negb false]. rewrite trailing_blocked. tauto.
  - intros [(l1 & l2 & -> & Hno) Ht]. exists l1, (l2 ++ [false]). rewrite !app_assoc. split; [done|].
    rewrite has_run_snoc by (unfold fallbackExitTicks; lia). intros [|Hrun]; [done|]. apply Ht.
    rewrite replicate_S_end, !app_assoc, <- (app_assoc _ l2). change [true] with [negb false]. by rewrite trailing_blocked.
Qed.

Lemma not_entered_nil k : (0 < k)%nat -> ~ entered k [].
Proof. intros Hk (l1 & l2 & H & _). destruct k as [|k]; [lia|]. destruct l1; done. Qed.

Definition fallback_new : fallback_state := mkFallback false false 0 0.

(** The four fields are functions of the verdicts so far. *)
Lemma fallback_tick_spec vs :
  Z.of_nat (length vs) < 2 ^ 63 ->
  let f := foldl (fun f v => fallback_tick v f) fallback_new vs in
  consecutiveFallbackTicks f = Z.of_nat (trailing true vs) /\ consecutiveRecoveryTicks f = Z.of_nat (trailing false vs) /\
  (fallbackActive f = true <-> entered (Z.to_nat fallbackEnterTicks) vs) /\ (epsilonSuppressed f = true <-> entered 1 vs).
Proof.
  induction vs as [|v vs IH] using rev_ind; intros Hlen f.
  { cbn. repeat split; try done; intros He; exfalso; revert He; apply not_entered_nil; unfold fallbackEnterTicks; lia. }
  rewrite length_app in Hlen. cbn [length] in Hlen. destruct IH as (Hf & Hr & Ha & Hs); [lia|]. subst f.
  rewrite foldl_app. cbn [foldl]. set (f := foldl _ fallback_new vs) in *.
  pose proof (trailing_le true vs). pose proof (trailing_le false vs). unfold fallback_tick. rewrite !trailing_snoc.
  destruct v; cbn [Bool.eqb]; rewrite i64_small by (unfold in_i64; lia).
  - rewrite !entered_true, trailing_snoc by (unfold fallbackEnterTicks; lia). cbn [Bool.eqb].
    cbn [consecutiveFallbackTicks consecutiveRecoveryTicks fallbackActive epsilonSuppressed]. rewrite <- Ha, <- Hs, Hf.
    split; [lia|]. split; [done|]. unfold fallbackEnterTicks in *. split; [|intuition lia].
    destruct (Z.leb_spec 3 (Z.of_nat (trailing true vs) + 1)); split; intros Hx; try done; try tauto; [right; lia|].
    destruct Hx as [|Hx]; [done|lia].
  - rewrite !entered_false, trailing_snoc by (unfold fallbackEnterTicks; lia). cbn [Bool.eqb]. rewrite <- Ha, <- Hs, Hr. unfold fallbackExitTicks.
    destruct (Z.leb_spec 10 (Z.of_nat (trailing false vs) + 1));
      cbn [consecutiveFallbackTicks consecutiveRecoveryTicks fallbackActive epsilonSuppressed];
      (split; [done|split; [lia|split; intuition (done || lia)]]).
Qed.

(** ** Interleavings *)

Inductive bal_event : Type :=
| BSelect (rnd : draws) (n : Z)
| BComplete (p : Z)
| BMetrics (m : Metrics)
| BSetBase (t : float)
| BSetPredicted (l : list float)
| BPolicy
| BTrain (rnd : nat -> float).

Section runs.
Context {M : MathLib} {G : Gonum} {Net : Type} {Q : QNet Net}.
Implicit Types d : DQNBalancer Net.

(** One step, with the pick it makes and the number of partitions it was made among. *)
Definition bal_step d (ev : bal_event) : result (DQNBalancer Net * list (Z * Z)) :=
  match ev with
  | BSelect rnd n => '(d, p) ← dqn_SelectPartition rnd d n; Ok (d, [(n, p)])
  | BComplete p => d ← dqn_OnPublishComplete d p; Ok (d, [])
  | BMetrics m => Ok (dqnbal_OnMetrics d m, [])
  | BSetBase t => Ok (dqn_SetBaseThroughput d t, [])
  | BSetPredicted l => Ok (SetPredictedLoads d l, [])
  | BPolicy => d ← bal_policy_tick d; Ok (d, [])
  | BTrain rnd => d ← bal_train_receive rnd d; Ok (d, [])
  end.

Fixpoint bal_run d (evs : list bal_event) : result (DQNBalancer Net * list (Z * Z)) :=
  match evs with
  | [] => Ok (d, [])
  | ev :: evs => '(d, ps) ← bal_step d ev; '(d, rest) ← bal_run d evs; Ok (d, ps ++ rest)
  end.

Definition bal_event_ok (ev : bal_event) : Prop :=
  match ev with
  | BSelect rnd n => fair rnd /\ 0 < n < 2 ^ 63
  | BComplete p => 0 <= p
  | _ => True
  end.

(** *** The verdicts *)

(** The verdicts on the metrics of a run; the base throughput is the last one set. *)
Fixpoint verdicts (p : dqn_params) (base : Z) (evs : list bal_event) : list bool :=
  match evs with
  | [] => []
  | BMetrics m :: evs => shouldFallback p base m :: verdicts p base evs
  | BSetBase t :: evs => verdicts p (to_int64 t) evs
  | _ :: evs => verdicts p base evs
  end.

(** What selections, completions, policy ticks and training leave alone. *)
Definition same_mode d d' : Prop :=
  db_params d' = db_params d /\ db_baseThroughput d' = db_baseThroughput d /\ db_fallback d' = db_fallback d.

Lemma send_transition_same r d : same_mode d (send_transition r d).
Proof.
  unfold send_transition. destruct (prevSnap (db_policy d)), (currSnap (db_policy d)); try done. destruct (_ <? _); [|done]. cbn zeta. by destruct (_ <? _)%nat.
Qed.

Lemma take_partition_same rr inf i d d' p : take_partition rr inf i d = Ok (d', p) -> same_mode d d'.
Proof. unfold take_partition. rewrite bind_Ok. intros (inf' & _ & [= <- _]). done. Qed.

Lemma select_same rnd d n d' p : dqn_SelectPartition rnd d n = Ok (d', p) -> same_mode d d'.
Proof.
  unfold dqn_SelectPartition. rewrite bind_Ok. intros (inf & _ & H).
  assert (Hfb : ('(rr, idx) ← rr_SelectPartition (db_fallbackRR d) n; take_partition rr inf idx d) = Ok (d', p) -> same_mode d d').
  { rewrite bind_Ok. intros ([rr i] & _ & Ht). by eapply take_partition_same. }
  destruct (fallbackActive _); [by apply Hfb|]. destruct (_ && _).
  - rewrite bind_Ok in H. destruct H as (i & _ & Ht). by eapply take_partition_same.
  - destruct (cachedQValues _); [|by apply Hfb]. destruct (_ <=? _); [|by apply Hfb]. destruct (_ <? _); [done|]. by eapply take_partition_same.
Qed.

Lemma complete_same d p d' : dqn_OnPublishComplete d p = Ok d' -> same_mode d d'.
Proof.
  unfold dqn_OnPublishComplete. destruct (db_inflight d); [|by intros [= <-]]. destruct (_ <? _); [|by intros [= <-]].
  destruct (_ <? _); [done|]. rewrite bind_Ok. intros (arr & _ & [= <-]). done.
Qed.

Lemma policy_same d d' : bal_policy_tick d = Ok d' -> same_mode d d'.
Proof. unfold bal_policy_tick. rewrite bind_Ok. intros ([rn s] & _ & H). rewrite bind_Ok in H. destruct H as (q & _ & [= <-]). done. Qed.

Lemma trainStep_same rnd d d' loss : bal_trainStep rnd d = Ok (d', loss) -> same_mode d d'.
Proof.
  unfold bal_trainStep. destruct (_ <? _); [by intros [= <- _]|]. destruct (beta_Next _) as [beta b]. rewrite bind_Ok.
  intros ([[batch idxs] ws] & _ & H). destruct (_ <? _); [by injection H as <- _|].
  rewrite bind_Ok in H. destruct H as ([[tn rep] l] & _ & [= <- _]). done.
Qed.

Lemma train_same rnd d d' : bal_train_receive rnd d = Ok d' -> same_mode d d'.
Proof.
  unfold bal_train_receive. destruct (db_expCh d) as [|t ch]; [by intros [= <-]|]. rewrite bind_Ok. intros (rep & _ & H).
  destruct (_ =? 0); [done|]. destruct (_ =? 0); [|by injection H as <-].
  rewrite bind_Ok in H. destruct H as ([d1 loss] & H & [= <-]). apply trainStep_same in H. exact H.
Qed.

Lemma bal_step_mode d ev d' ps :
  bal_step d ev = Ok (d', ps) ->
  db_params d' = db_params d /\
  db_baseThroughput d' = match ev with BSetBase t => to_int64 t | _ => db_baseThroughput d end /\
  db_fallback d' = match ev with BMetrics m => fallback_tick (shouldFallback (db_params d) (db_baseThroughput d) m) (db_fallback d)
                   | _ => db_fallback d end.
Proof.
  destruct ev; cbn [bal_step].
  - rewrite bind_Ok. intros ([d1 q] & H & [= <- _]). by eapply select_same.
  - rewrite bind_Ok. intros (d1 & H & [= <- _]). by eapply complete_same.
  - intros [= <- _]. unfold dqnbal_OnMetrics. match goal with |- context [send_transition ?r ?x] => destruct (send_transition_same r x) as (-> & -> & ->) end. done.
  - by intros [= <- _].
  - by intros [= <- _].
  - rewrite bind_Ok. intros (d1 & H & [= <- _]). by eapply policy_same.
  - rewrite bind_Ok. intros (d1 & H & [= <- _]). by eapply train_same.
Qed.

Lemma bal_run_mode evs d d' ps :
  bal_run d evs = Ok (d', ps) ->
  db_params d' = db_params d /\
  db_fallback d' = foldl (fun f v => fallback_tick v f) (db_fallback d) (verdicts (db_params d) (db_baseThroughput d) evs).
Proof.
  revert d ps. induction evs as [|ev evs IH]; intros d ps; cbn [bal_run]; [by intros [= <- _]|]. rewrite bind_Ok.
  intros ([d1 ps1] & H1 & H). rewrite bind_Ok in H. destruct H as ([d2 rest] & H2 & [= <- _]).
  apply bal_step_mode in H1 as (Hp & Hb & Hf). apply IH in H2 as (Hp2 & Hf2). split; [congruence|].
  rewrite Hf2, Hp, Hb, Hf. by destruct ev.
Qed.

Lemma verdicts_length p base evs : (length (verdicts p base evs) <= length evs)%nat.
Proof. revert base. induction evs as [|[] evs IH]; intros base; cbn [verdicts length]; auto using le_n_S, le_S with arith. Qed.

(** The options of the package: they set parameters, or the size of the buffer. *)
Inductive dqn_option : DQNOption Net -> Prop :=
| option_param f : dqn_option (param_option f)
| option_replay n : dqn_option (WithDQNReplayBufSize n).

Lemma apply_options_mode opts d d' :
  Forall dqn_option opts -> apply_options opts d = Ok d' -> db_fallback d' = db_fallback d /\ db_baseThroughput d' = db_baseThroughput d.
Proof.
  intros Hopts. revert d. induction Hopts as [|o opts Ho _ IH]; intros d; cbn [apply_options]; [by intros [= <-]|].
  rewrite bind_Ok. intros (d1 & H1 & H). apply IH in H as [-> ->]. destruct Ho as [f|n].
  - by injection H1 as <-.
  - unfold WithDQNReplayBufSize in H1. rewrite bind_Ok in H1. destruct H1 as (b & _ & [= <-]). done.
Qed.

Lemma NewDQNBalancer_mode (net : Net) n opts d :
  NewDQNBalancer net n opts = Ok d -> Forall dqn_option opts -> db_fallback d = fallback_new /\ db_baseThroughput d = 0.
Proof.
  unfold NewDQNBalancer. rewrite bind_Ok. intros (rep & _ & H) Hopts. destruct (_ <? _); [done|]. rewrite bind_Ok in H.
  destruct H as (d1 & H1 & H). destruct (_ =? _); [done|]. rewrite bind_Ok in H. destruct H as (rn & _ & [= <-]).
  apply apply_options_mode in H1 as [H1 H2]; [|done]. cbn [db_fallback db_baseThroughput] in *. by rewrite H1, H2.
Qed.

(** C30: The fallback is a hysteresis.  However selections, completions, policy
    ticks and training are interleaved with the metrics, the balancer is in
    fallback exactly when at some point three bad verdicts came in a row and
    since then never ten good ones in a row; exploration is suppressed exactly
    when there was a bad verdict and since then never ten good ones in a row. *)
Theorem fallback_hysteresis (net : Net) (n : Z) (opts : list (DQNOption Net)) (evs : list bal_event) (d d' : DQNBalancer Net) (picks : list (Z * Z)) :
  Forall dqn_option opts -> NewDQNBalancer net n opts = Ok d -> bal_run d evs = Ok (d', picks) -> Z.of_nat (length evs) < 2 ^ 63 ->
  let vs := verdicts (db_params d) 0 evs in
  (IsFallbackActive d' = true <-> entered 3 vs) /\ (epsilonSuppressed (db_fallback d') = true <-> entered 1 vs).
Proof.
  intros Hopts Hnew Hrun Hlen. destruct (NewDQNBalancer_mode net n opts d Hnew Hopts) as [Hf Hb].
  apply bal_run_mode in Hrun as [_ Hrun]. rewrite Hf, Hb in Hrun. pose proof (verdicts_length (db_params d) 0 evs) as Hv.
  unfold IsFallbackActive. rewrite Hrun. destruct (fallback_tick_spec (verdicts (db_params d) 0 evs)) as (_ & _ & Ha & Hs); [lia|].
  by split.
Qed.

(** *** No step panics *)

Context {actions : nat} {QL : QNetLaws Net actions}.

(** The state after at most [k] events, [g] of them policy ticks. *)
Record bal_inv (k g : Z) d : Prop := {
  bi_parts : numPartitions (db_params d) = Z.of_nat actions;
  bi_every : trainEvery (db_params d) <> 0;
  bi_batch : 0 <= dp_batchSize (db_params d);
  bi_size : db_stateSize d = Z.of_nat actions * 3 + 2;
  bi_norm : rn_size (db_normalizer d) = db_stateSize d /\ length (rn_mean (db_normalizer d)) = Z.to_nat (db_stateSize d) /\
            length (rn_m2 (db_normalizer d)) = Z.to_nat (db_stateSize d);
  bi_replay : per_ok (replayBuffer (db_learner d)) /\ per_writeIdx (replayBuffer (db_learner d)) <= k;
  bi_target : 0 < tn_syncEvery (targetNet (db_learner d));
  bi_exp : (length (db_expCh d) <= DefaultDQNExpChannelSize)%nat;
  bi_gen : snapGen (db_policy d) = g /\ 0 <= lastProcessedGen (db_policy d) <= g /\
           (forall s, currSnap (db_policy d) = Some s -> sn_gen s <= g);
  bi_count : 0 <= tl_steps (db_learner d) /\ 0 <= db_droppedExperience d /\
             tl_steps (db_learner d) + Z.of_nat (length (db_expCh d)) + db_droppedExperience d <= lastProcessedGen (db_policy d);
}.

Lemma bal_inv_mono k k' g d : k <= k' -> bal_inv k g d -> bal_inv k' g d.
Proof. intros Hk []. split; try done. split; [apply bi_replay0|]. destruct bi_replay0. lia. Qed.

(** The steps that serve change nothing the invariant is about. *)
Lemma bal_inv_serving k g rr inf d : bal_inv k g d -> bal_inv k g (set_serving rr inf d).
Proof. intros []. by split. Qed.

Lemma bal_raw_state_total k g d : bal_inv k g d -> exists s, bal_raw_state d = Ok s /\ length s = Z.to_nat (db_stateSize d).
Proof.
  intros []. unfold bal_raw_state. rewrite bi_parts0, Nat2Z.id, bi_size0.
  set (size := Z.to_nat (Z.of_nat actions * 3 + 2)). assert (Hsz : size = (actions * 3 + 2)%nat) by (unfold size; lia). clearbody size.
  assert (Hcopy : forall off (src dst : list float), length dst = size -> (off <= size)%nat ->
    exists dst', copy_at off src dst = Ok dst' /\ length dst' = size).
  { intros off src dst Hl Ho. unfold copy_at. rewrite decide_True by lia. eexists. split; [done|].
    rewrite !length_app, !length_take, length_drop. lia. }
  destruct (Hcopy 0%nat (loads (db_observed d)) (replicate size 0%float)) as (s1 & -> & H1); [apply length_replicate|lia|]. rewrite Ok_bind.
  destruct (Hcopy actions (predictedLoads (db_observed d)) s1) as (s2 & -> & H2); [done|lia|]. rewrite Ok_bind.
  destruct (db_inflight d) as [arr|].
  - unfold put_at. rewrite length_fmap, length_take. rewrite decide_True by lia. rewrite Ok_bind. eexists. split; [done|].
    rewrite !length_insert, !length_app, length_fmap, !length_take, length_drop. lia.
  - rewrite Ok_bind. eexists. split; [done|]. by rewrite !length_insert.
Qed.

Lemma bal_policy_tick_total k g d :
  bal_inv k g d -> g + 1 < 2 ^ 63 -> exists d', bal_policy_tick d = Ok d' /\ bal_inv k (g + 1) d'.
Proof.
  intros Hinv Hg. unfold bal_policy_tick, buildStateInto. destruct (bal_raw_state_total k g d Hinv) as (s & -> & Hs).
  pose proof Hinv as []. rewrite Ok_bind. destruct bi_norm0 as (Hn1 & Hn2 & Hn3).
  destruct (Observe_total (db_normalizer d) s _ Hn1 Hn2 Hn3) as (rn & -> & Hrn). rewrite !Ok_bind.
  unfold subslice, tensorToFloat64Slice. rewrite forward_shape, bi_parts0, Nat2Z.id, decide_True by lia. rewrite Ok_bind.
  eexists. split; [done|]. destruct bi_gen0 as (Hg1 & Hg2 & Hg3). rewrite Hg1, i64_small by (unfold in_i64; lia).
  split; try done. cbn [db_policy set_policy snapGen lastProcessedGen currSnap]. split; [done|]. split; [lia|].
  intros s' [= <-]. cbn. lia.
Qed.

Lemma bal_trainStep_total k g rnd d : bal_inv k g d -> exists d' loss, bal_trainStep rnd d = Ok (d', loss) /\ bal_inv k g d'.
Proof.
  intros Hinv. pose proof Hinv as []. unfold bal_trainStep. destruct (_ <? _); [eauto|]. destruct (beta_Next _) as [beta b].
  destruct bi_replay0 as [Hrep Hw].
  destruct (per_Sample_total rnd (replayBuffer (db_learner d)) (dp_batchSize (db_params d)) b Hrep bi_batch0) as (batch & idxs & ws & -> & Hidx).
  rewrite Ok_bind. destruct (_ <? _); [eexists _, _; split; [done|]; by split|].
  destruct (learn_total (gamma (db_params d)) (Z.to_nat (db_stateSize d)) batch idxs ws (targetNet (db_learner d)) (replayBuffer (db_learner d)))
    as (tn & rep & loss & -> & Hrep' & Hw' & Htn); [done|lia|done|].
  rewrite Ok_bind. eexists _, _. split; [done|]. split; try done. cbn [db_learner set_learner replayBuffer]. split; [done|]. by rewrite Hw'.
Qed.

Lemma bal_train_total k g rnd d :
  bal_inv k g d -> k + 1 < 2 ^ 63 -> g < 2 ^ 63 -> exists d', bal_train_receive rnd d = Ok d' /\ bal_inv (k + 1) g d'.
Proof.
  intros Hinv Hk Hg. unfold bal_train_receive. destruct (db_expCh d) as [|t ch] eqn:Hch.
  { exists d. split; [done|]. apply (bal_inv_mono k); [lia|done]. }
  pose proof Hinv as []. destruct bi_replay0 as [Hrep Hwi].
  destruct (per_Push_ok (replayBuffer (db_learner d)) t Hrep) as (rep & -> & Hrep' & _ & Hw & _); [lia|]. rewrite Ok_bind.
  set (d1 := set_learner _ _). rewrite Hch in bi_exp0, bi_count0. cbn [length] in bi_exp0, bi_count0.
  assert (Hinv1 : bal_inv (k + 1) g d1).
  { split; try done; cbn [db_learner set_learner set_exp db_expCh db_droppedExperience db_policy replayBuffer tl_steps d1].
    - split; [done|lia].
    - lia.
    - rewrite i64_small by (unfold in_i64; lia). lia. }
  rewrite (proj2 (Z.eqb_neq _ _)) by done. destruct (_ =? 0); [|eauto].
  destruct (bal_trainStep_total (k + 1) g rnd d1 Hinv1) as (d2 & loss & -> & Hinv2). rewrite Ok_bind. eauto.
Qed.

Lemma dqnbal_OnMetrics_inv k g m d : bal_inv k g d -> g < 2 ^ 63 -> bal_inv k g (dqnbal_OnMetrics d m).
Proof.
  intros Hinv Hg. unfold dqnbal_OnMetrics. set (d1 := set_observed _ _ d). assert (Hinv1 : bal_inv k g d1) by (destruct Hinv; by split).
  clearbody d1. clear Hinv d. generalize (computeReward m). intros r. unfold send_transition.
  destruct (prevSnap (db_policy d1)) as [prev|]; [|done]. destruct (currSnap (db_policy d1)) as [curr|] eqn:Hc; [|done].
  destruct (Z.ltb_spec (lastProcessedGen (db_policy d1)) (sn_gen curr)) as [Hlt|]; [|done].
  destruct Hinv1 as []. destruct bi_gen0 as (Hg1 & Hg2 & Hg3). specialize (Hg3 curr Hc) as Hcg.
  cbn [set_policy set_exp db_expCh db_droppedExperience].
  destruct (Nat.ltb_spec (length (db_expCh d1)) DefaultDQNExpChannelSize) as [Hroom|Hfull]; split; try done;
    cbn [set_policy set_exp db_expCh db_droppedExperience db_policy db_learner lastProcessedGen snapGen currSnap].
  - rewrite length_app. cbn [length]. lia.
  - split; [done|]. split; [lia|]. intros s [= <-]. done.
  - rewrite length_app. cbn [length]. lia.
  - split; [done|]. split; [lia|]. intros s [= <-]. done.
  - rewrite i64_small by (unfold in_i64; lia). lia.
Qed.

Definition is_policy (ev : bal_event) : Z := match ev with BPolicy => 1 | _ => 0 end.

Lemma bal_step_total k g d ev :
  bal_inv k g d -> bal_event_ok ev -> k + 1 < 2 ^ 63 -> g + 1 < 2 ^ 63 ->
  exists d' ps, bal_step d ev = Ok (d', ps) /\ bal_inv (k + 1) (g + is_policy ev) d' /\ Forall (fun '(n, p) => 0 <= p < n) ps.
Proof.
  intros Hinv Hev Hk Hg. assert (Hup : bal_inv (k + 1) g d) by (apply (bal_inv_mono k); [lia|done]).
  destruct ev; cbn [bal_step is_policy]; rewrite ?Z.add_0_r.
  - destruct Hev as [Hr Hn]. destruct (dqn_select_spec rnd d n Hr Hn) as (rr & p & inf & _ & -> & Hp & _). rewrite Ok_bind.
    eexists _, _. split; [done|]. split; [by apply bal_inv_serving|]. by apply List.Forall_cons.
  - destruct (OnPublishComplete_ok (BalancerLaws := dqnbal_laws) d p I Hev) as (d1 & H1 & _). cbn in H1. rewrite H1, Ok_bind.
    eexists _, _. split; [done|]. split; [|apply List.Forall_nil]. revert H1. unfold dqn_OnPublishComplete.
    destruct (db_inflight d); [|by intros [= <-]]. destruct (_ <? _); [|by intros [= <-]]. destruct (_ <? _); [done|].
    rewrite bind_Ok. intros (arr & _ & [= <-]). by apply bal_inv_serving.
  - eexists _, _. split; [done|]. split; [|apply List.Forall_nil]. apply dqnbal_OnMetrics_inv; [done|lia].
  - eexists _, _. split; [done|]. split; [|apply List.Forall_nil]. destruct Hup. by split.
  - eexists _, _. split; [done|]. split; [|apply List.Forall_nil]. destruct Hup. by split.
  - destruct (bal_policy_tick_total (k + 1) g d Hup Hg) as (d1 & -> & H1). rewrite Ok_bind. eexists _, _. split; [done|]. split; [done|apply List.Forall_nil].
  - destruct (bal_train_total k g rnd d Hinv Hk ltac:(lia)) as (d1 & -> & H1). rewrite Ok_bind. eexists _, _. split; [done|]. split; [done|apply List.Forall_nil].
Qed.

(** How many policy ticks a run has. *)
Definition policy_ticks (evs : list bal_event) : Z := zsum (is_policy <$> evs).

Lemma bal_run_total evs : forall k g d,
  bal_inv k g d -> Forall bal_event_ok evs -> k + Z.of_nat (length evs) < 2 ^ 63 -> g + Z.of_nat (length evs) < 2 ^ 63 ->
  exists d' ps, bal_run d evs = Ok (d', ps) /\ bal_inv (k + Z.of_nat (length evs)) (g + policy_ticks evs) d' /\
    Forall (fun '(n, p) => 0 <= p < n) ps.
Proof.
  induction evs as [|ev evs IH]; intros k g d Hinv Hevs Hk Hg; cbn [bal_run].
  { eexists _, _. split; [done|]. unfold policy_ticks. cbn. rewrite !Z.add_0_r. split; [done|apply List.Forall_nil]. }
  apply List.Forall_cons_iff in Hevs as [Hev Hevs]. cbn [length] in *.
  destruct (bal_step_total k g d ev Hinv Hev) as (d1 & ps1 & -> & Hinv1 & Hps1); [lia..|]. rewrite Ok_bind.
  assert (0 <= is_policy ev <= 1) by (destruct ev; cbn; lia).
  destruct (IH _ _ d1 Hinv1 Hevs) as (d2 & ps2 & -> & Hinv2 & Hps2); [lia..|]. rewrite Ok_bind. eexists _, _. split; [done|]. split.
  - unfold policy_ticks in *. cbn [fmap list_fmap zsum foldr]. fold (zsum (is_policy <$> evs)).
    replace (k + Z.of_nat (S (length evs))) with (k + 1 + Z.of_nat (length evs)) by lia. by rewrite Z.add_assoc.
  - by apply Forall_app.
Qed.

Lemma NewDQNBalancer_inv (net : Net) :
  Z.of_nat actions < 2 ^ 60 -> exists d, NewDQNBalancer net (Z.of_nat actions) [] = Ok d /\ bal_inv 0 0 d.
Proof.
  intros Hn. unfold NewDQNBalancer, NewPrioritizedReplayBuffer. cbn [Z.ltb Z.compare DefaultDQNReplayBufSize]. rewrite Ok_bind.
  rewrite (proj2 (Z.ltb_ge _ _)) by lia. cbn [apply_options]. rewrite Ok_bind. cbn [db_params dp_batchSize].
  change (DefaultDQNBatchSize =? 0) with false. cbv iota. unfold NewRunningNormalizer. rewrite i64_small by (unfold in_i64; lia).
  rewrite (proj2 (Z.ltb_ge _ _)) by lia. rewrite Ok_bind. eexists. split; [done|]. split; try done.
  - cbn. by rewrite !length_replicate.
  - cbn [db_expCh length]. lia.
Qed.

(** C31: From a new balancer over [actions] partitions no interleaving of its
    operations panics, whatever the network answers in the declared shapes and
    whatever topics it is asked about: each pick is a partition of its topic, the
    channel of experiences stays within its capacity, and the experiences trained
    on, waiting and dropped are at most one per policy tick, however often the
    metrics are reported. *)
Theorem dqn_balancer_safe (net : Net) (evs : list bal_event) :
  Z.of_nat actions < 2 ^ 60 -> Forall bal_event_ok evs -> Z.of_nat (length evs) < 2 ^ 63 ->
  exists d d' picks, NewDQNBalancer net (Z.of_nat actions) [] = Ok d /\ bal_run d evs = Ok (d', picks) /\
    Forall (fun '(n, p) => 0 <= p < n) picks /\ (length (db_expCh d') <= DefaultDQNExpChannelSize)%nat /\
    tl_steps (db_learner d') + Z.of_nat (length (db_expCh d')) + DroppedExperience d' <= policy_ticks evs.
Proof.
  intros Hn Hevs Hlen. destruct (NewDQNBalancer_inv net Hn) as (d & Hd & Hinv).
  destruct (bal_run_total evs 0 0 d Hinv Hevs) as (d' & ps & Hrun & [] & Hps); [lia..|].
  exists d, d', ps. split; [done|]. split; [done|]. split; [done|]. split; [done|].
  destruct bi_gen0 as (_ & Hl & _). unfold DroppedExperience. lia.
Qed.
End runs.

(** ** The properties at a concrete balancer *)

(** A network over three partitions that prefers the second. *)
Definition three_net : QNet unit := {|
  net_forward := fun _ _ => Floats64 [0; 2; 1]%float;
  net_bestActions := fun _ states => Floats64 ((fun _ => 1%float) <$> states);
  net_targetQ := fun _ states _ => Floats64 ((fun _ => 1%float) <$> states);
  net_batchQ := fun _ states _ => Floats32 ((fun _ => 0.5%float) <$> states);
  net_train := fun net _ _ _ _ => (net, Float64 0.25);
  net_soft := fun _ net => net;
|}.

Lemma three_net_laws : QNetLaws unit 3 (Q := three_net).
Proof. split; intros; cbn; [done|apply length_fmap..]. Qed.

(** The mean and no spread. *)
Definition mean_gonum : Gonum := {|
  stat_StdDev := fun _ => 0%float;
  stat_Mean := fun l => (foldl PrimFloat.add 0 l / of_int (Z.of_nat (length l)))%float;
|}.

Section sample.
Local Existing Instance three_net.
Local Existing Instance three_net_laws.
Local Existing Instance linear_math.
Local Existing Instance mean_gonum.

(** A balancer with small buffers, epsilon 0.05, and these values. *)
Definition small_balancer (q : option (list float)) (f : fallback_state) : DQNBalancer unit :=
  mkDQNBal (mkParams 3 128 0.05 0.9 0.001 1 32 64 4 0.8 0.75) 11 (mkLearner (mkTarget tt 0 10 0) two_weights (NewBetaSchedule 0 1 5) 0)
    (mkNormalizer 11 (replicate 11 0%float) (replicate 11 0%float) 0) [] (NewRoundRobin []) 0 f (mkObserved [] [] 0 0) 0 None
    (mkPolicy 0.05 q None None 0 0).

(** Half of [n] at each draw. *)
Definition half_draws : draws := fun _ n => n / 2.
Lemma half_draws_fair : fair half_draws.
Proof. intros k n Hn. unfold half_draws. split; [apply Z.div_pos; lia|apply Z.div_lt; lia]. Qed.

Lemma dqn_select_policy_witness :
  exists d' p, dqn_SelectPartition half_draws (small_balancer (Some [0; 2; 1]%float) fallback_new) 3 = Ok (d', p) /\ 0 <= p < 3 /\
    exists w, [0; 2; 1]%float !! Z.to_nat p = Some w.
Proof.
  destruct (dqn_select_policy half_draws (small_balancer (Some [0; 2; 1]%float) fallback_new) 3 half_draws_fair ltac:(lia))
    as (d' & p & inf & Hsel & Hp & _ & _ & _ & _ & Hq).
  exists d', p. split; [exact Hsel|]. split; [exact Hp|].
  destruct (Hq eq_refl ltac:(vm_compute; reflexivity) [0; 2; 1]%float eq_refl) as (w & Hw & _).
  - repeat apply List.Forall_cons; [..|apply List.Forall_nil]; eexists; vm_compute; reflexivity.
  - exists w. exact Hw.
Defined.

(** Metrics of three partitions under a load of 0.9. *)
Definition busy : Metrics :=
  mkMetrics 1000 0 0 1 0 0 [0.9; 0.9; 0.9]%float [] [] 0 0 0 0 0 0 zeroTime.

Definition busy_run : list bal_event := [BMetrics busy; BPolicy; BMetrics busy; BSelect half_draws 3; BPolicy; BMetrics busy].

Lemma busy_run_ok : Forall bal_event_ok busy_run.
Proof. repeat apply List.Forall_cons; try exact I; [|apply List.Forall_nil]. split; [exact half_draws_fair|lia]. Qed.

Lemma dqn_balancer_safe_witness :
  exists d d' picks, NewDQNBalancer tt 3 [] = Ok d /\ bal_run d busy_run = Ok (d', picks) /\
    Forall (fun '(n, p) => 0 <= p < n) picks /\ tl_steps (db_learner d') + Z.of_nat (length (db_expCh d')) + DroppedExperience d' <= 2.
Proof.
  destruct (dqn_balancer_safe (actions := 3) tt busy_run ltac:(lia) busy_run_ok ltac:(cbn [length busy_run]; lia))
    as (d & d' & picks & Hd & Hrun & Hp & _ & Hc).
  exists d, d', picks. exact (conj Hd (conj Hrun (conj Hp Hc))).
Defined.

(** Three busy reports in a row put a new balancer in fallback. *)
Lemma fallback_hysteresis_witness :
  exists d d' picks, NewDQNBalancer tt 3 [] = Ok d /\ bal_run d busy_run = Ok (d', picks) /\ IsFallbackActive d' = true.
Proof.
  destruct (NewDQNBalancer_inv (actions := 3) tt ltac:(lia)) as (d & Hd & Hinv).
  destruct (bal_run_total busy_run 0 0 d Hinv busy_run_ok ltac:(cbn [length busy_run]; lia) ltac:(cbn [length busy_run]; lia))
    as (d' & picks & Hrun & _ & _).
  exists d, d', picks. split; [exact Hd|]. split; [exact Hrun|].
  destruct (fallback_hysteresis tt 3 [] busy_run d d' picks ltac:(apply List.Forall_nil) Hd Hrun ltac:(cbn [length busy_run]; lia)) as [Hfb _].
  apply Hfb. assert (Hpar : match NewDQNBalancer tt 3 [] with Ok d => verdicts (db_params d) 0 busy_run = [true; true; true] | _ => False end)
    by (vm_compute; reflexivity).
  change (Z.of_nat 3) with 3 in Hd. rewrite Hd in Hpar. rewrite Hpar. exists [], []. split; [reflexivity|].
  intros (l1 & l2 & H). destruct l1; discriminate H.
Defined.

(** While round robin decides, the experience still blames the network's choice:
    the picks are the partitions 1 and 2, the recorded action is 1 both times
    the network was asked. *)
Example fallback_experience_action :
  match bal_run (small_balancer None (mkFallback true true 3 0)) [BPolicy; BSelect half_draws 3; BSelect half_draws 3; BPolicy; BMetrics busy] with
  | Ok (d, picks) => picks = [(3, 1); (3, 2)] /\ (tr_Action <$> db_expCh d) = [[1%float]]
  | _ => False
  end.
Proof. vm_compute. split; reflexivity. Qed.
End sample.
