(* ===== verification/Preprocessing.v ===== *)
(** * Preparing pilot runs (src/pkg/preprocessing)

    The sampler draws pilot configurations, pca.go thins them out, lasso.go finds
    the parameters that matter for throughput.  A matrix is its rows; gonum's
    vector functions and its singular value decomposition are parameters. *)

From stdpp Require Import sorting.
From S2P Require Import Prelude GoFloat FloatBounds Metrics Balancer.

(** The calls to gonum: [AddScaled dst a s] is [dst] after adding [a*s];
    [svd_V data] is the matrix V of the decomposition, or nothing when the
    factorization fails; [mul_T a b] is the product of [a] with the transpose of
    [b]. *)
Class GonumLA : Type := {
  floats_AddScaled : list float -> float -> list float -> list float;
  floats_Dot : list float -> list float -> float;
  floats_Max : list float -> float;
  floats_Scale : float -> list float -> list float;
  svd_V : list (list float) -> option (list (list float));
  mul_T : list (list float) -> list (list float) -> list (list float);
}.

(** The documented shapes. *)
Class GonumLALaws (G : GonumLA) : Prop := {
  AddScaled_length dst a s : length (floats_AddScaled dst a s) = length dst;
  Scale_length c s : length (floats_Scale c s) = length s;
  svd_V_shape data v d : svd_V data = Some v -> Forall (fun r => length r = d) data -> (0 < length data)%nat -> (0 < d)%nat ->
    length v = d /\ Forall (fun r => length r = Nat.min (length data) d) v;
  mul_T_shape a b : length (mul_T a b) = length a /\ Forall (fun r => length r = length b) (mul_T a b);
}.

Definition math_Ceil (f : float) : float :=
  match Prim2SF f with
  | S754_finite s m e =>
      if e <? 0 then
        let q := Z.pos m / 2 ^ (- e) in
        let up := if s then - q else (if Z.pos m mod 2 ^ (- e) =? 0 then q else q + 1) in
        if s && (up =? 0) then neg_zero else of_int up
      else f
  | _ => f
  end.

(** ** sampler.go *)

Record ParamRange : Type := mkRange { pr_Name : string; pr_Min : float; pr_Max : float }.

(** [rand.Shuffle]: from the last position down, swap with a drawn one at or
    before it; [d k] is the draw at position [k]. *)
Definition swap {A} (i j : nat) (l : list A) : list A :=
  match l !! i, l !! j with Some x, Some y => <[i := y]> (<[j := x]> l) | _, _ => l end.
Fixpoint shuffle_from {A} (d : nat -> Z) (i : nat) (l : list A) : list A :=
  match i with O => l | S i' => shuffle_from d i' (swap i (Z.to_nat (d i)) l) end.
Definition rand_Shuffle {A} (d : nat -> Z) (l : list A) : list A := shuffle_from d (length l - 1) l.

(** [rnd i]: the [i]-th rand.Float64(). *)
Definition latinHypercubeColumn (rnd : nat -> float) (d : nat -> Z) (n : nat) : list float :=
  rand_Shuffle d ((fun i => (of_int (Z.of_nat i) + rnd i) / of_int (Z.of_nat n))%float <$> seq 0 n).

(** The draws of column [j]. *)
Record SampleEnv : Type := mkSampleEnv { sp_rnd : nat -> nat -> float; sp_draw : nat -> nat -> Z }.

(** The value of range [r] at the fraction [x]. *)
Definition at_fraction (r : ParamRange) (x : float) : float := (pr_Min r + x * (pr_Max r - pr_Min r))%float.

(** The columns are computed one after the other and stored at [configs[i][j]]. *)
Definition set_column (j : nat) (col : list float) (configs : list (list float)) : list (list float) :=
  zip_with (fun row x => <[j := x]> row) configs col.
Fixpoint fill_columns (env : SampleEnv) (n j : nat) (ranges : list ParamRange) (configs : list (list float)) : list (list float) :=
  match ranges with
  | [] => configs
  | r :: ranges =>
      fill_columns env n (j + 1) ranges (set_column j (at_fraction r <$> latinHypercubeColumn (sp_rnd env j) (sp_draw env j) n) configs)
  end.
Definition GenerateConfigs (env : SampleEnv) (ranges : list ParamRange) (n : Z) : result (list (list float)) :=
  if n <? 0 then Panic
  else Ok (fill_columns env (Z.to_nat n) 0 ranges (replicate (Z.to_nat n) (replicate (length ranges) 0%float))).

(** [slices.SortFunc] by the first component; [sort] sorts by a key. *)
Definition GenerateConfigsSorted (sort : (list float -> float) -> list (list float) -> list (list float)) (env : SampleEnv)
    (ranges : list ParamRange) (n : Z) : result (list (list float)) :=
  configs ← GenerateConfigs env ranges n;
  if (1 <? n) && bool_decide (ranges = []) then Panic else Ok (sort (fun c => default 0%float (head c)) configs).

(** ** lasso.go *)

Section lasso.
Context {G : Gonum} {L : GonumLA}.

Definition softThreshold (x lambda : float) : float :=
  if (lambda <? x)%float then (x - lambda)%float
  else if (x <? - lambda)%float then (x + lambda)%float
  else 0%float.

(** Column [j] of the configurations, standardised. *)
Definition standardize (col : list float) : list float :=
  let m := stat_Mean col in
  let sd := stat_StdDev col in
  let sd := if (sd <? 1e-10)%float then 1%float else sd in
  (fun x => (x - m) / sd)%float <$> col.

(** One sweep of coordinate descent over the columns that are left. *)
Fixpoint sweep (fn alpha : float) (cols : list (list float)) (beta : list float) (residual : list float) (maxChange : float)
    : list float * list float * float :=
  match cols, beta with
  | col :: cols, b :: beta =>
      let residual := floats_AddScaled residual b col in
      let rho := (floats_Dot col residual / fn)%float in
      let b' := softThreshold rho alpha in
      let residual := floats_AddScaled residual (- b')%float col in
      let change := math_Abs (b' - b)%float in
      let maxChange := if (maxChange <? change)%float then change else maxChange in
      let '(rest, residual, maxChange) := sweep fn alpha cols beta residual maxChange in
      (b' :: rest, residual, maxChange)
  | _, _ => (beta, residual, maxChange)
  end.

(** At most [maxIter] sweeps, until no coefficient moves by the tolerance. *)
Fixpoint descend (iters : nat) (fn alpha : float) (cols : list (list float)) (beta residual : list float) : list float :=
  match iters with
  | O => beta
  | S iters =>
      let '(beta, residual, maxChange) := sweep fn alpha cols beta residual 0%float in
      if (maxChange <? 1e-6)%float then beta else descend iters fn alpha cols beta residual
  end.

Definition maxIter : nat := 1000.

(** The positions whose coefficient counts, from position [j] on. *)
Fixpoint significant (j : nat) (beta : list float) : list nat :=
  match beta with
  | [] => []
  | b :: beta => if (1e-8 <? math_Abs b)%float then j :: significant (j + 1) beta else significant (j + 1) beta
  end.

(** [copy(flat[i*d:], row)] for every row, then column [j] of the matrix. *)
Fixpoint flatten (d i : nat) (rows : list (list float)) (flat : list float) : result (list float) :=
  match rows with
  | [] => Ok flat
  | row :: rows => flat ← copy_at (i * d) row flat; flatten d (i + 1) rows flat
  end.
Definition column (n d : nat) (flat : list float) (j : nat) : list float :=
  (fun i => default 0%float (flat !! (i * d + j)%nat)) <$> seq 0 n.

Definition coefficients (configs : list (list float)) (throughputs : list float) (alpha : float) : result (list float) :=
  first ← index configs 0;
  let n := length configs in
  let d := length first in
  flat ← flatten d 0 configs (replicate (n * d) 0%float);
  (* mat.NewDense panics without columns, floats.SubTo on different lengths *)
  if decide (d = 0%nat) then Panic
  else if decide (length throughputs <> n) then Panic
  else
    let cols := (fun j => standardize (column n d flat j)) <$> seq 0 d in
    let yMean := stat_Mean throughputs in
    let Y := (fun t => t - yMean)%float <$> throughputs in
    Ok (descend maxIter (of_int (Z.of_nat n)) alpha cols (replicate d 0%float) Y).

Definition SelectParameters (configs : list (list float)) (throughputs : list float) (alpha : float)
    : result (list nat * list float) :=
  if decide (length configs = 0)%nat then Ok ([], [])
  else
    beta ← coefficients configs throughputs alpha;
    let indices := significant 0 beta in
    let weights := (fun j => math_Abs (default 0%float (beta !! j))) <$> indices in
    let maxW := floats_Max weights in
    Ok (indices,
        if decide (0 < length weights)%nat then (if (0 <? maxW)%float then floats_Scale (1 / maxW)%float weights else weights) else weights).
End lasso.

(** ** pca.go *)

(** The least and the greatest value of a column, by comparisons. *)
Definition col_min (col : list float) : float := foldl (fun m v => if (v <? m)%float then v else m) infinity col.
Definition col_max (col : list float) : float := foldl (fun m v => if (m <? v)%float then v else m) neg_infinity col.

(** Row [i] of the grid: the points of its [gridSize] columns. *)
Definition grid_coord (lo hi : float) (i gridSize : nat) : float :=
  (lo + (hi - lo) * of_int (Z.of_nat i) / of_int (Z.of_nat gridSize))%float.
Definition grid_targets (mins maxs : list float) (gridSize : nat) : list (list float) :=
  i ← seq 0 gridSize; j ← seq 0 gridSize;
  mret (zip_with (fun '(lo, hi) c => grid_coord lo hi c gridSize) (zip mins maxs) [i; j]).

(** The squared distance, summed up coordinate by coordinate. *)
Definition distance (p target : list float) : float :=
  foldl (fun s '(x, t) => s + (x - t) * (x - t))%float 0%float (zip p target).

(** The nearest unused row, from row [i] on; the first one of several. *)
Fixpoint nearest (i : nat) (rows : list (list float)) (target : list float) (used : list nat) (best : option nat) (bestDist : float)
    : option nat :=
  match rows with
  | [] => best
  | p :: rows =>
      if decide (i ∈ used) then nearest (i + 1) rows target used best bestDist
      else
        let dist := distance p target in
        if (dist <? bestDist)%float then nearest (i + 1) rows target used (Some i) dist
        else nearest (i + 1) rows target used best bestDist
  end.

(** One row per target, until [k] are selected; in the order of selection. *)
Fixpoint pick_rows (rows : list (list float)) (k : nat) (targets : list (list float)) (selected : list nat) : list nat :=
  match targets with
  | [] => selected
  | t :: targets =>
      if (k <=? length selected)%nat then selected
      else
        match nearest 0 rows t selected None infinity with
        | Some i => pick_rows rows k targets (selected ++ [i])
        | None => pick_rows rows k targets selected
        end
  end.

Definition grid_size (k : nat) : nat := Z.to_nat (to_int64 (math_Ceil (PrimFloat.sqrt (of_int (Z.of_nat k))))).

(** The grid over the projected rows. *)
Definition grid_points (projected : list (list float)) (numPC k : nat) : list (list float) :=
  let col j := (fun r => default 0%float (r !! j)) <$> projected in
  let mins := (fun j => col_min (col j)) <$> seq 0 numPC in
  let maxs := (fun j => col_max (col j)) <$> seq 0 numPC in
  grid_targets mins maxs (grid_size k).

Definition gridSelect (projected : list (list float)) (numPC k : nat) : list nat :=
  merge_sort Nat.le (pick_rows projected k (grid_points projected numPC k) []).

Section pca.
Context {L : GonumLA}.

(** [m[i][j]] for every [i] below [n] and [j] below [d]; a shorter row panics. *)
Definition row_prefix (d : nat) (row : list float) : result (list float) := subslice row 0 d.
Fixpoint rows_prefix (d : nat) (rows : list (list float)) : result (list (list float)) :=
  match rows with
  | [] => Ok []
  | row :: rows => r ← row_prefix d row; rest ← rows_prefix d rows; Ok (r :: rest)
  end.

Definition col_mean (rows : list (list float)) (j : nat) : float :=
  (foldl (fun s r => s + default 0 (r !! j)) 0 rows / of_int (Z.of_nat (length rows)))%float.

Definition SelectRepresentative (configs : list (list float)) (k : Z) : result (list (list float)) :=
  let n := length configs in
  if Z.of_nat n <=? k then Ok configs
  else
    first ← index configs 0;
    let d := length first in
    let prefix := if k <? 0 then Panic else subslice configs 0 (Z.to_nat k) in
    if decide (d = 0%nat) then prefix
    else
      rows ← rows_prefix d configs;
      let means := col_mean rows <$> seq 0 d in
      let data := (fun r => zip_with PrimFloat.sub r means) <$> rows in
      match svd_V data with
      | None => prefix
      | Some v =>
          let numPC := Nat.min 2 d in
          (* pcBasis.Set(i, j, vt.At(i, j)) *)
          top ← subslice v 0 numPC;
          basis ← rows_prefix d top;
          if k <? 0 then Panic   (* make([]int, 0, k) *)
          else
            let selected := gridSelect (mul_T data basis) numPC (Z.to_nat k) in
            Ok ((fun i => default [] (configs !! i)) <$> selected)
      end.
End pca.

(** ** Lemmas *)

Lemma swap_Permutation {A} i j (l : list A) : swap i j l ≡ₚ l.
Proof.
  unfold swap. destruct (l !! i) as [x|] eqn:Hi; [|done]. destruct (l !! j) as [y|] eqn:Hj; [|done].
  apply Permutation_inj. split; [by rewrite !length_insert|].
  exists (fun k => if decide (k = i) then j else if decide (k = j) then i else k). split.
  - intros k k' Hk. repeat case_decide; lia.
  - intros k. apply lookup_lt_Some in Hi as Hli, Hj as Hlj. case_decide as Hki; [subst k|case_decide as Hkj; [subst k|]].
    + rewrite list_lookup_insert_eq by (rewrite length_insert; done). done.
    + rewrite list_lookup_insert_ne, list_lookup_insert_eq by done. done.
    + by rewrite !list_lookup_insert_ne by done.
Qed.

Lemma shuffle_Permutation {A} d (l : list A) : rand_Shuffle d l ≡ₚ l.
Proof.
  unfold rand_Shuffle. generalize (length l - 1)%nat as i. intros i. revert l.
  induction i as [|i IH]; intros l; cbn [shuffle_from]; [done|]. by rewrite IH, swap_Permutation.
Qed.

(** The fractions before the shuffle. *)
Definition strata (rnd : nat -> float) (n : nat) : list float :=
  (fun i => (of_int (Z.of_nat i) + rnd i) / of_int (Z.of_nat n))%float <$> seq 0 n.

Lemma latin_column rnd d n : latinHypercubeColumn rnd d n ≡ₚ strata rnd n.
Proof. apply shuffle_Permutation. Qed.

(** Column [j] of the rows. *)
Definition col_of (j : nat) (rows : list (list float)) : list float := (fun r => default 0%float (r !! j)) <$> rows.

Lemma set_column_length j col rows : length col = length rows -> length (set_column j col rows) = length rows.
Proof. intros H. unfold set_column. rewrite length_zip_with. lia. Qed.

Lemma col_of_set_column j j' col rows d :
  length col = length rows -> Forall (fun r => length r = d) rows -> (j < d)%nat ->
  col_of j' (set_column j col rows) = if decide (j' = j) then col else col_of j' rows.
Proof.
  unfold col_of, set_column. intros Hl Hrows Hj. revert col Hl. induction Hrows as [|r rows Hr _ IH]; intros [|x col] Hl; try done.
  { by destruct (decide _). }
  cbn [length] in Hl. cbn [zip_with fmap list_fmap]. specialize (IH col ltac:(lia)). rewrite IH. destruct (decide (j' = j)) as [->|Hne].
  - by rewrite list_lookup_insert_eq by lia.
  - by rewrite list_lookup_insert_ne.
Qed.

Lemma set_column_rows j col rows d : Forall (fun r => length r = d) rows -> Forall (fun r => length r = d) (set_column j col rows).
Proof.
  unfold set_column. intros Hrows. revert col. induction Hrows as [|r rows Hr _ IH]; intros [|x col]; cbn [zip_with]; auto using List.Forall_nil.
  apply List.Forall_cons; [by rewrite length_insert|apply IH].
Qed.

Lemma fill_columns_spec env n d ranges : forall j configs,
  length configs = n -> Forall (fun r => length r = d) configs -> (j + length ranges <= d)%nat ->
  let rows := fill_columns env n j ranges configs in
  length rows = n /\ Forall (fun r => length r = d) rows /\
  (forall i, (i < j)%nat -> col_of i rows = col_of i configs) /\
  (forall i r, ranges !! i = Some r -> col_of (j + i) rows ≡ₚ at_fraction r <$> strata (sp_rnd env (j + i)%nat) n).
Proof.
  induction ranges as [|r ranges IH]; intros j configs Hn Hrows Hd; cbn [fill_columns]; [split_and!; done|].
  cbn [length] in Hd. set (col := at_fraction r <$> latinHypercubeColumn _ _ n).
  assert (Hcol : col ≡ₚ at_fraction r <$> strata (sp_rnd env j) n) by (unfold col; by rewrite latin_column).
  assert (Hlen : length col = length configs).
  { rewrite Hcol. unfold strata. rewrite !length_fmap, length_seq. done. }
  destruct (IH (j + 1)%nat (set_column j col configs)) as (H1 & H2 & H3 & H4);
    [by rewrite set_column_length|by apply set_column_rows|lia|].
  split; [done|]. split; [done|]. split.
  - intros i Hi. rewrite H3 by lia. rewrite (col_of_set_column j i col configs d) by (done || lia). by rewrite decide_False by lia.
  - intros [|i] r' Hr'; cbn in Hr'.
    + injection Hr' as <-. rewrite Nat.add_0_r, H3 by lia. rewrite (col_of_set_column j j col configs d) by (done || lia). by rewrite decide_True.
    + specialize (H4 i r' Hr'). by replace (j + S i)%nat with (j + 1 + i)%nat by lia.
Qed.

(** What rand.Float64() promises: every draw is in [0, 1). *)
Definition unit_draws (env : SampleEnv) : Prop :=
  forall j i, (0 <=? sp_rnd env j i)%float = true /\ (sp_rnd env j i <? 1)%float = true.

Lemma strata_in env j n i x :
  unit_draws env -> Z.of_nat n < 2 ^ 53 -> strata (sp_rnd env j) n !! i = Some x -> in_stratum (Z.of_nat n) (Z.of_nat i) x.
Proof.
  intros Henv Hn Hx. unfold strata in Hx. rewrite list_lookup_fmap, fmap_Some in Hx. destruct Hx as (i' & Hi & ->).
  apply lookup_seq in Hi as [-> Hi]. cbn [Nat.add]. destruct (Henv j i) as [H0 H1]. apply fdiv_stratum; [lia|done|done|by apply flt_le].
Qed.

(** C36: The pilot configurations are a Latin hypercube.  For [n] below 2^53 and
    draws in [0, 1), GenerateConfigs returns [n] rows with one value per parameter;
    the values of every column are, in some order, the points of the parameter's
    range at [n] fractions, of which the [i]-th lies between [i/n] and [(i+1)/n]
    as binary64 computes these.  The upper end is included: [i + u] may round up. *)
Theorem latin_hypercube (env : SampleEnv) (ranges : list ParamRange) (n : Z) :
  0 <= n < 2 ^ 53 -> unit_draws env ->
  exists configs, GenerateConfigs env ranges n = Ok configs /\ Z.of_nat (length configs) = n /\
    Forall (fun row => length row = length ranges) configs /\
    forall j r, ranges !! j = Some r ->
      exists fractions, Z.of_nat (length fractions) = n /\
        (forall i x, fractions !! i = Some x -> in_stratum n (Z.of_nat i) x) /\
        col_of j configs ≡ₚ at_fraction r <$> fractions.
Proof.
  intros Hn Henv. unfold GenerateConfigs. rewrite (proj2 (Z.ltb_ge _ _)) by lia. eexists. split; [done|].
  destruct (fill_columns_spec env (Z.to_nat n) (length ranges) ranges 0 (replicate (Z.to_nat n) (replicate (length ranges) 0%float)))
    as (H1 & H2 & _ & H4); [apply length_replicate| |lia|].
  - apply Forall_replicate. apply length_replicate.
  - split; [lia|]. split; [done|]. intros j r Hr. exists (strata (sp_rnd env j) (Z.to_nat n)).
    split; [unfold strata; rewrite length_fmap, length_seq; lia|]. split; [|apply (H4 j r Hr)].
    intros i x Hx. apply strata_in in Hx; [|done|lia]. by rewrite Z2Nat.id in Hx by lia.
Qed.

(** A draw at the top of the interval rounds into the next part: the upper ends
    cannot be excluded. *)
Example stratum_end_reached :
  let u := (1 - 0x1p-53)%float in (u <? 1)%float = true /\ ((of_int 3 + u) / of_int 4 = of_int 4 / of_int 4)%float.
Proof. split; reflexivity. Qed.

(** *** Representatives *)

Lemma nearest_spec rows target used : forall i best bestDist r,
  nearest i rows target used best bestDist = Some r ->
  best = Some r \/ (i <= r < i + length rows)%nat /\ r ∉ used.
Proof.
  induction rows as [|p rows IH]; intros i best bd r; cbn [nearest length]; [by left|]. case_decide as Hu.
  - intros H. apply IH in H as [|[]]; [by left|right; split; [lia|done]].
  - destruct (_ <? _)%float; intros H; apply IH in H as [H|[]]; try (by left); try (right; split; [lia|done]).
    injection H as <-. right. split; [lia|done].
Qed.

Lemma pick_rows_spec rows k targets : forall selected,
  NoDup selected -> Forall (fun i => (i < length rows)%nat) selected -> (length selected <= k)%nat ->
  let s := pick_rows rows k targets selected in
  NoDup s /\ Forall (fun i => (i < length rows)%nat) s /\ (length s <= k)%nat.
Proof.
  induction targets as [|t targets IH]; intros sel Hnd Hlt Hk; cbn [pick_rows]; [done|].
  destruct (Nat.leb_spec k (length sel)); [done|]. destruct (nearest 0 rows t sel None infinity) as [i|] eqn:Hi; [|by apply IH].
  apply nearest_spec in Hi as [|[Hi Hu]]; [done|]. apply IH.
  - apply list.NoDup_app. split; [done|]. split; [intros x Hx ->%list_elem_of_singleton; done|]. apply NoDup_singleton.
  - apply Forall_app. split; [done|]. apply Forall_singleton. lia.
  - rewrite length_app. cbn. lia.
Qed.

(** Some unused row is found when the distances are finite. *)
Lemma nearest_best rows target used : forall i b bestDist, exists r, nearest i rows target used (Some b) bestDist = Some r.
Proof.
  induction rows as [|p rows IH]; intros i b bd; cbn [nearest]; [eauto|]. case_decide; [apply IH|]. destruct (_ <? _)%float; apply IH.
Qed.

Lemma nearest_total rows target used : forall i,
  Forall (fun p => (distance p target <? infinity)%float = true) rows -> (exists j, (i <= j < i + length rows)%nat /\ j ∉ used) ->
  exists r, nearest i rows target used None infinity = Some r.
Proof.
  induction rows as [|p rows IH]; intros i Hfin (j & Hj & Hu); cbn [length] in Hj; [lia|].
  apply List.Forall_cons_iff in Hfin as [Hp Hfin]. cbn [nearest]. case_decide as Hi.
  - apply IH; [done|]. exists j. split; [|done]. assert (j <> i) by (by intros ->). lia.
  - rewrite Hp. apply nearest_best.
Qed.

Lemma unused_exists (used : list nat) (n : nat) : (length used < n)%nat -> exists j, (j < n)%nat /\ j ∉ used.
Proof.
  intros Hl. destruct (decide (Exists (fun j => j ∉ used) (seq 0 n))) as [He|He].
  - apply list.Exists_exists in He as (j & Hj & Hu). apply elem_of_seq in Hj. exists j. split; [lia|done].
  - exfalso. assert (Hsub : seq 0 n ⊆+ used).
    { apply NoDup_submseteq; [apply NoDup_seq|]. intros j Hj. destruct (decide (j ∈ used)) as [|Hu]; [done|].
      destruct He. apply list.Exists_exists. eauto. }
    apply submseteq_length in Hsub. rewrite length_seq in Hsub. lia.
Qed.

Lemma pick_rows_full rows k targets : forall selected,
  Forall (fun t => Forall (fun p => (distance p t <? infinity)%float = true) rows) targets -> (k <= length rows)%nat ->
  length (pick_rows rows k targets selected) = Nat.max (length selected) (Nat.min k (length selected + length targets)).
Proof.
  induction targets as [|t targets IH]; intros sel Hfin Hk; cbn [pick_rows length]; [lia|].
  apply List.Forall_cons_iff in Hfin as [Ht Hfin]. destruct (Nat.leb_spec k (length sel)); [lia|].
  destruct (nearest_total rows t sel 0 Ht) as (i & ->).
  - destruct (unused_exists sel (length rows)) as (j & Hj & Hu); [lia|]. exists j. split; [lia|done].
  - rewrite IH by done. rewrite length_app. cbn [length]. lia.
Qed.

Lemma grid_targets_length mins maxs g : length (grid_targets mins maxs g) = (g * g)%nat.
Proof.
  unfold grid_targets. assert (H : forall (f : nat -> list (list float)) l c, (forall x, length (f x) = c) -> length (l ≫= f) = (length l * c)%nat).
  { intros f l c Hf. induction l as [|x l IH]; [done|]. rewrite bind_cons, length_app, Hf, IH. cbn [length]. lia. }
  rewrite (H _ _ g); [by rewrite length_seq|]. intros i. rewrite (H _ _ 1%nat); [rewrite length_seq; lia|]. done.
Qed.

(** Reading a list at increasing positions gives a sublist of it. *)
Lemma picked_sublist {A} (x0 : A) l : forall off (idxs : list nat),
  StronglySorted Nat.lt idxs -> Forall (fun i => (off <= i < off + length l)%nat) idxs ->
  (fun i => default x0 (l !! (i - off)%nat)) <$> idxs `sublist_of` l.
Proof.
  induction l as [|x l IH]; intros off idxs Hs Hf.
  { destruct idxs as [|i idxs]; [done|]. apply List.Forall_cons_iff in Hf as [Hi _]. cbn in Hi. lia. }
  cbn [length] in Hf.
  assert (Hstep : forall js : list nat, StronglySorted Nat.lt js -> Forall (fun i => (off + 1 <= i < off + 1 + length l)%nat) js ->
    (fun i => default x0 ((x :: l) !! (i - off)%nat)) <$> js `sublist_of` l).
  { intros js Hjs Hfj. rewrite (list_fmap_ext _ (fun i => default x0 (l !! (i - (off + 1))%nat)) js); [by apply IH|].
    intros k j Hj. rewrite list.Forall_lookup in Hfj. specialize (Hfj k j Hj). replace (j - off)%nat with (S (j - (off + 1))) by lia. done. }
  destruct idxs as [|i idxs]; [apply sublist_nil_l|].
  apply StronglySorted_inv in Hs as [Hs Hlt]. apply List.Forall_cons_iff in Hf as [Hi Hf].
  assert (Hrest : Forall (fun j => (off + 1 <= j < off + 1 + length l)%nat) idxs).
  { rewrite !list.Forall_forall in *. intros j Hj. specialize (Hlt j Hj). specialize (Hf j Hj). cbn in Hlt. unfold Nat.lt in Hlt. lia. }
  destruct (decide (i = off)) as [->|Hne].
  - cbn [fmap list_fmap]. rewrite Nat.sub_diag. cbn [lookup list_lookup default]. apply sublist_skip. by apply Hstep.
  - apply sublist_cons. apply Hstep; [by apply SSorted_cons|]. apply List.Forall_cons; [lia|done].
Qed.

Lemma sorted_strict (l : list nat) : NoDup l -> StronglySorted Nat.lt (merge_sort Nat.le l).
Proof.
  intros Hnd. assert (Hnd' : NoDup (merge_sort Nat.le l)) by (by rewrite merge_sort_Permutation).
  assert (Hs : StronglySorted Nat.le (merge_sort Nat.le l)).
  { apply StronglySorted_merge_sort; [intros x y z; unfold Nat.le; lia|intros x y; unfold Nat.le; lia]. }
  induction Hs as [|x l' _ IH Hx]; [apply SSorted_nil|]. apply list.NoDup_cons in Hnd' as [Hnot Hnd']. apply SSorted_cons; [by apply IH|].
  rewrite list.Forall_forall in *. intros y Hy. specialize (Hx y Hy). unfold Nat.le, Nat.lt in *.
  assert (x <> y) by (by intros ->). lia.
Qed.

Lemma gridSelect_spec projected numPC k :
  StronglySorted Nat.lt (gridSelect projected numPC k) /\ Forall (fun i => (i < length projected)%nat) (gridSelect projected numPC k) /\
    (length (gridSelect projected numPC k) <= k)%nat.
Proof.
  unfold gridSelect. set (ts := grid_points _ _ _).
  destruct (pick_rows_spec projected k ts []) as (Hnd & Hlt & Hk); [apply NoDup_nil_2|apply List.Forall_nil|cbn; lia|].
  split; [by apply sorted_strict|]. rewrite merge_sort_Permutation. done.
Qed.

Lemma rows_prefix_Ok d rows : Forall (fun r => length r = d) rows -> rows_prefix d rows = Ok rows.
Proof.
  intros H. induction H as [|r rows Hr _ IH]; cbn [rows_prefix]; [done|]. unfold row_prefix, subslice.
  rewrite decide_True by lia. rewrite Ok_bind, IH, Ok_bind, Nat.sub_0_r, drop_0, take_ge by lia. done.
Qed.

Section representatives.
Context {L : GonumLA} {LL : GonumLALaws L}.

(** The rows around their mean, which the decomposition is asked for. *)
Definition centred (configs : list (list float)) (d : nat) : list (list float) :=
  (fun r => zip_with PrimFloat.sub r (col_mean configs <$> seq 0 d)) <$> configs.

Lemma centred_rows configs d : Forall (fun r => length r = d) configs -> Forall (fun r => length r = d) (centred configs d).
Proof.
  intros H. unfold centred. rewrite Forall_fmap. eapply list.Forall_impl; [exact H|]. intros r Hr. cbv beta in Hr. unfold compose.
  rewrite length_zip_with, length_fmap, length_seq. lia.
Qed.

Lemma SelectRepresentative_unfold configs k d :
  Forall (fun r => length r = d) configs -> (0 < d)%nat -> 0 <= k < Z.of_nat (length configs) ->
  SelectRepresentative configs k =
    match svd_V (centred configs d) with
    | None => Ok (take (Z.to_nat k) configs)
    | Some v =>
        top ← subslice v 0 (Nat.min 2 d);
        basis ← rows_prefix d top;
        Ok ((fun i => default [] (configs !! i)) <$> gridSelect (mul_T (centred configs d) basis) (Nat.min 2 d) (Z.to_nat k))
    end.
Proof.
  intros Hrows Hd Hk. unfold SelectRepresentative. rewrite (proj2 (Z.leb_gt _ _)) by lia.
  destruct configs as [|first rest] eqn:Hc; [cbn in Hk; lia|]. rewrite <- Hc in *. 
  replace (index configs 0) with (Ok first) by (by rewrite Hc). rewrite Ok_bind.
  assert (Hf : length first = d) by (rewrite Hc in Hrows; by apply List.Forall_cons_iff in Hrows as [? _]).
  rewrite Hf, decide_False by lia. rewrite rows_prefix_Ok, Ok_bind by done. fold (centred configs d).
  rewrite (proj2 (Z.ltb_ge k 0)) by lia. destruct (svd_V (centred configs d)); [done|].
  unfold subslice. rewrite decide_True by lia. by rewrite Nat.sub_0_r, drop_0.
Qed.

(** The distances from the projected rows to the grid points are finite. *)
Definition finite_grid (configs : list (list float)) (d k : nat) : Prop :=
  forall v, svd_V (centred configs d) = Some v ->
    let proj := mul_T (centred configs d) (take (Nat.min 2 d) v) in
    Forall (fun t => Forall (fun p => (distance p t <? infinity)%float = true) proj) (grid_points proj (Nat.min 2 d) k).

(** Thinning out [n] pilot configurations to [k < n] returns some of them, in
    their order and none twice, at most [k]; exactly [k] when the decomposition
    fails, or when all distances to the grid points are finite and the grid has
    [k] points.  It needs as many configurations as parameters. *)
Theorem representatives_chosen (configs : list (list float)) (k : Z) (d : nat) :
  Forall (fun r => length r = d) configs -> (0 < d <= length configs)%nat -> 0 <= k < Z.of_nat (length configs) ->
  exists chosen, SelectRepresentative configs k = Ok chosen /\ chosen `sublist_of` configs /\ Z.of_nat (length chosen) <= k /\
    (finite_grid configs d (Z.to_nat k) -> (Z.to_nat k <= grid_size (Z.to_nat k) * grid_size (Z.to_nat k))%nat ->
     Z.of_nat (length chosen) = k).
Proof.
  intros Hrows [Hd Hdn] Hk. rewrite (SelectRepresentative_unfold configs k d Hrows Hd Hk).
  destruct (svd_V (centred configs d)) as [v|] eqn:Hv.
  2:{ eexists. split; [done|]. split; [apply sublist_take|]. rewrite length_take. lia. }
  assert (Hcl : length (centred configs d) = length configs) by apply length_fmap.
  destruct (svd_V_shape _ _ d Hv (centred_rows _ _ Hrows)) as [Hvl Hvr]; [lia|done|]. rewrite Hcl, Nat.min_r in Hvr by lia.
  unfold subslice. rewrite decide_True by lia. rewrite Ok_bind, Nat.sub_0_r, drop_0.
  rewrite rows_prefix_Ok, Ok_bind by (by apply Forall_take).
  set (proj := mul_T _ _). assert (Hpl : length proj = length configs) by (unfold proj; rewrite (proj1 (mul_T_shape _ _)); done).
  destruct (gridSelect_spec proj (Nat.min 2 d) (Z.to_nat k)) as (Hs & Hlt & Hlen).
  eexists. split; [done|]. rewrite length_fmap. split; [|split; [lia|]].
  - rewrite (list_fmap_ext _ (fun i => default [] (configs !! (i - 0)%nat))) by (intros; by rewrite Nat.sub_0_r).
    apply picked_sublist; [done|]. eapply list.Forall_impl; [exact Hlt|]. intros i Hi. cbn in Hi. lia.
  - intros Hfin Hgrid. unfold gridSelect. rewrite merge_sort_Permutation, pick_rows_full.
    + unfold grid_points. rewrite grid_targets_length. cbn [length]. lia.
    + exact (Hfin v Hv).
    + lia.
Qed.

(** The rows of V are taken for principal components, and V has only as many
    columns as there are configurations when these are fewer than the
    parameters: reading a whole row of it panics. *)
Theorem few_configs_panic (configs : list (list float)) (k : Z) (d : nat) (v : list (list float)) :
  Forall (fun r => length r = d) configs -> (length configs < d)%nat -> 0 <= k < Z.of_nat (length configs) ->
  svd_V (centred configs d) = Some v -> SelectRepresentative configs k = Panic.
Proof.
  intros Hrows Hd Hk Hv. rewrite (SelectRepresentative_unfold configs k d Hrows ltac:(lia) Hk), Hv.
  assert (Hcl : length (centred configs d) = length configs) by apply length_fmap.
  destruct (svd_V_shape _ _ d Hv (centred_rows _ _ Hrows)) as [Hvl Hvr]; [lia|lia|]. rewrite Hcl, Nat.min_l in Hvr by lia.
  unfold subslice. rewrite decide_True by lia. rewrite Ok_bind, Nat.sub_0_r, drop_0.
  destruct v as [|r v]; [cbn in Hvl; lia|]. destruct (Nat.min 2 d) as [|m] eqn:Hm; [lia|]. cbn [take rows_prefix].
  apply List.Forall_cons_iff in Hvr as [Hr _]. unfold row_prefix, subslice. rewrite decide_False by lia. done.
Qed.
End representatives.

(** *** Significant parameters *)

Lemma significant_spec beta : forall j,
  StronglySorted Nat.lt (significant j beta) /\
  forall i, i ∈ significant j beta <-> (j <= i)%nat /\ exists b, beta !! (i - j)%nat = Some b /\ (1e-8 <? math_Abs b)%float = true.
Proof.
  induction beta as [|b beta IH]; intros j; cbn [significant].
  { split; [apply SSorted_nil|]. intros i. split; [intros []%not_elem_of_nil|]. intros (_ & b & H & _). done. }
  destruct (IH (j + 1)%nat) as [Hs Hin].
  assert (Hhead : forall i, (j <= i)%nat /\ (exists b', (b :: beta) !! (i - j)%nat = Some b' /\ (1e-8 <? math_Abs b')%float = true) <->
    (i = j /\ (1e-8 <? math_Abs b)%float = true) \/ i ∈ significant (j + 1) beta).
  { intros i. rewrite Hin. split.
    - intros (Hi & b' & Hb & Hsig). destruct (i - j)%nat as [|m] eqn:Hm; cbn in Hb; [injection Hb as <-; left; split; [lia|done]|].
      right. split; [lia|]. exists b'. by replace (i - (j + 1))%nat with m by lia.
    - intros [[-> Hsig]|(Hi & b' & Hb & Hsig)].
      + split; [lia|]. exists b. by rewrite Nat.sub_diag.
      + split; [lia|]. exists b'. by replace (i - j)%nat with (S (i - (j + 1))) by lia. }
  destruct (1e-8 <? math_Abs b)%float eqn:Hsig.
  - split.
    + apply SSorted_cons; [done|]. apply list.Forall_forall. intros i Hi. apply Hin in Hi as [Hi _]. unfold Nat.lt. lia.
    + intros i. rewrite Hhead, elem_of_cons. intuition.
  - split; [done|]. intros i. rewrite Hhead. intuition congruence.
Qed.

Section lasso_laws.
Context {G : Gonum} {L : GonumLA} {LL : GonumLALaws L}.

Lemma sweep_length fn alpha cols : forall beta residual mc,
  length (sweep fn alpha cols beta residual mc).1.1 = length beta.
Proof.
  induction cols as [|col cols IH]; intros [|b beta] residual mc; cbn [sweep]; try done.
  match goal with |- context [sweep fn alpha cols beta ?r ?m] => specialize (IH beta r m); destruct (sweep fn alpha cols beta r m) as [[rest res] m'] end.
  cbn in *. lia.
Qed.

Lemma descend_length iters fn alpha cols : forall beta residual, length (descend iters fn alpha cols beta residual) = length beta.
Proof.
  induction iters as [|iters IH]; intros beta residual; cbn [descend]; [done|].
  pose proof (sweep_length fn alpha cols beta residual 0%float) as Hs. destruct (sweep _ _ _ _ _ _) as [[beta' res] mc]. cbn in Hs.
  destruct (_ <? _)%float; [done|]. by rewrite IH.
Qed.

(** What SelectParameters returns when it does: increasing positions of columns,
    one weight for each. *)
Lemma SelectParameters_shape configs throughputs alpha indices weights first :
  SelectParameters configs throughputs alpha = Ok (indices, weights) -> configs !! 0%nat = Some first ->
  StronglySorted Nat.lt indices /\ Forall (fun i => (i < length first)%nat) indices /\ length weights = length indices.
Proof.
  unfold SelectParameters. intros H Hfirst. rewrite decide_False in H by (destruct configs; done).
  rewrite bind_Ok in H. destruct H as (beta & Hb & H).
  assert (Hlen : length beta = length first).
  { unfold coefficients, index in Hb. rewrite Hfirst in Hb. cbn [must] in Hb. rewrite Ok_bind in Hb.
    rewrite bind_Ok in Hb. destruct Hb as (flat & _ & Hb). cbv zeta in Hb.
    destruct (decide (length first = 0%nat)); [done|]. destruct (decide (length throughputs <> length configs)); [done|].
    match type of Hb with Ok ?x = _ => assert (Hx : x = beta) by congruence end. by rewrite <- Hx, descend_length, length_replicate. }
  injection H as <- <-. destruct (significant_spec beta 0) as [Hs Hin]. split; [done|]. split.
  - apply list.Forall_forall. intros i Hi. apply Hin in Hi as (_ & b & Hi & _). apply lookup_lt_Some in Hi. lia.
  - case_decide; [destruct (_ <? _)%float; [rewrite Scale_length|]|]; by rewrite length_fmap.
Qed.
End lasso_laws.

(** ** The properties at concrete inputs *)

(** Gonum without arithmetic of its own: the identity decomposition, and the first
    columns as projection. *)
Definition axis_gonum : GonumLA := {|
  floats_AddScaled := fun dst a s => zip_with (fun x y => x + a * y)%float dst (s ++ replicate (length dst - length s) 0%float);
  floats_Dot := fun a b => foldl PrimFloat.add 0%float (zip_with PrimFloat.mul a b);
  floats_Max := fun l => foldl math_Max neg_infinity l;
  floats_Scale := fun c l => (fun x => x * c)%float <$> l;
  svd_V := fun data => Some (replicate (length (default [] (head data))) (replicate (Nat.min (length data) (length (default [] (head data)))) 1%float));
  mul_T := fun a b => (fun r => take (length b) (r ++ replicate (length b) 0%float)) <$> a;
|}.

Lemma axis_gonum_laws : GonumLALaws axis_gonum.
Proof.
  split; unfold floats_AddScaled, floats_Scale, svd_V, mul_T, axis_gonum.
  - intros dst a s. rewrite length_zip_with, length_app, length_replicate. lia.
  - intros c s. apply length_fmap.
  - intros data v d [= <-] Hrows Hl Hd. destruct data as [|r data]; [cbn in Hl; lia|].
    apply List.Forall_cons_iff in Hrows as [Hr _]. change (default [] (head (r :: data))) with r. rewrite Hr, length_replicate. split; [done|].
    apply Forall_replicate. apply length_replicate.
  - intros a b. rewrite length_fmap. split; [done|]. rewrite Forall_fmap. apply list.Forall_true. intros r. unfold compose.
    rewrite length_take, length_app, length_replicate. lia.
Qed.

Section sample.
Local Existing Instance axis_gonum.
Local Existing Instance axis_gonum_laws.

Definition half_env : SampleEnv := mkSampleEnv (fun _ _ => 0.5%float) (fun _ _ => 0).

Lemma latin_hypercube_witness :
  exists configs fractions, GenerateConfigs half_env [mkRange "BatchSize" 1 1000; mkRange "LingerMs" 0 100] 4 = Ok configs /\
    (forall i x, fractions !! i = Some x -> in_stratum 4 (Z.of_nat i) x) /\ Z.of_nat (length fractions) = 4 /\
    col_of 1 configs ≡ₚ at_fraction (mkRange "LingerMs" 0 100) <$> fractions.
Proof.
  destruct (latin_hypercube half_env [mkRange "BatchSize" 1 1000; mkRange "LingerMs" 0 100] 4) as (configs & Hc & _ & _ & Hcol).
  - lia.
  - intros j i. split; reflexivity.
  - destruct (Hcol 1%nat (mkRange "LingerMs" 0 100) eq_refl) as (xs & Hl & Hin & Hp).
    exists configs, xs. split; [exact Hc|]. split; [exact Hin|]. split; [exact Hl|exact Hp].
Defined.

Definition five_configs : list (list float) := [[1; 0]; [2; 5]; [3; 1]; [4; 4]; [5; 2]]%float.

Lemma representatives_chosen_witness :
  exists chosen, SelectRepresentative five_configs 4 = Ok chosen /\ chosen `sublist_of` five_configs /\ Z.of_nat (length chosen) = 4.
Proof.
  destruct (representatives_chosen five_configs 4 2) as (chosen & Hc & Hsub & _ & Hfull).
  - repeat apply List.Forall_cons; try reflexivity. apply List.Forall_nil.
  - cbn. lia.
  - cbn. lia.
  - exists chosen. split; [exact Hc|]. split; [exact Hsub|]. apply Hfull.
    + intros v [= <-]. cbv zeta. apply (bool_decide_unpack _). vm_compute. exact I.
    + vm_compute. lia.
Defined.
End sample.
