(* ===== verification/Broker.v ===== *)
(** * The broker (src/pkg/broker/broker.go)

    The broker ties the components together: topics with their partitions,
    schedulers, the balancer and backpressure, offsets, metrics and the
    predictor.  Each method is a function from state to state that returns what
    the method returns; the background loops are the functions that run at each
    tick.  The atomically published snapshots ([configSnapshot], [runtimeSnap])
    are the fields [b_cfg .. b_factory]: a method reads them once.

    Parameters, besides those of the components: [os_RemoveAll], the order in
    which the topic map is visited, and per call the clock, the random draws and
    the pooled buffers.  Stopping goroutines (Start, Stopper) has no state here. *)

From S2P Require Import Prelude Message PriorityIndex Wal Compression GoFloat Config Partition Topic.
From S2P Require Import Backpressure OffsetStore LoadPredictor Metrics Balancer Scheduler.

(** [os.RemoveAll], and the order of ranging over the topic map. *)
Class BrokerEnv : Type := {
  os_RemoveAll : string -> result unit;
  range_topics : gset string -> list string;
}.
Class BrokerEnvLaws (E : BrokerEnv) : Prop := {
  range_topics_perm s : range_topics s ≡ₚ elements s;
}.

Definition metricsWarmupTicks : nat := 50.
Definition metricsHistoryCap : nat := 100.
Definition defaultPredictorWindowCap : nat := 100.
Definition defaultPredictorHorizon : nat := 8.

(** What one publish sees of the outside. *)
Record PubEnv : Type := mkPubEnv {
  pe_draws : nat -> draws;            (* the draws for the i-th message *)
  pe_now : Time;                      (* ProduceTime *)
  pe_clock : Z -> AppendClock;        (* by partition *)
  pe_pool : nat -> bytes;
  pe_acquire : Z -> option error;     (* the outcome of gate.sem.Acquire for a group *)
  pe_order : list (Z * list nat) -> list (Z * list nat);   (* the order in which the groups run *)
}.

Record PublishResult : Type := mkPublishResult {
  pr_Partition : Z;
  pr_Offset : Z;
  pr_Err : option error;
}.

Section broker.
Context {W : Wal} {K : Compressors} {F : Filepath} {D : Badger} {G : Gonum} {V : Govy} {R : MapRange} {E : BrokerEnv}.
Context {Bal : Type} {B : Balancer Bal} {Sch : Type} {Sc : Scheduler Sch}.

Record Broker : Type := mkBroker {
  (* configSnapshot *)
  b_cfg : Config;
  b_codec : Codec;
  b_gateCap : Z;
  (* runtimeSnap *)
  b_balancer : Bal;
  b_backpressure : option BackpressureController;
  b_factory : option (TopicConfig -> Sch);
  b_dataDir : string;
  b_topics : gmap string Topic;
  b_schedulers : gmap string Sch;
  b_metrics : MetricsCollector;
  b_throughputHistory : list float;
  b_predictor : LoadPredictor;
  b_offsetStore : option OffsetStore;
}.

Definition with_snap (b : Broker) (cfg : Config) (codec : Codec) (cap : Z) : Broker :=
  mkBroker cfg codec cap (b_balancer b) (b_backpressure b) (b_factory b) (b_dataDir b) (b_topics b)
    (b_schedulers b) (b_metrics b) (b_throughputHistory b) (b_predictor b) (b_offsetStore b).
Definition with_runtime (b : Broker) (bal : Bal) (bp : option BackpressureController) (f : option (TopicConfig -> Sch)) : Broker :=
  mkBroker (b_cfg b) (b_codec b) (b_gateCap b) bal bp f (b_dataDir b) (b_topics b)
    (b_schedulers b) (b_metrics b) (b_throughputHistory b) (b_predictor b) (b_offsetStore b).
Definition with_topics (b : Broker) (ts : gmap string Topic) : Broker :=
  mkBroker (b_cfg b) (b_codec b) (b_gateCap b) (b_balancer b) (b_backpressure b) (b_factory b) (b_dataDir b) ts
    (b_schedulers b) (b_metrics b) (b_throughputHistory b) (b_predictor b) (b_offsetStore b).
Definition with_schedulers (b : Broker) (ss : gmap string Sch) : Broker :=
  mkBroker (b_cfg b) (b_codec b) (b_gateCap b) (b_balancer b) (b_backpressure b) (b_factory b) (b_dataDir b) (b_topics b)
    ss (b_metrics b) (b_throughputHistory b) (b_predictor b) (b_offsetStore b).
Definition with_stats (b : Broker) (m : MetricsCollector) (h : list float) (lp : LoadPredictor) : Broker :=
  mkBroker (b_cfg b) (b_codec b) (b_gateCap b) (b_balancer b) (b_backpressure b) (b_factory b) (b_dataDir b) (b_topics b)
    (b_schedulers b) m h lp (b_offsetStore b).
Definition with_metrics (b : Broker) (m : MetricsCollector) : Broker :=
  with_stats b m (b_throughputHistory b) (b_predictor b).
Definition with_offsets (b : Broker) (o : option OffsetStore) : Broker :=
  mkBroker (b_cfg b) (b_codec b) (b_gateCap b) (b_balancer b) (b_backpressure b) (b_factory b) (b_dataDir b) (b_topics b)
    (b_schedulers b) (b_metrics b) (b_throughputHistory b) (b_predictor b) o.
Definition with_balancer (b : Broker) (bal : Bal) : Broker := with_runtime b bal (b_backpressure b) (b_factory b).

(** A topic's partition after a method was called on it. *)
Definition with_topic_partition (b : Broker) (name : string) (t : Topic) (id : Z) (p : Partition) : Broker :=
  with_topics b (<[name := with_partition t id p]> (b_topics b)).

Definition io_pool_size (n : Z) : Z := if n <=? 0 then 4 else n.

Definition New (now : Time) (cfg : Config) (dataDir : string) (bal : Bal) (offsetStore : option OffsetStore) : Broker :=
  mkBroker cfg (NewCodec (CompressionType cfg)) (io_pool_size (NumIOGoroutines cfg)) bal
    (Some (NewBackpressureController DefaultBPThreshold)) None dataDir ∅ ∅ (NewMetricsCollector now) []
    (NewLoadPredictor defaultPredictorWindowCap defaultPredictorHorizon) offsetStore.

Definition SetBalancer (b : Broker) (bal : Bal) : Broker := with_runtime b bal (b_backpressure b) (b_factory b).
Definition SetSchedulerFactory (b : Broker) (f : TopicConfig -> Sch) : Broker :=
  with_runtime b (b_balancer b) (b_backpressure b) (Some f).
Definition SetBackpressure (b : Broker) (bp : option BackpressureController) : Broker :=
  with_runtime b (b_balancer b) bp (b_factory b).
Definition stopScheduler (b : Broker) (name : string) : Broker :=
  with_schedulers b (delete name (b_schedulers b)).
Definition SetScheduler (b : Broker) (topic : string) (s : Sch) : Broker :=
  let b := stopScheduler b topic in with_schedulers b (<[topic := s]> (b_schedulers b)).

(** ** Topics *)

Definition CreateTopic (b : Broker) (name : string) (cfg : TopicConfig) : Broker * result unit :=
  match wrapf "create topic %q" (NewTopic name (b_dataDir b) cfg (cfg_SyncPolicy (b_cfg b))) with
  | Ok t =>
      let t := if decide (CompressionType (b_cfg b) <> CompressionNone)
               then mkTopic (t_name t) (SetBatchCodec (b_codec b) <$> partitions t) (t_config t) (t_closed t)
               else t in
      match b_topics b !! name with
      | Some _ => (b, Err (Wrapf ErrTopicAlreadyExists "create topic %q"))
      | None =>
          let b := with_topics b (<[name := t]> (b_topics b)) in
          match b_factory b with
          | Some f => (with_schedulers b (<[name := f cfg]> (b_schedulers b)), Ok tt)
          | None => (b, Ok tt)
          end
      end
  | Err e => (b, Err e)
  | Panic => (b, Panic)
  end.

(** The clean-up loop of DeleteTopic over the partition ids. *)
Fixpoint forget_partitions (mc : MetricsCollector) (lp : LoadPredictor) (ids : list Z)
    : result (MetricsCollector * LoadPredictor) :=
  match ids with
  | [] => Ok (mc, lp)
  | pid :: ids' =>
      let lp := lp_RemovePartition lp pid in
      mc ← mc_RemovePartition mc pid;
      forget_partitions mc lp ids'
  end.

Definition DeleteTopic (b : Broker) (name : string) : Broker * result unit :=
  match b_topics b !! name with
  | None => (b, Err (Wrapf ErrTopicNotFound "delete topic %q"))
  | Some t =>
      let b := with_topics b (delete name (b_topics b)) in
      let partIDs := p_id <$> partitions t in
      let b := stopScheduler b name in
      match wrapf "close topic %q" (snd (topic_Close t)) with
      | Ok _ =>
          match forget_partitions (b_metrics b) (b_predictor b) partIDs with
          | Ok (mc, lp) =>
              let b := with_stats b mc (b_throughputHistory b) lp in
              match wrapf "remove topic data dir %q" (os_RemoveAll (filepath_Join [b_dataDir b; name])) with
              | Ok _ =>
                  (with_offsets b ((fun s => fst (store_DeleteTopic s name)) <$> b_offsetStore b), Ok tt)
              | Err e => (b, Err e)
              | Panic => (b, Panic)
              end
          | Err e => (b, Err e)
          | Panic => (b, Panic)
          end
      | Err e => (b, Err e)
      | Panic => (b, Panic)
      end
  end.

Definition GetTopic (b : Broker) (name : string) : result Topic :=
  match b_topics b !! name with Some t => Ok t | None => Err (Errorf "topic %q not found") end.

(** The topics in the order the map is visited. *)
Definition ListTopics (b : Broker) : list (string * Topic) :=
  omap (fun name => (name,.) <$> b_topics b !! name) (range_topics (dom (b_topics b))).

(** ** Publishing *)

Definition compressMessage (codec : Codec) (msg : Message) : result Message :=
  compressed ← wrapf "compress message value" (Encode codec (Value msg)); Ok (set_Value compressed msg).

Definition decompressMessage (b : Broker) (msg : Message) : result Message :=
  if BatchDecoded msg then Ok msg
  else decompressed ← wrapf "decompress message value" (Decode (b_codec b) (Value msg));
       Ok (set_Value decompressed msg).

Definition too_large (cfg : Config) (msg : Message) : bool :=
  (0 <? MaxMessageBytes cfg) &&
  (MaxMessageBytes cfg <? Z.of_nat (length (Key msg)) + Z.of_nat (length (Value msg))).

Definition ErrTooLarge : error := Wrapf ErrMessageTooLarge "size %d > limit %d".

(** [bp != nil && bp.Check(partIdx) == BPClosed] *)
Definition check_closed (b : Broker) (partIdx : Z) : Broker * result bool :=
  match b_backpressure b with
  | None => (b, Ok false)
  | Some bp =>
      let '(bp, st) := Check bp partIdx in
      (with_runtime b (b_balancer b) (Some bp) (b_factory b), (fun s => bool_decide (s = BPClosed)) <$> st)
  end.

Definition publish_complete (b : Broker) (partIdx : Z) : result Broker :=
  bal ← bal_OnPublishComplete (b_balancer b) partIdx; Ok (with_balancer b bal).

Definition record_produce (b : Broker) (topicName : string) (partIdx : Z) : result Broker :=
  mc ← RecordProduce (b_metrics b) topicName partIdx; Ok (with_metrics b mc).

(** Publish from the append on: the partition is known. *)
Definition publish_append (env : PubEnv) (b : Broker) (topicName : string) (t : Topic) (partIdx : Z) (p : Partition)
    (msg : Message) : Broker * Message * result (Z * Z) :=
  let msg := set_ProduceTime (pe_now env) msg in
  let '(p, msg, r) := Append (pe_clock env partIdx) (pe_pool env) p msg in
  let b := with_topic_partition b topicName t partIdx p in
  match publish_complete b partIdx with
  | Ok b =>
      match wrapf "append to partition %d" r with
      | Ok offset =>
          match record_produce b topicName partIdx with
          | Ok b => (b, msg, Ok (partIdx, offset))
          | Err e => (b, msg, Err e)
          | Panic => (b, msg, Panic)
          end
      | Err e => (b, msg, Err e)
      | Panic => (b, msg, Panic)
      end
  | Err e => (b, msg, Err e)
  | Panic => (b, msg, Panic)
  end.

(** Publish: the broker and the caller's message afterwards, and the partition
    and offset. *)
Definition Publish (env : PubEnv) (b : Broker) (topicName : string) (msg : Message)
    : Broker * Message * result (Z * Z) :=
  if too_large (b_cfg b) msg then (b, msg, Err ErrTooLarge)
  else
    match wrapf "compress message for topic %q" (compressMessage (b_codec b) msg) with
    | Ok msg =>
        match b_topics b !! topicName with
        | None => (b, msg, Err (Errorf "topic %q not found"))
        | Some t =>
            match bal_SelectPartition (pe_draws env 0) (pe_now env) (b_balancer b) topicName (Key msg) (t_NumPartitions t) with
            | Ok (bal, partIdx) =>
                let b := with_balancer b bal in
                let '(b, closed) := check_closed b partIdx in
                match closed with
                | Ok true => (b, msg, Err ErrThrottled)
                | Ok false =>
                    match wrapf "get partition %d for topic %q" (topic_Partition t partIdx) with
                    | Ok p => publish_append env b topicName t partIdx p msg
                    | Err e => (b, msg, Err e)
                    | Panic => (b, msg, Panic)
                    end
                | Err e => (b, msg, Err e)
                | Panic => (b, msg, Panic)
                end
            | Err e => (b, msg, Err e)
            | Panic => (b, msg, Panic)
            end
        end
    | Err e => (b, msg, Err e)
    | Panic => (b, msg, Panic)
    end.

(** *** PublishBatch

    The messages are an array the caller shares; a group lists the indexes of
    the messages bound for one partition.  The groups, each a goroutine, touch
    different partitions; they run here one after the other, in any order. *)

Record batch_state : Type := mkBatch {
  bs_broker : Broker;
  bs_msgs : list Message;
  bs_results : list PublishResult;
}.

Definition set_err (r : PublishResult) (e : error) : PublishResult :=
  mkPublishResult (pr_Partition r) (pr_Offset r) (Some e).
Definition set_offset (r : PublishResult) (o : Z) : PublishResult :=
  mkPublishResult (pr_Partition r) o (pr_Err r).
Definition set_partition (r : PublishResult) (p : Z) : PublishResult :=
  mkPublishResult p (pr_Offset r) (pr_Err r).

(** [groups[partIdx] = append(groups[partIdx], ...)], new groups last. *)
Fixpoint add_to_group (groups : list (Z * list nat)) (partIdx : Z) (i : nat) : list (Z * list nat) :=
  match groups with
  | [] => [(partIdx, [i])]
  | (q, js) :: gs =>
      if decide (q = partIdx) then (q, js ++ [i]) :: gs else (q, js) :: add_to_group gs partIdx i
  end.

(** One iteration of the loop that assigns partitions. *)
Definition assign_one (env : PubEnv) (topicName : string) (numParts : Z) (i : nat) (msg : Message)
    (st : Broker * list (Z * list nat)) : result (Broker * list (Z * list nat) * Message * PublishResult) :=
  let '(b, groups) := st in
  let r := mkPublishResult 0 0 None in
  if too_large (b_cfg b) msg then Ok (b, groups, msg, set_err r ErrTooLarge)
  else
    let msg := set_ProduceTime (pe_now env) msg in
    '(bal, partIdx) ← bal_SelectPartition (pe_draws env i) (pe_now env) (b_balancer b) topicName (Key msg) numParts;
    let b := with_balancer b bal in
    let r := set_partition r partIdx in
    let '(b, closed) := check_closed b partIdx in
    closed ← closed;
    if closed : bool then
      b ← publish_complete b partIdx;
      Ok (b, groups, msg, set_err r ErrThrottled)
    else Ok (b, add_to_group groups partIdx i, msg, r).

Fixpoint assign_all (env : PubEnv) (topicName : string) (numParts : Z) (i : nat) (msgs : list Message)
    (st : Broker * list (Z * list nat))
    : result (Broker * list (Z * list nat) * list Message * list PublishResult) :=
  match msgs with
  | [] => Ok (st.1, st.2, [], [])
  | m :: ms =>
      '(b, groups, m, r) ← assign_one env topicName numParts i m st;
      '(b, groups, ms, rs) ← assign_all env topicName numParts (i + 1) ms (b, groups);
      Ok (b, groups, m :: ms, r :: rs)
  end.

(** The loop that compresses the values one by one: it stops at an error, the
    messages before it stay compressed. *)
Fixpoint compress_values (codec : Codec) (msgs : list Message) : list Message * result unit :=
  match msgs with
  | [] => ([], Ok tt)
  | m :: ms =>
      match wrapf "compress message value" (Encode codec (Value m)) with
      | Ok c => let '(ms', r) := compress_values codec ms in (set_Value c m :: ms', r)
      | Err e => (m :: ms, Err e)
      | Panic => (m :: ms, Panic)
      end
  end.

(** The append of appendPartitionBatch: the partition, the messages, the outcome. *)
Definition append_group (env : PubEnv) (cfg : Config) (codec : Codec) (partIdx : Z) (p : Partition) (batch : list Message)
    : Partition * list Message * result (list Z) :=
  let compression := bool_decide (CompressionType cfg <> CompressionNone) in
  let ck := pe_clock env partIdx in
  if compression && bool_decide (1 < length batch)%nat then AppendBatchCompressed ck p batch codec
  else
    let '(batch, r) := if compression : bool then compress_values codec batch else (batch, Ok tt) in
    match r with
    | Ok _ => AppendBatch ck (pe_pool env) p batch
    | Err e => (p, batch, Err e)
    | Panic => (p, batch, Panic)
    end.

(** Writing values back to the places in [idxs]. *)
Fixpoint scatter {A} (idxs : list nat) (xs : list A) (l : list A) : list A :=
  match idxs, xs with i :: js, x :: xs' => scatter js xs' (<[i := x]> l) | _, _ => l end.

Definition fail_group (idxs : list nat) (e : error) (rs : list PublishResult) : list PublishResult :=
  foldl (fun rs i => alter (fun r => set_err r e) i rs) rs idxs.

Fixpoint offset_group (idxs : list nat) (offs : list Z) (rs : list PublishResult) : list PublishResult :=
  match idxs, offs with
  | i :: js, o :: os => offset_group js os (alter (fun r => set_offset r o) i rs)
  | _, _ => rs
  end.

Fixpoint complete_n (b : Broker) (partIdx : Z) (n : nat) : result Broker :=
  match n with O => Ok b | S n' => b ← publish_complete b partIdx; complete_n b partIdx n' end.

Definition appendPartitionBatch (env : PubEnv) (topicName : string) (partIdx : Z) (idxs : list nat) (st : batch_state)
    : result batch_state :=
  let b := bs_broker st in
  match b_topics b !! topicName with
  | None => Panic                      (* the topic was looked up before *)
  | Some t =>
      match topic_Partition t partIdx with
      | Ok p =>
          batch ← mapM (index (bs_msgs st)) idxs;
          let '(p, batch, r) := append_group env (b_cfg b) (b_codec b) partIdx p batch in
          let b := with_topic_partition b topicName t partIdx p in
          rs ← match r with
               | Ok offs => Ok (offset_group idxs offs (bs_results st))
               | Err e => Ok (fail_group idxs e (bs_results st))
               | Panic => Panic
               end;
          b ← complete_n b partIdx (length idxs);
          mc ← RecordProduceBatch (b_metrics b) topicName partIdx (Z.of_nat (length idxs));
          Ok (mkBatch (with_metrics b mc) (scatter idxs batch (bs_msgs st)) rs)
      | Err e => Ok (mkBatch b (bs_msgs st) (fail_group idxs e (bs_results st)))
      | Panic => Panic
      end
  end.

Definition run_group (env : PubEnv) (gated : bool) (topicName : string) (g : Z * list nat) (st : batch_state)
    : result batch_state :=
  match (if gated then pe_acquire env (fst g) else None) with
  | Some e => Ok (mkBatch (bs_broker st) (bs_msgs st) (fail_group (snd g) e (bs_results st)))
  | None => appendPartitionBatch env topicName (fst g) (snd g) st
  end.

Fixpoint run_groups (env : PubEnv) (gated : bool) (topicName : string) (gs : list (Z * list nat)) (st : batch_state)
    : result batch_state :=
  match gs with
  | [] => Ok st
  | g :: gs' => st ← run_group env gated topicName g st; run_groups env gated topicName gs' st
  end.

Definition PublishBatch (env : PubEnv) (b : Broker) (topicName : string) (msgs : list Message) : result batch_state :=
  match b_topics b !! topicName with
  | None =>
      Ok (mkBatch b msgs
            (replicate (length msgs) (mkPublishResult 0 0 (Some (Errorf "topic %q not found")))))
  | Some t =>
      '(b, groups, msgs, rs) ← assign_all env topicName (t_NumPartitions t) 0 msgs (b, []);
      run_groups env (bool_decide (length groups <> 1)%nat) topicName (pe_order env groups) (mkBatch b msgs rs)
  end.

(** ** Consuming *)

Definition ConsumeFrom (env : SchedEnv) (b : Broker) (topicName group : string) (partIdx offset : Z)
    : Broker * result (Message * Z) :=
  match b_topics b !! topicName with
  | None => (b, Err (Errorf "topic %q not found"))
  | Some t =>
      match wrapf "get partition %d for topic %q" (topic_Partition t partIdx) with
      | Ok p =>
          match b_schedulers b !! topicName with
          | None => (b, Err (Errorf "no scheduler configured for topic %q"))
          | Some sched =>
              let '(sched, p, r) := Next env sched p offset in
              let b := with_topic_partition b topicName t partIdx p in
              let b := with_schedulers b (<[topicName := sched]> (b_schedulers b)) in
              match wrapf "scheduler.Next topic=%q part=%d" r with
              | Ok (msg, nextOffset) =>
                  match wrapf "decompress message topic=%q part=%d" (decompressMessage b msg) with
                  | Ok msg =>
                      match RecordConsume (b_metrics b) topicName partIdx group with
                      | Ok mc => (with_metrics b mc, Ok (msg, nextOffset))
                      | Err e => (b, Err e)
                      | Panic => (b, Panic)
                      end
                  | Err e => (b, Err e)
                  | Panic => (b, Panic)
                  end
              | Err e => (b, Err e)
              | Panic => (b, Panic)
              end
          end
      | Err e => (b, Err e)
      | Panic => (b, Panic)
      end
  end.

(** Where a group continues: the committed offset, 1 when there is none, and 0
    when the broker has no offset store. *)
Definition start_offset (b : Broker) (group topicName : string) (partIdx : Z) : Z :=
  match b_offsetStore b with
  | None => 0
  | Some s => match Load s group topicName partIdx with Ok off => u64 off | _ => 1 end
  end.

Definition Consume (env : SchedEnv) (b : Broker) (topicName group : string) (partIdx : Z)
    : Broker * result (Message * Z) :=
  ConsumeFrom env b topicName group partIdx (start_offset b group topicName partIdx).

Definition LoadOffset (b : Broker) (group topicName : string) (partIdx : Z) : Z * result unit :=
  match b_offsetStore b with
  | None => (1, Ok tt)
  | Some s =>
      match wrapf "load offset group=%q topic=%q part=%d" (Load s group topicName partIdx) with
      | Ok off => (u64 off, Ok tt)
      | Err e => (1, Err e)
      | Panic => (1, Panic)
      end
  end.

Definition broker_Commit (now : Time) (b : Broker) (group topicName : string) (partIdx offset : Z) : Broker * result unit :=
  match b_offsetStore b with
  | None => (b, Ok tt)
  | Some s => let '(s, r) := Commit now s group topicName partIdx offset in (with_offsets b (Some s), r)
  end.

(** The loop of ConsumeBatch, [n] iterations left: the messages, newest last,
    the last offset, and the error that ends the call when no message came. *)
Fixpoint consume_loop (env : nat -> SchedEnv) (b : Broker) (topicName group : string) (partIdx off : Z)
    (acc : list Message) (last : Z) (n : nat) : Broker * list Message * Z * result unit :=
  match n with
  | O => (b, acc, last, Ok tt)
  | S n' =>
      let '(b, r) := ConsumeFrom (env n) b topicName group partIdx off in
      match r with
      | Ok (msg, next) => consume_loop env b topicName group partIdx next (acc ++ [msg]) next n'
      | Err e =>
          if errors_Is e ErrNoMessages || bool_decide (0 < length acc)%nat then (b, acc, last, Ok tt)
          else (b, acc, last, Err e)
      | Panic => (b, acc, last, Panic)
      end
  end.

(** ConsumeBatch returns the messages and the offset even when the commit fails. *)
Definition ConsumeBatch (now : Time) (env : nat -> SchedEnv) (b : Broker) (topicName group : string) (partIdx maxMessages : Z)
    : Broker * list Message * Z * result unit :=
  let off := start_offset b group topicName partIdx in
  let '(b, msgs, last, r) := consume_loop env b topicName group partIdx off [] 0 (Z.to_nat maxMessages) in
  match r with
  | Ok _ =>
      if decide (length msgs = 0)%nat then (b, [], 0, Err ErrNoMessages)
      else
        let '(b, r) := broker_Commit now b group topicName partIdx (i64 last) in
        (b, msgs, last, wrapf "commit offset topic=%q part=%d" r)
  | Err e => (b, [], 0, Err e)
  | Panic => (b, [], 0, Panic)
  end.

(** ** Configuration *)

Definition ApplyConfig (b : Broker) (cfg : Config) : Broker * result unit :=
  match wrapf "validate config" (Validate cfg) with
  | Ok _ =>
      if decide (b_cfg b = cfg) then (b, Ok tt)
      else
        let codec := if decide (CompressionType cfg <> CompressionType (b_cfg b))
                     then NewCodec (CompressionType cfg) else b_codec b in
        let cap := if decide (NumIOGoroutines cfg <> NumIOGoroutines (b_cfg b))
                   then io_pool_size (NumIOGoroutines cfg) else b_gateCap b in
        (with_snap b cfg codec cap, Ok tt)
  | Err e => (b, Err e)
  | Panic => (b, Panic)
  end.

Definition broker_Metrics (b : Broker) : Metrics := Snapshot (b_metrics b).

(** ** The loops, tick by tick *)

Definition surroundings (b : Broker) : Surroundings :=
  mkSurroundings
    (concat ((fun '(_, t) => p_id <$> partitions t) <$> ListTopics b))
    ((fun bp => (ClosedCount bp, WarnCount bp, OpenCount bp)) <$> b_backpressure b)
    (bal_DroppedExperience (b_balancer b)) (bal_EvictionCount (b_balancer b)).

Definition set_lastSnap (mc : MetricsCollector) (snap : Metrics) : MetricsCollector :=
  mkCollector (produceCount mc) (consumeCount mc) (produceBytes mc) snap (avgFlushLatencyNs mc) (lastCollect mc)
    (partProduces mc) (partConsumes mc) (prevPartProduces mc) (prevPartConsumes mc) (loadStdDevHistory mc)
    (retentionDeletedBytes mc) (retentionDeletedSegments mc).
Definition set_avgFlush (mc : MetricsCollector) (ns : Z) : MetricsCollector :=
  mkCollector (produceCount mc) (consumeCount mc) (produceBytes mc) (lastSnap mc) ns (lastCollect mc)
    (partProduces mc) (partConsumes mc) (prevPartProduces mc) (prevPartConsumes mc) (loadStdDevHistory mc)
    (retentionDeletedBytes mc) (retentionDeletedSegments mc).

Definition mean_of (l : list float) : float :=
  if decide (0 < length l)%nat then (fsum l / of_int (Z.of_nat (length l)))%float else 0%float.

(** The part of the metrics tick that updates the backpressure controller. *)
Definition tick_backpressure (b : Broker) (bp : BackpressureController) (snap : Metrics) : Broker :=
  let bp := UpdatePredictions bp (PredictedLoads snap) in
  let flushes := concat ((fun '(_, t) => lastFlushNs <$> partitions t) <$> ListTopics b) in
  let maxFlushNs := foldl (fun m x => if m <? x then x else m) 0 flushes in
  let sumFlushNs := foldl (fun s x => i64 (s + x)) 0 flushes in
  let b := if decide (0 < length flushes)%nat
           then with_metrics b (set_avgFlush (b_metrics b) (Z.quot sumFlushNs (Z.of_nat (length flushes)))) else b in
  let maxFlushMs := (of_int maxFlushNs / of_int time_Millisecond)%float in
  let bp := UpdateSystem bp (mkSignal (mean_of (PredictedLoads snap)) maxFlushMs) in
  with_runtime b (b_balancer b) (Some bp) (b_factory b).

Definition push_throughput (h : list float) (x : float) : list float :=
  let h := h ++ [x] in if decide (metricsHistoryCap < length h)%nat then drop 1 h else h.

Definition metrics_tick (now : Time) (b : Broker) : result Broker :=
  let '(snap, mc) := Collect now (surroundings b) (b_metrics b) in
  let b := with_metrics b mc in
  '(b, snap) ← (if decide (0 < length (PartitionLoads snap))%nat then
      lp ← Update (b_predictor b) (PartitionLoads snap);
      let snap := set_PredictedLoads (PredictAll lp) snap in
      Ok (with_stats b (set_lastSnap (b_metrics b) snap) (b_throughputHistory b) lp, snap)
    else Ok (b, snap));
  bal ← bal_OnMetrics now (b_balancer b) snap;
  let b := with_balancer b bal in
  let b := match b_backpressure b with Some bp => tick_backpressure b bp snap | None => b end in
  let th := push_throughput (b_throughputHistory b) (Throughput snap) in
  let b := with_stats b (b_metrics b) th (b_predictor b) in
  Ok (if decide (metricsWarmupTicks <= length th)%nat then
        let base := take (length th * 4 / 5) th in
        with_balancer b (bal_SetBaseThroughput (b_balancer b) (fsum base / of_int (Z.of_nat (length base)))%float)
      else b).

(** The retention work on one partition. *)
Definition retain_partition (now : Time) (cfg : Config) (offsets : option OffsetStore) (name : string)
    (mc : MetricsCollector) (p : Partition) : MetricsCollector * Partition :=
  let '(mc, p) :=
    if 0 <? RetentionMaxAge cfg then
      let '(p, r) := TruncateBefore p (now - RetentionMaxAge cfg) in
      match r with Ok (n, sz) => (if 0 <? n then RecordRetention mc n sz else mc, p) | _ => (mc, p) end
    else (mc, p) in
  let '(mc, p) :=
    if 0 <? RetentionMaxBytes cfg then
      let '(p, r) := TruncateOldestUntilSize p (RetentionMaxBytes cfg) in
      match r with Ok (n, sz) => (if 0 <? n then RecordRetention mc n sz else mc, p) | _ => (mc, p) end
    else (mc, p) in
  if (RetentionMaxAge cfg =? 0) && (RetentionMaxBytes cfg =? 0) then
    match offsets with
    | Some s =>
        match CommitFloor s name (p_id p) with
        | Ok floor => if 1 <? floor then (mc, fst (TruncateFront p (u64 floor))) else (mc, p)
        | _ => (mc, p)
        end
    | None => (mc, p)
    end
  else (mc, p).

Fixpoint retain_partitions (now : Time) (cfg : Config) (offsets : option OffsetStore) (name : string)
    (mc : MetricsCollector) (ps : list Partition) : MetricsCollector * list Partition :=
  match ps with
  | [] => (mc, [])
  | p :: ps' =>
      let '(mc, p) := retain_partition now cfg offsets name mc p in
      let '(mc, ps') := retain_partitions now cfg offsets name mc ps' in (mc, p :: ps')
  end.

Definition retain_topic (now : Time) (b : Broker) (nt : string * Topic) : Broker :=
  let '(name, t) := nt in
  if IsClosed t then b
  else
    let '(mc, ps) := retain_partitions now (b_cfg b) (b_offsetStore b) (t_name t) (b_metrics b) (partitions t) in
    let b := with_metrics b mc in
    with_topics b (<[name := mkTopic (t_name t) ps (t_config t) (t_closed t)]> (b_topics b)).

Definition retention_tick (now : Time) (b : Broker) : Broker := foldl (retain_topic now) b (ListTopics b).

Definition session_tick (now : Time) (b : Broker) : Broker :=
  if ConsumerSessionTimeoutMs (b_cfg b) <=? 0 then b
  else with_offsets b ((fun s => ExpireSessions now s (i64 (ConsumerSessionTimeoutMs (b_cfg b) * time_Millisecond)))
                         <$> b_offsetStore b).

Definition broker_Stop (b : Broker) : Broker :=
  let b := with_schedulers b ∅ in
  let b := with_topics b ((fun t => fst (topic_Close t)) <$> b_topics b) in
  with_offsets b ((fun s => fst (store_Close s)) <$> b_offsetStore b).
End broker.
