(* ===== verification/BrokerProps.v ===== *)
(** * What the broker guarantees

    The theorems on src/pkg/broker/broker.go.  They are proved against the
    interfaces of the parts: any balancer that keeps [BalancerLaws], any
    write-ahead log, compressors and offset database that satisfy their laws. *)

From Stdlib Require Import Strings.Byte.
From S2P Require Import Prelude Message PriorityIndex Wal Compression GoFloat Config Partition PartitionProps Topic.
From S2P Require Import Backpressure OffsetStore LoadPredictor Metrics Balancer RoundRobin Scheduler Broker.

(** ** The counters never get in the way *)

Definition counters_ok (mc : MetricsCollector) : Prop := length (partConsumes mc) = length (partProduces mc).

Lemma add_at_total l q n : 0 <= q < Z.of_nat (length l) -> exists l', add_at l q n = Ok l' /\ length l' = length l.
Proof.
  intros Hq. unfold add_at. zdec.
  rewrite index_Ok by lia. rewrite Ok_bind, store_Ok by lia. eexists. split; [done|]. apply length_insert.
Qed.

Lemma ensure_total mc q :
  counters_ok mc -> 0 <= q ->
  let '(pp, pcs) := ensurePartCounters (q + 1) mc in length pcs = length pp /\ q < Z.of_nat (length pp).
Proof.
  intros Hl Hq. unfold counters_ok in Hl. unfold ensurePartCounters.
  lens.
Qed.

Lemma RecordProduceBatch_total mc t q n :
  counters_ok mc -> 0 <= q -> exists mc', RecordProduceBatch mc t q n = Ok mc' /\ counters_ok mc'.
Proof.
  intros Hc Hq. unfold RecordProduceBatch. pose proof (ensure_total mc q Hc Hq) as He.
  destruct (ensurePartCounters _ _) as [pp pcs]. destruct He as [Hl Hlt].
  destruct (add_at_total pp q n) as (pp' & -> & Hl'); [lia|]. eexists. split; [done|]. unfold counters_ok. cbn. lia.
Qed.

Lemma RecordProduce_total mc t q :
  counters_ok mc -> 0 <= q -> exists mc', RecordProduce mc t q = Ok mc' /\ counters_ok mc'.
Proof.
  intros Hc Hq. unfold RecordProduce. pose proof (ensure_total mc q Hc Hq) as He.
  destruct (ensurePartCounters _ _) as [pp pcs]. destruct He as [Hl Hlt].
  destruct (add_at_total pp q 1) as (pp' & -> & Hl'); [lia|]. eexists. split; [done|]. unfold counters_ok. cbn. lia.
Qed.

Lemma RecordConsume_total mc t q g :
  counters_ok mc -> 0 <= q -> exists mc', RecordConsume mc t q g = Ok mc' /\ counters_ok mc'.
Proof.
  intros Hc Hq. unfold RecordConsume. pose proof (ensure_total mc q Hc Hq) as He.
  destruct (ensurePartCounters _ _) as [pp pcs]. destruct He as [Hl Hlt].
  destruct (add_at_total pcs q 1) as (pp' & -> & Hl'); [lia|]. eexists. split; [done|]. unfold counters_ok. cbn. lia.
Qed.

Section serving.
Context {W : Wal} {L : WalLaws W} {K : Compressors} {KL : CompressorLaws K} {F : Filepath} {D : Badger} {G : Gonum}.
Context {V : Govy} {R : MapRange} {E : BrokerEnv}.
Context {Bal : Type} {B : Balancer Bal} {BL : BalancerLaws Bal} {Sch : Type} {Sc : Scheduler Sch}.
Implicit Types b : Broker (Bal := Bal) (Sch := Sch).

(** ** A broker that serves a topic *)

(** A partition that can be written and read: the counter agrees with the log,
    the log works, and with compression on, batches are decoded with the broker's
    codec. *)
Definition part_ready (cfg : Config) (codec : Codec) (p : Partition) : Prop :=
  part_ok p /\ wal_healthy (plog p) /\
  (CompressionType cfg <> CompressionNone -> batchCodec p = Some codec).

(** The snapshot is consistent: the codec is the configuration's. *)
Definition snap_ok b : Prop :=
  b_codec b = NewCodec (CompressionType (b_cfg b)) /\ b_gateCap b = io_pool_size (NumIOGoroutines (b_cfg b)).

Definition topic_ready (cfg : Config) (codec : Codec) (t : Topic) : Prop :=
  0 < t_NumPartitions t < 2 ^ 63 /\ Forall (part_ready cfg codec) (partitions t).

Definition serves b (name : string) (t : Topic) : Prop :=
  snap_ok b /\ bal_ok (b_balancer b) /\ counters_ok (b_metrics b) /\
  b_topics b !! name = Some t /\ topic_ready (b_cfg b) (b_codec b) t.

(** What a consumer gets for an offset of a partition. *)
Definition fetch b (name : string) (partIdx offset : Z) : result Message :=
  t ← GetTopic b name;
  p ← topic_Partition t partIdx;
  msg ← Read p offset;
  decompressMessage b msg.

(** The message as the broker delivers it: the producer's, with the times the
    broker stamped on it. *)
Definition delivery (produced appended : Z) (m m' : Message) : Prop :=
  Key m' = Key m /\ Value m' = Value m /\
  Header m' = mkHeader (Priority (Header m)) (Timestamp (Header m)) produced appended.

Lemma check_closed_total b partIdx :
  0 <= partIdx -> exists bp c, check_closed b partIdx = (with_runtime b (b_balancer b) bp (b_factory b), Ok c).
Proof.
  intros Hp. unfold check_closed. destruct (b_backpressure b) as [bp|] eqn:Ebp.
  - unfold Check. destruct (evaluate_total bp partIdx Hp) as (s & ->).
    destruct s; cbn; by eexists (Some _), _.
  - exists None, false. f_equal. unfold with_runtime. rewrite <- Ebp. by destruct b.
Qed.

Lemma topic_Partition_ready cfg codec t i :
  topic_ready cfg codec t -> 0 <= i < t_NumPartitions t ->
  exists p, topic_Partition t i = Ok p /\ part_ready cfg codec p.
Proof.
  intros [_ Hp] Hi. unfold t_NumPartitions in Hi.
  destruct (lookup_lt_is_Some_2 (partitions t) (Z.to_nat i)) as [p Hl]; [lia|]. exists p. split.
  - apply topic_Partition_Ok. split; [lia|done].
  - exact (Forall_lookup_1 _ _ _ _ Hp Hl).
Qed.

Lemma with_partition_ready cfg codec t i p :
  topic_ready cfg codec t -> part_ready cfg codec p -> topic_ready cfg codec (with_partition t i p).
Proof.
  intros [Hn Hp] Hr. split.
  - unfold t_NumPartitions, with_partition. cbn. by rewrite length_insert.
  - cbn. by apply Forall_insert.
Qed.

Lemma topic_Partition_with_partition t i j p q :
  topic_Partition t i = Ok q -> 0 <= j ->
  topic_Partition (with_partition t i p) j = if decide (i = j) then Ok p else topic_Partition t j.
Proof.
  intros [Hi Hl]%topic_Partition_Ok Hj. case_decide as Hd.
  - subst j. apply topic_Partition_Ok. split; [done|]. cbn. apply list_lookup_insert_eq.
    by eapply lookup_lt_Some.
  - unfold topic_Partition, t_NumPartitions, index, with_partition. cbn [partitions].
    rewrite length_insert, list_lookup_insert_ne by lia. done.
Qed.

Lemma decompress_stored b msg c :
  Encode (b_codec b) (Value msg) = Ok c -> BatchDecoded msg = false ->
  decompressMessage b (set_Value c msg) = Ok msg.
Proof.
  intros He Hb. unfold decompressMessage. replace (BatchDecoded (set_Value c msg)) with false by done.
  cbn [Value set_Value]. rewrite (codec_roundtrip _ _ _ He). cbn [wrapf]. rewrite Ok_bind.
  destruct msg. cbn in *. by subst.
Qed.

(** ** One append *)

Definition entry_ok (m : Message) : Prop :=
  storable m /\ Z.of_nat (encodedSize m) < 2 ^ 32 /\ BatchDecoded m = false.

(** The messages [ds] can be fetched from offset [off] of the partition on. *)
Definition fetchable b (p : Partition) (off : Z) (ds : list Message) : Prop :=
  forall i d, ds !! i = Some d -> exists msg, Read p (off + Z.of_nat i) = Ok msg /\
    exists d', decompressMessage b msg = Ok d' /\ Key d' = Key d /\ Value d' = Value d /\ Header d' = Header d.

(** What a write that succeeded did to the partition. *)
Definition appended b (p p' : Partition) (ds : list Message) : Prop :=
  part_ready (b_cfg b) (b_codec b) p' /\ nextOffset p' = nextOffset p + Z.of_nat (length ds) /\
  (forall o m, Read p o = Ok m -> Read p' o = Ok m) /\
  fetchable b p' (nextOffset p) ds.

(** Values encoded one by one. *)
Definition encoded (codec : Codec) (m m' : Message) : Prop :=
  exists c, Encode codec (Value m) = Ok c /\ m' = set_Value c m.

Lemma append_encoded b ck pool p msgs msgs' :
  part_ready (b_cfg b) (b_codec b) p -> msgs <> [] -> in_i64 (ck_append ck) ->
  nextOffset p + Z.of_nat (length msgs) < 2 ^ 64 -> Forall entry_ok msgs ->
  Forall2 (encoded (b_codec b)) msgs msgs' ->
  exists p', AppendBatch ck pool p msgs' =
      (p', set_AppendTime (ck_append ck) <$> msgs', Ok (seqZ (nextOffset p) (Z.of_nat (length msgs)))) /\
    appended b p p' (set_AppendTime (ck_append ck) <$> msgs).
Proof.
  intros (Hok & Hh & Hc) Hne Ht Hb Hst Henc. assert (length msgs = length msgs') as Hlen by (by eapply list.Forall2_length).
  destruct (append_batch_success ck pool p msgs' Hok Hh) as (p' & -> & Hok' & Hh' & Hc' & Hn & Hf & He).
  { intros ->. by destruct msgs. }
  { lia. }
  exists p'. rewrite Hlen. split; [done|]. split_and!.
  - split; [done|]. split; [done|]. intros Hcomp. rewrite Hc'. by apply Hc.
  - rewrite length_fmap. lia.
  - intros o m. by apply (Read_preserved p p' _ o m Hh' Hf He Hc').
  - intros i d Hi. apply list_lookup_fmap_Some in Hi as (m & -> & Hi).
    destruct (Forall2_lookup_l _ _ _ _ _ Henc Hi) as (m' & Hi' & c & Hec & ->).
    destruct (Forall_lookup_1 _ _ _ _ Hst Hi) as ((Hm & Hp1 & Hp2) & _ & Hbd).
    exists (stored (set_AppendTime (ck_append ck) (set_Value c m))). split.
    + apply entry_readable; [by apply message_ok_AppendTime|done|done|].
      destruct Hok as [Hs _]. rewrite Hs. eapply wal_Read_appended; [done|done|exact He|].
      by rewrite !list_lookup_fmap, Hi'.
    + exists (set_AppendTime (ck_append ck) m).
      split; [|done]. apply (decompress_stored b (stored (set_AppendTime (ck_append ck) m)) c) in Hec as Hd; [|done].
      etransitivity; [exact Hd|]. destruct m. cbn in *. by subst.
Qed.

Lemma append_framed b ck p msgs compressed :
  part_ready (b_cfg b) (b_codec b) p -> CompressionType (b_cfg b) <> CompressionNone ->
  msgs <> [] -> in_i64 (ck_append ck) ->
  nextOffset p + Z.of_nat (length msgs) < 2 ^ 64 -> Z.of_nat (length msgs) < 2 ^ 32 -> Forall entry_ok msgs ->
  Encode (b_codec b) (payload_of (set_AppendTime (ck_append ck) <$> msgs)) = Ok compressed ->
  exists p', AppendBatchCompressed ck p msgs (b_codec b) =
      (p', set_AppendTime (ck_append ck) <$> msgs, Ok (seqZ (nextOffset p) (Z.of_nat (length msgs)))) /\
    appended b p p' (set_AppendTime (ck_append ck) <$> msgs).
Proof.
  intros (Hok & Hh & Hc) Hct Hne Ht Hb Hn Hst Henc.
  pose proof (append_compressed_success ck p msgs (b_codec b) compressed Hok Hh Hne Hb Henc)
    as (p' & -> & Hok' & Hh' & Hc' & Hf & He).
  exists p'. split; [done|]. pose proof (part_ok_nonneg p Hok) as H1. destruct Hok as [Hs _]. split_and!.
  - split; [done|]. split; [done|]. intros _. rewrite Hc'. by apply Hc.
  - destruct Hok' as [-> _]. unfold in_sync, wal_next in *. rewrite Hf, He, length_app, length_fmap.
    unfold batch_records. cbn [length]. rewrite length_fmap, length_seqZ. destruct msgs; [done|]. cbn [length]. lia.
  - intros o m. by apply (Read_preserved p p' _ o m Hh' Hf He Hc').
  - intros i d Hi. eexists. split.
    + eapply (compressed_readable p' (nextOffset p) _ (length msgs) compressed); [|done| | | | | |exact Hi].
      * unfold in_u64. lia.
      * intros j d' Hj. rewrite Hs. eapply wal_Read_appended; [done|done|exact He|exact Hj].
      * exists (b_codec b). split; [rewrite Hc'; by apply Hc|]. by apply codec_roundtrip.
      * apply Forall_fmap. eapply list.Forall_impl; [exact Hst|]. intros m0 ((Hm & _) & Hl & _).
        split; [by apply message_ok_AppendTime|done].
      * by rewrite length_fmap.
      * done.
    + eexists. split; [done|]. done.
Qed.
(** ** Publish *)

(** [b'] has the topics [ts] and otherwise still is a broker that serves. *)
Definition still_serves b (name : string) (t' : Topic) b' : Prop :=
  b_cfg b' = b_cfg b /\ b_codec b' = b_codec b /\ b_schedulers b' = b_schedulers b /\
  b_offsetStore b' = b_offsetStore b /\ b_topics b' = <[name := t']> (b_topics b) /\ serves b' name t'.

Lemma still_serves_intro b name t t' bal bp mc b' :
  serves b name t -> topic_ready (b_cfg b) (b_codec b) t' -> bal_ok bal -> counters_ok mc ->
  b' = with_metrics (with_runtime (with_topics b (<[name := t']> (b_topics b))) bal bp (b_factory b)) mc ->
  still_serves b name t' b'.
Proof.
  intros (Hs & Hbal & Hc & Ht & Hr) Hr' Hbal' Hc' ->. split_and!; try done.
  split_and!; try done; [apply Hs..|]. cbn. by rewrite lookup_insert_eq.
Qed.

(** Everything before the append leaves the topics alone. *)
Lemma still_serves_same b name t bal bp :
  serves b name t -> bal_ok bal -> still_serves b name t (with_runtime b bal bp (b_factory b)).
Proof.
  intros Hs Hbal. eapply (still_serves_intro b name t t bal bp (b_metrics b)); try done.
  - apply Hs.
  - apply Hs.
  - destruct Hs as (_ & _ & _ & Ht & _). unfold with_metrics, with_stats, with_runtime, with_topics. cbn.
    by rewrite insert_id.
Qed.

(** What the environment of a publish must be like, and how much room is left. *)
Definition pub_env_ok (env : PubEnv) : Prop :=
  (forall i, fair (pe_draws env i)) /\ in_i64 (pe_now env) /\ (forall p, in_i64 (ck_append (pe_clock env p))) /\
  (forall gs, pe_order env gs ≡ₚ gs).
Definition room (t : Topic) (n : nat) : Prop :=
  Forall (fun p => nextOffset p + Z.of_nat n < 2 ^ 64) (partitions t).

Lemma room_partition t n i p : room t n -> topic_Partition t i = Ok p -> nextOffset p + Z.of_nat n < 2 ^ 64.
Proof. intros Hr [_ Hl]%topic_Partition_Ok. exact (Forall_lookup_1 _ _ _ _ Hr Hl). Qed.

Definition stamped (env : PubEnv) (partIdx : Z) (m : Message) : Message :=
  set_AppendTime (ck_append (pe_clock env partIdx)) (set_ProduceTime (pe_now env) m).

Lemma entry_ok_ProduceTime t m : in_i64 t -> entry_ok m -> entry_ok (set_ProduceTime t m).
Proof. intros Ht ((((? & ? & ?) & ?) & ? & ?) & ? & ?). by split_and!. Qed.

Lemma Append_encoded b env p partIdx msg c :
  part_ready (b_cfg b) (b_codec b) p -> pub_env_ok env -> nextOffset p + 1 < 2 ^ 64 -> entry_ok msg ->
  Encode (b_codec b) (Value msg) = Ok c ->
  exists p', Append (pe_clock env partIdx) (pe_pool env) p (set_ProduceTime (pe_now env) (set_Value c msg)) =
      (p', set_Value c (stamped env partIdx msg), Ok (nextOffset p)) /\
    appended b p p' [stamped env partIdx msg].
Proof.
  intros Hp (_ & Hnow & Hck & _) Hroom Hm Hc. unfold Append.
  destruct (append_encoded b (pe_clock env partIdx) (pe_pool env) p [set_ProduceTime (pe_now env) msg]
    [set_Value c (set_ProduceTime (pe_now env) msg)]) as (p' & Ha & Happ); try done.
  - apply Forall_singleton. by apply entry_ok_ProduceTime.
  - constructor; [by exists c|constructor].
  - exists p'. split; [|exact Happ].
    change (set_ProduceTime (pe_now env) (set_Value c msg)) with (set_Value c (set_ProduceTime (pe_now env) msg)).
    rewrite Ha. cbn [length wrapf]. rewrite Ok_bind. done.
Qed.

(** The outcomes of Publish. *)
Lemma Publish_cases env b name t msg :
  serves b name t -> pub_env_ok env -> room t 1 -> entry_ok msg -> too_large (b_cfg b) msg = false ->
  exists b' msg' r, Publish env b name msg = (b', msg', r) /\
    ((still_serves b name t b' \/ b' = b) /\
       (r = Err ErrThrottled \/
        exists e, Encode (b_codec b) (Value msg) = Err e /\
          r = Err (Wrapf (Wrapf e "compress message value") "compress message for topic %q")) \/
     exists partIdx p p', r = Ok (partIdx, nextOffset p) /\ topic_Partition t partIdx = Ok p /\
       appended b p p' [stamped env partIdx msg] /\ still_serves b name (with_partition t partIdx p') b').
Proof.
  intros Hs Henv Hroom Hm Hsz. pose proof Hs as (Hsnap & Hbal & Hcnt & Ht & Hr). pose proof Henv as (Hd & _).
  unfold Publish. rewrite Hsz. unfold compressMessage.
  destruct (Encode (b_codec b) (Value msg)) as [c|e|] eqn:Hc; [| |by destruct (Encode_no_panic (b_codec b) (Value msg))].
  2: { cbn. do 3 eexists. split; [done|]. left. split; [by right|]. right. by exists e. }
  cbn [wrapf]. rewrite Ok_bind. cbn [wrapf]. rewrite Ht.
  destruct Hr as [Hn Hps] eqn:Hreq. clear Hreq.
  destruct (select_in_range (pe_draws env 0) (pe_now env) (b_balancer b) name (Key (set_Value c msg)) (t_NumPartitions t)
    (Hd 0%nat) Hbal Hn) as (bal & part & -> & Hpart & Hbal').
  destruct (check_closed_total (with_balancer b bal) part) as (bp & closed & Hck); [lia|]. rewrite Hck.
  destruct closed.
  { do 3 eexists. split; [done|]. left. split; [left|by left].
    exact (still_serves_same b name t bal bp Hs Hbal'). }
  destruct (topic_Partition_ready (b_cfg b) (b_codec b) t part) as (p & Hp & Hpr); [done|done|].
  rewrite Hp. cbn [wrapf]. unfold publish_append.
  destruct (Append_encoded b env p part msg c Hpr Henv) as (p' & -> & Happ); [|done|done|].
  { by apply (room_partition t 1 part). }
  unfold publish_complete. cbn [with_topic_partition with_runtime with_balancer with_topics b_balancer].
  destruct (OnPublishComplete_ok bal part Hbal') as (bal' & -> & Hbal''); [lia|]. rewrite Ok_bind. cbn [wrapf].
  unfold record_produce. destruct (RecordProduce_total (b_metrics b) name part Hcnt) as (mc & Hmc & Hcnt'); [lia|].
  cbn [with_balancer with_runtime with_topic_partition with_topics b_metrics]. rewrite Hmc, Ok_bind.
  do 3 eexists. split; [done|]. right. exists part, p, p'. split; [done|]. split; [done|]. split; [done|].
  apply (still_serves_intro b name t _ bal' bp mc); [done| |done|done|done].
  apply with_partition_ready; [done|]. apply Happ.
Qed.

(** ** Fetching *)

Lemma fetch_Ok b name i off d :
  fetch b name i off = Ok d <->
  exists t p msg, b_topics b !! name = Some t /\ topic_Partition t i = Ok p /\ Read p off = Ok msg /\
    decompressMessage b msg = Ok d.
Proof.
  unfold fetch, GetTopic. split.
  - destruct (b_topics b !! name) as [t|]; [|done]. rewrite Ok_bind, bind_Ok. intros (p & Hp & H).
    rewrite bind_Ok in H. destruct H as (msg & Hr & Hd). eauto 10.
  - intros (t & p & msg & -> & Hp & Hr & Hd). by rewrite Ok_bind, Hp, Ok_bind, Hr, Ok_bind.
Qed.

(** An append to one partition keeps what every partition delivers. *)
Lemma fetch_preserved b b' name t i p p' ds name' j off d :
  b_codec b' = b_codec b -> b_topics b !! name = Some t -> topic_Partition t i = Ok p ->
  b_topics b' = <[name := with_partition t i p']> (b_topics b) -> appended b p p' ds ->
  fetch b name' j off = Ok d -> fetch b' name' j off = Ok d.
Proof.
  intros Hc Ht Hp Ht' (_ & _ & Hkeep & _). rewrite !fetch_Ok. intros (t0 & q & msg & Ht0 & Hq & Hr & Hd).
  assert (Hd' : decompressMessage b' msg = Ok d) by (unfold decompressMessage in *; by rewrite Hc).
  rewrite Ht'. destruct (decide (name' = name)) as [->|Hne].
  - assert (t0 = t) as -> by congruence. exists (with_partition t i p').
    rewrite lookup_insert_eq. pose proof Hq as [Hj _]%topic_Partition_Ok.
    rewrite (topic_Partition_with_partition t i j p' p Hp Hj). case_decide as Hij.
    + subst j. assert (q = p) as -> by congruence. exists p', msg. split_and!; [done|done|by apply Hkeep|done].
    + by exists q, msg.
  - exists t0, q, msg. rewrite lookup_insert_ne by done. done.
Qed.
End serving.

(** ** Consuming in FIFO mode *)

Section fifo.
Context {W : Wal} {L : WalLaws W} {K : Compressors} {KL : CompressorLaws K} {F : Filepath} {D : Badger} {G : Gonum}.
Context {V : Govy} {R : MapRange} {E : BrokerEnv}.
Context {Bal : Type} {B : Balancer Bal} {BL : BalancerLaws Bal}.
Implicit Types b : Broker (Bal := Bal) (Sch := FIFO).

Lemma with_partition_id t i p : topic_Partition t i = Ok p -> with_partition t i p = t.
Proof. intros [_ Hl]%topic_Partition_Ok. unfold with_partition. rewrite list_insert_id by done. by destruct t. Qed.

(** The broker with other counters: all that consuming changes. *)
Lemma consumed_broker b name t i p :
  b_topics b !! name = Some t -> topic_Partition t i = Ok p -> b_schedulers b !! name = Some NewFIFO ->
  with_schedulers (with_topic_partition b name t i p) (<[name := NewFIFO]> (b_schedulers b)) = b.
Proof.
  intros Ht Hp Hs. unfold with_topic_partition, with_schedulers, with_topics. cbn.
  rewrite (with_partition_id t i p Hp), !insert_id by done. by destruct b.
Qed.

Lemma ConsumeFrom_fifo env b name group t i p off msg d :
  counters_ok (b_metrics b) -> b_topics b !! name = Some t -> topic_Partition t i = Ok p ->
  b_schedulers b !! name = Some NewFIFO -> 0 <= off < nextOffset p -> nextOffset p < 2 ^ 64 ->
  Read p off = Ok msg -> decompressMessage b msg = Ok d ->
  exists mc, ConsumeFrom env b name group i off = (with_metrics b mc, Ok (d, off + 1)) /\ counters_ok mc.
Proof.
  intros Hc Ht Hp Hs Hoff Hb Hr Hd. unfold ConsumeFrom. rewrite Ht, Hp. cbn [wrapf]. rewrite Hs.
  cbn [Next fifo_scheduler]. unfold fifo_Next, HighWaterMark. zdec. rewrite Hr, Ok_bind. cbn [wrapf with_topic_partition with_topics b_schedulers].
  change (with_topics b _) with (with_topic_partition b name t i p).
  rewrite (consumed_broker b name t i p Ht Hp Hs), Hd. cbn [wrapf].
  apply topic_Partition_Ok in Hp as [Hi _].
  destruct (RecordConsume_total (b_metrics b) name i group Hc Hi) as (mc & -> & Hc').
  exists mc. in_width. done.
Qed.

Lemma ConsumeFrom_fifo_end env b name group t i p off :
  b_topics b !! name = Some t -> topic_Partition t i = Ok p -> b_schedulers b !! name = Some NewFIFO ->
  1 <= nextOffset p -> nextOffset p <= off ->
  ConsumeFrom env b name group i off = (b, Err (Wrapf ErrNoMessages "scheduler.Next topic=%q part=%d")).
Proof.
  intros Ht Hp Hs H1 Hoff. unfold ConsumeFrom. rewrite Ht, Hp. cbn [wrapf]. rewrite Hs.
  cbn [Next fifo_scheduler]. unfold fifo_Next, HighWaterMark. zdec. cbn [wrapf with_topic_partition with_topics b_schedulers].
  change (with_topics b _) with (with_topic_partition b name t i p).
  by rewrite (consumed_broker b name t i p Ht Hp Hs).
Qed.

(** C1: End to end.  The message is any whose encoding fits the format ([entry_ok]:
    key, value and encoding below 4 GiB, int64 times, and a priority other than
    the two record tags 0xBA and 0xFF; with such a priority the broker
    acknowledges a message that cannot be read back, see
    [magic_priority_unreadable]).  Publishing it to a topic the broker serves
    either reports one of three errors (ErrTooLarge exactly when the message
    exceeds the configured size, the throttling, the codec's error) and stores
    nothing, or returns a partition of the topic and the partition's next offset;
    then a FIFO consumer, of any group, that reads there gets the message that
    was published, its value uncompressed again and the broker's two times in its
    header, and the offset after it.  Every message that could be fetched before
    still can, and the broker goes on serving the topic.  Never a panic, whatever
    the balancer. *)
Theorem publish_then_consume (env : PubEnv) (senv : SchedEnv) b (name group : string) (t : Topic) (msg : Message) :
  serves b name t -> b_schedulers b !! name = Some NewFIFO -> pub_env_ok env -> room t 1 -> entry_ok msg ->
  let '(b', _, r) := Publish env b name msg in
  match r with
  | Ok (partIdx, offset) =>
      too_large (b_cfg b) msg = false /\
      (exists p, topic_Partition t partIdx = Ok p /\ offset = nextOffset p) /\
      (exists m, snd (ConsumeFrom senv b' name group partIdx offset) = Ok (m, offset + 1) /\
         delivery (pe_now env) (ck_append (pe_clock env partIdx)) msg m) /\
      (forall name' j o m, fetch b name' j o = Ok m -> fetch b' name' j o = Ok m) /\
      (exists t', serves b' name t')
  | Err e => (if too_large (b_cfg b) msg then e = ErrTooLarge
              else e = ErrThrottled \/ exists e', Encode (b_codec b) (Value msg) = Err e') /\
             b_topics b' = b_topics b /\ serves b' name t
  | Panic => False
  end.
Proof.
  intros Hs Hsch Henv Hroom Hm.
  destruct (too_large (b_cfg b) msg) eqn:Hsz; [by unfold Publish; rewrite Hsz|].
  destruct (Publish_cases env b name t msg Hs Henv Hroom Hm Hsz) as (b' & msg' & r & -> & Hc).
  destruct Hc as [[Hb' Hr]|(i & p & p' & -> & Hp & Happ & Hst)].
  - assert (Hkeep : b_topics b' = b_topics b /\ serves b' name t).
    { pose proof Hs as (_ & _ & _ & Ht & _).
      destruct Hb' as [(_ & _ & _ & _ & Htop & Hs')| ->]; [|done]. by rewrite Htop, insert_id. }
    destruct Hr as [->|(e & He & ->)]; eauto.
  - destruct Hst as (Hcfg & Hcodec & Hsch' & _ & Htop & Hs'). pose proof Hs as (_ & _ & _ & Ht & _).
    pose proof Happ as (_ & Hn & _ & Hf). split; [done|]. split; [by exists p|]. split.
    + destruct (Hf 0%nat _ eq_refl) as (raw & Hraw & d & Hd & Hk & Hv & Hh). rewrite Z.add_0_r in Hraw.
      destruct Hs' as (_ & _ & Hcnt & Ht' & Hrd'). pose proof (room_partition t 1 i p Hroom Hp) as Hb1.
      assert (1 <= nextOffset p).
      { destruct Hs as (_ & _ & _ & _ & [_ Hps]). apply topic_Partition_Ok in Hp as [_ Hl].
        apply part_ok_nonneg, (Forall_lookup_1 _ _ _ _ Hps Hl). }
      destruct (ConsumeFrom_fifo senv b' name group (with_partition t i p') i p' (nextOffset p) raw d)
        as (mc & -> & _); [done|done| |by rewrite Hsch'|cbn [length] in Hn; lia|cbn [length] in Hn; lia|done| |].
      * pose proof Hp as [Hi _]%topic_Partition_Ok.
        by rewrite (topic_Partition_with_partition t i i p' p Hp Hi), decide_True.
      * unfold decompressMessage in *. by rewrite Hcodec.
      * exists d. split; [done|]. unfold delivery. by rewrite Hk, Hv, Hh.
    + split; [|by eexists]. intros name' j o m. by apply (fetch_preserved b b' name t i p p' _ name' j o m Hcodec Ht Hp Htop Happ).
Qed.

(** *** Batches of a consumer group *)

(** The messages a consumer of the partition still has before it, from [off] on. *)
Definition pending b (name : string) (i off : Z) (ds : list Message) : Prop :=
  counters_ok (b_metrics b) /\ b_schedulers b !! name = Some NewFIFO /\
  exists t p, b_topics b !! name = Some t /\ topic_Partition t i = Ok p /\
    1 <= off /\ nextOffset p = off + Z.of_nat (length ds) /\ nextOffset p < 2 ^ 64 /\
    forall k d, ds !! k = Some d -> fetch b name i (off + Z.of_nat k) = Ok d.

Lemma pending_with_metrics b name i off ds mc :
  pending b name i off ds -> counters_ok mc -> pending (with_metrics b mc) name i off ds.
Proof. intros (_ & Hs & H) Hc. split; [done|]. split; [done|]. exact H. Qed.

Lemma pending_with_offsets b name i off ds o : pending b name i off ds -> pending (with_offsets b o) name i off ds.
Proof. intros H. exact H. Qed.

Lemma pending_drop b name i off ds k :
  pending b name i off ds -> pending b name i (off + Z.of_nat (Nat.min k (length ds))) (drop k ds).
Proof.
  intros (Hc & Hs & t & p & Ht & Hp & H1 & Hn & Hb & Hf). split; [done|]. split; [done|].
  exists t, p. split; [done|]. split; [done|]. split; [lia|]. split; [rewrite length_drop; lia|]. split; [done|].
  intros j d Hj. pose proof (lookup_lt_Some _ _ _ Hj) as Hlt. rewrite length_drop in Hlt. rewrite lookup_drop in Hj.
  rewrite <- (Hf _ _ Hj). f_equal. lia.
Qed.

Lemma pending_tail b name i off d ds : pending b name i off (d :: ds) -> pending b name i (off + 1) ds.
Proof. intros H%(pending_drop _ _ _ _ _ 1). exact H. Qed.

Lemma consume_loop_fifo env b name group i off ds acc last n :
  pending b name i off ds ->
  exists mc, consume_loop env b name group i off acc last n =
      (with_metrics b mc, acc ++ take n ds,
       if decide (n = 0 \/ ds = [])%nat then last else off + Z.of_nat (Nat.min n (length ds)), Ok tt) /\
    counters_ok mc.
Proof.
  revert b off ds acc last. induction n as [|n IH]; intros b off ds acc last Hpend.
  { exists (b_metrics b). pose proof Hpend as (Hc & _). cbn. rewrite app_nil_r.
    replace (with_metrics b (b_metrics b)) with b by (by destruct b). done. }
  pose proof Hpend as (Hc & Hs & t & p & Ht & Hp & H1 & Hn & Hb & Hf). cbn [consume_loop].
  destruct ds as [|d ds].
  - rewrite (ConsumeFrom_fifo_end _ _ _ _ t i p) by (done || cbn in Hn; lia). cbn [errors_Is].
    rewrite bool_decide_false by done. cbn [orb]. rewrite bool_decide_true by done. cbn [orb].
    exists (b_metrics b). cbn [take]. rewrite app_nil_r, decide_True by (by right).
    replace (with_metrics b (b_metrics b)) with b by (by destruct b). done.
  - pose proof (Hf 0%nat d eq_refl) as Hd. rewrite Z.add_0_r in Hd.
    apply fetch_Ok in Hd as (t' & p' & msg & Ht' & Hp' & Hr & Hdec).
    assert (t' = t) as -> by congruence. assert (p' = p) as -> by congruence.
    destruct (ConsumeFrom_fifo (env (S n)) b name group t i p off msg d) as (mc & -> & Hc'); [done..| |done|done|done|].
    { cbn [length] in Hn. lia. }
    destruct (IH (with_metrics b mc) (off + 1) ds (acc ++ [d]) (off + 1)) as (mc' & -> & Hc'').
    { apply pending_with_metrics; [|done]. by eapply pending_tail. }
    exists mc'. split; [|done]. rewrite <- app_assoc. cbn [app take length].
    rewrite (decide_False (P := (S n = 0 \/ d :: ds = [])%nat)) by naive_solver. do 2 f_equal.
    destruct (decide (n = 0 \/ ds = [])%nat) as [[->| ->]|]; cbn [length Nat.min]; lia.
Qed.

(** What a consumer group gets from [k] calls of ConsumeBatch. *)
Fixpoint consume_rounds (now : Time) (env : nat -> SchedEnv) b (name group : string) (i n : Z) (k : nat)
    : Broker (Bal := Bal) (Sch := FIFO) * list Message :=
  match k with
  | O => (b, [])
  | S k' =>
      let '(b, msgs, _, _) := ConsumeBatch now env b name group i n in
      let '(b, rest) := consume_rounds now env b name group i n k' in (b, msgs ++ rest)
  end.

Lemma start_offset_commit now b group name i (s : OffsetStore) (last : Z) :
  b_offsetStore b = Some s -> in_u64 last ->
  exists s' r, broker_Commit now b group name i (i64 last) = (with_offsets b (Some s'), r) /\
    start_offset (with_offsets b (Some s')) group name i = last.
Proof.
  intros Hs Hl. unfold broker_Commit. rewrite Hs. destruct (Commit now s group name i (i64 last)) as [s' r] eqn:Hc.
  exists s', r. split; [done|]. unfold start_offset. cbn [with_offsets b_offsetStore]. unfold Load.
  assert (Hcache : cache s' !! bucketKey name i group = Some (i64 last)).
  { unfold Commit in Hc. cbn [dumpInterval] in Hc. destruct (0 <? dumpInterval s); simplify_eq/=.
    - by rewrite lookup_insert_eq.
    - unfold writeOne in Hc. destruct (badger_Set _ _ _). simplify_eq/=. by rewrite lookup_insert_eq. }
  rewrite Hcache. by apply u64_i64.
Qed.

Lemma ConsumeBatch_fifo now env b name group i n ds s :
  b_offsetStore b = Some s -> 0 < n ->
  pending b name i (start_offset b group name i) ds ->
  exists b' last r s', ConsumeBatch now env b name group i n = (b', take (Z.to_nat n) ds, last, r) /\
    b_offsetStore b' = Some s' /\ (ds = [] <-> last = 0 /\ r = Err ErrNoMessages) /\
    start_offset b' group name i = start_offset b group name i + Z.of_nat (Nat.min (Z.to_nat n) (length ds)) /\
    pending b' name i (start_offset b' group name i) (drop (Z.to_nat n) ds).
Proof.
  intros Hs Hn Hpend. unfold ConsumeBatch.
  destruct (consume_loop_fifo env b name group i _ ds [] 0 (Z.to_nat n) Hpend) as (mc & -> & Hc). cbn [app].
  pose proof Hpend as (_ & _ & t & p & _ & _ & H1 & Hnx & Hb & _).
  destruct ds as [|d ds].
  { rewrite take_nil. rewrite decide_True by done. do 4 eexists. split; [done|]. split; [exact Hs|].
    split; [done|]. cbn [length]. rewrite Nat.min_0_r, drop_nil.
    change (start_offset (with_metrics b mc) group name i) with (start_offset b group name i).
    split; [lia|]. by apply pending_with_metrics. }
  rewrite (decide_False (P := (Z.to_nat n = 0 \/ d :: ds = [])%nat)) by (intros [|]; [lia|done]).
  set (last := start_offset b group name i + _). rewrite decide_False by (rewrite length_take; cbn [length]; lia).
  destruct (start_offset_commit now (with_metrics b mc) group name i s last) as (s' & r & -> & Hst); [done| |].
  { unfold in_u64, last. lia. }
  do 4 eexists. split; [done|]. split; [done|]. split.
  { split; [done|]. intros [Hl _]. unfold last in Hl. lia. }
  rewrite Hst. split; [done|]. unfold last. apply pending_with_offsets, pending_drop, pending_with_metrics; done.
Qed.

(** C3: A consumer group that reads a FIFO partition in batches of [n] gets the
    pending messages in order, none twice and none left out: after [k] calls the
    first [k * n] of them, as many as there are, and the group's position has
    advanced by exactly that many.  The position is the committed offset, so a
    consumer that starts anew goes on from there; whether the offset database
    accepted the write does not matter while the broker runs. *)
Theorem ConsumeBatch_exactly_once (now : Time) (env : nat -> SchedEnv) b (name group : string) (i n : Z)
    (ds : list Message) (s : OffsetStore) (k : nat) :
  b_offsetStore b = Some s -> 0 < n -> pending b name i (start_offset b group name i) ds ->
  let '(b', msgs) := consume_rounds now env b name group i n k in
  msgs = take (k * Z.to_nat n) ds /\
  start_offset b' group name i = start_offset b group name i + Z.of_nat (length msgs) /\
  pending b' name i (start_offset b' group name i) (drop (k * Z.to_nat n) ds).
Proof.
  intros Hs Hn. revert b ds s Hs. induction k as [|k IH]; intros b ds s Hs Hpend; cbn [consume_rounds].
  { cbn. rewrite take_0, drop_0. split; [done|]. split; [lia|done]. }
  destruct (ConsumeBatch_fifo now env b name group i n ds s Hs Hn Hpend)
    as (b1 & last & r & s1 & -> & Hs1 & _ & Hoff & Hpend1).
  specialize (IH b1 (drop (Z.to_nat n) ds) s1 Hs1 Hpend1).
  destruct (consume_rounds now env b1 name group i n k) as [b2 rest]. destruct IH as (-> & Hoff2 & Hpend2).
  cbn [Nat.mul]. rewrite take_take_drop. split; [done|]. rewrite drop_drop in Hpend2. split; [|done].
  rewrite Hoff2, Hoff. rewrite !length_take, length_drop. lia.
Qed.

(** A broker without an offset store reads from offset 0, which no log has,
    while LoadOffset answers 1: its FIFO consumers never get a message from
    Consume. *)
Theorem Consume_without_store_stuck (env : SchedEnv) b (name group : string) (i : Z) :
  b_offsetStore b = None -> b_schedulers b !! name = Some NewFIFO ->
  LoadOffset b group name i = (1, Ok tt) /\
  forall m o, snd (Consume env b name group i) <> Ok (m, o).
Proof.
  intros Hs Hsch. split; [unfold LoadOffset; by rewrite Hs|]. intros m o. unfold Consume, start_offset. rewrite Hs.
  unfold ConsumeFrom. destruct (b_topics b !! name) as [t|]; [|done].
  destruct (topic_Partition t i) as [p|e|]; [|done..]. cbn [wrapf]. rewrite Hsch. cbn [Next fifo_scheduler].
  unfold fifo_Next. destruct (HighWaterMark p <? 0); [done|].
  destruct (Read p 0) as [msg|e|] eqn:Hr; [|done..]. exfalso. unfold Read in Hr. rewrite bind_Ok in Hr.
  destruct Hr as (d & Hd%wrapf_Ok & _). apply wal_Read_Ok in Hd as [Hd _]. pose proof (wal_first_pos (plog p)). lia.
Qed.
End fifo.

(** ** Topics and configuration *)

Section admin.
Context {W : Wal} {L : WalLaws W} {K : Compressors} {KL : CompressorLaws K} {F : Filepath} {D : Badger} {G : Gonum}.
Context {V : Govy} {VL : GovyLaws V} {R : MapRange} {E : BrokerEnv}.
Context {Bal : Type} {B : Balancer Bal} {BL : BalancerLaws Bal} {Sch : Type} {Sc : Scheduler Sch}.
Implicit Types b : Broker (Bal := Bal) (Sch := Sch).
Local Open Scope go_scope.

(** The logs that can be opened work and have numbers left. *)
Definition logs_open : Prop :=
  forall dir noSync l, wal_Open dir noSync = Ok l -> wal_healthy l /\ wal_next l < 2 ^ 64.

Lemma NewPartition_ready id name dataDir mode sp p :
  logs_open -> NewPartition id name dataDir mode sp = Ok p -> part_ok p /\ wal_healthy (plog p).
Proof.
  intros Ho. unfold NewPartition. rewrite bind_Ok. intros (l & Hl%wrapf_Ok & H). rewrite bind_Ok in H.
  destruct H as (last & Hlast%wrapf_Ok & [= <-]). destruct (Ho _ _ _ Hl) as [Hh Hn].
  split; [|done]. split.
  - unfold in_sync. cbn. apply wal_LastIndex_Ok in Hlast. unfold wal_next in *. pose proof (wal_first_pos l).
    in_width. lia.
  - unfold index_ok. cbn. case_decide; [done|]. cbn. by destruct (NewPriorityIndex_wf 50000) as (? & _).
Qed.

Lemma open_partitions_ready name dataDir mode sp i n ps :
  logs_open -> open_partitions name dataDir mode sp i n = Ok ps ->
  Forall (fun p => part_ok p /\ wal_healthy (plog p)) ps.
Proof.
  intros Ho. revert i ps. induction n as [|n IH]; intros i ps; cbn [open_partitions]; [intros [= <-]; constructor|].
  rewrite bind_Ok. intros (p & Hp%wrapf_Ok & H). rewrite bind_Ok in H. destruct H as (ps' & Hps & [= <-]).
  constructor; [by eapply NewPartition_ready|by eapply IH].
Qed.

Lemma SetBatchCodec_ready cfg codec p :
  part_ok p -> wal_healthy (plog p) -> part_ready cfg codec (SetBatchCodec codec p).
Proof. intros Hp Hh. split; [exact Hp|]. by split. Qed.

(** The topic CreateTopic makes is ready for the broker's configuration. *)
Lemma NewTopic_ready b name cfg t :
  logs_open -> NumPartitions cfg < 2 ^ 63 -> NewTopic name (b_dataDir b) cfg (cfg_SyncPolicy (b_cfg b)) = Ok t ->
  topic_ready (b_cfg b) (b_codec b)
    (if decide (CompressionType (b_cfg b) <> CompressionNone)
     then mkTopic (t_name t) (SetBatchCodec (b_codec b) <$> partitions t) (t_config t) (t_closed t) else t).
Proof.
  intros Ho Hn Ht. destruct (NewTopic_partitions_count name (b_dataDir b) cfg _ t Ht) as [Hcount Hlt].
  unfold NewTopic in Ht. rewrite bind_Ok in Ht. destruct Ht as (ps & Hps & [= <-]).
  apply open_partitions_ready in Hps; [|done]. unfold topic_ready, t_NumPartitions in *. cbn [partitions] in Hcount, Hlt.
  assert (0 < Z.of_nat (length ps) < 2 ^ 63) as Hlen by (destruct (Z.leb_spec (NumPartitions cfg) 0); lia).
  case_decide; cbn [partitions].
  - rewrite length_fmap. split; [done|]. apply Forall_fmap. eapply list.Forall_impl; [exact Hps|].
    intros p [Hp Hh]. by apply SetBatchCodec_ready.
  - split; [done|]. eapply list.Forall_impl; [exact Hps|]. intros p [Hp Hh]. split; [done|]. by split.
Qed.

(** C13: Creating a topic and then publishing to it is possible: when CreateTopic
    succeeds the broker serves the new topic (every partition writable and, with
    compression on, decoded with the broker's codec), the factory's scheduler is
    installed, and all other topics are unchanged.  When it fails the broker is
    as before, and when the name was taken the error is ErrTopicAlreadyExists, if
    the logs could be opened at all. *)
Theorem CreateTopic_serves b (name : string) (cfg : TopicConfig) :
  logs_open -> NumPartitions cfg < 2 ^ 63 -> snap_ok b -> bal_ok (b_balancer b) -> counters_ok (b_metrics b) ->
  let '(b', r) := CreateTopic b name cfg in
  match r with
  | Ok _ =>
      b_topics b !! name = None /\
      (exists t, serves b' name t /\ b_topics b' = <[name := t]> (b_topics b) /\
         t_NumPartitions t = if NumPartitions cfg <=? 0 then 4 else NumPartitions cfg) /\
      (forall f, b_factory b = Some f -> b_schedulers b' !! name = Some (f cfg))
  | Err e =>
      b' = b /\
      (is_Some (b_topics b !! name) ->
       is_ok (NewTopic name (b_dataDir b) cfg (cfg_SyncPolicy (b_cfg b))) = true -> e isErr ErrTopicAlreadyExists)
  | Panic => b' = b
  end.
Proof.
  intros Ho Hn Hsnap Hbal Hc. unfold CreateTopic.
  destruct (NewTopic name (b_dataDir b) cfg _) as [t|e|] eqn:Ht; cbn [wrapf]; [|done..].
  pose proof (NewTopic_ready b name cfg t Ho Hn Ht) as Hr.
  destruct (NewTopic_partitions_count name (b_dataDir b) cfg _ t Ht) as [Hcount _].
  set (t' := if decide _ then _ else _) in *.
  assert (Hlen : t_NumPartitions t' = t_NumPartitions t).
  { unfold t'. case_decide; [|done]. unfold t_NumPartitions. cbn. by rewrite length_fmap. }
  destruct (b_topics b !! name) as [t0|] eqn:Htop; [done|].
  cbn [with_topics b_factory]. destruct (b_factory b) as [f|]; (split; [done|]).
  - split; [|intros f' [= <-]; cbn; by rewrite lookup_insert_eq]. exists t'. rewrite Hlen. split; [|done].
    split; [exact Hsnap|]. split; [done|]. split; [done|]. split; [|done]. cbn. by rewrite lookup_insert_eq.
  - split; [|done]. exists t'. rewrite Hlen. split; [|done].
    split; [exact Hsnap|]. split; [done|]. split; [done|]. split; [|done]. cbn. by rewrite lookup_insert_eq.
Qed.

(** ApplyConfig accepts exactly the configurations the validator accepts; an
    error leaves the broker unchanged.  After it the snapshot holds the new
    configuration, its codec and the capacity of the I/O gate match it as they
    did before, nothing else of the broker changes, and applying the same
    configuration again does nothing. *)
Theorem ApplyConfig_consistent b (cfg : Config) :
  snap_ok b ->
  let '(b', r) := ApplyConfig b cfg in
  (is_ok r = rules_hold (configValidator cfg)) /\
  (r = Ok tt -> b_cfg b' = cfg /\ snap_ok b' /\ b' = with_snap b (b_cfg b') (b_codec b') (b_gateCap b') /\
     ApplyConfig b' cfg = (b', Ok tt)) /\
  (r <> Ok tt -> b' = b).
Proof.
  intros [Hcodec Hgate]. unfold ApplyConfig, Validate.
  destruct (rules_hold (configValidator cfg)) eqn:Hrules.
  - rewrite (govy_accepts "broker.Config" _ Hrules). cbn [wrapf]. case_decide as Heq.
    + split; [done|]. split; [|done]. intros _. split; [done|]. split; [done|]. split; [by destruct b|]. by rewrite decide_True.
    + split; [done|]. split; [|done]. intros _. cbn [with_snap b_cfg b_codec b_gateCap].
      split; [done|]. split; [|split; [done|by rewrite decide_True]].
      unfold snap_ok, with_snap. cbn [b_cfg b_codec b_gateCap]. split; case_decide as Hd; try done.
      * by rewrite Hcodec, Hd.
      * by rewrite Hgate, Hd.
  - destruct (govy_rejects "broker.Config" _ Hrules) as (e & ->). cbn [wrapf]. done.
Qed.

(** Deleting a topic that does not exist changes nothing and reports
    ErrTopicNotFound.  Otherwise the topic and its scheduler are gone, whatever
    happens next, and no other topic changes; when the call succeeds no group has
    an offset on the topic any more, and the offsets on the others are as they
    were (names without '/').  Looking the topic up afterwards fails, with an
    error that is not ErrTopicNotFound. *)
Theorem DeleteTopic_outcome b (name : string) :
  no_slash name = true ->
  let '(b', r) := DeleteTopic b name in
  match b_topics b !! name with
  | None => b' = b /\ exists e, r = Err e /\ e isErr ErrTopicNotFound
  | Some _ =>
      b_topics b' = delete name (b_topics b) /\ b_schedulers b' = delete name (b_schedulers b) /\
      (exists e, GetTopic b' name = Err e /\ errors_Is e ErrTopicNotFound = false) /\
      (r = Ok tt -> forall s, b_offsetStore b = Some s -> exists s', b_offsetStore b' = Some s' /\
         forall name' group i, no_slash name' = true ->
           if decide (name' = name) then exists e, Load s' group name' i = Err e
           else Load s' group name' i = Load s group name' i)
  end.
Proof.
  intros Hns. unfold DeleteTopic. destruct (b_topics b !! name) as [t|] eqn:Ht.
  2: { split; [done|]. eexists. split; [done|]. by apply errors_Is_wrapf, errors_Is_refl. }
  assert (Hget : forall b', b_topics b' = delete name (b_topics b) ->
    exists e, GetTopic b' name = Err e /\ errors_Is e ErrTopicNotFound = false).
  { intros b' Hb'. unfold GetTopic. rewrite Hb', lookup_delete_eq. eexists. split; [done|]. done. }
  destruct (wrapf _ _) as [[]|e|]; [|split_and!; try done; by apply Hget..].
  destruct (forget_partitions _ _ _) as [[mc lp]|e|]; [|split_and!; try done; by apply Hget..].
  destruct (wrapf _ _) as [[]|e|]; [|split_and!; try done; by apply Hget..].
  split_and!; try done; [by apply Hget|]. intros _ s Hs. cbn. rewrite Hs. eexists. split; [done|].
  intros name' group i Hns'. by apply store_DeleteTopic_Load.
Qed.

(** With a configuration the validator accepts, the retention pass does not
    look at what the consumer groups have committed: unread messages are removed
    by age and size alone, and the fallback to the commit floor never runs. *)
Theorem retention_ignores_commits (now : Time) (cfg : Config) (offsets : option OffsetStore) (name : string)
    (mc : MetricsCollector) (p : Partition) :
  Validate cfg = Ok tt -> retain_partition now cfg offsets name mc p = retain_partition now cfg None name mc p.
Proof.
  intros Hv. assert (Hb : 2 ^ 20 <= RetentionMaxBytes cfg).
  { unfold Validate in Hv. destruct (rules_hold (configValidator cfg)) eqn:Hr.
    - unfold configValidator, rules_hold in Hr. cbn [forallb prop_rules prop_value] in Hr.
      rewrite !andb_true_iff in Hr. destruct Hr as (_ & _ & [Hr _] & _). unfold rule_holds in Hr. by apply Z.leb_le.
    - destruct (govy_rejects "broker.Config" _ Hr) as (e & He). congruence. }
  unfold retain_partition. destruct (if 0 <? RetentionMaxAge cfg then _ else _) as [mc1 p1].
  destruct (if 0 <? RetentionMaxBytes cfg then _ else _) as [mc2 p2].
  by rewrite (proj2 (Z.eqb_neq (RetentionMaxBytes cfg) 0)), andb_false_r by lia.
Qed.

(** Switching compression off does not reach what is already stored: a
    message stored with its value compressed is delivered after the change with
    the compressed bytes as its value. *)
Theorem codec_change_exposes_bytes b (cfg : Config) (name : string) (t : Topic) (i off : Z) (p : Partition) (m : Message) :
  Validate cfg = Ok tt -> CompressionType cfg = CompressionNone -> CompressionType (b_cfg b) <> CompressionNone ->
  b_topics b !! name = Some t -> topic_Partition t i = Ok p -> Read p off = Ok m -> BatchDecoded m = false ->
  fetch (fst (ApplyConfig b cfg)) name i off = Ok m.
Proof.
  intros Hv Hnone Hcomp Ht Hp Hr Hbd. unfold ApplyConfig. rewrite Hv. cbn [wrapf].
  rewrite decide_False by (intros Heq; by rewrite Heq in Hcomp). rewrite decide_True by (by rewrite Hnone; apply not_eq_sym).
  apply fetch_Ok. exists t, p, m. split_and!; [done|done|done|]. unfold decompressMessage. rewrite Hbd.
  unfold with_snap. cbn [fst b_codec]. rewrite Hnone. cbn. by destruct m.
Qed.
End admin.

(** ** The properties at a concrete broker *)

Definition plain_env : BrokerEnv := {| os_RemoveAll := fun _ => Ok tt; range_topics := elements |}.

Section sample.
Local Open Scope go_scope.
Local Existing Instance join_path.
Local Existing Instance plain_stats.
Local Existing Instance forwards.
Local Existing Instance mem_badger.
Local Existing Instance plain_env.

Definition snappy_config : Config := set_CompressionType CompressionSnappy DefaultConfig.
Definition two_partitions : TopicConfig := set_NumPartitions 2 DefaultTopicConfig.
Definition empty_store : OffsetStore := mkStore (∅ : @bdb mem_badger) ∅ ∅ 0.

Definition fresh_broker (cfg : Config) : Broker (Bal := RoundRobin) (Sch := FIFO) :=
  SetSchedulerFactory (New 0 cfg "/data" (NewRoundRobin []) (Some empty_store)) (fun _ => NewFIFO).
Definition sample_broker (cfg : Config) : Broker (Bal := RoundRobin) (Sch := FIFO) :=
  fst (CreateTopic (fresh_broker cfg) "orders" two_partitions).
Definition sample_topic (codec : option Codec) : Topic :=
  mkTopic "orders" [mkPartition 0 "orders" (mkMem 0 [] false : @wlog mem_wal) 1 None ModeFIFO 0 codec;
                    mkPartition 1 "orders" (mkMem 0 [] false : @wlog mem_wal) 1 None ModeFIFO 0 codec] two_partitions false.

Lemma sample_broker_served : serves (sample_broker snappy_config) "orders" (sample_topic (Some snappyCodec)).
Proof.
  split; [by split|]. split; [vm_compute; done|]. split; [done|]. split; [vm_compute; reflexivity|].
  split; [by vm_compute|]. repeat constructor.
Qed.

Definition sample_pub : PubEnv := mkPubEnv (fun _ _ _ => 0) 500 (fun _ => sample_clock) no_pool (fun _ => None) reverse.
Lemma sample_pub_ok : pub_env_ok sample_pub.
Proof. split; [intros i k n Hn; cbn; lia|]. split; [by vm_compute|].
  split; [intros p; by vm_compute|]. intros gs. apply reverse_Permutation. Qed.

Definition hello : Message := NewMessage 400 x03 [x6b] [x68; x69].
Lemma hello_ok : entry_ok hello.
Proof. split; [|by vm_compute]. split; [|done]. split; [|done]. by split_and!. Qed.

Lemma publish_then_consume_witness :
  exists (b : Broker (Bal := RoundRobin) (Sch := FIFO)) m, snd (fst (Publish sample_pub (sample_broker snappy_config) "orders" hello)) = m /\
    snd (Publish sample_pub (sample_broker snappy_config) "orders" hello) = Ok (1, 1) /\
    (exists d, snd (ConsumeFrom (mkSchedEnv 0.5%float (fun _ => 0) 0) b "orders" "billing" 1 1) = Ok (d, 2) /\ Value d = [x68; x69]).
Proof.
  pose proof (publish_then_consume sample_pub (mkSchedEnv 0.5%float (fun _ => 0) 0) (sample_broker snappy_config) "orders" "billing"
    (sample_topic (Some snappyCodec)) hello sample_broker_served eq_refl sample_pub_ok
    ltac:(repeat constructor) hello_ok) as H.
  assert (Hr : snd (Publish sample_pub (sample_broker snappy_config) "orders" hello) = Ok (1, 1)) by (vm_compute; reflexivity).
  destruct (Publish sample_pub (sample_broker snappy_config) "orders" hello) as [[b m] r]. cbn in Hr. subst r.
  destruct H as (_ & _ & (d & Hd & _ & Hv & _) & _). exists b, m. split; [done|]. split; [done|]. exists d. by split.
Defined.

(** Two messages published, and what a group that starts afresh has before it. *)
Definition stocked_broker : Broker (Bal := RoundRobin) (Sch := FIFO) :=
  let b := SetBalancer (sample_broker snappy_config) (NewRoundRobin [WithRRSkipBudget 0]) in
  let b := fst (fst (Publish sample_pub b "orders" hello)) in
  let b := fst (fst (Publish sample_pub b "orders" hello)) in
  fst (fst (Publish sample_pub b "orders" hello)).
Definition hello_back : Message := mkMessage (mkHeader x03 400 500 1000) [x6b] [x68; x69] false.

Lemma stocked_pending : pending stocked_broker "orders" 1 1 [hello_back; hello_back].
Proof.
  split; [by vm_compute|]. split; [vm_compute; reflexivity|].
  set (t := match b_topics stocked_broker !! "orders" with Some t => t | None => sample_topic None end).
  exists t. eexists. split; [vm_compute; reflexivity|]. split; [vm_compute; reflexivity|].
  split; [done|]. split; [done|]. split; [done|].
  intros [|[|k]] d Hd; cbn in Hd; simplify_eq; vm_compute; reflexivity.
Qed.

Lemma ConsumeBatch_exactly_once_witness :
  let '(b', msgs) := consume_rounds 7 quiet_env stocked_broker "orders" "billing" 1 1 3 in
  msgs = [hello_back; hello_back] /\ start_offset b' "billing" "orders" 1 = 3.
Proof.
  assert (Hs : start_offset stocked_broker "billing" "orders" 1 = 1) by (vm_compute; reflexivity).
  pose proof (ConsumeBatch_exactly_once 7 quiet_env stocked_broker "orders" "billing" 1 1 [hello_back; hello_back]
    empty_store 3 ltac:(vm_compute; reflexivity) ltac:(lia) ltac:(rewrite Hs; exact stocked_pending)) as H.
  rewrite Hs in H. destruct (consume_rounds _ _ _ _ _ _ _ _) as [b' msgs]. destruct H as (-> & -> & _). by split.
Defined.

Lemma mem_logs_open : logs_open (W := mem_wal).
Proof. intros dir ns l [= <-]. by split. Qed.

Lemma CreateTopic_serves_witness :
  exists t, serves (fst (CreateTopic (fresh_broker snappy_config) "orders" two_partitions)) "orders" t /\ t_NumPartitions t = 2.
Proof.
  pose proof (CreateTopic_serves (fresh_broker snappy_config) "orders" two_partitions mem_logs_open ltac:(by vm_compute)
    ltac:(by split) I eq_refl) as H.
  assert (Hr : snd (CreateTopic (fresh_broker snappy_config) "orders" two_partitions) = Ok tt) by (vm_compute; reflexivity).
  destruct (CreateTopic _ _ _) as [b' r]. cbn in Hr. subst r. destruct H as (_ & (t & Ht & _ & Hn) & _). by exists t.
Defined.

Lemma ApplyConfig_consistent_witness :
  b_codec (fst (ApplyConfig (sample_broker snappy_config) (set_CompressionType CompressionGzip DefaultConfig))) = gzipCodec /\
  snd (ApplyConfig (sample_broker snappy_config) (set_CompressionType 4 DefaultConfig)) <> Ok tt.
Proof.
  pose proof (ApplyConfig_consistent (sample_broker snappy_config) (set_CompressionType CompressionGzip DefaultConfig) ltac:(by split)) as H.
  pose proof (ApplyConfig_consistent (sample_broker snappy_config) (set_CompressionType 4 DefaultConfig) ltac:(by split)) as H4.
  assert (Hr : snd (ApplyConfig (sample_broker snappy_config) (set_CompressionType CompressionGzip DefaultConfig)) = Ok tt)
    by (vm_compute; reflexivity).
  destruct (ApplyConfig _ (set_CompressionType CompressionGzip _)) as [b r]. cbn in Hr. subst r.
  destruct (ApplyConfig _ (set_CompressionType 4 _)) as [b4 r4].
  destruct H as (_ & Hok & _). destruct (Hok eq_refl) as (Hcfg & [Hcodec _] & _). cbn [fst snd]. split.
  - rewrite Hcodec, Hcfg. reflexivity.
  - destruct H4 as (Hr4 & _). intros ->. discriminate Hr4.
Defined.

Lemma DeleteTopic_outcome_witness :
  b_topics (fst (DeleteTopic (sample_broker snappy_config) "orders")) = ∅ /\
  exists e, snd (DeleteTopic (sample_broker snappy_config) "bills") = Err e /\ e isErr ErrTopicNotFound.
Proof.
  pose proof (DeleteTopic_outcome (sample_broker snappy_config) "orders" eq_refl) as H.
  pose proof (DeleteTopic_outcome (sample_broker snappy_config) "bills" eq_refl) as H'.
  assert (Ht : b_topics (sample_broker snappy_config) !! "orders" = Some (sample_topic (Some snappyCodec))) by (vm_compute; reflexivity).
  assert (Ht' : b_topics (sample_broker snappy_config) !! "bills" = None) by (vm_compute; reflexivity).
  rewrite Ht in H. rewrite Ht' in H'.
  destruct (DeleteTopic _ "orders") as [b1 r1]. destruct (DeleteTopic _ "bills") as [b2 r2]. cbn [fst snd]. split.
  - destruct H as (-> & _). vm_compute. reflexivity.
  - destruct H' as (_ & e & -> & He). exists e. exact (conj eq_refl He).
Defined.

Lemma retention_ignores_commits_witness :
  Validate DefaultConfig = Ok tt /\
  retain_partition 9 DefaultConfig (Some empty_store) "orders" (NewMetricsCollector 0) sample_partition =
    retain_partition 9 DefaultConfig None "orders" (NewMetricsCollector 0) sample_partition.
Proof. split; [reflexivity|]. apply retention_ignores_commits. reflexivity. Defined.

(** The value is the marker of the tagging compressor and the two bytes. *)
Lemma codec_change_exposes_bytes_witness :
  exists m, fetch (fst (ApplyConfig stocked_broker DefaultConfig)) "orders" 1 1 = Ok m /\ Value m = [x01; x68; x69].
Proof.
  set (raw := mkMessage (mkHeader x03 400 500 1000) [x6b] [x01; x68; x69] false).
  set (t := match b_topics stocked_broker !! "orders" with Some t => t | None => sample_topic None end).
  set (p := match topic_Partition t 1 with Ok p => p | _ => sample_partition end).
  exists raw. split; [|reflexivity].
  apply (codec_change_exposes_bytes stocked_broker DefaultConfig "orders" t 1 1 p raw); try (vm_compute; reflexivity).
  vm_compute. discriminate.
Defined.

Lemma Consume_without_store_stuck_witness :
  let b := with_offsets stocked_broker None in
  LoadOffset b "billing" "orders" 1 = (1, Ok tt) /\
  forall m o, snd (Consume (quiet_env 0) b "orders" "billing" 1) <> Ok (m, o).
Proof.
  intros b. apply (Consume_without_store_stuck (quiet_env 0) b "orders" "billing" 1); [reflexivity|].
  vm_compute. reflexivity.
Defined.
End sample.
