(* ===== verification/BatchProps.v ===== *)
(** * What PublishBatch guarantees (src/pkg/broker/broker.go)

    A batch is split by partition, each group is appended at once, and the
    outcomes are written back to the places of the messages.  The theorem at the
    end says that a result without an error is the place the message is found
    at. *)

From stdpp Require Import sorting.
From S2P Require Import Prelude Message PriorityIndex Wal Compression GoFloat Config Partition PartitionProps Topic.
From S2P Require Import Backpressure OffsetStore LoadPredictor Metrics Balancer RoundRobin Scheduler Broker BrokerProps.

(** ** Writing results back *)

Lemma fail_group_lookup idxs e rs k :
  fail_group idxs e rs !! k = (if decide (k ∈ idxs) then fun r => set_err r e else id) <$> rs !! k.
Proof.
  unfold fail_group. revert rs. induction idxs as [|i idxs IH]; intros rs; cbn [foldl].
  { rewrite decide_False by (by apply not_elem_of_nil). by destruct (rs !! k). }
  rewrite IH. destruct (decide (i = k)) as [->|Hne].
  - rewrite list_lookup_alter_eq, (decide_True (P := k ∈ k :: idxs)) by (by left).
    destruct (rs !! k) as [r|]; [|done]. cbn. by case_decide.
  - rewrite list_lookup_alter_ne by done. destruct (decide (k ∈ idxs)).
    + rewrite decide_True by (by right). done.
    + rewrite decide_False by (intros [?|?]%elem_of_cons; [by subst|done]). done.
Qed.

Lemma fail_group_length idxs e rs : length (fail_group idxs e rs) = length rs.
Proof.
  unfold fail_group. revert rs. induction idxs as [|i idxs IH]; intros rs; cbn [foldl]; [done|].
  by rewrite IH, length_alter.
Qed.

Lemma offset_group_other idxs offs rs k : k ∉ idxs -> offset_group idxs offs rs !! k = rs !! k.
Proof.
  revert offs rs. induction idxs as [|i idxs IH]; intros [|o offs] rs Hk; cbn [offset_group]; try done.
  apply not_elem_of_cons in Hk as [Hne Hk]. rewrite IH by done. by apply list_lookup_alter_ne.
Qed.

Lemma offset_group_lookup idxs offs rs j k o :
  NoDup idxs -> idxs !! j = Some k -> offs !! j = Some o ->
  offset_group idxs offs rs !! k = (fun r => set_offset r o) <$> rs !! k.
Proof.
  revert offs rs j. induction idxs as [|i idxs IH]; intros [|o' offs] rs [|j] Hnd Hj Ho; try done; cbn [offset_group] in *.
  - apply list.NoDup_cons in Hnd as [Hi _]. cbn in Hj, Ho. simplify_eq. rewrite offset_group_other by done.
    by rewrite list_lookup_alter_eq.
  - apply list.NoDup_cons in Hnd as [Hi Hnd]. cbn in Hj, Ho. rewrite (IH offs _ j) by done.
    rewrite list_lookup_alter_ne; [done|]. intros ->. by apply Hi, list_elem_of_lookup_2 with j.
Qed.

Lemma offset_group_length idxs offs rs : length (offset_group idxs offs rs) = length rs.
Proof.
  revert offs rs. induction idxs as [|i idxs IH]; intros [|o offs] rs; cbn [offset_group]; try done.
  by rewrite IH, length_alter.
Qed.

Lemma scatter_other {A} idxs (xs l : list A) k : k ∉ idxs -> scatter idxs xs l !! k = l !! k.
Proof.
  revert xs l. induction idxs as [|i idxs IH]; intros [|x xs] l Hk; cbn [scatter]; try done.
  apply not_elem_of_cons in Hk as [Hne Hk]. rewrite IH by done. by apply list_lookup_insert_ne.
Qed.

Lemma scatter_length {A} idxs (xs l : list A) : length (scatter idxs xs l) = length l.
Proof.
  revert xs l. induction idxs as [|i idxs IH]; intros [|x xs] l; cbn [scatter]; try done. by rewrite IH, length_insert.
Qed.

(** Collecting the messages of a group. *)
Lemma gather_Ok {A} (l : list A) idxs :
  Forall (fun k => is_Some (l !! k)) idxs ->
  exists xs, mapM (index l) idxs = Ok xs /\ length xs = length idxs /\
    forall j k, idxs !! j = Some k -> xs !! j = l !! k.
Proof.
  induction idxs as [|i idxs IH]; intros Hl; [by exists []|].
  apply List.Forall_cons_iff in Hl as [[x Hx] Hl]. destruct (IH Hl) as (xs & Hm & Hlen & Hj).
  exists (x :: xs). split; [|split; [cbn; lia|]].
  - change (index l i ≫= (fun y => mapM (index l) idxs ≫= fun k => mret (y :: k)) = Ok (x :: xs)).
    assert (index l i = Ok x) as -> by (unfold index; by rewrite Hx). by rewrite Ok_bind, Hm.
  - intros [|j] k Hk; cbn in *; [by simplify_eq|by apply Hj].
Qed.

Lemma sorted_lookup_mono (l : list nat) i j x y :
  StronglySorted lt l -> l !! i = Some x -> l !! j = Some y -> (i < j)%nat -> (x < y)%nat.
Proof.
  intros Hs. revert i j. induction Hs as [|z l Hs IH Hf]; intros [|i] [|j] Hi Hj Hlt; try lia; try done; cbn in *.
  - simplify_eq. rewrite list.Forall_forall in Hf. by apply Hf, list_elem_of_lookup_2 with j.
  - eapply IH; [done|done|lia].
Qed.

Lemma sorted_lookup_lt (l : list nat) i j x y :
  StronglySorted lt l -> l !! i = Some x -> l !! j = Some y -> (x < y)%nat -> (i < j)%nat.
Proof.
  intros Hs Hi Hj Hxy. destruct (lt_eq_lt_dec i j) as [[?| ->]|Hgt]; [done| |]; [simplify_eq; lia|].
  pose proof (sorted_lookup_mono l j i y x Hs Hj Hi Hgt). lia.
Qed.

Lemma NoDup_fst_inj {A B} (l : list (A * B)) x y : NoDup l.*1 -> x ∈ l -> y ∈ l -> x.1 = y.1 -> x = y.
Proof.
  induction l as [|z l IH]; intros Hnd Hx Hy Heq; [by apply not_elem_of_nil in Hx|].
  cbn [fmap list_fmap] in Hnd. apply list.NoDup_cons in Hnd as [Hz Hnd].
  apply elem_of_cons in Hx as [->|Hx], Hy as [->|Hy]; [done| | |by apply IH].
  - destruct Hz. rewrite Heq. by apply list_elem_of_fmap_2.
  - destruct Hz. rewrite <- Heq. by apply list_elem_of_fmap_2.
Qed.

(** ** Groups *)

Section groups.
Context (now : Time) (n : Z).

(** The messages [ms0] have become [ms], with results [rs] so far: each group
    lists, in order, messages that wait for their offset, and every message
    without an error is in a group. *)
Definition waiting (ms0 ms : list Message) (rs : list PublishResult) (q : Z) (k : nat) : Prop :=
  exists m, ms0 !! k = Some m /\ ms !! k = Some (set_ProduceTime now m) /\
    rs !! k = Some (mkPublishResult q 0 None).

Definition group_ok (ms0 ms : list Message) (rs : list PublishResult) (g : Z * list nat) : Prop :=
  0 <= g.1 < n /\ g.2 <> [] /\ StronglySorted lt g.2 /\ Forall (waiting ms0 ms rs g.1) g.2.

Definition groups_ok (ms0 ms : list Message) (rs : list PublishResult) (gs : list (Z * list nat)) : Prop :=
  NoDup gs.*1 /\ Forall (group_ok ms0 ms rs) gs /\
  forall k r, rs !! k = Some r -> pr_Err r = None -> exists g, g ∈ gs /\ k ∈ g.2.

Lemma waiting_snoc ms0 ms rs q k m m' r :
  waiting ms0 ms rs q k -> waiting (ms0 ++ [m]) (ms ++ [m']) (rs ++ [r]) q k.
Proof. intros (x & H1 & H2 & H3). exists x. split_and!; by apply lookup_app_l_Some. Qed.

Lemma group_ok_snoc ms0 ms rs g m m' r :
  group_ok ms0 ms rs g -> group_ok (ms0 ++ [m]) (ms ++ [m']) (rs ++ [r]) g.
Proof.
  intros (Hq & Hne & Hs & Hw). split; [done|]. split; [done|]. split; [done|].
  eapply list.Forall_impl; [exact Hw|]. intros k. apply waiting_snoc.
Qed.

Lemma add_to_group_keys gs q i x : x ∈ (add_to_group gs q i).*1 <-> x ∈ gs.*1 \/ x = q.
Proof.
  induction gs as [|[q' js] gs IH]; cbn [add_to_group].
  - cbn. rewrite !elem_of_cons, elem_of_nil. naive_solver.
  - case_decide; cbn [fmap list_fmap fst]; rewrite !elem_of_cons; [subst; naive_solver|]. rewrite IH. naive_solver.
Qed.

Lemma add_to_group_NoDup gs q i : NoDup gs.*1 -> NoDup (add_to_group gs q i).*1.
Proof.
  induction gs as [|[q' js] gs IH]; cbn [add_to_group]; intros Hnd.
  - cbn. apply list.NoDup_cons. split; [by apply not_elem_of_nil|by constructor].
  - case_decide as Hd; [done|]. cbn [fmap list_fmap fst] in *. apply list.NoDup_cons in Hnd as [Hn Hnd].
    apply list.NoDup_cons. split; [|by apply IH]. rewrite add_to_group_keys. naive_solver.
Qed.

Lemma add_to_group_members gs q i k :
  (exists g, g ∈ add_to_group gs q i /\ k ∈ g.2) <-> k = i \/ exists g, g ∈ gs /\ k ∈ g.2.
Proof.
  induction gs as [|[q' js] gs IH]; cbn [add_to_group].
  - setoid_rewrite elem_of_cons. setoid_rewrite elem_of_nil. split.
    + intros (g & [->|[]] & [->|Hk%elem_of_nil]%elem_of_cons); [by left|done].
    + intros [->|(g & [] & _)]. exists (q, [i]). split; [by left|by left].
  - case_decide; setoid_rewrite elem_of_cons.
    + split.
      * intros (g & [->|Hg] & Hk); [|right; eauto]. cbn in Hk. apply elem_of_app in Hk as [Hk|Hk%list_elem_of_singleton]; [|by left].
        right. exists (q', js). by split; [left|].
      * intros [->|(g & [->|Hg] & Hk)].
        -- exists (q', js ++ [i]). split; [by left|]. cbn. apply elem_of_app. right. by left.
        -- exists (q', js ++ [i]). split; [by left|]. cbn in *. apply elem_of_app. by left.
        -- exists g. split; [by right|done].
    + split.
      * intros (g & [->|Hg] & Hk); [right; exists (q', js); by split; [left|]|].
        destruct (proj1 IH) as [->|(g' & Hg' & Hk')]; [by exists g|by left|]. right. exists g'. by split; [right|].
      * intros [->|(g & [->|Hg] & Hk)].
        -- destruct (proj2 IH) as (g & Hg & Hk); [by left|]. exists g. by split; [right|].
        -- exists (q', js). by split; [left|].
        -- destruct (proj2 IH) as (g' & Hg' & Hk'); [right; by exists g|]. exists g'. by split; [right|].
Qed.

Lemma sorted_snoc (js : list nat) i : StronglySorted lt js -> Forall (fun k => (k < i)%nat) js -> StronglySorted lt (js ++ [i]).
Proof.
  intros Hs Hf. apply StronglySorted_app_2; [|done|repeat constructor].
  intros x y Hx ->%list_elem_of_singleton. rewrite list.Forall_forall in Hf. by apply Hf.
Qed.

Lemma add_to_group_ok ms0 ms rs gs q m :
  0 <= q < n -> length ms0 = length rs -> length ms = length rs ->
  Forall (group_ok ms0 ms rs) gs ->
  Forall (group_ok (ms0 ++ [m]) (ms ++ [set_ProduceTime now m]) (rs ++ [mkPublishResult q 0 None]))
    (add_to_group gs q (length rs)).
Proof.
  intros Hq Hl0 Hl. assert (Hnew : waiting (ms0 ++ [m]) (ms ++ [set_ProduceTime now m])
    (rs ++ [mkPublishResult q 0 None]) q (length rs)).
  { exists m. rewrite <- Hl0 at 1. rewrite <- Hl at 1. rewrite !lookup_app_r, !Nat.sub_diag by lia. done. }
  induction gs as [|[q' js] gs IH]; cbn [add_to_group]; intros Hg.
  - constructor; [|constructor]. split; [done|]. split; [done|]. split; [repeat constructor|]. by constructor; [|constructor].
  - apply List.Forall_cons_iff in Hg as [Hg Hgs]. case_decide as Hd.
    + subst q'. constructor; [|eapply list.Forall_impl; [exact Hgs|]; intros g; apply group_ok_snoc].
      destruct Hg as (Hq' & Hne & Hs & Hw). split; [done|]. split; [by destruct js|]. cbn [fst snd] in *. split.
      * apply sorted_snoc; [done|]. eapply list.Forall_impl; [exact Hw|]. intros k (? & _ & _ & Hk). by apply lookup_lt_Some in Hk.
      * apply Forall_app. split; [|by constructor; [|constructor]]. eapply list.Forall_impl; [exact Hw|]. intros k. apply waiting_snoc.
    + constructor; [by apply group_ok_snoc|by apply IH].
Qed.
End groups.

Section batch.
Context {W : Wal} {L : WalLaws W} {K : Compressors} {KL : CompressorLaws K} {F : Filepath} {D : Badger} {G : Gonum}.
Context {V : Govy} {R : MapRange} {E : BrokerEnv}.
Context {Bal : Type} {B : Balancer Bal} {BL : BalancerLaws Bal} {Sch : Type} {Sc : Scheduler Sch}.
Implicit Types b : Broker (Bal := Bal) (Sch := Sch).

(** ** The loop that assigns partitions *)

Lemma still_serves_trans b name t1 b1 t2 b2 :
  still_serves b name t1 b1 -> still_serves b1 name t2 b2 -> still_serves b name t2 b2.
Proof.
  intros (H1 & H2 & H3 & H4 & H5 & _) (G1 & G2 & G3 & G4 & G5 & G6).
  split_and!; try congruence. by rewrite G5, H5, insert_insert_eq.
Qed.

Lemma still_serves_refl b name t : serves b name t -> still_serves b name t b.
Proof. intros Hs. split_and!; try done. destruct Hs as (_ & _ & _ & Ht & _). by rewrite insert_id. Qed.

Lemma groups_ok_snoc_err now n ms0 ms rs gs m m' r :
  pr_Err r <> None -> groups_ok now n ms0 ms rs gs -> groups_ok now n (ms0 ++ [m]) (ms ++ [m']) (rs ++ [r]) gs.
Proof.
  intros Hr (Hnd & Hg & Hall). split; [done|]. split.
  - eapply list.Forall_impl; [exact Hg|]. intros g. apply group_ok_snoc.
  - intros k r' [Hk|[_ Hk]]%lookup_app_Some; [by apply Hall|].
    apply list_lookup_singleton_Some in Hk as [_ <-]. done.
Qed.

Lemma groups_ok_snoc_add now n ms0 ms rs gs q m :
  0 <= q < n -> length ms0 = length rs -> length ms = length rs -> groups_ok now n ms0 ms rs gs ->
  groups_ok now n (ms0 ++ [m]) (ms ++ [set_ProduceTime now m]) (rs ++ [mkPublishResult q 0 None])
    (add_to_group gs q (length rs)).
Proof.
  intros Hq H0 Hl (Hnd & Hg & Hall). split; [by apply add_to_group_NoDup|]. split; [by apply add_to_group_ok|].
  intros k r Hk Hr. apply add_to_group_members. apply lookup_app_Some in Hk as [Hk|[Hge Hk]]; [right; by eapply Hall|].
  left. apply list_lookup_singleton_Some in Hk as [Hk _]. lia.
Qed.

Lemma assign_one_spec env b name t gs msg ms0 ms rs :
  serves b name t -> pub_env_ok env -> length ms0 = length rs -> length ms = length rs ->
  groups_ok (pe_now env) (t_NumPartitions t) ms0 ms rs gs ->
  exists b' gs' m' r, assign_one env name (t_NumPartitions t) (length rs) msg (b, gs) = Ok (b', gs', m', r) /\
    still_serves b name t b' /\
    groups_ok (pe_now env) (t_NumPartitions t) (ms0 ++ [msg]) (ms ++ [m']) (rs ++ [r]) gs'.
Proof.
  intros Hs (Hd & _) H0 Hl Hg. unfold assign_one. pose proof Hs as (_ & Hbal & _ & _ & [Hn _]).
  destruct (too_large (b_cfg b) msg).
  { do 4 eexists. split; [done|]. split; [by apply still_serves_refl|]. by apply groups_ok_snoc_err. }
  destruct (select_in_range (pe_draws env (length rs)) (pe_now env) (b_balancer b) name
    (Key (set_ProduceTime (pe_now env) msg)) (t_NumPartitions t) (Hd _) Hbal Hn) as (bal & q & -> & Hq & Hbal').
  rewrite Ok_bind. destruct (check_closed_total (with_balancer b bal) q) as (bp & closed & ->); [lia|].
  rewrite Ok_bind. destruct closed.
  - unfold publish_complete. cbn [with_runtime with_balancer b_balancer].
    destruct (OnPublishComplete_ok bal q Hbal') as (bal' & -> & Hbal''); [lia|]. rewrite !Ok_bind.
    do 4 eexists. split; [done|]. split; [exact (still_serves_same b name t bal' bp Hs Hbal'')|].
    by apply groups_ok_snoc_err.
  - do 4 eexists. split; [done|]. split; [exact (still_serves_same b name t bal bp Hs Hbal')|].
    by apply groups_ok_snoc_add.
Qed.

Lemma assign_all_spec env b name t gs msgs ms0 ms rs :
  serves b name t -> pub_env_ok env -> length ms0 = length rs -> length ms = length rs ->
  groups_ok (pe_now env) (t_NumPartitions t) ms0 ms rs gs ->
  exists b' gs' ms' rs', assign_all env name (t_NumPartitions t) (length rs) msgs (b, gs) = Ok (b', gs', ms', rs') /\
    length ms' = length msgs /\ length rs' = length msgs /\ still_serves b name t b' /\
    groups_ok (pe_now env) (t_NumPartitions t) (ms0 ++ msgs) (ms ++ ms') (rs ++ rs') gs'.
Proof.
  revert b gs ms0 ms rs. induction msgs as [|m msgs IH]; intros b gs ms0 ms rs Hs Henv H0 Hl Hg; cbn [assign_all].
  { exists b, gs, [], []. rewrite !app_nil_r. split_and!; try done. by apply still_serves_refl. }
  destruct (assign_one_spec env b name t gs m ms0 ms rs Hs Henv H0 Hl Hg) as (b1 & gs1 & m' & r & -> & Hst & Hg1).
  rewrite Ok_bind. pose proof Hst as (_ & _ & _ & _ & _ & Hs1).
  destruct (IH b1 gs1 (ms0 ++ [m]) (ms ++ [m']) (rs ++ [r]) Hs1 Henv) as (b2 & gs2 & ms2 & rs2 & Ha & Hl1 & Hl2 & Hst2 & Hg2);
    [lens|lens|done|].
  rewrite length_app in Ha. cbn [length] in Ha. rewrite Ha, Ok_bind.
  exists b2, gs2, (m' :: ms2), (r :: rs2). split; [done|]. split; [cbn; lia|]. split; [cbn; lia|].
  split; [by eapply still_serves_trans|]. by rewrite <- !app_assoc in Hg2.
Qed.

(** ** The append of a group *)

Lemma compress_values_spec codec msgs :
  exists msgs' r, compress_values codec msgs = (msgs', r) /\ length msgs' = length msgs /\
    (r = Ok tt /\ Forall2 (encoded codec) msgs msgs' \/ exists e, r = Err e).
Proof.
  induction msgs as [|m msgs IH]; cbn [compress_values]; [exists [], (Ok tt); split_and!; [done|done|left; done]|].
  pose proof (Encode_no_panic codec (Value m)). destruct (Encode codec (Value m)) as [c|e|] eqn:He; cbn [wrapf]; [| |done].
  - destruct IH as (msgs' & r & -> & Hl & Hr). do 2 eexists. split; [done|]. split; [cbn; lia|].
    destruct Hr as [[-> Hf]|Hr]; [left|by right]. split; [done|]. constructor; [by exists c|done].
  - do 2 eexists. split; [done|]. split; [done|]. right. by eexists.
Qed.

Lemma append_group_spec env b q p batch :
  snap_ok b -> part_ready (b_cfg b) (b_codec b) p -> pub_env_ok env -> batch <> [] ->
  nextOffset p + Z.of_nat (length batch) < 2 ^ 64 -> Z.of_nat (length batch) < 2 ^ 32 -> Forall entry_ok batch ->
  exists p' batch' r, append_group env (b_cfg b) (b_codec b) q p batch = (p', batch', r) /\
    length batch' = length batch /\
    (r = Ok (seqZ (nextOffset p) (Z.of_nat (length batch))) /\
       appended b p p' (set_AppendTime (ck_append (pe_clock env q)) <$> batch) \/
     (exists e, r = Err e) /\ p' = p).
Proof.
  intros [Hcodec _] Hp (_ & _ & Hck & _) Hne Hroom Hlen Hok. unfold append_group.
  set (ck := pe_clock env q). assert (Hplain : forall batch', Forall2 (encoded (b_codec b)) batch batch' ->
    exists p' batch'' r, AppendBatch ck (pe_pool env) p batch' = (p', batch'', r) /\ length batch'' = length batch /\
    (r = Ok (seqZ (nextOffset p) (Z.of_nat (length batch))) /\ appended b p p' (set_AppendTime (ck_append ck) <$> batch) \/
     (exists e, r = Err e) /\ p' = p)).
  { intros batch' Hf. destruct (append_encoded b ck (pe_pool env) p batch batch' Hp Hne (Hck q) Hroom Hok Hf)
      as (p' & -> & Happ). do 3 eexists. split; [done|]. rewrite length_fmap.
    split; [symmetry; by eapply list.Forall2_length|]. by left. }
  destruct (decide (CompressionType (b_cfg b) = CompressionNone)) as [Hnone|Hcomp].
  - rewrite (bool_decide_false (_ <> _)) by naive_solver. cbn [andb]. apply Hplain.
    apply Forall2_same_length_lookup_2; [done|]. intros i m m' Hi Hi'. simplify_eq. exists (Value m). split; [|by destruct m].
    rewrite Hcodec, Hnone. done.
  - rewrite (bool_decide_true (_ <> _)) by done. cbn [andb]. case_bool_decide as Hgt.
    + destruct (Encode (b_codec b) (payload_of (set_AppendTime (ck_append ck) <$> batch))) as [c|e|] eqn:He;
        [| |by destruct (Encode_no_panic (b_codec b) (payload_of (set_AppendTime (ck_append ck) <$> batch)))].
      * destruct (append_framed b ck p batch c Hp Hcomp Hne (Hck q) Hroom Hlen Hok He) as (p' & -> & Happ).
        do 3 eexists. split; [done|]. rewrite length_fmap. split; [done|]. by left.
      * unfold AppendBatchCompressed. rewrite decide_False by (by destruct batch). cbn zeta.
        rewrite fill_payload_all by (by rewrite length_replicate). rewrite Ok_bind, He. cbn [wrapf].
        do 3 eexists. split; [done|]. rewrite length_fmap. split; [done|]. right. split; [by eexists|done].
    + destruct (compress_values_spec (b_codec b) batch) as (batch' & r & -> & Hl & [[-> Hf]|(e & ->)]); [by apply Hplain|].
      do 3 eexists. split; [done|]. split; [done|]. right. split; [by eexists|done].
Qed.

(** ** The groups, one after the other *)

Section run.
Context (env : PubEnv) (name : string) (b0 : Broker (Bal := Bal) (Sch := Sch)) (t : Topic).
Context (gs : list (Z * list nat)) (ms0 : list Message).
Context (Henv : pub_env_ok env) (Hroom : room t (length ms0)) (Hlen : Z.of_nat (length ms0) < 2 ^ 32).
Context (Hentry : Forall entry_ok ms0).
Let n := t_NumPartitions t.

(** The result [r] of message [k] is the place where [b] has it: at its position
    in its group, counted from the partition's next offset. *)
Definition placed b (k : nat) (r : PublishResult) : Prop :=
  exists g j p m d, g ∈ gs /\ g.2 !! j = Some k /\ topic_Partition t g.1 = Ok p /\
    r = mkPublishResult g.1 (nextOffset p + Z.of_nat j) None /\ ms0 !! k = Some m /\
    fetch b name g.1 (nextOffset p + Z.of_nat j) = Ok d /\
    delivery (pe_now env) (ck_append (pe_clock env g.1)) m d.

Definition keeps_fetching b b' : Prop :=
  forall name' j o m, fetch b name' j o = Ok m -> fetch b' name' j o = Ok m.

Lemma placed_mono b b' k r : keeps_fetching b b' -> placed b k r -> placed b' k r.
Proof.
  intros Hf (g & j & p & m & d & Hg & Hj & Hp & Hr & Hm & Hd & Hdel). exists g, j, p, m, d.
  split_and!; try done; [by apply Hf|apply Hdel..].
Qed.

Definition batch_inv (rest : list (Z * list nat)) (st : batch_state) : Prop :=
  exists tc, still_serves b0 name tc (bs_broker st) /\ t_NumPartitions tc = n /\
    (forall g, g ∈ rest -> topic_Partition tc g.1 = topic_Partition t g.1) /\
    length (bs_msgs st) = length ms0 /\ length (bs_results st) = length ms0 /\
    Forall (group_ok (pe_now env) n ms0 (bs_msgs st) (bs_results st)) rest /\
    keeps_fetching b0 (bs_broker st) /\
    forall k r, bs_results st !! k = Some r -> pr_Err r = None ->
      (exists g, g ∈ rest /\ k ∈ g.2) \/ placed (bs_broker st) k r.

(** A message belongs to one group only. *)
Lemma group_disjoint ms rs g g' k :
  group_ok (pe_now env) n ms0 ms rs g -> group_ok (pe_now env) n ms0 ms rs g' -> k ∈ g.2 -> k ∈ g'.2 -> g.1 = g'.1.
Proof.
  intros (_ & _ & _ & Hw) (_ & _ & _ & Hw') Hk Hk'. rewrite list.Forall_forall in Hw, Hw'.
  destruct (Hw k Hk) as (? & _ & _ & Hr), (Hw' k Hk') as (? & _ & _ & Hr'). congruence.
Qed.

Lemma batch_inv_finish g rest st tc tc' b' ms' rs' :
  batch_inv (g :: rest) st -> NoDup (g :: rest).*1 -> b_topics (bs_broker st) !! name = Some tc ->
  still_serves (bs_broker st) name tc' b' -> t_NumPartitions tc' = t_NumPartitions tc ->
  (forall q, 0 <= q -> q <> g.1 -> topic_Partition tc' q = topic_Partition tc q) ->
  keeps_fetching (bs_broker st) b' ->
  length ms' = length (bs_msgs st) -> length rs' = length (bs_results st) ->
  (forall k, k ∉ g.2 -> ms' !! k = bs_msgs st !! k /\ rs' !! k = bs_results st !! k) ->
  (forall k r, k ∈ g.2 -> rs' !! k = Some r -> pr_Err r = None -> placed b' k r) ->
  batch_inv rest (mkBatch b' ms' rs').
Proof.
  intros (tc0 & Hst & Hn & Hparts & Hlm & Hlr & Hgs & Hkf & Hdone) Hnd Htc Hst' Hn' Hparts' Hkf' Hlm' Hlr' Hsame Hplace.
  assert (tc0 = tc) as -> by (destruct Hst as (_ & _ & _ & _ & _ & _ & _ & _ & ? & _); congruence).
  cbn [fmap list_fmap] in Hnd. apply list.NoDup_cons in Hnd as [Hng Hnd]. apply List.Forall_cons_iff in Hgs as [Hg Hgs].
  assert (Hother : forall g', g' ∈ rest -> g'.1 <> g.1 /\ group_ok (pe_now env) n ms0 (bs_msgs st) (bs_results st) g').
  { intros g' Hg'. split; [intros Heq; apply Hng; rewrite <- Heq; by apply list_elem_of_fmap_2|].
    rewrite list.Forall_forall in Hgs. by apply Hgs. }
  exists tc'. cbn [bs_broker bs_msgs bs_results]. split; [by eapply still_serves_trans|]. split; [congruence|]. split.
  { intros g' Hg'. destruct (Hother g' Hg') as [Hne (Hq & _)]. rewrite <- Hparts by (by right). apply Hparts'; [lia|done]. }
  split; [congruence|]. split; [congruence|]. split; [|split].
  - apply list.Forall_forall. intros g' Hg'. destruct (Hother g' Hg') as [Hne Hok].
    pose proof Hok as (Hq & Hne' & Hs & Hw). split; [done|]. split; [done|]. split; [done|].
    apply list.Forall_forall. intros k Hk. rewrite list.Forall_forall in Hw. destruct (Hw k Hk) as (m & Hm & Hm' & Hr).
    assert (k ∉ g.2) as Hk' by (intros Hk'; apply Hne; by eapply (group_disjoint _ _ g' g)).
    destruct (Hsame k Hk') as [E1 E2]. exists m. by rewrite E1, E2.
  - intros name' j o m Hf. by apply Hkf', Hkf.
  - intros k r Hr He. destruct (decide (k ∈ g.2)) as [Hk|Hk]; [right; by apply Hplace|].
    destruct (Hsame k Hk) as [_ E2]. rewrite E2 in Hr. destruct (Hdone k r Hr He) as [(g' & [->|Hg']%elem_of_cons & Hk')|Hpl]; [done| |].
    + left. by exists g'.
    + right. by eapply placed_mono.
Qed.

(** A group whose messages all fail. *)
Lemma batch_inv_fail g rest st tc b' ms' e :
  batch_inv (g :: rest) st -> NoDup (g :: rest).*1 -> b_topics (bs_broker st) !! name = Some tc ->
  still_serves (bs_broker st) name tc b' -> length ms' = length (bs_msgs st) ->
  (forall k, k ∉ g.2 -> ms' !! k = bs_msgs st !! k) ->
  batch_inv rest (mkBatch b' ms' (fail_group g.2 e (bs_results st))).
Proof.
  intros Hinv Hnd Htc Hst Hlm Hsame. eapply (batch_inv_finish g rest st tc tc); try done.
  - intros name' j o m. rewrite !fetch_Ok. destruct Hst as (_ & Hc & _ & _ & Ht & _).
    intros (t0 & p & msg & Ht0 & Hp & Hr & Hd). exists t0, p, msg. rewrite Ht, insert_id by done.
    split_and!; try done. unfold decompressMessage in *. by rewrite Hc.
  - by rewrite fail_group_length.
  - intros k Hk. split; [by apply Hsame|]. rewrite fail_group_lookup, decide_False by done. by destruct (bs_results st !! k).
  - intros k r Hk Hr He. rewrite fail_group_lookup, decide_True in Hr by done.
    destruct (bs_results st !! k); simplify_eq/=.
Qed.

Lemma complete_n_spec b q k :
  0 <= q -> bal_ok (b_balancer b) ->
  exists bal, complete_n b q k = Ok (with_runtime b bal (b_backpressure b) (b_factory b)) /\ bal_ok bal.
Proof.
  intros Hq. revert b. induction k as [|k IH]; intros b Hb; cbn [complete_n].
  { exists (b_balancer b). split; [|done]. f_equal. by destruct b. }
  unfold publish_complete. destruct (OnPublishComplete_ok (b_balancer b) q Hb Hq) as (bal & -> & Hbal).
  rewrite !Ok_bind. destruct (IH (with_balancer b bal) Hbal) as (bal' & -> & Hbal'). by exists bal'.
Qed.

Lemma sorted_NoDup (idxs : list nat) : StronglySorted lt idxs -> NoDup idxs.
Proof.
  induction 1 as [|i idxs Hs IH Hf]; constructor; [|done]. intros Hi. rewrite list.Forall_forall in Hf.
  specialize (Hf i Hi). lia.
Qed.

Lemma sorted_length (idxs : list nat) N : StronglySorted lt idxs -> Forall (fun k => (k < N)%nat) idxs -> (length idxs <= N)%nat.
Proof.
  intros Hs Hf. rewrite <- (length_seq N 0). apply submseteq_length, NoDup_submseteq; [by apply sorted_NoDup|].
  intros k Hk. rewrite list.Forall_forall in Hf. apply elem_of_seq. specialize (Hf k Hk). lia.
Qed.

(** The messages of a group, collected from the array. *)
Lemma group_batch ms rs g :
  group_ok (pe_now env) n ms0 ms rs g ->
  exists batch, mapM (index ms) g.2 = Ok batch /\ length batch = length g.2 /\ batch <> [] /\
    (length batch <= length ms0)%nat /\ Forall entry_ok batch /\
    forall j k, g.2 !! j = Some k -> exists m, ms0 !! k = Some m /\ batch !! j = Some (set_ProduceTime (pe_now env) m) /\
      rs !! k = Some (mkPublishResult g.1 0 None).
Proof.
  intros (Hq & Hne & Hs & Hw). destruct (gather_Ok ms g.2) as (batch & Hb & Hl & Hj).
  { eapply list.Forall_impl; [exact Hw|]. intros k (m & _ & -> & _). done. }
  assert (Hlk : forall j k, g.2 !! j = Some k -> exists m, ms0 !! k = Some m /\
    batch !! j = Some (set_ProduceTime (pe_now env) m) /\ rs !! k = Some (mkPublishResult g.1 0 None)).
  { intros j k Hk. destruct (Forall_lookup_1 _ _ _ _ Hw Hk) as (m & Hm & Hm' & Hr). exists m. by rewrite (Hj j k Hk). }
  exists batch. split; [done|]. split; [done|]. split; [intros ->; by destruct g.2|]. split; [|split; [|done]].
  - rewrite Hl. apply sorted_length; [done|]. eapply list.Forall_impl; [exact Hw|]. intros k (m & Hm & _).
    by apply lookup_lt_Some in Hm.
  - apply Forall_lookup_2. intros j m' Hm'. destruct (lookup_lt_is_Some_2 g.2 j) as [k Hk].
    { rewrite <- Hl. by eapply lookup_lt_Some. }
    destruct (Hlk j k Hk) as (m & Hm & Hb' & _). assert (m' = set_ProduceTime (pe_now env) m) as -> by congruence.
    destruct Henv as (_ & Hnow & _). apply entry_ok_ProduceTime; [done|]. exact (Forall_lookup_1 _ _ _ _ Hentry Hm).
Qed.

Lemma appended_keeps b b' tc q p p' ds :
  b_topics b !! name = Some tc -> topic_Partition tc q = Ok p -> appended b p p' ds ->
  still_serves b name (with_partition tc q p') b' -> keeps_fetching b b'.
Proof.
  intros Ht Hp Happ (_ & Hc & _ & _ & Htop & _) name' j o m.
  by apply (fetch_preserved b b' name tc q p p' ds).
Qed.

(** After a successful write every message of the group is where its result says. *)
Lemma group_placed b b' g tc p p' batch rs k r :
  g ∈ gs -> NoDup g.2 -> 0 <= g.1 -> topic_Partition t g.1 = Ok p -> topic_Partition tc g.1 = Ok p -> length batch = length g.2 ->
  (forall j k, g.2 !! j = Some k -> exists m, ms0 !! k = Some m /\ batch !! j = Some (set_ProduceTime (pe_now env) m) /\
    rs !! k = Some (mkPublishResult g.1 0 None)) ->
  appended b p p' (set_AppendTime (ck_append (pe_clock env g.1)) <$> batch) -> still_serves b name (with_partition tc g.1 p') b' ->
  k ∈ g.2 -> offset_group g.2 (seqZ (nextOffset p) (Z.of_nat (length batch))) rs !! k = Some r -> placed b' k r.
Proof.
  intros Hin Hnd Hq Hpt Hp Hlb Hlk (_ & _ & _ & Hf) (_ & Hc & _ & _ & Htop & _) [j Hj]%list_elem_of_lookup_1 Hr.
  destruct (Hlk j k Hj) as (m & Hm & Hbj & Hrk). assert (Hlt : (j < length batch)%nat) by (by eapply lookup_lt_Some).
  rewrite (offset_group_lookup _ _ _ j k (nextOffset p + Z.of_nat j)), Hrk in Hr; [|done|done|apply lookup_seqZ; split; [done|lia]].
  cbn in Hr. simplify_eq. destruct (Hf j (set_AppendTime (ck_append (pe_clock env g.1)) (set_ProduceTime (pe_now env) m)))
    as (raw & Hraw & d & Hd & Hkd & Hvd & Hhd); [by rewrite list_lookup_fmap, Hbj|].
  exists g, j, p, m, d. split_and!; try done. apply fetch_Ok. exists (with_partition tc g.1 p'), p', raw.
  split; [by rewrite Htop, lookup_insert_eq|].
  split; [rewrite (topic_Partition_with_partition tc g.1 g.1 p' p Hp) by lia; by rewrite decide_True|].
  split; [done|]. unfold decompressMessage in *. by rewrite Hc.
Qed.

Lemma appendPartitionBatch_inv g rest st :
  g ∈ gs -> batch_inv (g :: rest) st -> NoDup (g :: rest).*1 ->
  exists st', appendPartitionBatch env name g.1 g.2 st = Ok st' /\ batch_inv rest st'.
Proof.
  intros Hin Hinv Hnd. pose proof Hinv as (tc & Hst & Hn & Hparts & Hlm & Hlr & Hgs & _).
  pose proof Hst as (_ & _ & _ & _ & _ & Hserves). pose proof Hserves as (Hsnap & Hbal & Hcnt & Htc & Hready).
  apply List.Forall_cons_iff in Hgs as [Hg _]. pose proof Hg as (Hq & _ & Hsorted & _).
  unfold appendPartitionBatch. rewrite Htc.
  destruct (topic_Partition_ready _ _ tc g.1 Hready) as (p & Hp & Hpr); [unfold n in *; lia|]. rewrite Hp.
  assert (Hpt : topic_Partition t g.1 = Ok p) by (rewrite <- Hparts; [done|by left]).
  destruct (group_batch _ _ g Hg) as (batch & -> & Hlb & Hne & Hle & Hok & Hlk). rewrite Ok_bind.
  pose proof (room_partition t _ g.1 p Hroom Hpt) as Hr.
  destruct (append_group_spec env (bs_broker st) g.1 p batch Hsnap Hpr Henv Hne) as (p' & batch' & r & -> & Hlb' & Hcase);
    [lia|lia|done|].
  destruct (complete_n_spec (with_topic_partition (bs_broker st) name tc g.1 p') g.1 (length g.2)) as (bal & Hcn & Hbal');
    [lia|done|].
  destruct (RecordProduceBatch_total (b_metrics (bs_broker st)) name g.1 (Z.of_nat (length g.2)) Hcnt) as (mc & Hmc & Hcnt');
    [lia|].
  assert (Hready' : part_ready (b_cfg (bs_broker st)) (b_codec (bs_broker st)) p').
  { destruct Hcase as [[_ Happ]|[_ ->]]; [apply Happ|done]. }
  pose proof (still_serves_intro (bs_broker st) name tc _ bal (b_backpressure (bs_broker st)) mc _ Hserves
    (with_partition_ready _ _ tc g.1 p' Hready Hready') Hbal' Hcnt' eq_refl) as Hst'.
  assert (Hms : forall k, k ∉ g.2 -> scatter g.2 batch' (bs_msgs st) !! k = bs_msgs st !! k).
  { intros k Hk. by apply scatter_other. }
  destruct Hcase as [[-> Happ]|[(e & ->) ->]].
  - rewrite Ok_bind, Hcn, Ok_bind. cbn [b_metrics with_runtime with_topic_partition with_topics]. rewrite Hmc, Ok_bind.
    eexists. split; [done|]. eapply (batch_inv_finish g rest st tc); [done|done|done|exact Hst'| | | | | | |].
    + unfold t_NumPartitions. cbn. by rewrite length_insert.
    + intros q Hq0 Hqne. rewrite (topic_Partition_with_partition tc g.1 q p' p Hp Hq0). by rewrite decide_False.
    + eapply (appended_keeps (bs_broker st) _ tc g.1 p p'); done.
    + by rewrite scatter_length.
    + by rewrite offset_group_length.
    + intros k Hk. split; [by apply Hms|]. by apply offset_group_other.
    + intros k r' Hk Hr' _. eapply (group_placed (bs_broker st) _ g tc p p' batch); try done; [by apply sorted_NoDup|lia].
  - rewrite Ok_bind, Hcn, Ok_bind. cbn [b_metrics with_runtime with_topic_partition with_topics]. rewrite Hmc, Ok_bind.
    eexists. split; [done|]. rewrite (with_partition_id tc g.1 p Hp) in Hst'.
    eapply (batch_inv_fail g rest st tc); [done|done|done| |by rewrite scatter_length|exact Hms].
    rewrite <- (with_partition_id tc g.1 p Hp) in Hst' at 2. exact Hst'.
Qed.

Lemma run_groups_inv gated rest st :
  rest ⊆ gs -> batch_inv rest st -> NoDup rest.*1 ->
  exists st', run_groups env gated name rest st = Ok st' /\ batch_inv [] st'.
Proof.
  revert st. induction rest as [|g rest IH]; intros st Hsub Hinv Hnd; cbn [run_groups]; [by exists st|].
  assert (Hrest : NoDup rest.*1) by (by apply list.NoDup_cons in Hnd as [_ ?]).
  assert (Hstep : exists st', run_group env gated name g st = Ok st' /\ batch_inv rest st').
  { unfold run_group. destruct (if gated then _ else _) as [e|].
    - eexists. split; [done|]. pose proof Hinv as (tc & Hst & _). pose proof Hst as (_ & _ & _ & _ & _ & Hserves).
      eapply (batch_inv_fail g rest st tc); try done; [apply Hserves|]. by apply still_serves_refl.
    - apply appendPartitionBatch_inv; [apply Hsub; by left|done|done]. }
  destruct Hstep as (st1 & -> & Hinv1). rewrite Ok_bind. apply IH; [|done|done]. intros x Hx. apply Hsub. by right.
Qed.
End run.

(** C2: PublishBatch, for messages whose encoding fits the format ([entry_ok]: key,
    value and encoding below 4 GiB, int64 times, and a priority other than the
    two record tags 0xBA and 0xFF; a plain record with such a priority is
    acknowledged and cannot be read back, see [magic_priority_unreadable]), gives
    one result per message.  A message whose result has no
    error is where the result says: fetching that partition and offset returns
    the message with its original value, whether the group was stored as one
    compressed block or message by message.  Within a partition the offsets
    follow the order of the batch, so no two messages share a place.  Everything
    that could be fetched before still can, and the broker keeps serving the
    topic; no panic, whatever the balancer, the gate and the codec do. *)
Theorem PublishBatch_places (env : PubEnv) b (name : string) (t : Topic) (msgs : list Message) :
  serves b name t -> pub_env_ok env -> room t (length msgs) -> Z.of_nat (length msgs) < 2 ^ 32 ->
  Forall entry_ok msgs ->
  exists st, PublishBatch env b name msgs = Ok st /\
    length (bs_results st) = length msgs /\ (exists t', serves (bs_broker st) name t') /\
    (forall name' j o m, fetch b name' j o = Ok m -> fetch (bs_broker st) name' j o = Ok m) /\
    (forall k m r, msgs !! k = Some m -> bs_results st !! k = Some r -> pr_Err r = None ->
       exists d, fetch (bs_broker st) name (pr_Partition r) (pr_Offset r) = Ok d /\
         delivery (pe_now env) (ck_append (pe_clock env (pr_Partition r))) m d) /\
    (forall k k' r r', (k < k')%nat -> bs_results st !! k = Some r -> bs_results st !! k' = Some r' ->
       pr_Err r = None -> pr_Err r' = None -> pr_Partition r = pr_Partition r' -> pr_Offset r < pr_Offset r').
Proof.
  intros Hs Henv Hroom Hlen Hok. unfold PublishBatch. pose proof Hs as (_ & _ & _ & Ht & _). rewrite Ht.
  destruct (assign_all_spec env b name t [] msgs [] [] []) as (b1 & gs & ms & rs & Ha & Hlm & Hlr & Hst & Hnd & Hgs & Hall);
    [done..| |].
  { split; [constructor|]. split; [constructor|]. by intros k r. }
  cbn [length] in Ha. rewrite Ha, Ok_bind. cbn [app] in *.
  assert (Hperm : pe_order env gs ≡ₚ gs) by apply Henv.
  destruct (run_groups_inv env name b t gs msgs Henv Hroom Hlen Hok (bool_decide (length gs <> 1)%nat) (pe_order env gs)
    (mkBatch b1 ms rs)) as (st & -> & Hinv); [by rewrite Hperm| |by rewrite Hperm|].
  { exists t. split; [done|]. split; [done|]. split; [done|]. split; [done|]. split; [done|]. split; [by rewrite Hperm|]. split.
    - intros name' j o m. rewrite !fetch_Ok. destruct Hst as (_ & Hc & _ & _ & Htop & _).
      intros (t0 & p & msg & Ht0 & Hp & Hr & Hd). exists t0, p, msg. cbn [bs_broker]. rewrite Htop, insert_id by done.
      split_and!; try done. unfold decompressMessage in *. by rewrite Hc.
    - intros k r Hr He. left. destruct (Hall k r Hr He) as (g & Hg & Hk).
      exists g. by rewrite Hperm. }
  exists st. split; [done|]. destruct Hinv as (tc & Hst' & _ & _ & _ & Hl & _ & Hkf & Hdone). split; [done|].
  assert (Hplaced : forall k r, bs_results st !! k = Some r -> pr_Err r = None -> placed env name t gs msgs (bs_broker st) k r).
  { intros k r Hr He. destruct (Hdone k r Hr He) as [(g & Hg%elem_of_nil & _)|]; done. }
  split; [exists tc; apply Hst'|]. split; [done|]. split.
  - intros k m r Hm Hr He. destruct (Hplaced k r Hr He) as (g & j & p & m' & d & _ & _ & _ & -> & Hm' & Hd & Hdel).
    assert (m' = m) as -> by congruence. by exists d.
  - intros k k' r r' Hlt Hr Hr' He He' Hpart.
    destruct (Hplaced k r Hr He) as (g & j & p & m & d & Hg & Hj & Hp & -> & _).
    destruct (Hplaced k' r' Hr' He') as (g' & j' & p' & m' & d' & Hg' & Hj' & Hp' & -> & _). cbn in Hpart |- *.
    assert (p' = p) as -> by congruence. assert (g' = g) as ->.
    { symmetry. eapply (NoDup_fst_inj gs); done. }
    rewrite list.Forall_forall in Hgs. destruct (Hgs g Hg) as (_ & _ & Hsorted & _). pose proof (sorted_lookup_lt _ j j' k k' Hsorted Hj Hj' Hlt). lia.
Qed.
End batch.

(** ** At a concrete broker *)

Section sample.
Local Existing Instance join_path.
Local Existing Instance plain_stats.
Local Existing Instance forwards.
Local Existing Instance mem_badger.
Local Existing Instance plain_env.

Definition four_hellos : list Message := [hello; hello; hello; hello].

Lemma PublishBatch_places_witness :
  exists st, PublishBatch sample_pub (sample_broker snappy_config) "orders" four_hellos = Ok st /\
    length (bs_results st) = 4%nat /\
    forall k m r, four_hellos !! k = Some m -> bs_results st !! k = Some r -> pr_Err r = None ->
      exists d, fetch (bs_broker st) "orders" (pr_Partition r) (pr_Offset r) = Ok d /\ Value d = Value m.
Proof.
  destruct (PublishBatch_places sample_pub (sample_broker snappy_config) "orders" (sample_topic (Some snappyCodec)) four_hellos
    sample_broker_served sample_pub_ok ltac:(repeat constructor) ltac:(cbn; lia)
    ltac:(repeat (constructor; [exact hello_ok|]); constructor)) as (st & Hp & Hl & _ & _ & Hd & _).
  exists st. split; [done|]. split; [done|]. intros k m r Hm Hr He.
  destruct (Hd k m r Hm Hr He) as (d & Hf & _ & Hv & _). exists d. exact (conj Hf Hv).
Defined.

(** The results of that batch: two messages for each partition, in order. *)
Example four_hellos_results :
  match PublishBatch sample_pub (sample_broker snappy_config) "orders" four_hellos with
  | Ok st => bs_results st = [mkPublishResult 1 1 None; mkPublishResult 0 1 None; mkPublishResult 1 2 None; mkPublishResult 0 2 None]
  | _ => False
  end.
Proof. vm_compute. reflexivity. Qed.
End sample.
