(* ===== verification/Transport.v ===== *)
(** * The request handlers (src/pkg/transport/errors.go, server.go, http_server.go)

    The gRPC server's methods and the HTTP server's handlers, as functions from
    the broker and the decoded request to the broker and the response.  Framing,
    JSON and connections are the libraries', and the routing of requests is in Routes
    and Stubs; a handler whose body could not be decoded gets that error as its
    request.

    Both consume handlers poll the broker in a loop that ends with the clock:
    the number of iterations is bounded by a fuel argument, and what the other
    requests do to the broker between two iterations is a parameter. *)

From S2P Require Import Prelude Message PriorityIndex Wal Compression GoFloat Config Partition Topic Backpressure OffsetStore.
From S2P Require Import LoadPredictor Metrics Balancer Scheduler Broker.

(** ** Errors *)

Definition mapBrokerError (e : error) : error :=
  if errors_Is e ErrThrottled then ErrStatus codes_ResourceExhausted e
  else if errors_Is e ErrTopicAlreadyExists then ErrStatus codes_AlreadyExists e
  else if errors_Is e ErrTopicNotFound then ErrStatus codes_NotFound e
  else Wrapf e "unmapped broker error".

(** [status.Code] of google.golang.org/grpc. *)
Class Grpc : Type := { status_Code : error -> grpc_code }.

Definition mapClientError {G : Grpc} (e : error) : error :=
  match status_Code e with
  | codes_AlreadyExists => ErrJoin ErrTopicAlreadyExists e
  | codes_NotFound => ErrJoin ErrTopicNotFound e
  | _ => Wrapf e "unmapped gRPC status %s"
  end.

(** ** The messages of the protocol (src/pkg/proto/*.proto) *)

Record ProduceMessage : Type := mkProduceMessage { pm_Key : bytes; pm_Value : bytes; pm_Priority : Z }.
Record ProduceRequest : Type := mkProduceRequest {
  prq_Topic : string;
  prq_Key : bytes;
  prq_Value : bytes;
  prq_Priority : Z;
  prq_Messages : list ProduceMessage;
}.
Record ProduceResult : Type := mkProduceResult { prs_Partition : Z; prs_Offset : Z }.
Record ProduceResponse : Type := mkProduceResponse {
  prp_Partition : Z;
  prp_Offset : Z;
  prp_Results : list ProduceResult;
}.
Record MessageEnvelope : Type := mkEnvelope {
  env_Offset : Z;
  env_Key : bytes;
  env_Value : bytes;
  env_Priority : Z;
  env_Timestamp : Z;
  env_ProduceTime : Z;
  env_AppendTime : Z;
}.
Record ConsumeRequest : Type := mkConsumeRequest {
  crq_Topic : string;
  crq_Group : string;
  crq_Partition : Z;
  crq_MaxBytes : Z;
}.
Record TopicScheduleConfig : Type := mkScheduleConfig {
  tsc_Mode : Z;                     (* an open enumeration *)
  tsc_PriorityLevels : Z;
  tsc_AntiStarvationMs : Z;
  tsc_DqnThrottleOnLoad : float;
}.
Record TopicInfo : Type := mkTopicInfo { ti_Topic : string; ti_NumPartitions : Z; ti_Mode : Z }.

Definition ScheduleMode_FIFO : Z := 0.
Definition ScheduleMode_STRICT_PRIORITY : Z := 1.
Definition ScheduleMode_DQN_ADAPTIVE : Z := 2.

Record MetricsResponse : Type := mkMetricsResponse {
  mr_Throughput : float;
  mr_AvgLatency : float;
  mr_PartitionLoads : list float;
  mr_SuccessRate : float;
  mr_QueueDepth : list Z;
  mr_LoadStddev : float;
  mr_MsgRate : float;
  mr_AvgMsgSize : float;
  mr_PredictedLoads : list float;
}.

(** The bodies of the HTTP interface. *)
Record HTTPMessageEnvelope : Type := mkHTTPEnvelope {
  hme_Offset : Z;
  hme_Key : bytes;
  hme_Value : bytes;
  hme_Priority : Z;
  hme_Timestamp : Z;
  hme_ProduceTime : Z;
  hme_AppendTime : Z;
}.
Record HTTPProduceRecord : Type := mkHTTPProduceRecord { rec_Key : bytes; rec_Value : bytes; rec_Priority : Z }.
Record HTTPProduceResult : Type := mkHTTPProduceResult { hpr_Partition : Z; hpr_Offset : Z }.
Record HTTPCommitRequest : Type := mkHTTPCommitRequest { hcr_Group : string; hcr_Partition : Z; hcr_Offset : Z }.
Record HTTPCreateTopicRequest : Type := mkHTTPCreateTopicRequest {
  hct_Topic : string;
  hct_NumPartitions : Z;
  hct_Mode : string;
}.
Record HTTPTopicInfo : Type := mkHTTPTopicInfo { hti_Topic : string; hti_NumPartitions : Z; hti_Mode : string }.

Definition StatusOK : Z := 200.
Definition StatusCreated : Z := 201.
Definition StatusNoContent : Z := 204.
Definition StatusBadRequest : Z := 400.
Definition StatusNotFound : Z := 404.
Definition StatusConflict : Z := 409.
Definition StatusInternalServerError : Z := 500.
Definition StatusServiceUnavailable : Z := 503.

(** What a handler writes: a body, a status alone, or an HTTPErrorResponse. *)
Inductive HTTPResponse (A : Type) : Type :=
| HTTPBody (code : Z) (body : A)
| HTTPEmpty (code : Z)
| HTTPError (code : Z) (err : error).
Arguments HTTPBody {A} code body.
Arguments HTTPEmpty {A} code.
Arguments HTTPError {A} code err.

Definition char_code (c : Ascii.ascii) : Z := Z.of_N (Ascii.N_of_ascii c).

(** strconv.Atoi: the value and whether the error is nil.  A number out of range
    is an error whose value is the nearest one in range; any other error has
    value 0.  Whatever follows the digit that overflows 64 bits is not looked at. *)
Fixpoint atoi_digits (n : Z) (s : string) : result Z :=
  match s with
  | EmptyString => Ok n
  | String c s =>
      let d := char_code c - 48 in
      if (0 <=? d) && (d <=? 9) then
        if 2 ^ 64 <=? n * 10 + d then Ok (2 ^ 64 - 1) else atoi_digits (n * 10 + d) s
      else Err (Errorf "invalid syntax")
  end.

(** The sign, if there is one, and the rest. *)
Definition atoi_sign (s : string) : bool * string :=
  match s with
  | EmptyString => (false, s)
  | String c rest =>
      if char_code c =? 45 then (true, rest) else if char_code c =? 43 then (false, rest) else (false, s)
  end.

Definition strconv_Atoi (s : string) : Z * bool :=
  let '(neg, digits) := atoi_sign s in
  match (if decide (digits = EmptyString) then Err (Errorf "invalid syntax") else atoi_digits 0 digits) with
  | Ok un =>
      if neg then if 2 ^ 63 <? un then (- 2 ^ 63, false) else (- un, true)
      else if 2 ^ 63 <=? un then (2 ^ 63 - 1, false) else (un, true)
  | _ => (0, false)
  end.

Definition set_ScheduleMode (m : ScheduleMode) (c : TopicConfig) : TopicConfig :=
  mkTopicConfig m (NumPartitions c) (PriorityLevels c) (AntiStarvationTTL c) (DQNThrottleOnLoad c).

(** ** Admission *)

(** [reqSem]: its capacity when there is one, and the slots taken. *)
Record Semaphore : Type := mkSem { sem_cap : option Z; sem_taken : Z }.

Definition new_semaphore (cfg : Config) : Semaphore :=
  mkSem (if 0 <? MaxQueuedRequests cfg then Some (MaxQueuedRequests cfg) else None) 0.

(** The interceptor before and after the handler; [None]: the request is refused. *)
Definition sem_enter (s : Semaphore) : option Semaphore :=
  match sem_cap s with
  | None => Some s
  | Some cap => if sem_taken s <? cap then Some (mkSem (Some cap) (sem_taken s + 1)) else None
  end.
Definition sem_leave (s : Semaphore) : Semaphore :=
  match sem_cap s with None => s | Some cap => mkSem (Some cap) (sem_taken s - 1) end.

Definition ErrServerOverloaded : error :=
  ErrStatus codes_ResourceExhausted (Errorf "server overloaded: max queued requests reached").

Definition semaphoreInterceptor {St A : Type} (s : Semaphore) (handler : St -> St * result A) (st : St)
    : Semaphore * St * result A :=
  match sem_enter s with
  | None => (s, st, Err ErrServerOverloaded)
  | Some s => let '(st, r) := handler st in (sem_leave s, st, r)
  end.

Section server.
Context {W : Wal} {K : Compressors} {F : Filepath} {D : Badger} {G : Gonum} {V : Govy} {R : MapRange} {E : BrokerEnv}.
Context {Bal : Type} {B : Balancer Bal} {Sch : Type} {Sc : Scheduler Sch}.
Implicit Types b : Broker (Bal := Bal) (Sch := Sch).

(** ** Producing *)

(** The broker's message made from a request's. *)
Definition incoming (now : Z) (priority : Z) (key value : bytes) : Message :=
  mkMessage (mkHeader (byte_of priority) now 0 0) key value false.

Definition produceSingle (env : PubEnv) (now : Z) b (req : ProduceRequest) : Broker * result ProduceResponse :=
  let msg := incoming now (prq_Priority req) (prq_Key req) (prq_Value req) in
  let '(b, _, r) := Publish env b (prq_Topic req) msg in
  (b, match r with
      | Ok (partition, offset) => Ok (mkProduceResponse (i32 partition) (i64 offset) [])
      | Err e => Err (Wrapf (mapBrokerError e) "produce topic=%s")
      | Panic => Panic
      end).

Definition allFailed (results : list PublishResult) : bool :=
  forallb (fun r => match pr_Err r with Some _ => true | None => false end) results.

Fixpoint first_error (results : list PublishResult) : option error :=
  match results with
  | [] => None
  | r :: rs => match pr_Err r with Some e => Some e | None => first_error rs end
  end.

Definition produceBatch (env : PubEnv) (now : Z) b (req : ProduceRequest) : result (Broker * result ProduceResponse) :=
  let msgs := (fun m => incoming now (pm_Priority m) (pm_Key m) (pm_Value m)) <$> prq_Messages req in
  st ← PublishBatch env b (prq_Topic req) msgs;
  let results := (fun r => mkProduceResult (i32 (pr_Partition r)) (i64 (pr_Offset r))) <$> bs_results st in
  Ok (bs_broker st,
      match first_error (bs_results st) with
      | Some e =>
          if allFailed (bs_results st)
          then Err (Wrapf (mapBrokerError e) "produce-batch topic=%s count=%d")
          else Ok (mkProduceResponse 0 0 results)
      | None => Ok (mkProduceResponse 0 0 results)
      end).

Definition server_Produce (env : PubEnv) (now : Z) b (req : ProduceRequest) : result (Broker * result ProduceResponse) :=
  if decide (0 < length (prq_Messages req))%nat then produceBatch env now b req
  else Ok (produceSingle env now b req).

(** ** Consuming *)

Definition envelope (msg : Message) (nextOffset : Z) : MessageEnvelope :=
  mkEnvelope (i64 (i64 nextOffset - 1)) (Key msg) (Value msg) (bval (Priority (Header msg))) (Timestamp (Header msg))
    (ProduceTime (Header msg)) (AppendTime (Header msg)).

Definition msg_bytes (msg : Message) : Z := Z.of_nat (length (Key msg)) + Z.of_nat (length (Value msg)).

(** The loop's variables. *)
Record poll_state : Type := mkPoll {
  ps_broker : Broker (Bal := Bal) (Sch := Sch);
  currentOffset : Z;
  envelopes : list MessageEnvelope;
  totalBytes : Z;
  lastOffset : Z;
}.

(** What a consume request sees of the outside, iteration by iteration. *)
Record PollEnv : Type := mkPollEnv {
  po_sched : nat -> SchedEnv;
  po_now : nat -> Time;                                             (* the clock when the deadline is tested *)
  po_commit : Time;                                                 (* the clock at the commit *)
  po_others : nat -> Broker (Bal := Bal) (Sch := Sch) -> Broker (Bal := Bal) (Sch := Sch);
}.

(** [for totalBytes < maxBytes { ... }], iteration [k] on; [None] when the fuel
    is used up.  The result is the error that ends the request, if any. *)
Fixpoint poll_loop (env : PollEnv) (topic group : string) (partition maxBytes fetchMinBytes : Z) (deadline : Time)
    (fuel k : nat) (st : poll_state) : option (poll_state * result unit) :=
  match fuel with
  | O => None
  | S fuel =>
      if totalBytes st <? maxBytes then
        let b := po_others env k (ps_broker st) in
        let '(b, r) := ConsumeFrom (po_sched env k) b topic group partition (currentOffset st) in
        let stay := mkPoll b (currentOffset st) (envelopes st) (totalBytes st) (lastOffset st) in
        match r with
        | Ok (msg, nextOffset) =>
            poll_loop env topic group partition maxBytes fetchMinBytes deadline fuel (k + 1)
              (mkPoll b nextOffset (envelopes st ++ [envelope msg nextOffset]) (totalBytes st + msg_bytes msg) (i64 nextOffset))
        | Err e =>
            if errors_Is e ErrNoMessages then
              if (totalBytes st <? fetchMinBytes) && (po_now env k <? deadline)
              then poll_loop env topic group partition maxBytes fetchMinBytes deadline fuel (k + 1) stay
              else Some (stay, Ok tt)
            else if decide (0 < length (envelopes st))%nat then Some (stay, Ok tt)
            else Some (stay, Err e)
        | Panic => Some (stay, Panic)
        end
      else Some (st, Ok tt)
  end.

(** Server.Consume from the deadline to the commit. *)
Definition consume_request (fuel : nat) (env : PollEnv) (start : Time) b (topic group : string) (partition maxBytes : Z)
    : option (Broker * result (list MessageEnvelope)) :=
  let cfg := b_cfg b in
  let maxBytes := if (0 <? MaxFetchBytes cfg) && (MaxFetchBytes cfg <? maxBytes) then MaxFetchBytes cfg else maxBytes in
  let deadline := start + i64 (FetchMaxWaitMs cfg * time_Millisecond) in
  let '(off, err) := LoadOffset b group topic partition in
  let off := match err with Ok _ => off | _ => 1 end in
  '(st, r) ← poll_loop env topic group partition maxBytes (FetchMinBytes cfg) deadline fuel 0 (mkPoll b off [] 0 (-1));
  Some (match r with
        | Ok _ =>
            (if 0 <=? lastOffset st
             then fst (broker_Commit (po_commit env) (ps_broker st) group topic partition (lastOffset st)) else ps_broker st,
             Ok (envelopes st))
        | Err e => (ps_broker st, Err e)
        | Panic => (ps_broker st, Panic)
        end).

Definition server_Consume (fuel : nat) (env : PollEnv) (start : Time) b (req : ConsumeRequest)
    : option (Broker * result (list MessageEnvelope)) :=
  let maxBytes := if crq_MaxBytes req <=? 0 then MaxFetchBytes (b_cfg b) else crq_MaxBytes req in
  '(b, r) ← consume_request fuel env start b (crq_Topic req) (crq_Group req) (crq_Partition req) maxBytes;
  Some (b, wrapf "consume topic=%s group=%s partition=%d" r).

(** ** The other methods *)

Definition server_Commit (now : Time) b (topic group : string) (partition offset : Z) : Broker * result unit :=
  let '(b, r) := broker_Commit now b group topic partition offset in
  (b, wrapf "commit topic=%s group=%s partition=%d" r).

Definition schedule_of (cfg : TopicConfig) (sc : option TopicScheduleConfig) : TopicConfig :=
  match sc with
  | None => cfg
  | Some sc =>
      mkTopicConfig
        (if tsc_Mode sc =? ScheduleMode_STRICT_PRIORITY then ModeStrictPriority
         else if tsc_Mode sc =? ScheduleMode_DQN_ADAPTIVE then ModeDQNAdaptive else ModeFIFO)
        (NumPartitions cfg)
        (if 0 <? tsc_PriorityLevels sc then tsc_PriorityLevels sc else PriorityLevels cfg)
        (if 0 <? tsc_AntiStarvationMs sc then i64 (tsc_AntiStarvationMs sc * time_Millisecond) else AntiStarvationTTL cfg)
        (if (0 <? tsc_DqnThrottleOnLoad sc)%float then tsc_DqnThrottleOnLoad sc else DQNThrottleOnLoad cfg)
  end.

Definition mapped {A} (fmt : string) (r : result A) : result A :=
  match r with Err e => Err (Wrapf (mapBrokerError e) fmt) | _ => r end.

Definition server_CreateTopic b (topic : string) (numPartitions : Z) (sc : option TopicScheduleConfig) : Broker * result unit :=
  let cfg := schedule_of (set_NumPartitions numPartitions DefaultTopicConfig) sc in
  let '(b, r) := CreateTopic b topic cfg in (b, mapped "create-topic %s" r).

Definition server_DeleteTopic b (topic : string) : Broker * result unit :=
  let '(b, r) := DeleteTopic b topic in (b, mapped "delete-topic %s" r).

Definition mode_number (m : ScheduleMode) : Z :=
  match m with
  | ModeStrictPriority => ScheduleMode_STRICT_PRIORITY
  | ModeDQNAdaptive => ScheduleMode_DQN_ADAPTIVE
  | ModeFIFO => ScheduleMode_FIFO
  end.

Definition server_ListTopics b : list TopicInfo :=
  (fun '(_, t) => mkTopicInfo (t_name t) (i32 (t_NumPartitions t)) (mode_number (tc_ScheduleMode (t_config t)))) <$> ListTopics b.

Definition server_GetMetrics b : MetricsResponse :=
  let m := broker_Metrics b in
  mkMetricsResponse (Throughput m) (AvgLatency m) (PartitionLoads m) (DeliveryRatio m) (i64 <$> QueueDepths m)
    (LoadStdDev m) (MsgRate m) (AvgMsgSize m) (PredictedLoads m).

(** ** The HTTP handlers *)

(** A request body arrives as the outcome of decoding it. *)
Definition with_body {St A B : Type} (req : result A) (st : St) (k : A -> result (St * HTTPResponse B)) : result (St * HTTPResponse B) :=
  match req with
  | Ok a => k a
  | Err e => Ok (st, HTTPError StatusBadRequest e)
  | Panic => Panic
  end.

Definition handleReadyz b : HTTPResponse string :=
  if decide (length (ListTopics b) = 0%nat) then HTTPBody StatusServiceUnavailable "no topics loaded"
  else HTTPBody StatusOK "ready".

(** The results up to the first error, which ends the request. *)
Fixpoint http_results (rs : list PublishResult) : result (list HTTPProduceResult) :=
  match rs with
  | [] => Ok []
  | r :: rs =>
      match pr_Err r with
      | Some e => Err e
      | None => results ← http_results rs; Ok (mkHTTPProduceResult (pr_Partition r) (i64 (pr_Offset r)) :: results)
      end
  end.

Definition handleProduce (env : PubEnv) (now : Z) b (topic : string) (req : result (list HTTPProduceRecord))
    : result (Broker * HTTPResponse (list HTTPProduceResult)) :=
  with_body req b (fun records =>
    let msgs := (fun rec => incoming now (rec_Priority rec) (rec_Key rec) (rec_Value rec)) <$> records in
    st ← PublishBatch env b topic msgs;
    match http_results (bs_results st) with
    | Ok results => Ok (bs_broker st, HTTPBody StatusOK results)
    | Err e => Ok (bs_broker st, HTTPError StatusInternalServerError e)
    | Panic => Panic
    end).

Definition http_envelope (msg : Message) (nextOffset : Z) : HTTPMessageEnvelope :=
  let h := Header msg in
  mkHTTPEnvelope (i64 (i64 nextOffset - 1)) (Key msg) (Value msg) (bval (Priority h)) (Timestamp h) (ProduceTime h) (AppendTime h).

(** How the handler's own loop ends: at [break], with the variables it uses
    afterwards, or by answering with an error. *)
Inductive http_loop_end : Type :=
| LoopBreak (b : Broker (Bal := Bal) (Sch := Sch)) (envelopes : list HTTPMessageEnvelope) (lastOffset : Z)
| LoopReturn (b : Broker (Bal := Bal) (Sch := Sch)) (err : error)
| LoopPanic.

(** handleConsume's [for totalBytes < maxBytes { ... }], iteration [k] on. *)
Fixpoint http_poll_loop (env : PollEnv) (topic group : string) (partition maxBytes fetchMinBytes : Z) (deadline : Time)
    (fuel k : nat) b (currentOffset : Z) (envelopes : list HTTPMessageEnvelope) (totalBytes lastOffset : Z) : option http_loop_end :=
  match fuel with
  | O => None
  | S fuel =>
      if negb (totalBytes <? maxBytes) then Some (LoopBreak b envelopes lastOffset)
      else
        match ConsumeFrom (po_sched env k) (po_others env k b) topic group partition currentOffset with
        | (b, Err err) =>
            if errors_Is err ErrNoMessages then
              if (totalBytes <? fetchMinBytes) && (po_now env k <? deadline)
              then http_poll_loop env topic group partition maxBytes fetchMinBytes deadline fuel (S k)
                     b currentOffset envelopes totalBytes lastOffset
              else Some (LoopBreak b envelopes lastOffset)
            else
              match envelopes with
              | _ :: _ => Some (LoopBreak b envelopes lastOffset)
              | [] => Some (LoopReturn b err)
              end
        | (b, Ok (msg, nextOffset)) =>
            http_poll_loop env topic group partition maxBytes fetchMinBytes deadline fuel (S k)
              b nextOffset (envelopes ++ [http_envelope msg nextOffset])
              (totalBytes + (Z.of_nat (length (Key msg)) + Z.of_nat (length (Value msg)))) (i64 nextOffset)
        | (_, Panic) => Some LoopPanic
        end
  end.

Definition handleConsume (fuel : nat) (env : PollEnv) (start : Time) b (topic group partitionStr maxBytesStr : string)
    : option (result (Broker * HTTPResponse (list HTTPMessageEnvelope))) :=
  let cfg := b_cfg b in
  let partition := fst (strconv_Atoi partitionStr) in
  let maxBytes := MaxFetchBytes cfg in
  let maxBytes := let '(v, ok) := strconv_Atoi maxBytesStr in if ok && (0 <? v) then v else maxBytes in
  let maxBytes := if (0 <? MaxFetchBytes cfg) && (MaxFetchBytes cfg <? maxBytes) then MaxFetchBytes cfg else maxBytes in
  let fetchMinBytes := FetchMinBytes cfg in
  let fetchMaxWait := i64 (FetchMaxWaitMs cfg * time_Millisecond) in
  let deadline := start + fetchMaxWait in
  let currentOffset := match LoadOffset b group topic partition with (o, Ok _) => o | _ => 1 end in
  loop ← http_poll_loop env topic group partition maxBytes fetchMinBytes deadline fuel 0 b currentOffset [] 0 (-1);
  Some (match loop with
        | LoopPanic => Panic
        | LoopReturn b err => Ok (b, HTTPError StatusInternalServerError err)
        | LoopBreak b envelopes lastOffset =>
            let b := if 0 <=? lastOffset then fst (broker_Commit (po_commit env) b group topic partition lastOffset) else b in
            Ok (b, HTTPBody StatusOK envelopes)
        end).

Definition handleCommit (now : Time) b (topic : string) (req : result HTTPCommitRequest)
    : result (Broker * HTTPResponse unit) :=
  with_body req b (fun req =>
    let '(b, r) := broker_Commit now b (hcr_Group req) topic (hcr_Partition req) (hcr_Offset req) in
    match r with
    | Ok _ => Ok (b, HTTPEmpty StatusNoContent)
    | Err e => Ok (b, HTTPError StatusInternalServerError e)
    | Panic => Panic
    end).

Definition http_mode (mode : string) : ScheduleMode :=
  if decide (mode = "strict_priority") then ModeStrictPriority
  else if decide (mode = "dqn_adaptive") then ModeDQNAdaptive else ModeFIFO.

Definition handleCreateTopic b (req : result HTTPCreateTopicRequest) : result (Broker * HTTPResponse unit) :=
  with_body req b (fun req =>
    let cfg := set_ScheduleMode (http_mode (hct_Mode req)) (set_NumPartitions (hct_NumPartitions req) DefaultTopicConfig) in
    let '(b, r) := CreateTopic b (hct_Topic req) cfg in
    match r with
    | Ok _ => Ok (b, HTTPEmpty StatusCreated)
    | Err e => Ok (b, HTTPError (if errors_Is e ErrTopicAlreadyExists then StatusConflict else StatusInternalServerError) e)
    | Panic => Panic
    end).

Definition handleDeleteTopic b (topic : string) : result (Broker * HTTPResponse unit) :=
  let '(b, r) := DeleteTopic b topic in
  match r with
  | Ok _ => Ok (b, HTTPEmpty StatusNoContent)
  | Err e => Ok (b, HTTPError (if errors_Is e ErrTopicNotFound then StatusNotFound else StatusInternalServerError) e)
  | Panic => Panic
  end.

Definition mode_string (m : ScheduleMode) : string :=
  match m with
  | ModeStrictPriority => "strict_priority"
  | ModeDQNAdaptive => "dqn_adaptive"
  | ModeFIFO => "fifo"
  end.

Definition handleListTopics b : HTTPResponse (list HTTPTopicInfo) :=
  HTTPBody StatusOK
    ((fun '(_, t) => mkHTTPTopicInfo (t_name t) (i32 (t_NumPartitions t)) (mode_string (tc_ScheduleMode (t_config t))))
       <$> ListTopics b).

Definition handleMetrics b : HTTPResponse Metrics := HTTPBody StatusOK (broker_Metrics b).

(** The handler around the multiplexer, which refuses a request when no slot is free. *)
Definition http_admit {St A : Type} (s : Semaphore) (handler : St -> result (St * HTTPResponse A)) (st : St)
    : result (Semaphore * St * HTTPResponse A) :=
  match sem_enter s with
  | None => Ok (s, st, HTTPError StatusServiceUnavailable (Errorf "server overloaded"))
  | Some s => '(st, r) ← handler st; Ok (sem_leave s, st, r)
  end.
End server.
