(* ===== verification/TransportProps.v ===== *)
(** * The request handlers: what they promise

    The poll loop of the two consume handlers ends and delivers a prefix of what
    is pending; admission never lets more requests in than configured; what the
    two produce handlers report about a batch that failed in part. *)

From Stdlib Require Import Strings.Byte.
From S2P Require Import Prelude Message PriorityIndex Wal Compression GoFloat Config Partition PartitionProps Topic Backpressure OffsetStore.
From S2P Require Import LoadPredictor Metrics Balancer RoundRobin Scheduler Broker BrokerProps BatchProps Transport.

(** ** Fetching *)

(** What a request with a budget of [n] bytes gets: messages while the budget is
    not used up, so the last one may exceed it. *)
Fixpoint fetch_prefix (n : Z) (ds : list Message) : list Message :=
  match ds with
  | [] => []
  | d :: ds => if 0 <? n then d :: fetch_prefix (n - msg_bytes d) ds else []
  end.

Lemma fetch_prefix_done n ds : n <= 0 -> fetch_prefix n ds = [].
Proof. destruct ds; cbn [fetch_prefix]; [done|]. intros. by rewrite (proj2 (Z.ltb_ge 0 n)). Qed.

Lemma fetch_prefix_nil_tail n ms : fetch_prefix n ms = ms -> n <= 0 -> ms = [].
Proof. intros H Hn. by rewrite <- H, fetch_prefix_done. Qed.

(** The envelopes of consecutive messages, the first at offset [off]. *)
Fixpoint envelopes_from (off : Z) (ms : list Message) : list MessageEnvelope :=
  match ms with
  | [] => []
  | m :: ms => envelope m (off + 1) :: envelopes_from (off + 1) ms
  end.

Lemma envelopes_from_offsets off ms :
  0 <= off -> off + Z.of_nat (length ms) < 2 ^ 63 ->
  env_Offset <$> envelopes_from off ms = seqZ off (Z.of_nat (length ms)).
Proof.
  revert off. induction ms as [|m ms IH]; intros off H0 Hb; [done|]. cbn [length] in *.
  rewrite seqZ_cons by lia. cbn [envelopes_from fmap list_fmap]. f_equal.
  - unfold envelope. cbn [env_Offset]. unfold in_i64 in *. rewrite !i64_small by (unfold in_i64; rewrite ?i64_small; unfold in_i64; lia). lia.
  - rewrite IH by lia. f_equal; lia.
Qed.

Lemma envelopes_from_values off ms :
  (fun e => (env_Key e, env_Value e)) <$> envelopes_from off ms = (fun m => (Key m, Value m)) <$> ms.
Proof. revert off. induction ms as [|m ms IH]; intros off; [done|]. cbn. f_equal. apply IH. Qed.

Section fetching.
Context {W : Wal} {L : WalLaws W} {K : Compressors} {KL : CompressorLaws K} {F : Filepath} {D : Badger} {G : Gonum}.
Context {V : Govy} {R : MapRange} {E : BrokerEnv}.
Context {Bal : Type} {B : Balancer Bal} {BL : BalancerLaws Bal}.
Implicit Types b : Broker (Bal := Bal) (Sch := FIFO).

(** The messages before a consumer whose offsets are well within an int64, on a
    broker with an offset store. *)
Definition fetchable_from b (name : string) (i off : Z) (ds : list Message) : Prop :=
  pending b name i off ds /\ off + Z.of_nat (length ds) < 2 ^ 63 /\ is_Some (b_offsetStore b).

Lemma fetchable_tail b name i off d ds mc :
  fetchable_from b name i off (d :: ds) -> counters_ok mc -> fetchable_from (with_metrics b mc) name i (off + 1) ds.
Proof.
  intros (Hp & Hb & Hs) Hc. split; [apply pending_with_metrics; [by eapply pending_tail|done]|].
  cbn [length] in Hb. split; [lia|exact Hs].
Qed.

Lemma ConsumeFrom_fetchable env b name group i off d ds :
  fetchable_from b name i off (d :: ds) ->
  exists mc, ConsumeFrom env b name group i off = (with_metrics b mc, Ok (d, off + 1)) /\ counters_ok mc.
Proof.
  intros ((Hc & Hs & t & p & Ht & Hp & H1 & Hn & Hb & Hf) & Hb' & _). cbn [length] in *.
  pose proof (Hf 0%nat d eq_refl) as Hd. rewrite Z.add_0_r in Hd.
  apply fetch_Ok in Hd as (t' & p' & msg & Ht' & Hp' & Hr & Hdec).
  assert (t' = t) as -> by congruence. assert (p' = p) as -> by congruence.
  apply (ConsumeFrom_fifo env b name group t i p off msg d); try done. lia.
Qed.

Lemma ConsumeFrom_drained env b name group i off :
  fetchable_from b name i off [] ->
  ConsumeFrom env b name group i off = (b, Err (Wrapf ErrNoMessages "scheduler.Next topic=%q part=%d")).
Proof.
  intros ((_ & Hs & t & p & Ht & Hp & H1 & Hn & _) & _). cbn in Hn.
  apply (ConsumeFrom_fifo_end _ _ _ _ t i p); try done; lia.
Qed.

(** What the other requests may do meanwhile: add such messages to the partition. *)
Definition others_append (env : PollEnv (Bal := Bal) (Sch := FIFO)) (name : string) (i : Z) (added : Message -> Prop) : Prop :=
  forall k b off ds, fetchable_from b name i off ds ->
  exists new, fetchable_from (po_others env k b) name i off (ds ++ new) /\ Forall added new.

(** The deadline passes: from iteration [late] on the clock shows it. *)
Definition clock_passes (env : PollEnv (Bal := Bal) (Sch := FIFO)) (deadline : Time) (late : nat) : Prop :=
  forall k, (late <= k)%nat -> deadline <= po_now env k.

Section requests.
Context (env : PollEnv (Bal := Bal) (Sch := FIFO)) (name group : string) (i : Z) (added : Message -> Prop).
Context (deadline : Time) (late : nat).
Hypothesis added_nonempty : forall m, added m -> 0 < msg_bytes m.
Hypothesis Happ : others_append env name i added.
Hypothesis Hclock : clock_passes env deadline late.

(** Taking the first message uses up one of the old ones or some of the budget. *)
Lemma split_pending old new d ds n :
  0 < n -> old ++ new = d :: ds -> Forall added new ->
  exists old1 new1, ds = old1 ++ new1 /\ Forall added new1 /\
    (length old1 + Z.to_nat (n - msg_bytes d) < length old + Z.to_nat n)%nat.
Proof.
  intros Hn Hds Hnew. assert (0 <= msg_bytes d) by (unfold msg_bytes; lia).
  destruct old as [|d' old]; cbn [app] in Hds.
  - subst new. exists [], ds. inversion Hnew as [|? ? Hd Hrest]; subst. split; [done|]. split; [done|].
    pose proof (added_nonempty d Hd). cbn [length]. lia.
  - injection Hds as -> <-. exists old, new. split; [done|]. split; [done|]. cbn [length]. lia.
Qed.

Lemma poll_loop_fifo maxBytes minBytes fuel k (st : poll_state) old new :
  fetchable_from (ps_broker st) name i (currentOffset st) (old ++ new) -> Forall added new ->
  (length old + Z.to_nat (maxBytes - totalBytes st) + (late - k) < fuel)%nat ->
  exists st' ms new' rest,
    poll_loop env name group i maxBytes minBytes deadline fuel k st = Some (st', Ok tt) /\
    envelopes st' = envelopes st ++ envelopes_from (currentOffset st) ms /\
    ms = fetch_prefix (maxBytes - totalBytes st) (old ++ new ++ new') /\
    old ++ new ++ new' = ms ++ rest /\ Forall added new' /\
    fetchable_from (ps_broker st') name i (currentOffset st + Z.of_nat (length ms)) rest /\
    lastOffset st' = (if decide (ms = []) then lastOffset st else currentOffset st + Z.of_nat (length ms)).
Proof.
  revert k st old new. induction fuel as [|fuel IH]; intros k st old new Hf Hnew Hm; [lia|].
  cbn [poll_loop]. destruct (Z.ltb_spec (totalBytes st) maxBytes) as [Hlt|Hge].
  2: { exists st, [], [], (old ++ new). rewrite fetch_prefix_done by lia. cbn [envelopes_from length].
       rewrite !app_nil_r, Z.add_0_r. done. }
  destruct (Happ k _ _ _ Hf) as (more & Hf' & Hmore). rewrite <- app_assoc in Hf'.
  set (b1 := po_others env k (ps_broker st)) in *.
  destruct (old ++ new ++ more) as [|d ds] eqn:Hds.
  - rewrite (ConsumeFrom_drained _ _ _ _ _ _ Hf'). cbn [errors_Is]. rewrite bool_decide_false by done.
    cbn [orb]. rewrite bool_decide_true by done. cbn [orb].
    apply app_nil in Hds as [-> Hds]. apply app_nil in Hds as [-> ->]. cbn [app length] in *.
    destruct ((totalBytes st <? minBytes) && (po_now env k <? deadline)) eqn:Hwait.
    + apply andb_true_iff in Hwait as [_ Hwait%Z.ltb_lt].
      assert (Hkl : (k < late)%nat) by (destruct (decide (late <= k)%nat); [pose proof (Hclock k); lia|lia]).
      destruct (IH (k + 1)%nat (mkPoll b1 (currentOffset st) (envelopes st) (totalBytes st) (lastOffset st)) [] [] Hf' Hnew)
        as (st' & ms & new' & rest & Hr & H); [cbn [length totalBytes] in *; lia|].
      exists st', ms, new', rest. split; [exact Hr|exact H].
    + eexists _, [], [], []. split; [done|]. cbn [ps_broker envelopes lastOffset envelopes_from length fetch_prefix app].
      rewrite app_nil_r, Z.add_0_r. done.
  - destruct (ConsumeFrom_fetchable (po_sched env k) b1 name group i _ _ _ Hf') as (mc & -> & Hc).
    pose proof (fetchable_tail _ _ _ _ _ _ mc Hf' Hc) as Hf1.
    destruct (split_pending old (new ++ more) d ds (maxBytes - totalBytes st)) as (old1 & new1 & -> & Hnew1 & Hlt1);
      [lia|done|by apply Forall_app_2|].
    replace (maxBytes - totalBytes st - msg_bytes d) with (maxBytes - (totalBytes st + msg_bytes d)) in Hlt1 by lia.
    set (st1 := mkPoll (with_metrics b1 mc) (currentOffset st + 1) (envelopes st ++ [envelope d (currentOffset st + 1)])
      (totalBytes st + msg_bytes d) (i64 (currentOffset st + 1))).
    destruct (IH (k + 1)%nat st1 old1 new1 Hf1 Hnew1) as (st' & ms & new' & rest & -> & He & Hms & Hrest & Hnew' & Hfin & Hlast);
      [cbn [st1 totalBytes]; lia|].
    cbn [st1 ps_broker currentOffset envelopes totalBytes lastOffset] in *.
    assert (Heq : old ++ new ++ more ++ new' = d :: old1 ++ new1 ++ new').
    { rewrite !app_assoc in *. rewrite Hds. by rewrite <- !app_assoc, <- app_comm_cons, <- app_assoc. }
    exists st', (d :: ms), (more ++ new'), rest. split; [done|]. split.
    { rewrite He. cbn [envelopes_from]. by rewrite <- app_assoc. }
    rewrite Heq. split.
    { cbn [fetch_prefix]. rewrite (proj2 (Z.ltb_lt 0 (maxBytes - totalBytes st))) by lia. f_equal. rewrite Hms. f_equal. lia. }
    split; [cbn [app]; by f_equal|]. split; [by apply Forall_app_2|].
    cbn [length]. replace (currentOffset st + Z.of_nat (S (length ms))) with (currentOffset st + 1 + Z.of_nat (length ms)) by lia.
    split; [done|]. rewrite Hlast. rewrite (decide_False (P := d :: ms = [])) by done.
    case_decide as Hnil; [|done]. rewrite Hnil. cbn [length]. rewrite i64_small; [lia|].
    destruct Hf' as ((_ & _ & t & p & _ & _ & H1 & _) & Hb & _). cbn [length] in Hb. unfold in_i64. lia.
Qed.

Lemma consume_request_fifo fuel start b maxBytes ds :
  deadline = start + i64 (FetchMaxWaitMs (b_cfg b) * time_Millisecond) ->
  let off := start_offset b group name i in
  let budget := if (0 <? MaxFetchBytes (b_cfg b)) && (MaxFetchBytes (b_cfg b) <? maxBytes) then MaxFetchBytes (b_cfg b) else maxBytes in
  fetchable_from b name i off ds -> (length ds + Z.to_nat budget + late < fuel)%nat ->
  exists b' new ms rest,
    consume_request fuel env start b name group i maxBytes = Some (b', Ok (envelopes_from off ms)) /\
    Forall added new /\ ms = fetch_prefix budget (ds ++ new) /\ ds ++ new = ms ++ rest /\
    fetchable_from b' name i (off + Z.of_nat (length ms)) rest /\
    (ms <> [] -> start_offset b' group name i = off + Z.of_nat (length ms)).
Proof.
  intros Hd off budget Hf Hfuel. unfold consume_request. fold budget. rewrite <- Hd.
  pose proof Hf as (_ & _ & [s Hs]).
  assert (Hoff : (let '(o, err) := LoadOffset b group name i in match err with Ok _ => o | _ => 1 end) = off).
  { unfold off, start_offset, LoadOffset. rewrite Hs. by destruct (Load s group name i). }
  destruct (LoadOffset b group name i) as [o err]. rewrite Hoff.
  destruct (poll_loop_fifo budget (FetchMinBytes (b_cfg b)) fuel 0 (mkPoll b off [] 0 (-1)) ds [])
    as (st' & ms & new & rest & -> & He & Hms & Hrest & Hnew & Hfin & Hlast).
  { cbn [ps_broker currentOffset]. by rewrite app_nil_r. }
  { constructor. }
  { cbn [totalBytes]. rewrite Z.sub_0_r. lia. }
  cbn [ps_broker currentOffset totalBytes lastOffset envelopes app] in *. rewrite Z.sub_0_r in Hms.
  cbn [mbind option_bind]. rewrite He.
  pose proof Hfin as (Hpend & Hb & [s' Hs']). pose proof Hpend as (_ & _ & t & p & _ & _ & H1 & _).
  case_decide as Hnil.
  - rewrite Hlast. cbn. exists (ps_broker st'), new, ms, rest. split; [done|]. by split_and!.
  - rewrite Hlast. rewrite (proj2 (Z.leb_le _ _)) by (destruct Hf as ((_ & _ & ? & ? & _ & _ & ? & _) & _); lia).
    set (last := off + Z.of_nat (length ms)) in *.
    destruct (start_offset_commit (po_commit env) (ps_broker st') group name i s' last Hs') as (s2 & r & Hc & Hst).
    { unfold in_u64. lia. }
    rewrite i64_small in Hc by (unfold in_i64; lia). rewrite Hc. cbn [fst].
    eexists _, new, ms, rest. split; [done|]. split; [done|]. split; [done|]. split; [done|]. split; [|done].
    split; [by apply pending_with_offsets|]. split; [done|]. by eexists.
Qed.
End requests.

(** C18: A fetch request on a FIFO partition returns, whatever producers add to the
    partition meanwhile, as long as the clock reaches the deadline and the added
    messages are not empty: [late + length ds + budget + 1] iterations are enough.
    It returns consecutive messages from the group's position, each with its own
    offset, until the byte budget (the request's, at most MaxFetchBytes) is used
    up, and all of them when it is not; the rest stays for the next request, and
    the group's committed position is just after the last message returned. *)
Theorem Consume_returns (fuel late : nat) (env : PollEnv (Bal := Bal) (Sch := FIFO)) (start : Time) b (req : ConsumeRequest)
    (added : Message -> Prop) (ds : list Message) :
  (forall m, added m -> 0 < msg_bytes m) ->
  others_append env (crq_Topic req) (crq_Partition req) added ->
  clock_passes env (start + i64 (FetchMaxWaitMs (b_cfg b) * time_Millisecond)) late ->
  0 < MaxFetchBytes (b_cfg b) ->
  let off := start_offset b (crq_Group req) (crq_Topic req) (crq_Partition req) in
  let budget := if crq_MaxBytes req <=? 0 then MaxFetchBytes (b_cfg b) else Z.min (crq_MaxBytes req) (MaxFetchBytes (b_cfg b)) in
  fetchable_from b (crq_Topic req) (crq_Partition req) off ds ->
  (length ds + Z.to_nat budget + late < fuel)%nat ->
  exists b' new ms rest es,
    server_Consume fuel env start b req = Some (b', Ok es) /\
    Forall added new /\ ms = fetch_prefix budget (ds ++ new) /\ ds ++ new = ms ++ rest /\
    env_Offset <$> es = seqZ off (Z.of_nat (length ms)) /\
    ((fun e => (env_Key e, env_Value e)) <$> es) = ((fun m => (Key m, Value m)) <$> ms) /\
    fetchable_from b' (crq_Topic req) (crq_Partition req) (off + Z.of_nat (length ms)) rest /\
    (ms <> [] -> start_offset b' (crq_Group req) (crq_Topic req) (crq_Partition req) = off + Z.of_nat (length ms)).
Proof.
  intros Hne Happ Hclock Hmax off budget Hf Hfuel. unfold server_Consume.
  set (maxBytes := if crq_MaxBytes req <=? 0 then _ else _).
  assert (Hbudget : (if (0 <? MaxFetchBytes (b_cfg b)) && (MaxFetchBytes (b_cfg b) <? maxBytes) then MaxFetchBytes (b_cfg b) else maxBytes) = budget).
  { unfold maxBytes, budget. rewrite (proj2 (Z.ltb_lt _ _)) by done. cbn [andb]. destruct (crq_MaxBytes req <=? 0).
    - by rewrite Z.ltb_irrefl.
    - destruct (Z.ltb_spec (MaxFetchBytes (b_cfg b)) (crq_MaxBytes req)); lia. }
  destruct (consume_request_fifo env (crq_Topic req) (crq_Group req) (crq_Partition req) added
    (start + i64 (FetchMaxWaitMs (b_cfg b) * time_Millisecond)) late Hne Happ Hclock fuel start b maxBytes ds eq_refl Hf)
    as (b' & new & ms & rest & Heq & Hnew & Hms & Hrest & Hfin & Hcommit); [by rewrite Hbudget|].
  rewrite Hbudget in Hms. fold off in Heq, Hfin, Hcommit. exists b', new, ms, rest, (envelopes_from off ms).
  split; [by rewrite Heq|]. split; [done|]. split; [done|]. split; [done|].
  pose proof Hfin as ((_ & _ & t & p & _ & _ & _) & Hb & _). pose proof Hf as ((_ & _ & ? & ? & _ & _ & Hpos & _) & _).
  split; [apply envelopes_from_offsets; lia|]. split; [apply envelopes_from_values|]. done.
Qed.
End fetching.

(** ** Admission

    Requests run concurrently; what the semaphore sees is their arrivals and
    completions, in any order. *)

Inductive request_event : Type := Arrive (id : nat) | Finish (id : nat).

(** The list without the first occurrence of [x]. *)
Fixpoint remove_one (x : nat) (l : list nat) : option (list nat) :=
  match l with
  | [] => None
  | y :: l => if decide (x = y) then Some l else l ← remove_one x l; Some (y :: l)
  end.

Lemma remove_one_elem x l : x ∈ l -> exists l', remove_one x l = Some l'.
Proof.
  induction 1 as [x l|x y l _ [l' IH]]; cbn [remove_one]; [rewrite decide_True by done; by eexists|].
  case_decide; [by eexists|]. rewrite IH. by eexists.
Qed.

Lemma remove_one_length x l l' : remove_one x l = Some l' -> length l = S (length l').
Proof.
  revert l'. induction l as [|y l IH]; intros l'; cbn [remove_one]; [done|]. case_decide; [by intros [= <-]|].
  destruct (remove_one x l) as [l0|]; [|done]. intros [= <-]. cbn [length]. f_equal. by apply IH.
Qed.

(** The semaphore, the requests being handled, and which arrivals were admitted. *)
Definition admission_step (s : Semaphore * list nat * list (nat * bool)) (ev : request_event)
    : Semaphore * list nat * list (nat * bool) :=
  let '(sem, running, log) := s in
  match ev with
  | Arrive id =>
      match sem_enter sem with
      | Some sem => (sem, id :: running, log ++ [(id, true)])
      | None => (sem, running, log ++ [(id, false)])
      end
  | Finish id =>
      match remove_one id running with
      | Some running => (sem_leave sem, running, log)
      | None => s
      end
  end.

Definition admission_run (cfg : Config) (evs : list request_event) : Semaphore * list nat * list (nat * bool) :=
  foldl admission_step (new_semaphore cfg, [], []) evs.

Lemma admission_invariant (cfg : Config) (evs : list request_event) :
  let '(sem, running, _) := admission_run cfg evs in
  sem_cap sem = (if 0 <? MaxQueuedRequests cfg then Some (MaxQueuedRequests cfg) else None) /\
  (forall cap, sem_cap sem = Some cap -> sem_taken sem = Z.of_nat (length running) /\ Z.of_nat (length running) <= cap).
Proof.
  unfold admission_run. induction evs as [|ev evs IH] using rev_ind.
  { cbn. split; [done|]. intros cap. destruct (Z.ltb_spec 0 (MaxQueuedRequests cfg)); [|done]. intros [= <-]. cbn. lia. }
  rewrite foldl_app. cbn [foldl]. destruct (foldl _ _ evs) as [[sem running] log]. destruct IH as [Hcap Hcount].
  destruct ev as [id|id]; cbn [admission_step].
  - unfold sem_enter. destruct (sem_cap sem) as [cap|] eqn:Hs; [|by rewrite Hs].
    destruct (Hcount cap eq_refl) as [Ht Hle].
    destruct (Z.ltb_spec (sem_taken sem) cap); cbn [sem_cap sem_taken].
    + split; [done|]. intros c [= <-]. cbn [length]. lia.
    + split; [congruence|]. intros c Hc. rewrite Hs in Hc. by apply Hcount.
  - destruct (remove_one id running) as [running'|] eqn:Hr; [|done].
    apply remove_one_length in Hr. unfold sem_leave.
    destruct (sem_cap sem) as [cap|] eqn:Hs; [|by rewrite Hs]. cbn [sem_cap sem_taken]. split; [done|].
    intros c [= <-]. destruct (Hcount cap eq_refl). lia.
Qed.

(** C25: Admission.  Whatever the order of arrivals and completions, the number
    of requests being handled never exceeds MaxQueuedRequests when that is
    positive, and an arriving request is refused, with ErrServerOverloaded and
    the broker untouched, exactly when that many are being handled; with no
    limit configured none is refused.  A request that completes frees its slot,
    so the next one to arrive is admitted. *)
Theorem admission_bounded {St A : Type} (cfg : Config) (evs : list request_event) (handler : St -> St * result A) (st : St) :
  let '(sem, running, _) := admission_run cfg evs in
  let full := bool_decide (0 < MaxQueuedRequests cfg /\ Z.of_nat (length running) = MaxQueuedRequests cfg) in
  (0 < MaxQueuedRequests cfg -> Z.of_nat (length running) <= MaxQueuedRequests cfg) /\
  semaphoreInterceptor sem handler st =
    (if full then (sem, st, Err ErrServerOverloaded) else (sem, (handler st).1, (handler st).2)) /\
  (forall id, id ∈ running -> sem_enter (admission_step (sem, running, []) (Finish id)).1.1 <> None).
Proof.
  pose proof (admission_invariant cfg evs) as H. destruct (admission_run cfg evs) as [[sem running] log].
  destruct H as [Hcap Hcount]. split; [|split].
  - intros Hpos. rewrite (proj2 (Z.ltb_lt _ _)) in Hcap by done. by apply Hcount.
  - unfold semaphoreInterceptor, sem_enter, sem_leave. rewrite Hcap. destruct sem as [c n]. cbn [sem_cap sem_taken] in *.
    destruct (Z.ltb_spec 0 (MaxQueuedRequests cfg)) as [Hpos|Hneg]; subst c.
    + destruct (Hcount _ eq_refl) as [-> Hle].
      destruct (Z.ltb_spec (Z.of_nat (length running)) (MaxQueuedRequests cfg)).
      * rewrite bool_decide_false by lia. cbn [sem_cap sem_taken]. destruct (handler st). cbn. by rewrite Z.add_simpl_r.
      * by rewrite bool_decide_true by lia.
    + rewrite bool_decide_false by lia. by destruct (handler st).
  - intros id Hid. cbn [admission_step]. destruct (remove_one id running) as [running'|] eqn:Hr.
    + cbn [fst]. unfold sem_leave, sem_enter. destruct (sem_cap sem) as [cap|] eqn:Hs; [|by rewrite Hs].
      destruct (Hcount cap eq_refl). cbn. by rewrite (proj2 (Z.ltb_lt _ _)) by lia.
    + apply remove_one_elem in Hid as [l Hl]. congruence.
Qed.

(** ** Batches that fail in part *)

Lemma first_error_spec rs : first_error rs = None <-> Forall (fun r => pr_Err r = None) rs.
Proof.
  induction rs as [|r rs IH]; cbn [first_error]; [by split|]. rewrite List.Forall_cons_iff.
  destruct (pr_Err r); [split; [done|by intros [? _]]|]. rewrite IH. naive_solver.
Qed.

Lemma allFailed_spec rs : allFailed rs = true <-> Forall (fun r => pr_Err r <> None) rs.
Proof.
  unfold allFailed. induction rs as [|r rs IH]; cbn [forallb]; [by split|].
  rewrite List.Forall_cons_iff, andb_true_iff, IH. destruct (pr_Err r); naive_solver.
Qed.

Lemma http_results_spec rs :
  match first_error rs with
  | Some e => http_results rs = Err e
  | None => http_results rs = Ok ((fun r => mkHTTPProduceResult (pr_Partition r) (i64 (pr_Offset r))) <$> rs)
  end.
Proof.
  induction rs as [|r rs IH]; cbn [first_error http_results]; [done|]. destruct (pr_Err r); [done|].
  destruct (first_error rs); rewrite IH; done.
Qed.

(** A request in the other interface's form. *)
Definition as_records (ms : list ProduceMessage) : list HTTPProduceRecord :=
  (fun m => mkHTTPProduceRecord (pm_Key m) (pm_Value m) (pm_Priority m)) <$> ms.

Section produce.
Context {W : Wal} {K : Compressors} {F : Filepath} {D : Badger} {G : Gonum} {V : Govy} {R : MapRange} {E : BrokerEnv}.
Context {Bal : Type} {B : Balancer Bal} {Sch : Type} {Sc : Scheduler Sch}.
Implicit Types b : Broker (Bal := Bal) (Sch := Sch).

(** A batch of which one message was stored and another was not is reported
    differently by the two interfaces, which leave the same broker.  gRPC answers
    success: the entry of the failed message is the zero offset, with nothing to
    tell it from a stored one.  HTTP answers 500 with the first error, although
    the other message was stored. *)
Theorem partial_failure_reports (env : PubEnv) (now : Z) b (topic : string) (ms : list ProduceMessage) (st : batch_state)
    (j k : nat) (rj rk : PublishResult) (e : error) :
  PublishBatch env b topic ((fun m => incoming now (pm_Priority m) (pm_Key m) (pm_Value m)) <$> ms) = Ok st -> ms <> [] ->
  bs_results st !! j = Some rj -> pr_Err rj = None -> bs_results st !! k = Some rk -> pr_Err rk = Some e ->
  (exists resp, server_Produce env now b (mkProduceRequest topic [] [] 0 ms) = Ok (bs_broker st, Ok resp) /\
     prp_Results resp !! k = Some (mkProduceResult (i32 (pr_Partition rk)) (i64 (pr_Offset rk)))) /\
  (exists e', handleProduce env now b topic (Ok (as_records ms)) = Ok (bs_broker st, HTTPError StatusInternalServerError e')).
Proof.
  intros Hst Hne Hj Hrj Hk Hrk.
  assert (Hfirst : first_error (bs_results st) <> None).
  { rewrite first_error_spec, Forall_lookup. intros H. pose proof (H k rk Hk). congruence. }
  assert (Hall : allFailed (bs_results st) = false).
  { apply not_true_is_false. rewrite allFailed_spec, Forall_lookup. intros H. by apply (H j rj Hj). }
  destruct (first_error (bs_results st)) as [e'|] eqn:He'; [|done]. split.
  - unfold server_Produce. cbn [prq_Messages]. rewrite decide_True by (destruct ms; [done|cbn; lia]).
    unfold produceBatch. cbn [prq_Messages prq_Topic]. rewrite Hst, Ok_bind, He', Hall.
    eexists. split; [done|]. cbn [prp_Results]. by rewrite list_lookup_fmap, Hk.
  - exists e'. unfold handleProduce, with_body, as_records.
    rewrite <- list_fmap_compose. unfold compose. cbn [rec_Priority rec_Key rec_Value]. rewrite Hst, Ok_bind.
    pose proof (http_results_spec (bs_results st)) as H. rewrite He' in H. by rewrite H.
Qed.
End produce.

(** ** The properties at a concrete broker *)

Section sample.
Local Open Scope go_scope.
Local Existing Instance join_path.
Local Existing Instance plain_stats.
Local Existing Instance forwards.
Local Existing Instance mem_badger.
Local Existing Instance plain_env.

(** A request that runs alone, the clock past its deadline at once. *)
Definition quiet_poll : PollEnv (Bal := RoundRobin) (Sch := FIFO) :=
  mkPollEnv (fun _ => mkSchedEnv 0.5%float (fun _ => 0) 0) (fun _ => 10 ^ 12) 7 (fun _ b => b).

(** Two messages of three bytes are pending; a budget of two bytes gets the first. *)
Lemma Consume_returns_witness :
  exists b' es, server_Consume 10 quiet_poll 0 stocked_broker (mkConsumeRequest "orders" "billing" 1 2) = Some (b', Ok es) /\
    env_Value <$> es = [[x68; x69]] /\ env_Offset <$> es = [1] /\ start_offset b' "billing" "orders" 1 = 2.
Proof.
  assert (Hs : start_offset stocked_broker "billing" "orders" 1 = 1) by (vm_compute; reflexivity).
  pose proof (Consume_returns 10 0 quiet_poll 0 stocked_broker (mkConsumeRequest "orders" "billing" 1 2) (fun _ => False)
    [hello_back; hello_back]) as H.
  cbn [crq_Topic crq_Group crq_Partition crq_MaxBytes] in H. rewrite Hs in H.
  destruct H as (b' & new & ms & rest & es & Heq & Hnew & Hms & _ & Ho & Hv & _ & Hc).
  - intros m [].
  - intros k b off ds Hf. exists []. rewrite app_nil_r. split; [exact Hf|constructor].
  - intros k _. vm_compute. discriminate.
  - vm_compute. reflexivity.
  - split; [exact stocked_pending|]. split; [vm_compute; reflexivity|]. eexists. vm_compute. reflexivity.
  - vm_compute. lia.
  - destruct new as [|x new]; [|inversion Hnew as [|? ? [] _]].
    assert (Hone : ms = [hello_back]) by (rewrite Hms; vm_compute; reflexivity). clear Hms. subst ms. exists b', es. split; [exact Heq|]. split; [|split; [exact Ho|apply Hc; discriminate]].
    clear Heq Ho Hc. destruct es as [|e [|? ?]]; [discriminate Hv| |discriminate Hv].
    cbn in Hv. injection Hv as _ Hv. cbn. rewrite Hv. reflexivity.
Defined.

(** One message of 1100 bytes where 1024 are allowed, and one of three. *)
Definition mixed_batch : list ProduceMessage :=
  [mkProduceMessage [] (replicate 1100 x61) 1; mkProduceMessage [x6b] [x68; x69] 3].
Definition small_broker : Broker (Bal := RoundRobin) (Sch := FIFO) := sample_broker (set_MaxMessageBytes 1024 DefaultConfig).

Lemma partial_failure_reports_witness :
  exists b' resp e, server_Produce sample_pub 400 small_broker (mkProduceRequest "orders" [] [] 0 mixed_batch) = Ok (b', Ok resp) /\
    prp_Results resp !! 0%nat = Some (mkProduceResult 0 0) /\
    handleProduce sample_pub 400 small_broker "orders" (Ok (as_records mixed_batch)) = Ok (b', HTTPError StatusInternalServerError e) /\
    exists m, fetch b' "orders" 1 1 = Ok m /\ Value m = [x68; x69].
Proof.
  set (msgs := (fun m => incoming 400 (pm_Priority m) (pm_Key m) (pm_Value m)) <$> mixed_batch).
  set (got := mkMessage (mkHeader x03 400 500 1000) [x6b] [x68; x69] false).
  assert (Hout : match PublishBatch sample_pub small_broker "orders" msgs with
    | Ok st => bs_results st = [mkPublishResult 0 0 (Some ErrTooLarge); mkPublishResult 1 1 None] /\
               fetch (bs_broker st) "orders" 1 1 = Ok got
    | _ => False
    end) by (vm_compute; split; reflexivity).
  destruct (PublishBatch sample_pub small_broker "orders" msgs) as [st|e|] eqn:Hst; [|destruct Hout..].
  destruct Hout as [Hrs Hf].
  destruct (partial_failure_reports sample_pub 400 small_broker "orders" mixed_batch st 1 0 (mkPublishResult 1 1 None)
    (mkPublishResult 0 0 (Some ErrTooLarge)) ErrTooLarge Hst ltac:(discriminate)
    ltac:(rewrite Hrs; reflexivity) eq_refl ltac:(rewrite Hrs; reflexivity) eq_refl) as ((resp & Hg & Hr) & e & Hh).
  exists (bs_broker st), resp, e. split; [exact Hg|]. split; [exact Hr|]. split; [exact Hh|].
  exists got. split; [exact Hf|reflexivity].
Defined.
End sample.
