(* ===== verification/Client.v ===== *)
(** * The clients (src/pkg/transport/client.go, http_client.go)

    Both clients, as functions of what the connection returns.  A call is a
    function from the state of the other side to its new state and the outcome:
    instantiated with the handlers of Transport it is the whole round trip, with
    an arbitrary function it is any server.  Cancelling the context is a
    parameter of the calls that wait. *)

From stdpp Require Import pretty.
From S2P Require Import Prelude Message PriorityIndex Wal Compression GoFloat Config Partition Topic Backpressure OffsetStore.
From S2P Require Import LoadPredictor Metrics Balancer Scheduler Broker Transport.

Definition produceMaxRetries : nat := 3.
Definition produceRetryBaseDelay : Z := 1 * time_Millisecond.

(** ** The connection

    A call as the caller's side sees it: the connection delivers it and its
    answer, fails before the other side has begun to handle it, or fails after
    that (the context is cancelled or expires while the call runs, the connection
    breaks, the answer is over a size limit): then the call has had its effect and
    the caller gets an error all the same. *)
Inductive link : Type :=
| LinkUp
| LinkDown (e : error)
| LinkLost (e : error).

Definition over {St A : Type} (l : link) (call : St -> St * result A) (st : St) : St * result A :=
  match l with
  | LinkUp => call st
  | LinkDown e => (st, Err e)
  | LinkLost e => (fst (call st), Err e)
  end.

(** ** The gRPC client *)

Section grpc_client.
Context {G : Grpc} {St : Type}.

(** The loop both produce calls share, [attempts] left: [call] is one RPC;
    [cancelled attempt] the context's error when it is done before the wait after
    that attempt ends.  The last component lists the waits begun. *)
Fixpoint retry_loop {A : Type} (fatal exhausted : string) (cancelled : nat -> option error) (call : St -> St * result A)
    (attempts attempt : nat) (delay : Z) (lastErr : error) (st : St) : St * result A * list Z :=
  match attempts with
  | O => (st, Err (Wrapf lastErr exhausted), [])
  | S attempts =>
      let '(st, r) := call st in
      match r with
      | Ok resp => (st, Ok resp, [])
      | Panic => (st, Panic, [])
      | Err e =>
          if decide (status_Code e <> codes_ResourceExhausted) then (st, Err (Wrapf e fatal), [])
          else
            match cancelled attempt with
            | Some ctxErr => (st, Err ctxErr, [delay])
            | None =>
                let '(st, r, waits) :=
                  retry_loop fatal exhausted cancelled call attempts (attempt + 1) (i64 (delay * 2)) e st in
                (st, r, delay :: waits)
            end
      end
  end.

(** [lastErr] starts as nil; the loop runs at least once, so it is never wrapped. *)
Definition client_Produce (cancelled : nat -> option error) (rpc : ProduceRequest -> St -> St * result ProduceResponse)
    (topic : string) (key value : bytes) (priority : Z) (st : St) : St * result (Z * Z) * list Z :=
  let '(st, r, waits) :=
    retry_loop "produce topic=%s" "produce topic=%s (exhausted retries)" cancelled
      (rpc (mkProduceRequest topic key value priority [])) produceMaxRetries 0 produceRetryBaseDelay (Errorf "nil") st in
  (st, (resp ← r; Ok (prp_Partition resp, prp_Offset resp)), waits).

Definition client_ProduceBatch (cancelled : nat -> option error) (rpc : ProduceRequest -> St -> St * result ProduceResponse)
    (topic : string) (msgs : list ProduceMessage) (st : St) : St * result (list ProduceResult) * list Z :=
  let '(st, r, waits) :=
    retry_loop "produce-batch topic=%s count=%d" "produce-batch topic=%s count=%d (exhausted retries)" cancelled
      (rpc (mkProduceRequest topic [] [] 0 msgs)) produceMaxRetries 0 produceRetryBaseDelay (Errorf "nil") st in
  (st, (resp ← r; Ok (prp_Results resp)), waits).

Definition client_Consume (rpc : ConsumeRequest -> St -> St * result (list MessageEnvelope))
    (topic group : string) (partition maxBytes : Z) (st : St) : St * result (list MessageEnvelope) :=
  let '(st, r) := rpc (mkConsumeRequest topic group partition maxBytes) st in
  (st, wrapf "consume topic=%s group=%s partition=%d" r).

Definition client_Commit (rpc : string -> string -> Z -> Z -> St -> St * result unit)
    (topic group : string) (partition offset : Z) (st : St) : St * result unit :=
  let '(st, r) := rpc topic group partition offset st in
  (st, wrapf "commit topic=%s group=%s partition=%d offset=%d" r).

(** [if err != nil { return oops.Wrapf(mapClientError(err), ...) }] *)
Definition client_mapped {A : Type} (fmt : string) (r : result A) : result A :=
  match r with Err e => Err (Wrapf (mapClientError e) fmt) | _ => r end.

Definition client_CreateTopic (rpc : string -> Z -> option TopicScheduleConfig -> St -> St * result unit)
    (topic : string) (numPartitions mode : Z) (st : St) : St * result unit :=
  let '(st, r) := rpc topic numPartitions (Some (mkScheduleConfig mode 0 0 0%float)) st in
  (st, client_mapped "create-topic %s partitions=%d" r).

Definition client_DeleteTopic (rpc : string -> St -> St * result unit) (topic : string) (st : St) : St * result unit :=
  let '(st, r) := rpc topic st in (st, client_mapped "delete-topic %s" r).

Definition client_ListTopics (rpc : St -> St * result (list TopicInfo)) (st : St) : St * result (list TopicInfo) :=
  let '(st, r) := rpc st in (st, wrapf "list-topics" r).

Definition client_GetMetrics (rpc : St -> St * result MetricsResponse) (st : St) : St * result MetricsResponse :=
  let '(st, r) := rpc st in (st, wrapf "get-metrics" r).
End grpc_client.

(** ** The HTTP client *)

Record HTTPMetricsResponse : Type := mkHTTPMetrics {
  hm_Throughput : float;
  hm_PartitionLoads : list float;
  hm_PredictedLoads : list float;
  hm_DeliveryRatio : float;
  hm_LoadStdDev : float;
  hm_MsgRate : float;
  hm_AvgMsgSize : float;
}.

(** A response as the client sees it: the status code, the outcome of decoding
    the body as the expected type, and the text of the body as an
    HTTPErrorResponse when it decodes to one that is not empty. *)
Record HTTPReply (A : Type) : Type := mkReply { StatusCode : Z; DecodedBody : result A; ErrorText : option error }.
Arguments mkReply {A}.
Arguments StatusCode {A}.
Arguments DecodedBody {A}.
Arguments ErrorText {A}.

Definition readHTTPError {A : Type} (resp : HTTPReply A) : error :=
  match ErrorText resp with Some _ => Errorf "http %d: %s" | None => Errorf "http %s: %s" end.

(** Escaping the topic and the group in a URL and taking them from it again are
    net/url's; the numbers are formatted here and parsed by the handler. *)
Record ConsumeURL : Type := mkConsumeURL { cu_topic : string; cu_group : string; cu_partition : string; cu_maxBytes : string }.

Section http_client.
Context {St : Type}.

(** Building the request, sending it, checking the status. *)
Definition http_call {A B : Type} (build : result unit) (do : St -> St * result (HTTPReply A)) (k : HTTPReply A -> result B)
    (st : St) : St * result B :=
  match build with
  | Ok _ => let '(st, r) := do st in (st, resp ← wrapf "do request" r; k resp)
  | Err e => (st, Err e)
  | Panic => (st, Panic)
  end.

Definition expect_body {A : Type} (fmt : string) (resp : HTTPReply A) : result A :=
  if decide (StatusCode resp <> StatusOK) then Err (readHTTPError resp) else wrapf fmt (DecodedBody resp).

Definition expect_status {A : Type} (code : Z) (resp : HTTPReply A) : result unit :=
  if decide (StatusCode resp <> code) then Err (readHTTPError resp) else Ok tt.

Definition http_GetMetrics (build : result unit) (do : St -> St * result (HTTPReply HTTPMetricsResponse))
    : St -> St * result HTTPMetricsResponse :=
  http_call (wrapf "new request" build) do (expect_body "decode metrics").

(** [marshal] is the outcome of json.Marshal. *)
Definition http_ProduceBatch (marshal build : result unit)
    (do : string -> list HTTPProduceRecord -> St -> St * result (HTTPReply (list HTTPProduceResult)))
    (topic : string) (records : list HTTPProduceRecord) : St -> St * result (list HTTPProduceResult) :=
  http_call (_ ← wrapf "marshal" marshal; wrapf "new request" build) (do topic records) (expect_body "decode response").

Definition http_Produce (marshal build : result unit)
    (do : string -> list HTTPProduceRecord -> St -> St * result (HTTPReply (list HTTPProduceResult)))
    (topic : string) (key value : bytes) (priority : Z) (st : St) : St * result (Z * Z) :=
  let '(st, r) := http_ProduceBatch marshal build do topic [mkHTTPProduceRecord key value priority] st in
  (st, results ← wrapf "produce topic=%q" r;
       match results with
       | [] => Err (Errorf "empty produce response")
       | r :: _ => Ok (hpr_Partition r, hpr_Offset r)
       end).

Definition http_Consume (build : result unit) (do : ConsumeURL -> St -> St * result (HTTPReply (list HTTPMessageEnvelope)))
    (topic group : string) (partition maxBytes : Z) : St -> St * result (list HTTPMessageEnvelope) :=
  http_call (wrapf "new request" build) (do (mkConsumeURL topic group (pretty partition) (pretty maxBytes)))
    (expect_body "decode response").

Definition http_Commit (marshal build : result unit) (do : string -> HTTPCommitRequest -> St -> St * result (HTTPReply unit))
    (topic group : string) (partition offset : Z) : St -> St * result unit :=
  http_call (_ ← wrapf "marshal" marshal; wrapf "new request" build) (do topic (mkHTTPCommitRequest group partition offset))
    (expect_status StatusNoContent).

Definition http_CreateTopic (marshal build : result unit) (do : HTTPCreateTopicRequest -> St -> St * result (HTTPReply unit))
    (topic : string) (numPartitions : Z) (mode : string) : St -> St * result unit :=
  http_call (_ ← wrapf "marshal" marshal; wrapf "new request" build) (do (mkHTTPCreateTopicRequest topic numPartitions mode))
    (expect_status StatusCreated).

Definition http_DeleteTopic (build : result unit) (do : string -> St -> St * result (HTTPReply unit)) (topic : string)
    : St -> St * result unit :=
  http_call (wrapf "new request" build) (do topic) (fun resp =>
    if decide (StatusCode resp = StatusNotFound) then Err ErrTopicNotFound else expect_status StatusNoContent resp).

Definition http_ListTopics (build : result unit) (do : St -> St * result (HTTPReply (list HTTPTopicInfo)))
    : St -> St * result (list HTTPTopicInfo) :=
  http_call (wrapf "new request" build) do (expect_body "decode").
End http_client.
