(* ===== verification/Producer.v ===== *)
(** * The buffered producer (src/pkg/transport/client.go)

    BufferedProducer collects messages and hands them to the client in batches.
    Its methods run in several goroutines and in the linger timer's; each takes
    the mutex for one section of code and sends, if it sends at all, after it has
    released it.  A locked section is one function here, from the producer to the
    producer and what is to be done outside the lock; an interleaving of the
    goroutines is a list of locked sections.  [Send], [Flush], [Close] and
    [flushFromTimer] put the sections and the sending together for a producer
    that one goroutine uses at a time. *)

From Stdlib Require Import Strings.Byte.
From S2P Require Import Prelude Message PriorityIndex Wal Compression GoFloat Config Partition Topic Backpressure OffsetStore.
From S2P Require Import LoadPredictor Metrics Balancer Scheduler Broker Transport Client.

Record BufferedProducer : Type := mkProducer {
  bp_batchSize : Z;
  maxMemoryBytes : Z;
  linger : Z;
  buf : list ProduceMessage;
  bufBytes : Z;                  (* the sizes of messages held in memory: no overflow *)
  timer : bool;                  (* p.timer != nil *)
  asyncErr : option error;
  bp_closed : bool;
}.

Definition ErrBufferMemoryExceeded : error := Errorf "buffered producer: batch memory limit exceeded".

Definition WithMaxMemoryBytes (n : Z) (p : BufferedProducer) : BufferedProducer :=
  mkProducer (bp_batchSize p) n (linger p) (buf p) (bufBytes p) (timer p) (asyncErr p) (bp_closed p).

(** [make([]T, 0, batchSize)] panics on a negative capacity. *)
Definition NewBufferedProducer (batchSize linger : Z) (opts : list (BufferedProducer -> BufferedProducer)) : result BufferedProducer :=
  if batchSize <? 0 then Panic
  else Ok (foldl (fun p opt => opt p) (mkProducer batchSize 0 linger [] 0 false None false) opts).

Definition stopTimerLocked (p : BufferedProducer) : BufferedProducer :=
  mkProducer (bp_batchSize p) (maxMemoryBytes p) (linger p) (buf p) (bufBytes p) false (asyncErr p) (bp_closed p).

Definition with_buf (p : BufferedProducer) (b : list ProduceMessage) (n : Z) : BufferedProducer :=
  mkProducer (bp_batchSize p) (maxMemoryBytes p) (linger p) b n (timer p) (asyncErr p) (bp_closed p).
Definition with_asyncErr (p : BufferedProducer) (e : option error) : BufferedProducer :=
  mkProducer (bp_batchSize p) (maxMemoryBytes p) (linger p) (buf p) (bufBytes p) (timer p) e (bp_closed p).

(** [batch := p.buf; p.buf = make(...); p.bufBytes = 0; p.stopTimerLocked()] *)
Definition take_batch (p : BufferedProducer) : BufferedProducer * list ProduceMessage :=
  (stopTimerLocked (with_buf p [] 0), buf p).

Definition pm_bytes (m : ProduceMessage) : Z := Z.of_nat (length (pm_Key m)) + Z.of_nat (length (pm_Value m)).

(** What a locked section leaves to be done: return, or send a batch and then
    return or, after memory pressure, call Send again. *)
Inductive after : Type :=
| Return (r : result unit)
| SendThenReturn (batch : list ProduceMessage)
| SendThenRetry (batch : list ProduceMessage).

Definition Send_locked (p : BufferedProducer) (m : ProduceMessage) : BufferedProducer * after :=
  if bp_closed p then (p, Return (Err (Errorf "buffered producer: closed")))
  else
    match asyncErr p with
    | Some err => (with_asyncErr p None, Return (Err (Wrapf err "buffered producer async error")))
    | None =>
        let msgBytes := pm_bytes m in
        if (0 <? maxMemoryBytes p) && (maxMemoryBytes p <? bufBytes p + msgBytes) && bool_decide (0 < length (buf p))%nat then
          let '(p, batch) := take_batch p in (p, SendThenRetry batch)
        else if (0 <? maxMemoryBytes p) && (maxMemoryBytes p <? msgBytes) then (p, Return (Err ErrBufferMemoryExceeded))
        else
          let p := with_buf p (buf p ++ [m]) (bufBytes p + msgBytes) in
          if (bp_batchSize p <=? Z.of_nat (length (buf p))) || ((0 <? maxMemoryBytes p) && (maxMemoryBytes p <=? bufBytes p)) then
            let '(p, batch) := take_batch p in (p, SendThenReturn batch)
          else
            (mkProducer (bp_batchSize p) (maxMemoryBytes p) (linger p) (buf p) (bufBytes p)
               (timer p || (0 <? linger p)) (asyncErr p) (bp_closed p), Return (Ok tt))
    end.

Definition Flush_locked (p : BufferedProducer) : BufferedProducer * after :=
  if bool_decide (length (buf p) = 0)%nat then (p, Return (Ok tt))
  else let '(p, batch) := take_batch p in (p, SendThenReturn batch).

(** Close also cancels the context of the timer's sends. *)
Definition Close_locked (p : BufferedProducer) : BufferedProducer * after :=
  if bp_closed p then (p, Return (Ok tt))
  else
    let batch := buf p in
    (mkProducer (bp_batchSize p) (maxMemoryBytes p) (linger p) [] 0 false (asyncErr p) true,
     if bool_decide (length batch = 0)%nat then Return (Ok tt) else SendThenReturn batch).

(** The second section of flushFromTimer, after a send that failed. *)
Definition record_async (p : BufferedProducer) (err : error) : BufferedProducer :=
  match asyncErr p with None => with_asyncErr p (Some err) | Some _ => p end.

(** ** The methods, one goroutine at a time *)

Section methods.
Context {St : Type}.

(** [call] is the client's ProduceBatch on the producer's topic. *)
Context (call : list ProduceMessage -> St -> St * result (list ProduceResult)).

Definition send (batch : list ProduceMessage) (st : St) : St * result unit :=
  let '(st, r) := call batch st in (st, wrapf "send batch topic=%q count=%d" (_ ← r; Ok tt)).

(** [None] when the fuel is used up. *)
Fixpoint Send (fuel : nat) (p : BufferedProducer) (m : ProduceMessage) (st : St) : option (BufferedProducer * St * result unit) :=
  match fuel with
  | O => None
  | S fuel =>
      let '(p, k) := Send_locked p m in
      match k with
      | Return r => Some (p, st, r)
      | SendThenReturn batch => let '(st, r) := send batch st in Some (p, st, r)
      | SendThenRetry batch =>
          let '(st, r) := send batch st in
          match r with
          | Ok _ => Send fuel p m st
          | _ => Some (p, st, wrapf "buffered producer flush on memory pressure" r)
          end
      end
  end.

Definition finish (s : BufferedProducer * after) (st : St) : BufferedProducer * St * result unit :=
  let '(p, k) := s in
  match k with
  | Return r => (p, st, r)
  | SendThenReturn batch | SendThenRetry batch => let '(st, r) := send batch st in (p, st, r)
  end.

Definition Flush (p : BufferedProducer) (st : St) : BufferedProducer * St * result unit := finish (Flush_locked p) st.
Definition bp_Close (p : BufferedProducer) (st : St) : BufferedProducer * St * result unit := finish (Close_locked p) st.

Definition flushFromTimer (p : BufferedProducer) (st : St) : BufferedProducer * St :=
  let '(p, st, r) := Flush p st in
  (match r with Err err => record_async p err | _ => p end, st).
End methods.

(** ** Interleavings *)

(** The locked sections; a Send that retries begins another [LSend]. *)
Inductive section_label : Type :=
| LSend (m : ProduceMessage)
| LFlush
| LClose
| LAsync (err : error).

Definition locked (p : BufferedProducer) (l : section_label) : BufferedProducer * after :=
  match l with
  | LSend m => Send_locked p m
  | LFlush => Flush_locked p
  | LClose => Close_locked p
  | LAsync err => (record_async p err, Return (Ok tt))
  end.

(** The message a section takes into the buffer, and the batch it takes out. *)
Definition accepted (l : section_label) (k : after) : list ProduceMessage :=
  match l, k with
  | LSend m, Return (Ok _) | LSend m, SendThenReturn _ => [m]
  | _, _ => []
  end.
Definition handed (k : after) : list (list ProduceMessage) :=
  match k with Return _ => [] | SendThenReturn batch | SendThenRetry batch => [batch] end.

(** A run: the producer, the messages accepted and the batches handed over. *)
Fixpoint run_sections (p : BufferedProducer) (ls : list section_label)
    : BufferedProducer * list ProduceMessage * list (list ProduceMessage) :=
  match ls with
  | [] => (p, [], [])
  | l :: ls =>
      let '(p, k) := locked p l in
      let '(p, ms, bs) := run_sections p ls in
      (p, accepted l k ++ ms, handed k ++ bs)
  end.

Definition total_bytes (ms : list ProduceMessage) : Z := foldr (fun m n => pm_bytes m + n) 0 ms.

(** What holds of the producer whenever the mutex is free. *)
Record producer_ok (p : BufferedProducer) : Prop := {
  ok_length : Z.of_nat (length (buf p)) < Z.max 1 (bp_batchSize p);
  ok_bytes : bufBytes p = total_bytes (buf p);
  ok_memory : 0 < maxMemoryBytes p -> bufBytes p < maxMemoryBytes p;
  ok_timer : timer p = bool_decide (buf p <> [] /\ 0 < linger p);
  ok_closed : bp_closed p = true -> buf p = [];
}.

(** What the client may be handed. *)
Definition batch_ok (p : BufferedProducer) (batch : list ProduceMessage) : Prop :=
  (1 <= length batch)%nat /\ Z.of_nat (length batch) <= Z.max 1 (bp_batchSize p) /\
  (0 < maxMemoryBytes p -> total_bytes batch <= maxMemoryBytes p).

Definition same_limits (p p' : BufferedProducer) : Prop :=
  bp_batchSize p' = bp_batchSize p /\ maxMemoryBytes p' = maxMemoryBytes p /\ linger p' = linger p.

Ltac prod_simpl :=
  cbn [fst buf bufBytes with_buf stopTimerLocked take_batch bp_batchSize maxMemoryBytes linger timer asyncErr bp_closed length].

Lemma total_bytes_snoc ms m : total_bytes (ms ++ [m]) = total_bytes ms + pm_bytes m.
Proof. unfold total_bytes. induction ms as [|x ms IH]; cbn [app foldr] in *; lia. Qed.

Lemma take_batch_ok p : producer_ok (fst (take_batch p)).
Proof. split; prod_simpl; [lia|done|done|by rewrite bool_decide_false by naive_solver|done]. Qed.

Lemma buffered_batch_ok p : producer_ok p -> buf p <> [] -> batch_ok p (buf p).
Proof.
  intros [Hl Hb Hm _ _] Hne. split; [destruct (buf p); [done|cbn; lia]|]. split; [lia|]. intros H. specialize (Hm H). lia.
Qed.

(** One locked section: the invariant, what is handed over, and what happens to
    the messages. *)
Definition section_spec (p : BufferedProducer) (l : section_label) (s : BufferedProducer * after) : Prop :=
  let '(p', k) := s in
  producer_ok p' /\ same_limits p p' /\ Forall (batch_ok p) (handed k) /\
  concat (handed k) ++ buf p' = buf p ++ accepted l k.

Lemma Send_locked_spec p m : producer_ok p -> section_spec p (LSend m) (Send_locked p m).
Proof.
  intros Hp. unfold Send_locked. destruct (bp_closed p) eqn:Hcl.
  { split; [done|]. split; [done|]. split; [constructor|]. cbn. by rewrite app_nil_r. }
  destruct (asyncErr p) as [err|].
  { split; [by destruct Hp|]. split; [done|]. split; [constructor|]. cbn. by rewrite app_nil_r. }
  destruct ((0 <? maxMemoryBytes p) && _ && _) eqn:Hpress.
  { apply andb_true_iff in Hpress as [_ Hne%bool_decide_eq_true].
    split; [apply take_batch_ok|]. split; [done|]. split; [|cbn; by rewrite !app_nil_r].
    apply Forall_singleton, buffered_batch_ok; [done|]. by destruct (buf p); [cbn in Hne; lia|]. }
  destruct ((0 <? maxMemoryBytes p) && (maxMemoryBytes p <? pm_bytes m)) eqn:Hbig.
  { split; [done|]. split; [done|]. split; [constructor|]. cbn. by rewrite app_nil_r. }
  destruct Hp as [Hl Hb Hm Ht Hc].
  assert (Hfit : 0 < maxMemoryBytes p -> bufBytes p + pm_bytes m <= maxMemoryBytes p).
  { intros Hpos. rewrite (proj2 (Z.ltb_lt 0 (maxMemoryBytes p))) in Hpress, Hbig by done. cbn [andb] in Hpress, Hbig.
    apply Z.ltb_ge in Hbig. apply andb_false_iff in Hpress as [H%Z.ltb_ge|H%bool_decide_eq_false]; [done|].
    destruct (buf p) as [|x xs]; [|cbn in H; lia]. cbn in Hb. lia. }
  destruct ((bp_batchSize _ <=? _) || _) eqn:Hfull; cbn [bp_batchSize maxMemoryBytes linger buf bufBytes with_buf] in Hfull.
  - split; [apply take_batch_ok|]. split; [done|]. split; [|cbn; by rewrite !app_nil_r].
    apply Forall_singleton. unfold batch_ok. cbn [buf with_buf]. rewrite total_bytes_snoc, length_app. cbn [length].
    split; [lia|]. split; [lia|]. intros H. specialize (Hfit H). lia.
  - apply orb_false_iff in Hfull as [Hlen%Z.leb_gt Hmem]. rewrite length_app in Hlen. cbn [length] in Hlen.
    split; [|split; [done|]; split; [constructor|done]].
    split; cbn [buf bufBytes with_buf bp_batchSize maxMemoryBytes linger timer bp_closed].
    + rewrite length_app. cbn [length]. lia.
    + rewrite total_bytes_snoc. lia.
    + intros Hpos. rewrite (proj2 (Z.ltb_lt 0 (maxMemoryBytes p))) in Hmem by done. cbn [andb] in Hmem. by apply Z.leb_gt.
    + rewrite Ht. destruct (Z.ltb_spec 0 (linger p)).
      * rewrite orb_true_r, bool_decide_true; [done|]. split; [|done]. by destruct (buf p).
      * rewrite !bool_decide_false; [done|lia..].
    + by rewrite Hcl.
Qed.

Lemma locked_spec p l : producer_ok p -> section_spec p l (locked p l).
Proof.
  intros Hp. destruct l as [m| | |err]; cbn [locked]; [by apply Send_locked_spec|..].
  - unfold Flush_locked. case_bool_decide as Hz.
    + split; [done|]. split; [done|]. split; [constructor|]. cbn. by rewrite app_nil_r.
    + split; [apply take_batch_ok|]. split; [done|]. split; [|cbn; by rewrite !app_nil_r].
      apply Forall_singleton, buffered_batch_ok; [done|]. by destruct (buf p).
  - unfold Close_locked. destruct (bp_closed p) eqn:Hcl.
    { split; [done|]. split; [done|]. split; [constructor|]. cbn. by rewrite app_nil_r. }
    split; [split; prod_simpl; [lia|done|done|by rewrite bool_decide_false by naive_solver|done]|]. split; [done|]. case_bool_decide as Hz; cbn.
    + split; [constructor|]. by destruct (buf p).
    + split; [|by rewrite !app_nil_r]. apply Forall_singleton, buffered_batch_ok; [done|]. by destruct (buf p).
  - unfold record_async. destruct (asyncErr p); (split; [by destruct Hp|]); (split; [done|]); (split; [constructor|]); cbn; by rewrite app_nil_r.
Qed.

Lemma batch_ok_limits p p' batch : same_limits p p' -> batch_ok p' batch -> batch_ok p batch.
Proof. unfold batch_ok. by intros (-> & -> & _). Qed.

Lemma run_sections_spec p ls :
  producer_ok p ->
  let '(p', ms, bs) := run_sections p ls in
  producer_ok p' /\ same_limits p p' /\ Forall (batch_ok p) bs /\ concat bs ++ buf p' = buf p ++ ms.
Proof.
  revert p. induction ls as [|l ls IH]; intros p Hp; cbn [run_sections].
  { split; [done|]. split; [done|]. split; [constructor|]. cbn. by rewrite app_nil_r. }
  pose proof (locked_spec p l Hp) as H. destruct (locked p l) as [p1 k]. destruct H as (Hp1 & Hs1 & Hb1 & Hc1).
  specialize (IH p1 Hp1). destruct (run_sections p1 ls) as [[p2 ms] bs]. destruct IH as (Hp2 & Hs2 & Hb2 & Hc2).
  split; [done|]. split; [|split].
  - destruct Hs1 as (? & ? & ?), Hs2 as (? & ? & ?). split; [|split]; congruence.
  - apply Forall_app_2; [done|]. eapply list.Forall_impl; [exact Hb2|]. intros batch. by apply batch_ok_limits.
  - rewrite concat_app, <- app_assoc, Hc2, !app_assoc. by rewrite Hc1.
Qed.

(** C26: Nothing is lost, doubled or reordered inside the producer, whatever the
    interleaving of Send, Flush, Close and the timer: the batches handed to the
    client, in the order they were taken, followed by the buffer, are the
    messages accepted by Send, in order.  A batch is never empty, has at most
    batchSize messages (at least 1) and, with a memory limit, at most that many
    bytes; the buffer stays strictly below both limits.  A message that waits in
    the buffer always has the linger timer running, if there is one, and its
    flush takes all of them. *)
Theorem producer_conserves (batchSize lingerTime limit : Z) (p : BufferedProducer) (ls : list section_label) :
  NewBufferedProducer batchSize lingerTime [WithMaxMemoryBytes limit] = Ok p ->
  let '(p', ms, bs) := run_sections p ls in
  concat bs ++ buf p' = ms /\
  Forall (fun batch => 1 <= Z.of_nat (length batch) <= Z.max 1 batchSize /\ (0 < limit -> total_bytes batch <= limit)) bs /\
  Z.of_nat (length (buf p')) < Z.max 1 batchSize /\ (0 < limit -> total_bytes (buf p') < limit) /\
  (buf p' <> [] -> 0 < lingerTime -> timer p' = true) /\
  (buf p' <> [] -> exists p'', locked p' LFlush = (p'', SendThenReturn (buf p')) /\ buf p'' = []).
Proof.
  unfold NewBufferedProducer. destruct (batchSize <? 0); [done|]. intros [= <-].
  pose proof (run_sections_spec (mkProducer batchSize limit lingerTime [] 0 false None false) ls) as H.
  cbn [foldl WithMaxMemoryBytes]. prod_simpl. destruct (run_sections _ ls) as [[p' ms] bs].
  destruct H as ([Hl Hb Hm Ht Hc] & (Hbs & Hmx & Hlg) & Hbatch & Hcat).
  { split; prod_simpl; [lia|done|done|by rewrite bool_decide_false by naive_solver|done]. }
  cbn [buf app bp_batchSize maxMemoryBytes linger] in *. rewrite Hbs in Hl. rewrite Hmx in Hm. rewrite Hlg in Ht.
  split; [done|]. split.
  { eapply list.Forall_impl; [exact Hbatch|]. unfold batch_ok. cbn [bp_batchSize maxMemoryBytes]. intros batch (? & ? & ?). split; [lia|done]. }
  split; [done|]. rewrite <- Hb. split; [done|]. split.
  - intros Hne Hpos. by rewrite Ht, bool_decide_true.
  - intros Hne. cbn [locked]. unfold Flush_locked. rewrite bool_decide_false by (by destruct (buf p')). eexists. by split.
Qed.

(** ** One goroutine at a time *)

Section sequential.
Context {St : Type} (call : list ProduceMessage -> St -> St * result (list ProduceResult)).

(** Batches sent one after the other, up to the first that fails. *)
Fixpoint send_all (bs : list (list ProduceMessage)) (st : St) : St * result unit :=
  match bs with
  | [] => (st, Ok tt)
  | batch :: bs =>
      let '(st, r) := send call batch st in
      match r with Ok _ => send_all bs st | _ => (st, r) end
  end.

Lemma send_one batch st : send_all [batch] st = send call batch st.
Proof. cbn [send_all]. destruct (send call batch st) as [st' [[]|e|]]; done. Qed.

(** After memory pressure the buffer is empty: the second section does not flush
    on pressure again. *)
Lemma Send_locked_empty p m : buf p = [] -> match (Send_locked p m).2 with SendThenRetry _ => False | _ => True end.
Proof.
  intros Hb. unfold Send_locked. destruct (bp_closed p); [done|]. destruct (asyncErr p); [done|]. rewrite Hb.
  rewrite bool_decide_false, andb_false_r by (cbn; lia). destruct (_ && _); [done|]. by destruct (_ || _).
Qed.

Lemma Send_locked_retry p m p' batch : Send_locked p m = (p', SendThenRetry batch) -> buf p' = [].
Proof.
  unfold Send_locked. destruct (bp_closed p); [done|]. destruct (asyncErr p); [done|].
  destruct (_ && _ && _); [by intros [= <- <-]|]. destruct (_ && _); [done|]. by destruct (_ || _).
Qed.

Lemma Send_step fuel p m st :
  Send call (S fuel) p m st =
  let '(p, k) := Send_locked p m in
  match k with
  | Return r => Some (p, st, r)
  | SendThenReturn batch => let '(st, r) := send call batch st in Some (p, st, r)
  | SendThenRetry batch =>
      let '(st, r) := send call batch st in
      match r with
      | Ok _ => Send call fuel p m st
      | _ => Some (p, st, wrapf "buffered producer flush on memory pressure" r)
      end
  end.
Proof. done. Qed.

(** The second call, or a call that does not flush on memory pressure. *)
Lemma Send_once fuel p m st :
  producer_ok p -> match (Send_locked p m).2 with SendThenRetry _ => False | _ => True end ->
  exists p' st' r bs, Send call (S fuel) p m st = Some (p', st', r) /\ producer_ok p' /\
    (r = Ok tt -> send_all bs st = (st', Ok tt) /\ concat bs ++ buf p' = buf p ++ [m]) /\
    (r <> Ok tt -> st' = (send_all bs st).1 /\
       (concat bs ++ buf p' = buf p \/ concat bs ++ buf p' = buf p ++ [m] /\ is_ok (send_all bs st).2 = false)).
Proof.
  intros Hp Hk. cbn [Send]. pose proof (Send_locked_spec p m Hp) as H. destruct (Send_locked p m) as [p1 k].
  destruct H as (Hp1 & _ & _ & Hcat). destruct k as [r|batch|batch]; [| |done].
  - exists p1, st, r, []. split; [done|]. split; [done|]. cbn [handed concat app] in *.
    destruct r as [[]|e|]; cbn [accepted] in Hcat; (split; [by intros|]); intros Hr; rewrite Hcat, ?app_nil_r; [done|by split; [|left]..].
  - destruct (send call batch st) as [st' r] eqn:Hs. exists p1, st', r, [batch]. split; [done|]. split; [done|].
    rewrite send_one, Hs. cbn [handed accepted] in Hcat. split; [by intros ->|].
    intros Hr. split; [done|]. right. split; [done|]. cbn [snd]. by destruct r as [[]| |].
Qed.

(** Send returns: it calls itself at most once.  When it returns nil the
    message was accepted: the batches it sent, all of them successfully, followed
    by the buffer are what was buffered before and then the message.  When it
    returns an error the message is not in the buffer: either what was sent and
    the buffer make up the old buffer, or the message itself was in the batch
    that failed. *)
Theorem Send_returns (fuel : nat) (p : BufferedProducer) (m : ProduceMessage) (st : St) :
  producer_ok p ->
  exists p' st' r bs, Send call (S (S fuel)) p m st = Some (p', st', r) /\ producer_ok p' /\
    (r = Ok tt -> send_all bs st = (st', Ok tt) /\ concat bs ++ buf p' = buf p ++ [m]) /\
    (r <> Ok tt -> st' = (send_all bs st).1 /\
       (concat bs ++ buf p' = buf p \/ concat bs ++ buf p' = buf p ++ [m] /\ is_ok (send_all bs st).2 = false)).
Proof.
  intros Hp. destruct (Send_locked p m) as [p1 k] eqn:Hk.
  destruct k as [r|batch|batch]; [apply Send_once; [done|by rewrite Hk]..|].
  pose proof (Send_locked_spec p m Hp) as H. rewrite Hk in H. destruct H as (Hp1 & _ & _ & Hcat).
  assert (Hb1 : buf p1 = []) by (by eapply Send_locked_retry).
  cbn [handed concat accepted] in Hcat. rewrite Hb1, !app_nil_r in Hcat. subst batch.
  rewrite Send_step, Hk. destruct (send call (buf p) st) as [st1 r1] eqn:Hs.
  destruct r1 as [[]|e|].
  - destruct (Send_once fuel p1 m st1 Hp1 (Send_locked_empty p1 m Hb1)) as (p2 & st2 & r2 & bs & -> & Hp2 & Hok & Herr).
    rewrite Hb1 in Hok, Herr. cbn [app] in Hok, Herr.
    exists p2, st2, r2, (buf p :: bs). split; [done|]. split; [done|]. cbn [send_all concat]. rewrite Hs, <- app_assoc. split.
    + intros Hr. destruct (Hok Hr) as [Hsend Hc]. split; [done|]. by rewrite Hc.
    + intros Hr. destruct (Herr Hr) as [Hsend Hc]. split; [done|]. destruct Hc as [Hc|[Hc Hf]]; rewrite Hc; [left; by rewrite app_nil_r|by right].
  - exists p1, st1, (Err (Wrapf e "buffered producer flush on memory pressure")), [buf p]. split; [done|]. split; [done|].
    split; [done|]. intros _. cbn [send_all concat]. rewrite Hs, Hb1, !app_nil_r. by split; [|left].
  - exists p1, st1, Panic, [buf p]. split; [done|]. split; [done|].
    split; [done|]. intros _. cbn [send_all concat]. rewrite Hs, Hb1, !app_nil_r. by split; [|left].
Qed.

(** A timer flush that fails is reported by the next Send, and only there: Close
    returns nil, although the messages are neither sent nor buffered. *)
Theorem async_error_lost (p : BufferedProducer) (st st' : St) (e : error) :
  buf p <> [] -> bp_closed p = false -> call (buf p) st = (st', Err e) ->
  let '(p1, st1) := flushFromTimer call p st in
  st1 = st' /\ buf p1 = [] /\ (exists p2, bp_Close call p1 st1 = (p2, st1, Ok tt) /\ buf p2 = []).
Proof.
  intros Hne Hcl Hcall. unfold flushFromTimer, Flush, Flush_locked. rewrite bool_decide_false by (by destruct (buf p)).
  cbn [take_batch finish]. unfold send. rewrite Hcall. cbn [mbind result_bind wrapf]. split; [done|].
  unfold record_async. cbn [asyncErr stopTimerLocked with_buf]. destruct (asyncErr p); (split; [done|]);
    unfold bp_Close, Close_locked; cbn [bp_closed with_asyncErr stopTimerLocked with_buf]; rewrite Hcl; by eexists.
Qed.
End sequential.

(** ** The properties at a concrete producer *)

Definition msg_of (n : nat) : ProduceMessage := mkProduceMessage [] (replicate n x61) 0.

(** Three messages per batch, four bytes at most, and a timer. *)
Definition small_producer : BufferedProducer := mkProducer 3 4 5 [] 0 false None false.

Lemma producer_conserves_witness :
  let '(p', ms, bs) := run_sections small_producer [LSend (msg_of 2); LSend (msg_of 3); LSend (msg_of 3); LFlush; LSend (msg_of 1)] in
  ms = [msg_of 2; msg_of 3; msg_of 1] /\ concat bs ++ buf p' = ms /\ bs = [[msg_of 2]; [msg_of 3]] /\ timer p' = true.
Proof.
  pose proof (producer_conserves 3 5 4 small_producer
    [LSend (msg_of 2); LSend (msg_of 3); LSend (msg_of 3); LFlush; LSend (msg_of 1)] eq_refl) as H.
  assert (Hm : (run_sections small_producer [LSend (msg_of 2); LSend (msg_of 3); LSend (msg_of 3); LFlush; LSend (msg_of 1)]).1.2 =
    [msg_of 2; msg_of 3; msg_of 1]) by (vm_compute; reflexivity).
  assert (Hb : (run_sections small_producer [LSend (msg_of 2); LSend (msg_of 3); LSend (msg_of 3); LFlush; LSend (msg_of 1)]).2 =
    [[msg_of 2]; [msg_of 3]]) by (vm_compute; reflexivity).
  destruct (run_sections small_producer _) as [[p' ms] bs]. cbn [fst snd] in Hm, Hb. subst ms bs.
  destruct H as (Hc & _ & _ & _ & Ht & _). split; [reflexivity|]. split; [exact Hc|]. split; [reflexivity|].
  apply Ht; [|lia]. intros Hnil. rewrite Hnil in Hc. discriminate Hc.
Defined.

(** A server that takes everything and remembers it. *)
Definition record_call (batch : list ProduceMessage) (st : list (list ProduceMessage)) : list (list ProduceMessage) * result (list ProduceResult) :=
  (st ++ [batch], Ok []).

Lemma Send_returns_witness :
  exists p' st', Send record_call 2 (mkProducer 3 4 5 [msg_of 2] 2 true None false) (msg_of 3) [] = Some (p', st', Ok tt) /\
    st' = [[msg_of 2]] /\ buf p' = [msg_of 3].
Proof.
  destruct (Send_returns record_call 0 (mkProducer 3 4 5 [msg_of 2] 2 true None false) (msg_of 3) [])
    as (p' & st' & r & bs & Heq & _ & Hok & _); [split; vm_compute; done|].
  assert (Hr : match Send record_call 2 (mkProducer 3 4 5 [msg_of 2] 2 true None false) (msg_of 3) [] with
    | Some (p', st', r) => r = Ok tt /\ st' = [[msg_of 2]] /\ buf p' = [msg_of 3] | None => False end) by (vm_compute; done).
  rewrite Heq in Hr. destruct Hr as (-> & Hst & Hb). exists p', st'. split; [exact Heq|]. split; [exact Hst|exact Hb].
Defined.
