(* ===== verification/Optimizer.v ===== *)
(** * The configuration tuner (src/pkg/optimizer)

    At every tick the optimizer looks at the broker's metrics, lets an actor
    network (DDPG) propose new values for the tunable parameters, applies them to
    the broker's configuration when that is allowed, and trains on the reward.
    When too little is delivered for two ticks it restores the configuration it
    started with, for good.

    The networks are gomlx's ([ACNet]); the averaging of their variables, the
    noise, the replay, the reward and everything about the configuration are
    modelled.  The broker is the one of Broker.v: a tick takes it and returns it. *)

From S2P Require Import Prelude PriorityIndex Wal Compression GoFloat Config Partition Topic Backpressure OffsetStore LoadPredictor.
From S2P Require Import Metrics Balancer Scheduler NN QNet Preprocessing Broker.

Definition DefaultOptimizerWindowCap : Z := 10.
Definition DefaultOptimizerWarmupTicks : Z := 2 * DefaultOptimizerWindowCap.
Definition DefaultQueueSoftThreshold : float := 1000%float.
Definition DefaultQueuePenaltyWeight : float := 1.5%float.
Definition DefaultLatencyPenaltyWeight : float := 0x1.3333333333333p-2%float.   (* 0.3 *)
Definition DefaultQueuePenaltyClamp : float := (-2)%float.
Definition DefaultRewardClamp : float := 2%float.
Definition DefaultSafetyConsumeRatio : float := 0x1.6666666666666p-1%float.     (* 0.7 *)
Definition DefaultMinApplyInterval : Z := 2000000000.
Definition DefaultErrorPenaltyWeight : float := 2%float.
Definition DefaultErrorPenaltyThresh : float := 0x1.47ae147ae147bp-7%float.     (* 0.01 *)
Definition DefaultEmergencyRollbackDR : float := 0.5%float.
Definition DefaultEmergencyRollbackN : Z := 2.
Definition optimizerThroughputScale : float := 100000%float.
Definition optimizerLatencyScale : float := 1000%float.
Definition ddpgHiddenSize : Z := 128.
Definition ddpgTau : float := 0x1.47ae147ae147bp-8%float.                       (* 0.005 *)
Definition ddpgOneMinusTau : float := 0x1.fd70a3d70a3d7p-1%float.               (* 1 - 0.005, exactly, then rounded *)
Definition ddpgDefaultGamma : float := 0x1.fae147ae147aep-1%float.              (* 0.99 *)
Definition ddpgDefaultBatchSize : Z := 32.
Definition ddpgReplayBufSize : Z := 1000000.
Definition ddpgOUTheta : float := 0x1.3333333333333p-3%float.                   (* 0.15 *)
Definition ddpgOUSigma : float := 0x1.999999999999ap-3%float.                   (* 0.2 *)

(** ** params.go *)

Record TunableParam : Type := mkTunable { tp_Name : string; tp_Min : float; tp_Max : float; tp_Weight : float }.

Definition DefaultTunableParams : list TunableParam := [
  mkTunable "SegmentMaxBytes" (of_int (2 ^ 20)) (of_int (64 * 2 ^ 20)) 1;
  mkTunable "SegmentMaxCount" 10 500 1;
  mkTunable "FlushIntervalMs" 100 10000 1;
  mkTunable "BatchSize" 1 1000 1;
  mkTunable "BatchMemoryBytes" 1024 (of_int (2 ^ 20)) 0x1.ccccccccccccdp-1;
  mkTunable "LingerMs" 0 100 1;
  mkTunable "NumIOGoroutines" 1 32 1;
  mkTunable "NumNetworkGoroutines" 1 32 1;
  mkTunable "CompressionType" 0 3 0x1.3333333333333p-2;
  mkTunable "MaxMessageBytes" 1024 (of_int (10 * 2 ^ 20)) 0x1.6666666666666p-1
].

Definition set_Weight (w : float) (p : TunableParam) : TunableParam := mkTunable (tp_Name p) (tp_Min p) (tp_Max p) w.

(** The loop over the selected indices; [weights[i]] of a shorter list panics. *)
Fixpoint assign_weights (indices : list nat) (weights : list float) (ps : list TunableParam) : result (list TunableParam) :=
  match indices with
  | [] => Ok ps
  | i :: indices =>
      if (i <? length ps)%nat then
        match weights with
        | w :: weights => assign_weights indices weights (alter (set_Weight w) i ps)
        | [] => Panic
        end
      else assign_weights indices (tail weights) ps
  end.

Definition CalibrateWeights {G : Gonum} {L : GonumLA} (params : list TunableParam) (configs : list (list float)) (throughputs : list float)
    (alpha : float) : result (list TunableParam) :=
  match configs with
  | [] => Ok params
  | first :: _ =>
      if decide (length first <> length params) then Ok params
      else
        '(indices, weights) ← SelectParameters configs throughputs alpha;
        assign_weights indices weights (set_Weight 0%float <$> params)
  end.

Definition ActiveParams (all : list TunableParam) : list TunableParam := filter (fun p => (0 <? tp_Weight p)%float = true) all.

Definition Normalize (val lo hi : float) : float :=
  if (hi <=? lo)%float then 0%float
  else
    let n := ((val - lo) / (hi - lo))%float in
    if (n <? 0)%float then 0%float else if (1 <? n)%float then 1%float else n.

Definition Denormalize (norm lo hi : float) : float := (lo + norm * (hi - lo))%float.

Definition ClipAction (current delta lo hi : float) : float :=
  let r := (current + delta)%float in
  if (r <? lo)%float then lo else if (hi <? r)%float then hi else r.

(** ** ddpg.go *)

(** The value of a variable: a vector, a matrix, or anything else. *)
Inductive VarValue : Type :=
| Vec64 (l : list float)
| Mat64 (rows : list (list float))
| Vec32 (l : list float)
| OtherVar.

(** A variable of the main network, its copy in the target, and the length of the
    buffer for it. *)
Record varPair : Type := mkPair { vp_src : VarValue; vp_tgt : VarValue; vp_buf : nat }.

(** The compiled graphs as functions of the weights.  [ac_SetValue] stores the
    data of the [i]-th target variable; when it fails that is only logged. *)
Class ACNet (Net : Type) : Type := {
  ac_actor : Net -> list float -> TensorValue;
  ac_targetQ : Net -> list (list float) -> TensorValue;
  ac_trainCritic : Net -> list (list float) -> list (list float) -> list float -> Net;
  ac_trainActor : Net -> list (list float) -> Net;
  ac_pairs : Net -> list varPair;
  ac_SetValue : Net -> nat -> list float -> Net;
}.

(** [(1-tau)*tgt[i] + tau*src[i]] over the target; a shorter source panics. *)
Fixpoint blend (tgt src : list float) : result (list float) :=
  match tgt, src with
  | [], _ => Ok []
  | t :: tgt, s :: src => rest ← blend tgt src; Ok ((ddpgOneMinusTau * t + ddpgTau * s)%float :: rest)
  | _ :: _, [] => Panic
  end.
(** The same in float32. *)
Fixpoint blend32 (tgt src : list float) : result (list float) :=
  let tau := float32 ddpgTau in
  let one := float32 (1 - tau) in
  match tgt, src with
  | [], _ => Ok []
  | t :: tgt, s :: src => rest ← blend32 tgt src; Ok (float32 (float32 (one * t) + float32 (tau * s)) :: rest)
  | _ :: _, [] => Panic
  end.
(** The rows of the source; the target must have all their entries. *)
Fixpoint blend_rows (src tgt : list (list float)) : result (list float) :=
  match src with
  | [] => Ok []
  | row :: src =>
      trow ← (if decide (length row = 0)%nat then Ok [] else index tgt 0);
      out ← blend (take (length row) (trow ++ replicate (length row - length trow) 0%float)) row;
      if (length trow <? length row)%nat then Panic
      else rest ← blend_rows src (tail tgt); Ok (out ++ rest)
  end.

(** What one pair of variables is set to; nothing when the types do not match. *)
Definition blend_pair (p : varPair) : result (option (list float)) :=
  match vp_src p, vp_tgt p with
  | Vec64 s, Vec64 t => if (vp_buf p <? length t)%nat then Panic else (out ← blend t s; Ok (Some out))
  | Mat64 s, Mat64 t => out ← blend_rows s t; if (vp_buf p <? length out)%nat then Panic else Ok (Some out)
  | Vec32 s, Vec32 t => out ← blend32 t s; Ok (Some out)
  | _, _ => Ok None
  end.

Section ddpg.
Context {Net : Type} {AC : ACNet Net}.

Fixpoint soft_pairs (i : nat) (ps : list varPair) (net : Net) : result Net :=
  match ps with
  | [] => Ok net
  | p :: ps => v ← blend_pair p; soft_pairs (i + 1) ps (match v with Some out => ac_SetValue net i out | None => net end)
  end.
Definition softUpdate (net : Net) : result Net := soft_pairs 0 (ac_pairs net) net.

(** The lengths of the scratch buffers; their contents are overwritten by every
    training step. *)
Record buffers : Type := mkBuffers { states_len : Z; actions_len : Z; rewards_len : Z }.

Record DDPG : Type := mkDDPG {
  dd_stateSize : Z;
  dd_actionSize : Z;
  dd_lr : float;
  dd_gamma : float;
  dd_net : Net;
  dd_replay : ReplayBuffer;
  dd_noise : OUNoise;
  dd_bufs : buffers;
}.

Definition NewDDPG (net : Net) (stateSize actionSize : Z) (lr : float) (batchSize : Z) : result DDPG :=
  let batchSize := if batchSize <=? 0 then ddpgDefaultBatchSize else batchSize in
  replay ← NewReplayBuffer ddpgReplayBufSize;
  noise ← NewOUNoise actionSize 0 ddpgOUTheta ddpgOUSigma;
  if (batchSize * stateSize <? 0) || (batchSize * actionSize <? 0) then Panic
  else Ok (mkDDPG stateSize actionSize lr ddpgDefaultGamma net replay noise
             (mkBuffers (batchSize * stateSize) (batchSize * actionSize) batchSize)).

Definition with_noise (ou : OUNoise) (d : DDPG) : DDPG :=
  mkDDPG (dd_stateSize d) (dd_actionSize d) (dd_lr d) (dd_gamma d) (dd_net d) (dd_replay d) ou (dd_bufs d).
Definition with_replay (rb : ReplayBuffer) (d : DDPG) : DDPG :=
  mkDDPG (dd_stateSize d) (dd_actionSize d) (dd_lr d) (dd_gamma d) (dd_net d) rb (dd_noise d) (dd_bufs d).
Definition with_net (net : Net) (bufs : buffers) (d : DDPG) : DDPG :=
  mkDDPG (dd_stateSize d) (dd_actionSize d) (dd_lr d) (dd_gamma d) net (dd_replay d) (dd_noise d) bufs.

(** [action[i] = Max(-1, Min(1, action[i]+noise[i]))] *)
Fixpoint add_noise (action noise : list float) : result (list float) :=
  match action, noise with
  | [], _ => Ok []
  | a :: action, n :: noise => rest ← add_noise action noise; Ok (math_Max (-1) (math_Min 1 (a + n)) :: rest)
  | _ :: _, [] => Panic
  end.

Definition tensorToFloat64 (t : TensorValue) : list float := tensorToFloat64Sched t.

Definition Act (norm : nat -> float) (d : DDPG) (state : list float) : result (DDPG * list float) :=
  let action := tensorToFloat64 (ac_actor (dd_net d) state) in
  let '(ou, noise) := ou_Sample norm (dd_noise d) in
  action ← add_noise action noise;
  Ok (with_noise ou d, action).

Definition ddpg_Store (d : DDPG) (state action : list float) (reward : float) (next : list float) (done : bool) : result DDPG :=
  rb ← replay_Push (dd_replay d) (mkTransition state action reward next done); Ok (with_replay rb d).

Definition copyPadded (src : list float) (n : nat) : list float := take n src ++ replicate (n - length src) 0%float.

Definition ensureBuffers (bs : Z) (d : DDPG) : buffers :=
  let b := dd_bufs d in
  mkBuffers (Z.max (states_len b) (bs * dd_stateSize d)) (Z.max (actions_len b) (bs * dd_actionSize d)) (Z.max (rewards_len b) bs).

Definition Train (pick : nat -> Z) (d : DDPG) (batchSize : Z) : result DDPG :=
  if rb_Len (dd_replay d) <? batchSize then Ok d
  else
    batch ← replay_Sample pick (dd_replay d) batchSize;
    let bs := Z.of_nat (length batch) in
    if bs <? batchSize then Ok d
    else
      let rows (size : Z) (f : Transition -> list float) := (fun t => copyPadded (f t) (Z.to_nat size)) <$> batch in
      let states := rows (dd_stateSize d) tr_State in
      let next := rows (dd_stateSize d) tr_NextState in
      let actions := rows (dd_actionSize d) tr_Action in
      targets ← td_targets (dd_gamma d) batch (tensorToFloat64 (ac_targetQ (dd_net d) next));
      let net := ac_trainCritic (dd_net d) states actions targets in
      let net := ac_trainActor net states in
      net ← softUpdate net;
      Ok (with_net net (ensureBuffers bs d) d).

Definition ResetNoise (d : DDPG) : DDPG := with_noise (ou_Reset (dd_noise d)) d.
Definition SetNoiseDecay (decay floor : float) (d : DDPG) : DDPG := with_noise (SetDecay decay floor (dd_noise d)) d.
End ddpg.
Arguments DDPG : clear implicits.

(** ** optimizer.go *)

Record PilotData : Type := mkPilot { pd_Configs : list (list float); pd_Throughputs : list float; pd_Alpha : float }.

Record OptimizerConfig : Type := mkOptConfig {
  oc_Interval : Z;
  oc_BatchSize : Z;
  oc_WarmupTicks : Z;
  oc_LearningRate : float;
  oc_Hysteresis : float;
  oc_NoiseDecay : float;
  oc_NoiseFloor : float;
}.

Definition DefaultOptimizerConfig : OptimizerConfig :=
  mkOptConfig (250 * time_Millisecond) 32 DefaultOptimizerWarmupTicks 0x1.3a92a30553261p-12 0x1.999999999999ap-4
    0x1.ff7ced916872bp-1 0x1.999999999999ap-5.   (* 0.0003, 0.10, 0.999, 0.05 *)

(** Zero means the default. *)
Definition fill_defaults (c : OptimizerConfig) : OptimizerConfig :=
  let batch := if oc_BatchSize c =? 0 then 32 else oc_BatchSize c in
  mkOptConfig (if oc_Interval c =? 0 then 250 * time_Millisecond else oc_Interval c) batch
    (if oc_WarmupTicks c =? 0 then i64 (batch * 2) else oc_WarmupTicks c)
    (if (oc_LearningRate c =? 0)%float then 0x1.3a92a30553261p-12%float else oc_LearningRate c)
    (if (oc_Hysteresis c =? 0)%float then 0x1.999999999999ap-4%float else oc_Hysteresis c)
    (if (oc_NoiseDecay c =? 0)%float then 0x1.ff7ced916872bp-1%float else oc_NoiseDecay c)
    (if (oc_NoiseFloor c =? 0)%float then 0x1.999999999999ap-5%float else oc_NoiseFloor c).

(** What NewOptimizer fixes. *)
Record opt_settings : Type := mkSettings {
  os_params : list TunableParam;
  os_interval : Z;
  os_batchSize : Z;
  os_warmup : Z;
  os_hysteresis : float;
  os_windowCap : Z;
  os_minApplyInterval : Z;
  os_startConfig : Config;
}.

Record Optimizer (Net : Type) : Type := mkOptimizer {
  op_settings : opt_settings;
  op_ddpg : DDPG Net;
  op_ticks : Z;
  op_currentVals : list float;
  op_prevMetrics : option Metrics;
  op_window : list float;
  op_lastApplyTime : Time;
  op_lowDeliveryTicks : Z;
  op_rolledBack : bool;
}.
Arguments mkOptimizer {Net}.
Arguments op_settings {Net}.
Arguments op_ddpg {Net}.
Arguments op_ticks {Net}.
Arguments op_currentVals {Net}.
Arguments op_prevMetrics {Net}.
Arguments op_window {Net}.
Arguments op_lastApplyTime {Net}.
Arguments op_lowDeliveryTicks {Net}.
Arguments op_rolledBack {Net}.

(** The random draws and the clock of a tick. *)
Record TickEnv : Type := mkTickEnv { te_norm : nat -> float; te_pick : Z -> nat -> Z; te_now : Time }.

Section optimizer.
Context {W : Wal} {K : Compressors} {F : Filepath} {D : Badger} {G : Gonum} {V : Govy} {R : MapRange} {E : BrokerEnv}.
Context {Bal : Type} {B : Balancer Bal} {Sch : Type} {Sc : Scheduler Sch}.
Context {L : GonumLA} {Net : Type} {AC : ACNet Net}.
Implicit Types b : Broker (Bal := Bal) (Sch := Sch).
Implicit Types o : Optimizer Net.

Definition set_ddpg (d : DDPG Net) o : Optimizer Net :=
  mkOptimizer (op_settings o) d (op_ticks o) (op_currentVals o) (op_prevMetrics o) (op_window o) (op_lastApplyTime o)
    (op_lowDeliveryTicks o) (op_rolledBack o).
Definition set_window (w : list float) o : Optimizer Net :=
  mkOptimizer (op_settings o) (op_ddpg o) (op_ticks o) (op_currentVals o) (op_prevMetrics o) w (op_lastApplyTime o)
    (op_lowDeliveryTicks o) (op_rolledBack o).
Definition set_tick (n : Z) (m : option Metrics) o : Optimizer Net :=
  mkOptimizer (op_settings o) (op_ddpg o) n (op_currentVals o) m (op_window o) (op_lastApplyTime o) (op_lowDeliveryTicks o) (op_rolledBack o).
Definition set_applied (vals : list float) (t : Time) o : Optimizer Net :=
  mkOptimizer (op_settings o) (op_ddpg o) (op_ticks o) vals (op_prevMetrics o) (op_window o) t (op_lowDeliveryTicks o) (op_rolledBack o).
Definition set_rollback (low : Z) (back : bool) o : Optimizer Net :=
  mkOptimizer (op_settings o) (op_ddpg o) (op_ticks o) (op_currentVals o) (op_prevMetrics o) (op_window o) (op_lastApplyTime o) low back.

(** [net]: the initial weights. *)
Definition NewOptimizer (net : Net) b (params : list TunableParam) (optCfg : OptimizerConfig) (pilot : list PilotData)
    : result (Optimizer Net) :=
  calibrated ← match pilot with
               | p :: _ => if decide (0 < length (pd_Configs p))%nat
                           then CalibrateWeights params (pd_Configs p) (pd_Throughputs p) (pd_Alpha p) else Ok params
               | [] => Ok params
               end;
  let active := ActiveParams calibrated in
  let n := Z.of_nat (length active) in
  let c := fill_defaults optCfg in
  ddpg ← NewDDPG net (n + 3) n (oc_LearningRate c) (oc_BatchSize c);
  let ddpg := SetNoiseDecay (oc_NoiseDecay c) (oc_NoiseFloor c) ddpg in
  Ok (mkOptimizer
        (mkSettings active (oc_Interval c) (oc_BatchSize c) (oc_WarmupTicks c) (oc_Hysteresis c) DefaultOptimizerWindowCap
           DefaultMinApplyInterval (b_cfg b))
        ddpg 0 ((fun _ => 0.5%float) <$> active) None [] zeroTime 0 false).

Definition opt_buildState o (m : Metrics) : list float :=
  op_currentVals o ++ [Throughput m / optimizerThroughputScale; AvgLatency m / optimizerLatencyScale; DeliveryRatio m]%float.

(** Delivery below half although messages come in. *)
Definition low_delivery (m : Metrics) : bool := (DeliveryRatio m <? DefaultEmergencyRollbackDR)%float && (0 <? MsgRate m)%float.

Definition checkEmergencyRollback o b (m : Metrics) : Optimizer Net * Broker :=
  if op_rolledBack o then (o, b)
  else
    let low := if low_delivery m then i64 (op_lowDeliveryTicks o + 1) else 0 in
    if DefaultEmergencyRollbackN <=? low
    then (set_rollback low true o, fst (ApplyConfig b (os_startConfig (op_settings o))))
    else (set_rollback low false o, b).

(** The action as a number between 0 and 1. *)
Definition clamp_norm (a : float) : float :=
  let newNorm := ((a + 1) / 2)%float in
  let newNorm := if (newNorm <? 0)%float then 0%float else newNorm in
  if (1 <? newNorm)%float then 1%float else newNorm.

(** The loop over the action: a value moves only by at least the hysteresis. *)
Fixpoint retune (h : float) (nparams : nat) (action vals : list float) : result (list float * bool) :=
  match action, nparams with
  | [], _ | _, O => Ok (vals, false)
  | a :: action, S nparams =>
      match vals with
      | [] => Panic
      | v :: vals =>
          let newNorm := clamp_norm a in
          let keep := (math_Abs (newNorm - v) <? h)%float in
          '(rest, changed) ← retune h nparams action vals;
          Ok ((if keep then v else newNorm) :: rest, negb keep || changed)
      end
  end.

(** The configuration with every tuned parameter at its value. *)
Fixpoint tuned (cfg : Config) (params : list TunableParam) (vals : list float) : result Config :=
  match params with
  | [] => Ok cfg
  | p :: params =>
      match vals with
      | [] => Panic
      | v :: vals => tuned (SetParamByName cfg (tp_Name p) (Denormalize v (tp_Min p) (tp_Max p))) params vals
      end
  end.

Definition applyAction (now : Time) (action : list float) o b : result (Optimizer Net * Broker) :=
  let s := op_settings o in
  if negb (bool_decide (op_lastApplyTime o = zeroTime)) && (time_Sub now (op_lastApplyTime o) <? os_minApplyInterval s) then Ok (o, b)
  else
    '(vals, changed) ← retune (os_hysteresis s) (length (os_params s)) action (op_currentVals o);
    if negb changed then Ok (o, b)
    else
      cfg ← tuned (b_cfg b) (os_params s) vals;
      Ok (set_applied vals now o, fst (ApplyConfig b cfg)).

Definition opt_computeReward o (m : Metrics) : Optimizer Net * float :=
  let delivered := if (ConsumeRate m =? 0)%float then Throughput m else ConsumeRate m in
  let w := op_window o ++ [delivered] in
  let w := if os_windowCap (op_settings o) <? Z.of_nat (length w) then tail w else w in
  let baseline := (foldl PrimFloat.add 0 w)%float in
  let baseline := if decide (0 < length w)%nat then (baseline / of_int (Z.of_nat (length w)))%float else baseline in
  let throughputReward := if (1 <? baseline)%float then ((delivered - baseline) / baseline)%float else 0%float in
  let latencyPenalty := if (0 <? AvgLatency m)%float then (- AvgLatency m / optimizerLatencyScale)%float else 0%float in
  let totalDepth := foldl (fun t x => i64 (t + x)) 0 (QueueDepths m) in
  let normalized := (of_int totalDepth / DefaultQueueSoftThreshold)%float in
  let queuePenalty := (- (normalized * normalized))%float in
  let queuePenalty := if (queuePenalty <? DefaultQueuePenaltyClamp)%float then DefaultQueuePenaltyClamp else queuePenalty in
  let reward := (throughputReward + DefaultLatencyPenaltyWeight * latencyPenalty + DefaultQueuePenaltyWeight * queuePenalty)%float in
  let reward :=
    if (0 <? ConsumeRate m)%float && (0 <? MsgRate m)%float then
      let errorRatio := (1 - DeliveryRatio m)%float in
      if (DefaultErrorPenaltyThresh <? errorRatio)%float then (reward - DefaultErrorPenaltyWeight * errorRatio)%float else reward
    else reward in
  let reward := if (reward <? - DefaultRewardClamp)%float then (- DefaultRewardClamp)%float else reward in
  let reward := if (DefaultRewardClamp <? reward)%float then DefaultRewardClamp else reward in
  (set_window w o, reward).

(** Consumers keep up with producers. *)
Definition safe_to_tune (m : Metrics) : bool :=
  negb ((0 <? MsgRate m)%float && (ConsumeRate m / MsgRate m <? DefaultSafetyConsumeRatio)%float).

(** The end of a tick: the transition from the metrics of the tick before, and a
    training step. *)
Definition opt_learn (env : TickEnv) (action : list float) (metrics : Metrics) (state : list float) o : result (Optimizer Net) :=
  match op_prevMetrics o with
  | None => Ok o
  | Some prev =>
      let '(o, reward) := opt_computeReward o metrics in
      let prevState := opt_buildState o prev in
      ddpg ← ddpg_Store (op_ddpg o) prevState action reward state false;
      ddpg ← Train (te_pick env (rb_Len (dd_replay ddpg))) ddpg (os_batchSize (op_settings o));
      Ok (set_ddpg ddpg o)
  end.

Definition opt_step (env : TickEnv) o b : result (Optimizer Net * Broker) :=
  let o := set_tick (i64 (op_ticks o + 1)) (op_prevMetrics o) o in
  let metrics := broker_Metrics b in
  let '(o, b) := checkEmergencyRollback o b metrics in
  let state := opt_buildState o metrics in
  '(ddpg, action) ← Act (te_norm env) (op_ddpg o) state;
  let o := set_ddpg ddpg o in
  '(o, b) ← (if (os_warmup (op_settings o) <? op_ticks o) && negb (op_rolledBack o) && safe_to_tune metrics
             then applyAction (te_now env) action o b else Ok (o, b));
  o ← opt_learn env action metrics state o;
  Ok (set_tick (op_ticks o) (Some metrics) o, b).
End optimizer.
