(* ===== verification/OptimizerProps.v ===== *)
(** * The configuration tuner: what it can do to the broker

    A tuned configuration is always valid and each parameter in its range; tuning
    waits for the warm-up, for consumers that keep up and for the minimal
    interval; two ticks of low delivery restore the first configuration for good;
    no tick panics. *)

From S2P Require Import Prelude Runs PriorityIndex Wal Compression GoFloat FloatBounds Config Partition Topic Backpressure OffsetStore LoadPredictor.
From S2P Require Import Metrics Balancer RoundRobin Scheduler NN NNProps QNet Preprocessing Broker BrokerProps Optimizer.

(** ** Parameters in range *)

Definition unit_val (v : float) : Prop := (0 <=? v)%float = true /\ (v <=? 1)%float = true.

(** The name and the range of one of the default parameters; its weight may differ. *)
Definition default_range (p : TunableParam) : Prop :=
  Exists (fun q => tp_Name p = tp_Name q /\ tp_Min p = tp_Min q /\ tp_Max p = tp_Max q) DefaultTunableParams.

Lemma clamp_norm_unit a : is_num (clamp_norm a) -> unit_val (clamp_norm a).
Proof.
  unfold clamp_norm. set (n := ((a + 1) / 2)%float). destruct (n <? 0)%float eqn:H0; [by vm_compute|].
  destruct (1 <? n)%float eqn:H1; [by vm_compute|]. intros Hn.
  split; apply fnot_lt; try done; eexists; vm_compute; reflexivity.
Qed.

(** The value a parameter is set to lies in its integer range. *)
Definition in_range (lo hi : Z) (p : TunableParam) : Prop :=
  forall v, unit_val v -> lo <= to_int64 (math_Round (Denormalize v (tp_Min p) (tp_Max p))) <= hi.

Lemma in_range_intro A C p :
  0 <= A -> 0 <= C -> A + C < 2 ^ 53 -> fbetween A A (tp_Min p) -> fbetween C C (tp_Max p - tp_Min p) -> in_range A (A + C) p.
Proof. intros HA HC HAC Hmin Hw v [H0 H1]. unfold Denormalize. apply interpolate_between; try done. by apply unit_between. Qed.

(** The validator's rules as bounds on the fields. *)
Lemma rules_hold_bounds c :
  rules_hold (configValidator c) = true <->
  (2 ^ 20 <= SegmentMaxBytes c <= 64 * 2 ^ 20 /\ 1 <= SegmentMaxCount c /\ 2 ^ 20 <= RetentionMaxBytes c /\ 1 <= FlushIntervalMs c <= 60000) /\
  (0 <= CompressionType c <= 3 /\ 1 <= MaxConnections c <= 65535 /\ 1024 <= RecvBufferBytes c /\ 1024 <= SendBufferBytes c) /\
  (1024 <= MaxMessageBytes c /\ 1 <= NumNetworkGoroutines c <= 256 /\ 1 <= NumIOGoroutines c <= 256 /\ 1 <= MaxQueuedRequests c) /\
  (1 <= BatchSize c /\ 1024 <= BatchMemoryBytes c <= 64 * 2 ^ 20 /\ 1 <= FetchMinBytes c /\ 1 <= FetchMaxWaitMs c /\
   1000 <= ConsumerSessionTimeoutMs c).
Proof.
  unfold rules_hold, configValidator. cbn [forallb prop_value prop_rules rule_holds]. rewrite !andb_true_iff, !Z.leb_le. tauto.
Qed.

(** The field a name stands for. *)
Lemma SetParamByName_field (f : Z -> Config -> Config) name cfg d :
  (name, f) ∈ [("SegmentMaxBytes", set_SegmentMaxBytes); ("SegmentMaxCount", set_SegmentMaxCount); ("FlushIntervalMs", set_FlushIntervalMs);
               ("BatchSize", set_BatchSize); ("BatchMemoryBytes", set_BatchMemoryBytes); ("LingerMs", set_LingerMs);
               ("NumIOGoroutines", set_NumIOGoroutines); ("NumNetworkGoroutines", set_NumNetworkGoroutines);
               ("CompressionType", set_CompressionType); ("MaxMessageBytes", set_MaxMessageBytes)]%string ->
  SetParamByName cfg name d = f (to_int64 (math_Round d)) cfg.
Proof. rewrite list_elem_of_In. intros H. repeat (destruct H as [[= <- <-]|H]; [reflexivity|]). destruct H. Qed.

(** One parameter: its integer range, and the field that is set. *)
Ltac param_case A C f :=
  match goal with Hlo : tp_Min ?p = _, Hhi : tp_Max ?p = _, Hv : unit_val ?v |- _ =>
    let Hr := fresh "Hr" in
    assert (Hr : in_range A (A + C) p)
      by (apply (in_range_intro A C); [lia|lia|lia|..]; unfold fbetween; rewrite ?Hhi, ?Hlo; vm_compute; repeat split; intros ?; discriminate);
    specialize (Hr v Hv); rewrite (SetParamByName_field f) by (rewrite list_elem_of_In; cbn; tauto);
    generalize dependent (to_int64 (math_Round (Denormalize v (tp_Min p) (tp_Max p)))); intros x Hx; unfold f;
    cbn [SegmentMaxBytes SegmentMaxCount RetentionMaxBytes FlushIntervalMs CompressionType MaxConnections RecvBufferBytes SendBufferBytes
         MaxMessageBytes NumNetworkGoroutines NumIOGoroutines MaxQueuedRequests BatchSize BatchMemoryBytes FetchMinBytes FetchMaxWaitMs
         ConsumerSessionTimeoutMs]; lia
  end.

(** Setting one parameter to a value in its range keeps the rules of the validator. *)
Lemma set_param_valid p v cfg :
  default_range p -> unit_val v -> rules_hold (configValidator cfg) = true ->
  rules_hold (configValidator (SetParamByName cfg (tp_Name p) (Denormalize v (tp_Min p) (tp_Max p)))) = true.
Proof.
  intros Hp Hv. rewrite !rules_hold_bounds. unfold default_range, DefaultTunableParams in Hp.
  repeat (apply List.Exists_cons in Hp as [(Hn & Hlo & Hhi)|Hp]); [..|by apply List.Exists_nil in Hp];
    rewrite Hn; cbn [tp_Name tp_Min tp_Max] in *.
  - param_case (2 ^ 20) (63 * 2 ^ 20) set_SegmentMaxBytes.
  - param_case (10) (490) set_SegmentMaxCount.
  - param_case (100) (9900) set_FlushIntervalMs.
  - param_case (1) (999) set_BatchSize.
  - param_case (1024) (1047552) set_BatchMemoryBytes.
  - rewrite (SetParamByName_field set_LingerMs) by (rewrite list_elem_of_In; cbn; tauto). done.
  - param_case (1) (31) set_NumIOGoroutines.
  - param_case (1) (31) set_NumNetworkGoroutines.
  - param_case (0) (3) set_CompressionType.
  - param_case (1024) (10484736) set_MaxMessageBytes.
Qed.

Lemma retune_spec h n : forall action vals,
  (n <= length vals)%nat ->
  exists vals' changed, retune h n action vals = Ok (vals', changed) /\ length vals' = length vals /\ (changed = false -> vals' = vals) /\
    (Forall (fun a => is_num (clamp_norm a)) action -> Forall unit_val vals -> Forall unit_val vals').
Proof.
  induction n as [|n IH]; intros [|a action] [|v vals] Hl; cbn [retune]; cbn [length] in Hl; try lia; eauto 10.
  destruct (IH action vals ltac:(lia)) as (rest & changed & -> & Hlen & Hsame & Hunit). rewrite Ok_bind. eexists _, _. split; [done|].
  split; [cbn; lia|]. destruct (_ <? h)%float; cbn [negb orb].
  - split; [intros Hc; by rewrite Hsame|]. intros Ha Hv. apply List.Forall_cons_iff in Ha as [_ Ha]. apply List.Forall_cons_iff in Hv as [H1 Hv].
    apply List.Forall_cons; [done|by apply Hunit].
  - split; [done|]. intros Ha Hv. apply List.Forall_cons_iff in Ha as [H1 Ha]. apply List.Forall_cons_iff in Hv as [_ Hv].
    apply List.Forall_cons; [by apply clamp_norm_unit|by apply Hunit].
Qed.

Lemma tuned_total params : forall cfg vals, length vals = length params -> exists cfg', tuned cfg params vals = Ok cfg'.
Proof.
  induction params as [|p params IH]; intros cfg [|v vals] Hl; cbn [tuned]; try done; [eauto|]. apply IH. cbn in Hl. lia.
Qed.

Lemma tuned_valid params : forall cfg vals cfg',
  tuned cfg params vals = Ok cfg' -> Forall default_range params -> Forall unit_val vals -> rules_hold (configValidator cfg) = true ->
  rules_hold (configValidator cfg') = true.
Proof.
  induction params as [|p params IH]; intros cfg [|v vals] cfg'; cbn [tuned]; try (by intros [= <-]).
  intros H Hp Hv Hcfg. apply List.Forall_cons_iff in Hp as [Hp1 Hp]. apply List.Forall_cons_iff in Hv as [Hv1 Hv].
  eapply IH; [exact H|done|done|]. by apply set_param_valid.
Qed.

Section tuning.
Context {W : Wal} {K : Compressors} {F : Filepath} {D : Badger} {G : Gonum} {V : Govy} {VL : GovyLaws V} {R : MapRange} {E : BrokerEnv}.
Context {Bal : Type} {B : Balancer Bal} {Sch : Type} {Sc : Scheduler Sch}.
Context {L : GonumLA} {Net : Type} {AC : ACNet Net}.
Implicit Types b : Broker (Bal := Bal) (Sch := Sch).
Implicit Types o : Optimizer Net.

Definition cfg_valid (c : Config) : Prop := rules_hold (configValidator c) = true.

(** ApplyConfig with any configuration leaves a valid one, and with a valid one
    exactly that. *)
Lemma ApplyConfig_keeps_valid b cfg : cfg_valid (b_cfg b) -> cfg_valid (b_cfg (fst (ApplyConfig b cfg))).
Proof.
  unfold ApplyConfig, Validate, cfg_valid. intros Hb. destruct (rules_hold (configValidator cfg)) eqn:Hr.
  - rewrite (govy_accepts "broker.Config" _ Hr). cbn [wrapf]. by case_decide.
  - destruct (govy_rejects "broker.Config" _ Hr) as (e & ->). done.
Qed.

Lemma ApplyConfig_valid b cfg :
  cfg_valid cfg -> let b' := fst (ApplyConfig b cfg) in b_cfg b' = cfg /\ b' = with_snap b (b_cfg b') (b_codec b') (b_gateCap b').
Proof.
  unfold ApplyConfig, Validate, cfg_valid. intros Hr. rewrite (govy_accepts "broker.Config" _ Hr). cbn [wrapf].
  case_decide as Heq; cbn [fst]; [|done]. split; [done|]. by destruct b.
Qed.

(** The values have the length of the parameters. *)
Definition vals_fit o : Prop := length (op_currentVals o) = length (os_params (op_settings o)).

Lemma applyAction_spec now action o b :
  vals_fit o ->
  exists o' b', applyAction now action o b = Ok (o', b') /\
    (o' = o /\ b' = b \/
     exists vals cfg, o' = set_applied vals now o /\ length vals = length (op_currentVals o) /\
       tuned (b_cfg b) (os_params (op_settings o)) vals = Ok cfg /\ b' = fst (ApplyConfig b cfg) /\
       (op_lastApplyTime o <> zeroTime -> os_minApplyInterval (op_settings o) <= time_Sub now (op_lastApplyTime o)) /\
       (Forall (fun a => is_num (clamp_norm a)) action -> Forall unit_val (op_currentVals o) -> Forall unit_val vals)).
Proof.
  intros Hfit. unfold vals_fit in Hfit. unfold applyAction. destruct (negb _ && _) eqn:Hwait; [eauto 10|].
  destruct (retune_spec (os_hysteresis (op_settings o)) (length (os_params (op_settings o))) action (op_currentVals o))
    as (vals & changed & -> & Hlen & _ & Hunit); [lia|]. rewrite Ok_bind. destruct changed; cbn [negb]; [|eauto 10].
  destruct (tuned_total (os_params (op_settings o)) (b_cfg b) vals) as (cfg & Hc); [lia|]. rewrite Hc, Ok_bind.
  eexists _, _. split; [done|]. right. exists vals, cfg. split; [done|]. split; [done|]. split; [done|]. split; [done|]. split; [|done].
  intros Hz. apply andb_false_iff in Hwait as [Hw|Hw].
  - apply negb_false_iff, bool_decide_eq_true in Hw. done.
  - by apply Z.ltb_ge in Hw.
Qed.

(** C35: Tuning is always accepted.  When the actor's actions are numbers, the
    values tuned so far are in the unit interval and the broker's configuration is
    valid, applying an action leaves all of this so: the new configuration is the
    broker's with every tuned parameter at its interpolated value, it passes
    validation, and nothing else of the broker changes.  Rounding never leaves
    a parameter's range. *)
Theorem tuning_accepted (now : Time) (action : list float) (o : Optimizer Net) b :
  vals_fit o -> Forall default_range (os_params (op_settings o)) -> Forall unit_val (op_currentVals o) -> cfg_valid (b_cfg b) ->
  Forall (fun a => is_num (clamp_norm a)) action ->
  exists o' b', applyAction now action o b = Ok (o', b') /\ vals_fit o' /\ Forall unit_val (op_currentVals o') /\ cfg_valid (b_cfg b') /\
    (o' = o /\ b' = b \/
     tuned (b_cfg b) (os_params (op_settings o)) (op_currentVals o') = Ok (b_cfg b') /\ b' = with_snap b (b_cfg b') (b_codec b') (b_gateCap b')).
Proof.
  intros Hfit Hrange Hunit Hcfg Hact. destruct (applyAction_spec now action o b Hfit) as (o' & b' & -> & Hcase).
  exists o', b'. split; [done|]. destruct Hcase as [[-> ->]|(vals & cfg & -> & Hlen & Ht & -> & _ & Hu)].
  { split; [done|]. split; [done|]. split; [done|]. by left. }
  specialize (Hu Hact Hunit). assert (Hv : cfg_valid cfg) by (by eapply tuned_valid).
  destruct (ApplyConfig_valid b cfg Hv) as [Hc Hw]. cbn [op_currentVals set_applied]. rewrite Hc.
  split; [unfold vals_fit in *; cbn; lia|]. split; [done|]. split; [done|]. right. split; [done|]. rewrite Hc in Hw. exact Hw.
Qed.

(** ** No tick panics *)

(** A target variable has the shape of its source, and the buffer has room. *)
Definition pair_ok (p : varPair) : Prop :=
  match vp_src p, vp_tgt p with
  | Vec64 s, Vec64 t => length s = length t /\ (length t <= vp_buf p)%nat
  | Mat64 s, Mat64 t => Forall2 (fun r r' => length r = length r') s t /\ (sum_list_with length s <= vp_buf p)%nat
  | Vec32 s, Vec32 t => length s = length t
  | _, _ => True
  end.

Lemma blend_total t : forall s, length s = length t -> exists out, blend t s = Ok out /\ length out = length t.
Proof.
  induction t as [|x t IH]; intros [|y s] Hl; try done; cbn [blend]; [by exists []|].
  destruct (IH s) as (out & -> & Ho); [cbn in Hl; lia|]. rewrite Ok_bind. eexists. split; [done|]. cbn. lia.
Qed.

Lemma blend32_total t : forall s, length s = length t -> exists out, blend32 t s = Ok out.
Proof.
  induction t as [|x t IH]; intros [|y s] Hl; try done; cbn [blend32]; [by eexists|].
  destruct (IH s) as (out & ->); [cbn in Hl; lia|]. rewrite Ok_bind. by eexists.
Qed.

Lemma blend_rows_total s t :
  Forall2 (fun r r' : list float => length r = length r') s t -> exists out, blend_rows s t = Ok out /\ length out = sum_list_with length s.
Proof.
  induction 1 as [|r r' s t Hr _ IH]; cbn [blend_rows]; [by exists []|].
  assert (Hrow : exists trow, (if decide (length r = 0)%nat then Ok [] else index (r' :: t) 0) = Ok trow /\ length trow = length r).
  { case_decide as Hz; [by exists []|]. by exists r'. }
  destruct Hrow as (trow & -> & Hl). rewrite Ok_bind, Hl, Nat.sub_diag, app_nil_r, take_ge by lia.
  destruct (blend_total trow r) as (out & -> & Ho); [done|]. rewrite Ok_bind, Nat.ltb_irrefl. destruct IH as (rest & Hrest & Hlen).
  cbn [tail]. rewrite Hrest, Ok_bind. eexists. split; [done|]. rewrite length_app, Ho, Hl, Hlen. done.
Qed.

Lemma blend_pair_total p : pair_ok p -> exists v, blend_pair p = Ok v.
Proof.
  unfold pair_ok, blend_pair. destruct (vp_src p) as [s|s|s|], (vp_tgt p) as [t|t|t|]; try (by eexists).
  - intros [Hl Hb]. destruct (Nat.ltb_spec (vp_buf p) (length t)); [lia|]. destruct (blend_total t s Hl) as (out & -> & _). rewrite Ok_bind. by eexists.
  - intros [Hf Hb]. destruct (blend_rows_total s t Hf) as (out & -> & Ho). rewrite Ok_bind.
    destruct (Nat.ltb_spec (vp_buf p) (length out)); [lia|]. by eexists.
  - intros Hl. destruct (blend32_total t s Hl) as (out & ->). rewrite Ok_bind. by eexists.
Qed.

(** What the code relies on of the graphs: one action per parameter, one value per
    row, and two networks of the same shape. *)
Class ACNetLaws (actions : nat) : Prop := {
  actor_shape : forall net s, length (tensorToFloat64 (ac_actor net s)) = actions;
  targetQ_rows : forall net rows c, Forall (fun row => length row = c) rows -> length (tensorToFloat64 (ac_targetQ net rows)) = length rows;
  pairs_shape : forall net, Forall pair_ok (ac_pairs net);
}.

Context {actions : nat} {AL : ACNetLaws actions}.

Lemma softUpdate_total net : exists net', softUpdate net = Ok net'.
Proof.
  assert (Hall : forall ps, Forall pair_ok ps -> forall i n0, exists net', soft_pairs i ps n0 = Ok net').
  { induction 1 as [|p ps Hp1 _ IH]; intros i n0; cbn [soft_pairs]; [by eexists|].
    destruct (blend_pair_total p Hp1) as (v & ->). rewrite Ok_bind. apply IH. }
  apply Hall, pairs_shape.
Qed.

Lemma add_noise_total action : forall noise, (length action <= length noise)%nat -> exists out, add_noise action noise = Ok out /\ length out = length action.
Proof.
  induction action as [|a action IH]; intros [|n noise] Hl; cbn [add_noise]; cbn [length] in Hl; try lia; try (by exists []).
  destruct (IH noise) as (out & -> & Ho); [lia|]. rewrite Ok_bind. eexists. split; [done|]. cbn. lia.
Qed.

(** The agent after at most [k] ticks. *)
Definition ddpg_ok (k : Z) (d : DDPG Net) : Prop :=
  length (ou_state (dd_noise d)) = actions /\ buffer_ok (dd_replay d) /\ rb_writeIdx (dd_replay d) <= k.

Lemma Act_total k norm d state : ddpg_ok k d -> exists d' action, Act norm d state = Ok (d', action) /\ ddpg_ok k d' /\ length action = actions.
Proof.
  intros (Hn & Hb & Hw). unfold Act. cbn [ou_Sample].
  destruct (add_noise_total (tensorToFloat64 (ac_actor (dd_net d) state))
    (imap (fun i x => (x + (ou_theta (dd_noise d) * (ou_mu (dd_noise d) - x) + ou_sigma (dd_noise d) * norm i))%float) (ou_state (dd_noise d))))
    as (out & Ho & Hl); [rewrite length_imap, actor_shape; lia|].
  unfold ou_Sample. rewrite Ho, Ok_bind. eexists _, _. split; [done|]. split; [|by rewrite Hl, actor_shape].
  split; [|done]. cbn. by rewrite length_imap.
Qed.

Lemma copyPadded_length src n : length (copyPadded src n) = n.
Proof. unfold copyPadded. rewrite length_app, length_take, length_replicate. lia. Qed.

Lemma Train_total k pick d n :
  ddpg_ok k d -> 0 <= n -> (forall m i, 0 < m -> 0 <= pick m i < m) -> exists d', Train (pick (rb_Len (dd_replay d))) d n = Ok d' /\ ddpg_ok k d'.
Proof.
  intros Hok Hn Hpick. unfold Train. destruct (_ <? n); [by exists d|]. pose proof Hok as (H1 & H2 & H3).
  destruct (replay_Sample_total pick (dd_replay d) n H2 Hn Hpick) as (batch & ->). rewrite Ok_bind. destruct (_ <? n); [by exists d|].
  match goal with |- context [td_targets ?g batch ?q] => destruct (td_targets_total g batch q) as (ts & -> & _) end.
  { rewrite (targetQ_rows _ _ (Z.to_nat (dd_stateSize d))); [by rewrite length_fmap|]. apply Forall_fmap, list.Forall_forall. intros t _. apply copyPadded_length. }
  rewrite Ok_bind. match goal with |- context [softUpdate ?x] => destruct (softUpdate_total x) as (net' & ->) end. rewrite Ok_bind. by eexists.
Qed.

Lemma ddpg_Store_total k d s a r s' done :
  ddpg_ok k d -> k + 1 < 2 ^ 63 -> exists d', ddpg_Store d s a r s' done = Ok d' /\ ddpg_ok (k + 1) d'.
Proof.
  intros (H1 & H2 & H3) Hk. unfold ddpg_Store.
  destruct (replay_Push_total (dd_replay d) (mkTransition s a r s' done) k H2 H3 Hk) as (rb & -> & Hb & Hw). rewrite Ok_bind. by eexists.
Qed.

(** ** Runs *)

(** What a tick saw and did: the metrics, the configuration before and after, and
    the time when it changed the tuned values. *)
Record tick_log : Type := mkLog { lg_metrics : Metrics; lg_before : Config; lg_after : Config; lg_applied : option Time }.

(** Ticks, and before each what the rest of the system does to the broker. *)
Fixpoint opt_run o b (ticks : list (TickEnv * (Broker (Bal := Bal) (Sch := Sch) -> Broker (Bal := Bal) (Sch := Sch))))
    : result (Optimizer Net * Broker (Bal := Bal) (Sch := Sch) * list tick_log) :=
  match ticks with
  | [] => Ok (o, b, [])
  | (env, others) :: ticks =>
      let b := others b in
      '(o', b') ← opt_step env o b;
      '(o'', b'', log) ← opt_run o' b' ticks;
      Ok (o'', b'', mkLog (broker_Metrics b) (b_cfg b) (b_cfg b')
                      (if decide (op_lastApplyTime o' = op_lastApplyTime o) then None else Some (op_lastApplyTime o')) :: log)
  end.

(** Only the optimizer changes the configuration; draws are in range, and the clock
    does not show the zero time. *)
Definition tick_ok (t : TickEnv * (Broker (Bal := Bal) (Sch := Sch) -> Broker (Bal := Bal) (Sch := Sch))) : Prop :=
  (forall b, b_cfg (t.2 b) = b_cfg b) /\ (forall m i, 0 < m -> 0 <= te_pick t.1 m i < m) /\ te_now t.1 <> zeroTime.

(** *** One tick *)

(** The state after [k] ticks with these settings. *)
Record opt_inv (s : opt_settings) (k : Z) o b : Prop := {
  oi_settings : op_settings o = s;
  oi_fit : vals_fit o;
  oi_ddpg : ddpg_ok k (op_ddpg o);
  oi_valid : cfg_valid (b_cfg b);
  oi_start : cfg_valid (os_startConfig s);
  oi_batch : 0 <= os_batchSize s;
  oi_back : op_rolledBack o = true -> b_cfg b = os_startConfig s;
}.

(** The rollback counter as a function of the verdicts so far. *)
Definition roll_inv (lows : list bool) o : Prop :=
  if op_rolledBack o then has_run 2 true lows else op_lowDeliveryTicks o = Z.of_nat (trailing true lows) /\ ~ has_run 2 true lows.

Lemma roll_lt lows : ~ has_run 2 true lows -> (trailing true lows < 2)%nat.
Proof.
  intros Hno. destruct (Nat.lt_ge_cases (trailing true lows) 2) as [|Hge]; [done|]. exfalso. apply Hno.
  apply trailing_spec in Hge as (l1 & ->). exists l1, []. by rewrite app_nil_r.
Qed.

Lemma has_run_app k v l l' : has_run k v l -> has_run k v (l ++ l').
Proof. intros (l1 & l2 & ->). exists l1, (l2 ++ l'). by rewrite <- !app_assoc. Qed.

Lemma checkEmergencyRollback_spec s k o b m lows :
  opt_inv s k o b -> roll_inv lows o ->
  let '(o', b') := checkEmergencyRollback o b m in
  opt_inv s k o' b' /\ roll_inv (lows ++ [low_delivery m]) o' /\ op_ticks o' = op_ticks o /\ op_lastApplyTime o' = op_lastApplyTime o /\
  op_prevMetrics o' = op_prevMetrics o /\ (op_rolledBack o' = false -> b' = b) /\ (b_cfg b' <> b_cfg b -> has_run 2 true (lows ++ [low_delivery m])).
Proof.
  intros Hinv Hroll. unfold checkEmergencyRollback. unfold roll_inv in Hroll. destruct (op_rolledBack o) eqn:Hback.
  { split; [done|]. unfold roll_inv. rewrite Hback. split; [by apply has_run_app|]. done. }
  destruct Hroll as [Hlow Hno]. pose proof (roll_lt lows Hno) as Hlt.
  set (low := if low_delivery m then _ else 0).
  assert (Hl : low = Z.of_nat (trailing true (lows ++ [low_delivery m]))).
  { unfold low. rewrite trailing_snoc. destruct (low_delivery m); cbn [Bool.eqb]; [|done]. rewrite Hlow, i64_small by (unfold in_i64; lia). lia. }
  assert (Hrun : has_run 2 true (lows ++ [low_delivery m]) <-> DefaultEmergencyRollbackN <= low).
  { rewrite has_run_snoc by lia. rewrite Hl. unfold DefaultEmergencyRollbackN. split; [intros [|]; [done|lia]|intros; right; lia]. }
  pose proof Hinv as []. destruct (Z.leb_spec DefaultEmergencyRollbackN low) as [Hge|Hge].
  - rewrite oi_settings0. destruct (ApplyConfig_valid b (os_startConfig s) oi_start0) as [Hc _].
    split; [split; try done; by rewrite Hc|]. split; [by apply Hrun|]. split; [done|]. split; [done|]. split; [done|].
    split; [done|]. intros _. by apply Hrun.
  - split; [by split|]. split; [split; [exact Hl|rewrite Hrun; lia]|]. done.
Qed.

Lemma opt_learn_total s k env action m state o b :
  opt_inv s k o b -> k + 1 < 2 ^ 63 -> (forall m i, 0 < m -> 0 <= te_pick env m i < m) ->
  exists o', opt_learn env action m state o = Ok o' /\ opt_inv s (k + 1) o' b /\ op_rolledBack o' = op_rolledBack o /\
    op_lowDeliveryTicks o' = op_lowDeliveryTicks o /\ op_ticks o' = op_ticks o /\ op_lastApplyTime o' = op_lastApplyTime o.
Proof.
  intros [Hs Hfit Hd Hv Hst Hbs Hbk] Hk Hpick. unfold opt_learn. destruct (op_prevMetrics o) as [prev|].
  2:{ exists o. split; [done|]. split; [|done]. split; try done. destruct Hd as (? & ? & ?). split; [done|]. split; [done|lia]. }
  unfold opt_computeReward. cbn [op_ddpg op_settings set_window].
  match goal with |- context [ddpg_Store ?d ?x ?a ?r ?y ?z] => destruct (ddpg_Store_total k d x a r y z Hd Hk) as (d5 & -> & Hd5) end.
  rewrite Ok_bind. destruct (Train_total (k + 1) (te_pick env) d5 (os_batchSize (op_settings o)) Hd5) as (d6 & -> & Hd6); [by rewrite Hs|done|].
  rewrite Ok_bind. eexists. split; [done|]. split; [|done]. by split.
Qed.

(** A tick that changed the tuned values. *)
Definition applied_at (s : opt_settings) (ticks : Z) (m : Metrics) (now : Time) o o' : Prop :=
  op_lastApplyTime o' = now /\ os_warmup s < ticks /\ op_rolledBack o' = false /\ safe_to_tune m = true /\
    (op_lastApplyTime o <> zeroTime -> os_minApplyInterval s <= time_Sub now (op_lastApplyTime o)).

(** The middle of a tick: nothing, or new values at this time under all guards. *)
Lemma opt_tune_spec s k now action m o b :
  opt_inv s k o b ->
  exists o' b', (if (os_warmup (op_settings o) <? op_ticks o) && negb (op_rolledBack o) && safe_to_tune m then applyAction now action o b else Ok (o, b))
      = Ok (o', b') /\
    opt_inv s k o' b' /\ op_rolledBack o' = op_rolledBack o /\ op_lowDeliveryTicks o' = op_lowDeliveryTicks o /\ op_ticks o' = op_ticks o /\
    (op_lastApplyTime o' = op_lastApplyTime o /\ b' = b \/
     os_warmup s < op_ticks o /\ op_rolledBack o = false /\ safe_to_tune m = true /\ op_lastApplyTime o' = now /\
       (op_lastApplyTime o <> zeroTime -> os_minApplyInterval s <= time_Sub now (op_lastApplyTime o))).
Proof.
  intros Hinv. pose proof Hinv as [Hs Hfit Hd Hv Hst Hbs Hbk].
  destruct (_ && _ && _) eqn:Hgo; [|exists o, b; do 5 (split; [done|]); by left].
  apply andb_prop in Hgo as [Hgo Hsafe]. apply andb_prop in Hgo as [Hw Hnb]. apply negb_true_iff in Hnb. apply Z.ltb_lt in Hw. rewrite Hs in Hw.
  destruct (applyAction_spec now action o b Hfit) as (o4 & b4 & -> & [[-> ->]|(vals & cfg & -> & Hlv & _ & -> & Hmin & _)]).
  { exists o, b. do 5 (split; [done|]). by left. }
  rewrite Hs in Hmin. eexists _, _. split; [done|]. split; [|do 3 (split; [done|]); by right].
  split; try done.
  - unfold vals_fit in *. cbn. lia.
  - by apply ApplyConfig_keeps_valid.
  - intros Hb. cbn in Hb. congruence.
Qed.

Lemma opt_step_spec s k env o b lows :
  opt_inv s k o b -> roll_inv lows o -> k + 1 < 2 ^ 63 -> (forall m i, 0 < m -> 0 <= te_pick env m i < m) ->
  let m := broker_Metrics b in
  exists o' b', opt_step env o b = Ok (o', b') /\ opt_inv s (k + 1) o' b' /\ roll_inv (lows ++ [low_delivery m]) o' /\
    op_ticks o' = i64 (op_ticks o + 1) /\ (op_lastApplyTime o' = op_lastApplyTime o \/ applied_at s (op_ticks o') m (te_now env) o o') /\
    (b_cfg b' <> b_cfg b -> applied_at s (op_ticks o') m (te_now env) o o' \/ has_run 2 true (lows ++ [low_delivery m])).
Proof.
  intros Hinv Hroll Hk Hpick m. unfold opt_step. fold m.
  set (o1 := set_tick _ _ o). assert (Hinv1 : opt_inv s k o1 b) by (destruct Hinv; by split).
  pose proof (checkEmergencyRollback_spec s k o1 b m lows Hinv1 Hroll) as Hcheck.
  destruct (checkEmergencyRollback o1 b m) as [o2 b2]. destruct Hcheck as (Hinv2 & Hroll2 & Ht2 & Hl2 & Hp2 & Hb2 & Hc2).
  pose proof Hinv2 as [Hs2 Hfit2 Hd2 Hv2 Hst2 Hbs2 Hbk2].
  destruct (Act_total k (te_norm env) (op_ddpg o2) (opt_buildState o2 m) Hd2) as (d3 & action & -> & Hd3 & Hlen). rewrite Ok_bind.
  set (o3 := set_ddpg d3 o2). assert (Hinv3 : opt_inv s k o3 b2) by (by split).
  destruct (opt_tune_spec s k (te_now env) action m o3 b2 Hinv3) as (o4 & b4 & -> & Hinv4 & Hbk4 & Hlow4 & Ht4 & Hcase).
  rewrite Ok_bind. cbn [o3 set_ddpg op_rolledBack op_lowDeliveryTicks op_ticks op_lastApplyTime] in Hbk4, Hlow4, Ht4, Hcase.
  destruct (opt_learn_total s k env action m (opt_buildState o2 m) o4 b4 Hinv4 Hk Hpick) as (o5 & -> & Hinv5 & Hbk5 & Hlow5 & Ht5 & Hl5).
  rewrite Ok_bind. rewrite Hbk4 in Hbk5. rewrite Hlow4 in Hlow5. rewrite Ht4 in Ht5.
  eexists _, _. split; [done|].
  split; [destruct Hinv5; by split|]. split; [unfold roll_inv in *; cbn; rewrite Hbk5, Hlow5; exact Hroll2|].
  assert (Hticks : op_ticks o5 = i64 (op_ticks o + 1)) by (by rewrite Ht5, Ht2). split; [done|].
  change (op_lastApplyTime o1) with (op_lastApplyTime o) in Hl2. unfold applied_at.
  cbn [op_lastApplyTime op_rolledBack op_ticks set_tick]. rewrite Hl5, Hbk5, Hticks, <- Hl2.
  destruct Hcase as [[Hla ->]|(Hw & Hnb & Hsafe & Hla & Hmin)]; rewrite Hla.
  - split; [by left|]. intros Hch. right. by apply Hc2.
  - rewrite Ht2 in Hw. split; [right|intros _; left]; by rewrite Hnb.
Qed.

(** *** Whole runs *)

Definition lows_of (log : list tick_log) : list bool := (fun e => low_delivery (lg_metrics e)) <$> log.
Definition apply_times (log : list tick_log) : list Time := omap lg_applied log.

(** The [n]-th tick, with the verdicts up to it. *)
Definition entry_ok (s : opt_settings) (n : Z) (lows : list bool) (e : tick_log) : Prop :=
  (is_Some (lg_applied e) -> os_warmup s < n /\ safe_to_tune (lg_metrics e) = true /\ ~ has_run 2 true lows) /\
  (lg_after e <> lg_before e -> is_Some (lg_applied e) \/ has_run 2 true lows).

(** A log that starts after [n] ticks, the last change at [last]. *)
Fixpoint log_ok (s : opt_settings) (n : Z) (last : Time) (lows : list bool) (log : list tick_log) : Prop :=
  match log with
  | [] => True
  | e :: log =>
      let lows' := lows ++ [low_delivery (lg_metrics e)] in
      entry_ok s (n + 1) lows' e /\
      (forall t, lg_applied e = Some t -> t <> zeroTime /\ (last <> zeroTime -> os_minApplyInterval s <= time_Sub t last)) /\
      log_ok s (n + 1) (default last (lg_applied e)) lows' log
  end.

Lemma log_ok_lookup s log : forall n last lows i e,
  log_ok s n last lows log -> log !! i = Some e -> entry_ok s (n + Z.of_nat i + 1) (lows ++ lows_of (take (S i) log)) e.
Proof.
  induction log as [|x log IH]; intros n last lows [|i] e Hlog Hi; cbn in Hi; try done; destruct Hlog as (Hx & _ & Hlog).
  - injection Hi as <-. replace (n + Z.of_nat 0 + 1) with (n + 1) by lia. cbn [take]. by rewrite take_0.
  - specialize (IH _ _ _ _ _ Hlog Hi). replace (n + Z.of_nat (S i) + 1) with (n + 1 + Z.of_nat i + 1) by lia.
    rewrite <- app_assoc in IH. exact IH.
Qed.

Lemma log_ok_spaced s log : forall n last lows l1 t1 t2 l2,
  log_ok s n last lows log -> (if decide (last = zeroTime) then [] else [last]) ++ apply_times log = l1 ++ t1 :: t2 :: l2 ->
  os_minApplyInterval s <= time_Sub t2 t1.
Proof.
  induction log as [|x log IH]; intros n last lows l1 t1 t2 l2 Hlog Heq.
  { exfalso. apply (f_equal length) in Heq. rewrite !length_app in Heq. cbn in Heq. case_decide; cbn in Heq; lia. }
  destruct Hlog as (_ & Hx & Hlog). unfold apply_times in Heq. cbn [omap list_omap] in Heq.
  destruct (lg_applied x) as [t|] eqn:Ht; cbn [default] in Hlog.
  2:{ by eapply IH. }
  destruct (Hx t eq_refl) as [Hz Hmin]. case_decide as Hl.
  - eapply IH; [exact Hlog|]. by rewrite decide_False.
  - destruct l1 as [|y l1]; cbn in Heq.
    + injection Heq as <- <- _. by apply Hmin.
    + injection Heq as _ Heq. eapply IH; [exact Hlog|]. rewrite decide_False by done. exact Heq.
Qed.

Lemma opt_run_spec s ticks : forall k o b lows,
  opt_inv s k o b -> roll_inv lows o -> op_ticks o = k -> 0 <= k -> k + Z.of_nat (length ticks) < 2 ^ 63 -> 0 < os_minApplyInterval s ->
  Forall tick_ok ticks ->
  exists o' b' log, opt_run o b ticks = Ok (o', b', log) /\ opt_inv s (k + Z.of_nat (length ticks)) o' b' /\ roll_inv (lows ++ lows_of log) o' /\
    length log = length ticks /\ log_ok s k (op_lastApplyTime o) lows log.
Proof.
  induction ticks as [|[env others] ticks IH]; intros k o b lows Hinv Hroll Hk H0 Hlen Hmin Hticks; cbn [opt_run].
  { exists o, b, []. rewrite app_nil_r, Z.add_0_r. done. }
  cbn [length] in *. apply List.Forall_cons_iff in Hticks as [(Hcfg & Hpick & Hnow) Hticks]. cbn [fst snd] in *.
  assert (Hinv1 : opt_inv s k o (others b)) by (destruct Hinv; split; try done; by rewrite Hcfg).
  destruct (opt_step_spec s k env o (others b) lows Hinv1 Hroll ltac:(lia) Hpick) as (o1 & b1 & -> & Hinv2 & Hroll2 & Ht & Happ & Hch).
  rewrite Ok_bind, Hk, i64_small in * by (unfold in_i64; lia).
  destruct (IH (k + 1) o1 b1 _ Hinv2 Hroll2 Ht ltac:(lia) ltac:(lia) Hmin Hticks) as (o2 & b2 & log & -> & Hinv3 & Hroll3 & Hl & Hlog).
  rewrite Ok_bind. eexists _, _, _. split; [done|]. split; [by replace (k + Z.of_nat (S (length ticks))) with (k + 1 + Z.of_nat (length ticks)) by lia|].
  split; [by rewrite <- app_assoc in Hroll3|]. split; [cbn; lia|].
  assert (Hna : op_rolledBack o1 = false -> ~ has_run 2 true (lows ++ [low_delivery (broker_Metrics (others b))])).
  { intros Hb. unfold roll_inv in Hroll2. rewrite Hb in Hroll2. apply Hroll2. }
  cbn [log_ok]. case_decide as Hsame; cbn [lg_applied lg_metrics lg_after lg_before default].
  - split; [|split; [done|by rewrite <- Hsame]]. split; [by intros [? [=]]|]. cbn [lg_after lg_before]. intros Hne. right.
    destruct (Hch Hne) as [(Hnew & _ & _ & _ & Hi)|]; [|done]. exfalso.
    rewrite <- Hsame, Hnew in Hi. specialize (Hi Hnow). unfold time_Sub in Hi. lia.
  - destruct Happ as [|(Hn & Hw & Hb & Hsafe & Hi)]; [done|]. split; [|split; [|done]].
    + split; [|by left]. cbn [lg_metrics]. intros _. split; [by rewrite Ht in Hw|]. split; [done|]. by apply Hna.
    + intros t [= <-]. rewrite Hn. split; [done|]. exact Hi.
Qed.
Lemma NewReplayBuffer_ok capacity rb : NewReplayBuffer capacity = Ok rb -> 0 < capacity -> buffer_ok rb /\ rb_writeIdx rb = 0.
Proof.
  unfold NewReplayBuffer. intros H Hc. rewrite (proj2 (Z.ltb_ge capacity 0)) in H by lia. injection H as <-.
  split; [|done]. split; [done|]. split; [apply length_replicate|done].
Qed.

(** A new optimizer: nothing applied, and the start configuration is the broker's. *)
Lemma NewOptimizer_inv net b params optCfg pilot o :
  NewOptimizer net b params optCfg pilot = Ok o -> cfg_valid (b_cfg b) -> 0 <= oc_BatchSize optCfg -> actions = length (os_params (op_settings o)) ->
  opt_inv (op_settings o) 0 o b /\ roll_inv [] o /\ op_ticks o = 0 /\ op_lastApplyTime o = zeroTime /\ os_startConfig (op_settings o) = b_cfg b /\
  os_minApplyInterval (op_settings o) = DefaultMinApplyInterval /\ os_warmup (op_settings o) = oc_WarmupTicks (fill_defaults optCfg).
Proof.
  intros Hnew Hv Hbs Hact. unfold NewOptimizer in Hnew. apply bind_Ok in Hnew as (cal & _ & Hnew). apply bind_Ok in Hnew as (d & Hd & Hnew).
  injection Hnew as <-. cbn [op_settings os_params] in Hact. unfold NewDDPG in Hd. apply bind_Ok in Hd as (rb & Hrb & Hd).
  apply bind_Ok in Hd as (ou & Hou & Hd). destruct (_ || _); [done|]. injection Hd as <-.
  apply NewReplayBuffer_ok in Hrb as [Hrb Hw]; [|done]. unfold NewOUNoise in Hou. destruct (_ <? 0) in Hou; [done|]. injection Hou as <-.
  split; [|split; [split; [done|]; intros (l1 & l2 & H); destruct l1; discriminate H|by do 4 (split; [done|])]].
  split; cbn [op_settings os_startConfig os_batchSize op_rolledBack]; try done.
  - unfold vals_fit. cbn. by rewrite length_fmap.
  - split; [cbn; rewrite length_replicate; lia|]. split; [exact Hrb|]. change (rb_writeIdx rb <= 0). lia.
  - cbn. destruct (Z.eqb_spec (oc_BatchSize optCfg) 0); lia.
Qed.

(** C33: The emergency rollback.  Started on a valid configuration, the optimizer
    runs any number of ticks without a panic, whatever the rest of the system does
    to the broker in between (apart from its configuration).  It is rolled back
    exactly when two ticks in a row saw less than half of the messages delivered
    while messages came in; from then on the configuration is the one it started
    with.  The configuration is valid all along. *)
Theorem optimizer_rollback (net : Net) b params optCfg pilot (o : Optimizer Net) ticks :
  NewOptimizer net b params optCfg pilot = Ok o -> cfg_valid (b_cfg b) -> 0 <= oc_BatchSize optCfg -> actions = length (os_params (op_settings o)) ->
  Forall tick_ok ticks -> Z.of_nat (length ticks) < 2 ^ 63 ->
  exists o' b' log, opt_run o b ticks = Ok (o', b', log) /\ length log = length ticks /\
    (op_rolledBack o' = true <-> has_run 2 true (lows_of log)) /\ (op_rolledBack o' = true -> b_cfg b' = b_cfg b) /\ cfg_valid (b_cfg b').
Proof.
  intros Hnew Hv Hbs Hact Hticks Hlen. destruct (NewOptimizer_inv _ _ _ _ _ _ Hnew Hv Hbs Hact) as (Hinv & Hroll & Ht & _ & Hstart & Hmin & _).
  destruct (opt_run_spec _ ticks 0 o b [] Hinv Hroll Ht) as (o' & b' & log & Hrun & Hinv' & Hroll' & Hl & _);
    [lia|lia|rewrite Hmin; unfold DefaultMinApplyInterval; lia|done|].
  exists o', b', log. split; [done|]. split; [done|]. cbn [app] in Hroll'. split.
  - unfold roll_inv in Hroll'. destruct (op_rolledBack o'); [done|]. split; [done|]. by intros Hr%Hroll'.
  - split; [|apply Hinv']. intros Hb. rewrite <- Hstart. by apply Hinv'.
Qed.

(** When the optimizer touches the configuration.  In any run the tuned values
    change only in a tick after the warm-up, with consumers that keep up with
    producers, and before a rollback; two changes are at least two seconds apart.
    A tick that changed the broker's configuration either changed the tuned values
    or is one after two low-delivery ticks in a row. *)
Theorem tuning_guarded (net : Net) b params optCfg pilot (o o' : Optimizer Net) b' ticks log :
  NewOptimizer net b params optCfg pilot = Ok o -> cfg_valid (b_cfg b) -> 0 <= oc_BatchSize optCfg -> actions = length (os_params (op_settings o)) ->
  Forall tick_ok ticks -> Z.of_nat (length ticks) < 2 ^ 63 -> opt_run o b ticks = Ok (o', b', log) ->
  (forall i e, log !! i = Some e ->
    (is_Some (lg_applied e) -> oc_WarmupTicks (fill_defaults optCfg) < Z.of_nat i + 1 /\ safe_to_tune (lg_metrics e) = true /\
      ~ has_run 2 true (lows_of (take (S i) log))) /\
    (lg_after e <> lg_before e -> is_Some (lg_applied e) \/ has_run 2 true (lows_of (take (S i) log)))) /\
  (forall l1 t1 t2 l2, apply_times log = l1 ++ t1 :: t2 :: l2 -> DefaultMinApplyInterval <= time_Sub t2 t1).
Proof.
  intros Hnew Hv Hbs Hact Hticks Hlen Hrun. destruct (NewOptimizer_inv _ _ _ _ _ _ Hnew Hv Hbs Hact) as (Hinv & Hroll & Ht & Hlast & _ & Hmin & Hw).
  destruct (opt_run_spec _ ticks 0 o b [] Hinv Hroll Ht) as (o2 & b2 & log2 & Hrun2 & _ & _ & _ & Hlog);
    [lia|lia|rewrite Hmin; unfold DefaultMinApplyInterval; lia|done|].
  rewrite Hrun in Hrun2. injection Hrun2 as <- <- <-. rewrite <- Hmin, <- Hw. split.
  - intros i e He. exact (log_ok_lookup _ _ _ _ _ _ _ Hlog He).
  - intros l1 t1 t2 l2 Heq. eapply log_ok_spaced; [exact Hlog|]. rewrite Hlast, decide_True by done. exact Heq.
Qed.

(** Without pilot data an optimizer is always built. *)
Lemma NewOptimizer_total net b params optCfg :
  0 <= oc_BatchSize optCfg -> exists o, NewOptimizer net b params optCfg [] = Ok o /\ os_params (op_settings o) = ActiveParams params.
Proof.
  intros Hbs. unfold NewOptimizer. rewrite Ok_bind. unfold NewDDPG, NewReplayBuffer, NewOUNoise.
  rewrite (proj2 (Z.ltb_ge ddpgReplayBufSize 0)), Ok_bind by (by vm_compute).
  rewrite (proj2 (Z.ltb_ge (Z.of_nat _) 0)), Ok_bind by lia.
  set (n := Z.of_nat _). set (bs := if _ <=? 0 then _ else _).
  assert (Hb : 0 < bs). { unfold bs. destruct (Z.leb_spec (oc_BatchSize (fill_defaults optCfg)) 0); [done|lia]. }
  rewrite (proj2 (Z.ltb_ge (bs * (n + 3)) 0)), (proj2 (Z.ltb_ge (bs * n) 0)) by (unfold n; nia).
  cbn [orb]. rewrite Ok_bind. eexists. done.
Qed.

(** When each tick finds given metrics, the log shows them. *)
Lemma opt_run_metrics ticks ms :
  Forall2 (fun t m => forall b, broker_Metrics (t.2 b) = m) ticks ms -> forall o b o' b' log,
  opt_run o b ticks = Ok (o', b', log) -> lg_metrics <$> log = ms.
Proof.
  induction 1 as [|[env others] m ticks ms Hm _ IH]; intros o b o' b' log; cbn [opt_run]; [by intros [= <- <- <-]|].
  intros H. apply bind_Ok in H as ([o1 b1] & _ & H). apply bind_Ok in H as ([[o2 b2] log'] & Hrun & H). injection H as <- <- <-.
  rewrite fmap_cons, (IH _ _ _ _ _ Hrun). cbn [lg_metrics]. by rewrite <- (Hm b).
Qed.

(** The reward is between -2 and 2, or no number. *)
Lemma reward_clamped o m :
  let r := snd (opt_computeReward o m) in (r <? -2)%float = false /\ (2 <? r)%float = false.
Proof.
  unfold opt_computeReward. cbn [snd].
  match goal with |- context [if (?r <? - DefaultRewardClamp)%float then _ else _] => generalize r end. intros r.
  unfold DefaultRewardClamp. change (PrimFloat.opp 2) with (-2)%float. destruct (r <? -2)%float eqn:Hlo; [split; vm_compute; reflexivity|].
  destruct (2 <? r)%float eqn:Hhi; [split; vm_compute; reflexivity|]. done.
Qed.
End tuning.

(** ** The properties at a concrete optimizer *)

(** A network that proposes the largest value of one parameter. *)
Definition one_net : ACNet unit := {|
  ac_actor := fun _ _ => Floats64 [1%float];
  ac_targetQ := fun _ rows => Floats64 ((fun _ => 0%float) <$> rows);
  ac_trainCritic := fun net _ _ _ => net;
  ac_trainActor := fun net _ => net;
  ac_pairs := fun _ => [mkPair (Vec64 [1%float]) (Vec64 [0%float]) 1];
  ac_SetValue := fun net _ _ => net;
|}.

Lemma one_net_laws : ACNetLaws 1 (AC := one_net).
Proof. split; intros; cbn; [done|apply length_fmap|]. apply List.Forall_cons; [by split|apply List.Forall_nil]. Qed.

Section sample.
Local Open Scope go_scope.
Local Existing Instances join_path plain_stats forwards mem_badger plain_env one_net one_net_laws axis_gonum.
Abbreviation SBroker := (Broker (Bal := RoundRobin) (Sch := FIFO)).

(** Only the batch size is tuned; tuning starts with the second tick. *)
Definition batch_param : TunableParam := mkTunable "BatchSize" 1 1000 1.
Definition quick_start : OptimizerConfig := mkOptConfig 0 32 1 0 0 0 0.

(** The collector's last report. *)
Definition reporting (m : Metrics) (b : SBroker) : SBroker :=
  let mc := b_metrics b in
  with_metrics b (mkCollector (produceCount mc) (consumeCount mc) (produceBytes mc) m (avgFlushLatencyNs mc) (lastCollect mc) (partProduces mc)
    (partConsumes mc) (prevPartProduces mc) (prevPartConsumes mc) (loadStdDevHistory mc) (retentionDeletedBytes mc) (retentionDeletedSegments mc)).

Definition delivering (ratio : float) : Metrics := mkMetrics 1000 1000 1 ratio 1000 100 [] [] [] 0 0 0 0 0 0 0.

(** A tick [n] seconds after the start with this report. *)
Definition tick_at (n : Z) (m : Metrics) : TickEnv * (SBroker -> SBroker) :=
  (mkTickEnv (fun _ => 0%float) (fun _ _ => 0) (n * time_Second), reporting m).

Definition some_ticks : list (TickEnv * (SBroker -> SBroker)) :=
  [tick_at 1 (delivering 1); tick_at 2 (delivering 1); tick_at 3 (delivering 0.25); tick_at 4 (delivering 0.25)].

Lemma some_ticks_ok : Forall tick_ok some_ticks.
Proof.
  repeat apply List.Forall_cons; [..|apply List.Forall_nil];
    (split; [done|]; split; [intros m i Hm; cbn; lia|]; by vm_compute).
Qed.

Lemma some_optimizer :
  exists o, NewOptimizer tt (sample_broker DefaultConfig) [batch_param] quick_start [] = Ok o /\ os_params (op_settings o) = [batch_param].
Proof. apply NewOptimizer_total. by vm_compute. Defined.

Lemma optimizer_rollback_witness :
  exists o o' b' log, NewOptimizer tt (sample_broker DefaultConfig) [batch_param] quick_start [] = Ok o /\
    opt_run o (sample_broker DefaultConfig) some_ticks = Ok (o', b', log) /\ op_rolledBack o' = true /\ b_cfg b' = DefaultConfig.
Proof.
  destruct some_optimizer as (o & Ho & Hp).
  destruct (optimizer_rollback tt (sample_broker DefaultConfig) [batch_param] quick_start [] o some_ticks Ho ltac:(by vm_compute) ltac:(by vm_compute)
    ltac:(by rewrite Hp) some_ticks_ok ltac:(by vm_compute)) as (o' & b' & log & Hrun & _ & [_ Hback] & Hcfg & _).
  assert (Hb : op_rolledBack o' = true).
  { apply Hback. apply opt_run_metrics with (ms := [delivering 1; delivering 1; delivering 0.25; delivering 0.25]) in Hrun;
      [|by repeat constructor]. change (lows_of log) with (low_delivery ∘ lg_metrics <$> log). rewrite list_fmap_compose, Hrun. by exists [false; false], []. }
  exists o, o', b', log. split; [exact Ho|]. split; [exact Hrun|]. split; [exact Hb|]. rewrite (Hcfg Hb). by vm_compute.
Defined.

Lemma tuning_guarded_witness :
  exists o o' b' log, NewOptimizer tt (sample_broker DefaultConfig) [batch_param] quick_start [] = Ok o /\
    opt_run o (sample_broker DefaultConfig) some_ticks = Ok (o', b', log) /\
    forall e, log !! 0%nat = Some e -> lg_applied e = None /\ lg_after e = lg_before e.
Proof.
  destruct some_optimizer as (o & Ho & Hp).
  destruct (NewOptimizer_inv _ _ _ _ _ _ Ho ltac:(by vm_compute) ltac:(by vm_compute) ltac:(by rewrite Hp)) as (Hinv & Hroll & Ht & _ & _ & Hmin & _).
  destruct (opt_run_spec _ some_ticks 0 o _ [] Hinv Hroll Ht ltac:(lia) ltac:(by vm_compute) ltac:(by rewrite Hmin) some_ticks_ok)
    as (o' & b' & log & Hrun & _).
  destruct (tuning_guarded tt (sample_broker DefaultConfig) [batch_param] quick_start [] o o' b' some_ticks log Ho ltac:(by vm_compute)
    ltac:(by vm_compute) ltac:(by rewrite Hp) some_ticks_ok ltac:(by vm_compute) Hrun) as [Hg _].
  exists o, o', b', log. split; [exact Ho|]. split; [exact Hrun|]. intros e He. destruct (Hg 0%nat e He) as [Happ Hch].
  assert (Hno : lg_applied e = None) by (destruct (lg_applied e); [|done]; destruct (Happ ltac:(eauto)) as [H _]; by vm_compute in H).
  split; [exact Hno|]. destruct (decide (lg_after e = lg_before e)) as [|Hne]; [done|]. exfalso.
  destruct (Hch Hne) as [[t Hs]|(l1 & l2 & Hr)]; [congruence|]. apply (f_equal length) in Hr. unfold lows_of in Hr.
  rewrite length_fmap, length_take, !length_app, length_replicate in Hr. lia.
Defined.

Definition tuned_optimizer : Optimizer unit :=
  mkOptimizer (mkSettings [batch_param] 0 32 1 0.1 10 DefaultMinApplyInterval DefaultConfig)
    (mkDDPG 4 1 0 0 tt (mkReplay [] 0 0) (mkOU 0 0 0 0 1 0 [0%float] 0) (mkBuffers 0 0 0)) 5 [0.5%float] None [] zeroTime 0 false.

Lemma tuning_accepted_witness :
  exists o' b', applyAction 7 [1%float] tuned_optimizer (sample_broker DefaultConfig) = Ok (o', b') /\ cfg_valid (b_cfg b').
Proof.
  destruct (tuning_accepted 7 [1%float] tuned_optimizer (sample_broker DefaultConfig)) as (o' & b' & H & _ & _ & Hv & _).
  - reflexivity.
  - apply List.Forall_cons; [|apply List.Forall_nil]. do 3 apply List.Exists_cons_tl. apply List.Exists_cons_hd. by split.
  - apply List.Forall_cons; [by split; vm_compute|apply List.Forall_nil].
  - by vm_compute.
  - apply List.Forall_cons; [eexists; vm_compute; reflexivity|apply List.Forall_nil].
  - exists o', b'. exact (conj H Hv).
Defined.

(** An action of 1 sets the batch size to its largest value; an action that is not
    a number passes both clamps and the configuration is then rejected. *)
Example full_action_applied :
  match applyAction 7 [1%float] tuned_optimizer (sample_broker DefaultConfig) with Ok (o, b) => BatchSize (b_cfg b) = 1000 | _ => False end.
Proof. vm_compute. reflexivity. Qed.

Example nan_action_rejected :
  match applyAction 7 [nan] tuned_optimizer (sample_broker DefaultConfig) with
  | Ok (o, b) => b_cfg b = DefaultConfig /\ op_lastApplyTime o = 7 /\ op_currentVals o = [nan]
  | _ => False
  end.
Proof. vm_compute. repeat split. Qed.
End sample.
