(* ===== verification/ActorCritic.v ===== *)
(** * The actor and the critic (src/pkg/optimizer/ddpg.go)

    The networks of the optimizer's agent on the operations of DuelNet: the graphs of
    actor and critic, their training steps, the copy of the variables and the pairs
    that softUpdate goes through.  They implement Optimizer's [ACNet]: contexts whose
    pairs fit stay so under every operation, which is what the optimizer relies on. *)

From S2P Require Import Prelude GoFloat Config NN NNProps TargetNet QNet DuelNet Optimizer OptimizerProps.

(** ** Variables *)

Record ACVar : Type := mkACVar { acv_Scope : list string; acv_Name : string; acv_Trainable : bool; acv_Value : VarValue }.

(** The dimensions; those of other data are not used. *)
Definition Dimensions (v : VarValue) : list nat :=
  match v with
  | Vec64 l | Vec32 l => [length l]
  | Mat64 rows => [length rows; from_option length 0%nat (head rows)]
  | OtherVar => []
  end.
Definition flatLen (v : VarValue) : nat := foldl Nat.mul 1%nat (Dimensions v).

(** The contexts, and varPairs: the positions of a variable and of its copy, and the
    length of their buffer. *)
Record ACContexts : Type := mkACContexts { acc_main : list ACVar; acc_target : list ACVar; acc_pairs : list (nat * nat * nat) }.

(** The calls of GoMLX. [ac_visits]: whether EnumerateVariables, called on a context
    with this scope, visits a variable; [ac_gradients] differentiates a function of
    the variables with respect to the selected ones. *)
Class ACLib : Type := {
  vec_Sub : list float -> list float -> list float;
  vec_Mul : list float -> list float -> list float;
  ReduceAllMean : list float -> float;
  g_Neg : float -> float;
  val_Mul : float -> VarValue -> VarValue;
  val_Sub : VarValue -> VarValue -> VarValue;
  ac_InUse : list (list string) -> ACVar -> bool;
  ac_visits : list string -> ACVar -> bool;
  ac_gradients : (list ACVar -> float) -> list ACVar -> (ACVar -> bool) -> list VarValue;
  ac_layer_vars : list string -> Z -> Z -> list ACVar;
  LocalClone : VarValue -> option VarValue;
  VariableWithValue : list string -> string -> VarValue -> list ACVar -> result (list ACVar);
  GetVariable : list ACVar -> list string -> string -> option nat;
}.

(** SetValue of flat data in the dimensions of the target; data of another length
    would be refused. *)
Fixpoint split_like (rows : list (list float)) (data : list float) : list (list float) :=
  match rows with [] => [] | r :: rows => take (length r) data :: split_like rows (drop (length r) data) end.
Definition val_len (v : VarValue) : nat :=
  match v with Vec64 l | Vec32 l => length l | Mat64 rows => sum_list_with length rows | OtherVar => 0%nat end.
Definition from_flat (t : VarValue) (data : list float) : VarValue :=
  match t with Vec64 _ => Vec64 data | Vec32 _ => Vec32 data | Mat64 rows => Mat64 (split_like rows data) | OtherVar => OtherVar end.
Definition SetValue (t : VarValue) (data : list float) : VarValue := if decide (length data = val_len t) then from_flat t data else t.

(** ** The graphs *)

Section graphs.
Context {O : GraphOps (list ACVar) float} {Lb : ACLib}.
Context (stateSize actionSize : Z) (lr : float).

Definition ddpgHiddenSize : Z := 128.

Definition actorGraphBatched (vars : list ACVar) (states : list (list float)) : list (list float) :=
  let h := layers_Dense vars ["actor"; "l1"]%string states ddpgHiddenSize in
  let h := activations_Relu (Vars := list ACVar) h in
  let h := layers_Dense vars ["actor"; "l2"]%string h ddpgHiddenSize in
  let h := activations_Relu (Vars := list ACVar) h in
  let out := layers_Dense vars ["actor"; "l3"]%string h actionSize in
  g_Tanh (Vars := list ACVar) out.

Definition criticGraphBatched (vars : list ACVar) (states actions : list (list float)) : list float :=
  let input := g_Concatenate (Vars := list ACVar) states actions in
  let h := layers_Dense vars ["critic"; "l1"]%string input ddpgHiddenSize in
  let h := activations_Relu (Vars := list ACVar) h in
  let h := layers_Dense vars ["critic"; "l2"]%string h ddpgHiddenSize in
  let h := activations_Relu (Vars := list ACVar) h in
  let q := layers_Dense vars ["critic"; "l3"]%string h 1 in
  g_Squeeze (Vars := list ACVar) q.

Definition actor_layers : list (list string * Z * Z) :=
  [(["actor"; "l1"], stateSize, ddpgHiddenSize); (["actor"; "l2"], ddpgHiddenSize, ddpgHiddenSize); (["actor"; "l3"], ddpgHiddenSize, actionSize)]%string.
Definition critic_layers : list (list string * Z * Z) :=
  [(["critic"; "l1"], stateSize + actionSize, ddpgHiddenSize); (["critic"; "l2"], ddpgHiddenSize, ddpgHiddenSize); (["critic"; "l3"], ddpgHiddenSize, 1)]%string.
Definition paths (ls : list (list string * Z * Z)) : list (list string) := (fun l => l.1.1) <$> ls.

(** [w - lr*grads[idx]] *)
Definition set_weights (v : ACVar) (g : VarValue) : result ACVar :=
  Ok (mkACVar (acv_Scope v) (acv_Name v) (acv_Trainable v) (val_Sub (acv_Value v) (val_Mul lr g))).

(** A gradient step on the variables that the context at [scope] enumerates and the
    graph with layers [used] uses. *)
Definition step_selected (scope : list string) (used : list (list string)) (v : ACVar) : bool := ac_visits scope v && (acv_Trainable v && ac_InUse used v).
Definition gradient_step (scope : list string) (used : list (list string)) (loss : list ACVar -> float) (vars : list ACVar) : result (list ACVar) :=
  let grads := ac_gradients loss vars (step_selected scope used) in
  descend_with set_weights (step_selected scope used) grads vars.

(** criticTrainExec: the mean squared error. *)
Definition train_critic (vars : list ACVar) (states actions : list (list float)) (targetQs : list float) : result (list ACVar) :=
  let loss (vars : list ACVar) : float :=
    let q := criticGraphBatched vars states actions in
    let diff := vec_Sub q targetQs in
    ReduceAllMean (vec_Mul diff diff) in
  gradient_step ["critic"]%string (paths critic_layers) loss vars.

(** actorTrainExec: minus the mean of the critic's value of the actor's actions. *)
Definition train_actor (vars : list ACVar) (states : list (list float)) : result (list ACVar) :=
  let loss (vars : list ACVar) : float :=
    let actions := actorGraphBatched vars states in
    let q := criticGraphBatched vars states actions in
    g_Neg (ReduceAllMean q) in
  gradient_step ["actor"]%string (paths (actor_layers ++ critic_layers)) loss vars.

(** ** Setting up *)

(** The first runs create the variables; the critic's is a training step on zeros. *)
Definition initNetworks : result (list ACVar) :=
  let vars := concat ((fun '(path, i, o) => ac_layer_vars path i o) <$> actor_layers ++ critic_layers) in
  train_critic vars [replicate (Z.to_nat stateSize) 0%float] [replicate (Z.to_nat actionSize) 0%float] [0%float].

Fixpoint clone_all (src dst : list ACVar) : result (list ACVar) :=
  match src with
  | [] => Ok dst
  | v :: src => cloned ← must (LocalClone (acv_Value v)); dst ← VariableWithValue (acv_Scope v) (acv_Name v) cloned dst; clone_all src dst
  end.
Definition cloneContext (src : list ACVar) : result (list ACVar) := clone_all src [].

(** The loop that fills varPairs, from the [i]-th variable on. *)
Fixpoint find_pairs (i : nat) (vars target : list ACVar) : list (nat * nat * nat) :=
  match vars with
  | [] => []
  | srcVar :: vars =>
      if negb (acv_Trainable srcVar) then find_pairs (i + 1) vars target
      else
        match GetVariable target (acv_Scope srcVar) (acv_Name srcVar) with
        | None => find_pairs (i + 1) vars target
        | Some j => (i, j, flatLen (acv_Value srcVar)) :: find_pairs (i + 1) vars target
        end
  end.
Definition initTargetExecs (main target : list ACVar) : list (nat * nat * nat) := find_pairs 0 main target.

(** The contexts of NewDDPG. *)
Definition new_contexts : result ACContexts :=
  main ← initNetworks;
  target ← cloneContext main;
  Ok (mkACContexts main target (initTargetExecs main target)).

(** ** As Optimizer sees them *)

Definition value_at (vars : list ACVar) (i : nat) : VarValue := from_option acv_Value OtherVar (vars !! i).
Definition pair_of (n : ACContexts) (p : nat * nat * nat) : varPair := let '(i, j, b) := p in mkPair (value_at (acc_main n) i) (value_at (acc_target n) j) b.

Definition set_target (n : ACContexts) (k : nat) (data : list float) : ACContexts :=
  match acc_pairs n !! k with
  | Some (_, j, _) =>
      mkACContexts (acc_main n)
        (alter (fun v => mkACVar (acv_Scope v) (acv_Name v) (acv_Trainable v) (SetValue (acv_Value v) data)) j (acc_target n)) (acc_pairs n)
  | None => n
  end.
Definition set_main (n : ACContexts) (r : result (list ACVar)) : ACContexts :=
  match r with Ok main => mkACContexts main (acc_target n) (acc_pairs n) | _ => n end.

(** Every pair fits. *)
Definition ac_ok (n : ACContexts) : Prop := Forall (fun p => pair_ok (pair_of n p)) (acc_pairs n).
End graphs.

(** ** Shapes *)

Definition same_dims (a b : VarValue) : Prop :=
  match a, b with
  | Vec64 l, Vec64 k | Vec32 l, Vec32 k => length l = length k
  | Mat64 r, Mat64 s => Forall2 (fun x y => length x = length y) r s
  | OtherVar, OtherVar => True
  | _, _ => False
  end.
(** The rows of a matrix have one length. *)
Definition rect (v : VarValue) : Prop :=
  match v with Mat64 rows => Forall (fun r => length r = from_option length 0%nat (head rows)) rows | _ => True end.
Definition var_key (v : ACVar) : list string * string := (acv_Scope v, acv_Name v).

Lemma row_lengths (r s : list (list float)) : Forall2 (fun x y => length x = length y) r s -> length <$> r = length <$> s.
Proof. induction 1 as [|x y r s Hxy _ IH]; [done|]. by rewrite !fmap_cons, Hxy, IH. Qed.
Lemma rows_of_lengths (r s : list (list float)) : length <$> r = length <$> s -> Forall2 (fun x y => length x = length y) r s.
Proof. revert s. induction r as [|x r IH]; intros [|y s] H; try done. injection H as ? ?. constructor; eauto. Qed.
Lemma sum_lengths (r : list (list float)) : sum_list_with length r = sum_list (length <$> r).
Proof. induction r as [|x r IH]; [done|]. cbn. by rewrite IH. Qed.

Lemma same_dims_refl v : same_dims v v.
Proof. destruct v; cbn; try done. by apply rows_of_lengths. Qed.
Lemma same_dims_sym a b : same_dims a b -> same_dims b a.
Proof. destruct a, b; cbn; try done. intros H%row_lengths. by apply rows_of_lengths. Qed.
Lemma same_dims_trans a b c : same_dims a b -> same_dims b c -> same_dims a c.
Proof.
  destruct a, b, c; cbn; try done; [congruence| |congruence]. intros H1%row_lengths H2%row_lengths. apply rows_of_lengths. congruence.
Qed.

Lemma split_like_lengths rows : forall data, length data = sum_list_with length rows -> length <$> split_like rows data = length <$> rows.
Proof.
  induction rows as [|r rows IH]; intros data Hl; [done|]. cbn [split_like sum_list_with] in *. rewrite !fmap_cons, IH by (rewrite length_drop; lia).
  by rewrite length_take, Nat.min_l by lia.
Qed.
Lemma SetValue_dims t data : same_dims (SetValue t data) t.
Proof.
  unfold SetValue. case_decide as Hl; [|apply same_dims_refl]. destruct t; cbn in *; try done. apply rows_of_lengths. by apply split_like_lengths.
Qed.

(** The size of a variable with equal rows is the product of its dimensions. *)
Lemma rect_len v : rect v -> (val_len v <= flatLen v)%nat.
Proof.
  unfold flatLen. destruct v as [l|rows|l|]; cbn; try lia. intros HF. rewrite Nat.add_0_r. revert HF.
  generalize (from_option length 0%nat (head rows)). intros c HF. induction HF as [|r rows Hr _ IH]; cbn; [lia|]. lia.
Qed.

(** A pair fits as long as both keep their dimensions. *)
Lemma pair_ok_dims s t s' t' b : same_dims s' s -> same_dims t' t -> pair_ok (mkPair s t b) -> pair_ok (mkPair s' t' b).
Proof.
  unfold pair_ok. cbn [vp_src vp_tgt vp_buf]. destruct s, s', t, t'; cbn; try done.
  - lia.
  - intros H1%row_lengths H2%row_lengths [H3%row_lengths Hb]. rewrite sum_lengths in *. split; [apply rows_of_lengths; congruence|]. by rewrite H1.
  - lia.
Qed.
Lemma pair_ok_copy v : rect v -> pair_ok (mkPair v v (flatLen v)).
Proof.
  intros H%rect_len. unfold pair_ok. destruct v; cbn [vp_src vp_tgt vp_buf val_len] in *; try done. split; [by apply rows_of_lengths|done].
Qed.

Class ACLibLaws (Lb : ACLib) : Prop := {
  ac_gradients_dims loss vars sel : Forall2 (fun v g => same_dims (acv_Value v) g) (filter (fun v => sel v = true) vars) (ac_gradients loss vars sel);
  val_Mul_dims lr w g : same_dims w g -> same_dims w (val_Mul lr g);
  val_Sub_dims w g : same_dims w g -> same_dims (val_Sub w g) w;
  LocalClone_same v : LocalClone v = Some v;
  VariableWithValue_new scope name v c : (scope, name) ∉ var_key <$> c -> VariableWithValue scope name v c = Ok (c ++ [mkACVar scope name true v]);
  GetVariable_found c scope name i : GetVariable c scope name = Some i -> exists v, c !! i = Some v /\ var_key v = (scope, name);
  GetVariable_some c v : v ∈ c -> is_Some (GetVariable c (acv_Scope v) (acv_Name v));
  ac_layer_rect path i o : Forall (fun v => rect (acv_Value v)) (ac_layer_vars path i o);
  ac_layer_keys path i o : NoDup (var_key <$> ac_layer_vars path i o);
  ac_layer_apart path i o path' i' o' k : path <> path' -> k ∈ var_key <$> ac_layer_vars path i o -> k ∈ var_key <$> ac_layer_vars path' i' o' -> False;
}.

(** The same variable with other data. *)
Definition retrained (v v' : ACVar) : Prop := var_key v' = var_key v /\ acv_Trainable v' = acv_Trainable v /\ same_dims (acv_Value v') (acv_Value v).

Section shapes.
Context {O : GraphOps (list ACVar) float} {S : GraphShapes O} {Lb : ACLib} {LL : ACLibLaws Lb}.
Context (stateSize actionSize : Z) (lr : float).

Lemma gradient_step_ok scope used loss vars : exists vars', gradient_step lr scope used loss vars = Ok vars' /\ Forall2 retrained vars vars'.
Proof.
  apply (descend_with_ok (set_weights lr) (step_selected scope used) (fun v g => same_dims (acv_Value v) g) retrained).
  - intros v. split; [done|]. split; [done|]. apply same_dims_refl.
  - intros v g _ Hg. eexists. split; [done|]. split; [done|]. split; [done|]. cbn. by apply val_Sub_dims, val_Mul_dims.
  - apply ac_gradients_dims.
Qed.

(** A variable that is not visited, not trainable or not used keeps its data. *)
Lemma gradient_step_keeps scope used loss vars vars' i v :
  gradient_step lr scope used loss vars = Ok vars' -> vars !! i = Some v -> step_selected scope used v = false -> vars' !! i = Some v.
Proof.
  unfold gradient_step. generalize (ac_gradients loss vars (step_selected scope used)). intros grads. revert vars' grads i.
  induction vars as [|u vars IH]; intros vars' grads i; cbn [descend_with]; [by intros _|].
  destruct (step_selected scope used u) eqn:Hu; [destruct grads as [|g grads]; [done|]|]; intros H.
  - apply bind_Ok in H as (u' & _ & (rest & Hr & [= <-])%bind_Ok). destruct i as [|i]; cbn; [intros [= ->]; congruence|]. by eapply IH.
  - apply bind_Ok in H as (rest & Hr & [= <-]). destruct i as [|i]; cbn; [done|]. by eapply IH.
Qed.

Lemma value_at_retrained vars vars' i : Forall2 retrained vars vars' -> same_dims (value_at vars' i) (value_at vars i).
Proof.
  intros HF. unfold value_at. destruct (vars !! i) as [v|] eqn:Hv.
  - destruct (Forall2_lookup_l _ _ _ _ _ HF Hv) as (v' & -> & _ & _ & Hd). exact Hd.
  - rewrite lookup_ge_None in Hv. rewrite (list.Forall2_length _ _ _ HF) in Hv. by rewrite lookup_ge_None_2.
Qed.

(** The dimensions of what the pairs refer to decide whether they fit. *)
Lemma ac_ok_dims n n' :
  acc_pairs n' = acc_pairs n -> (forall i, same_dims (value_at (acc_main n') i) (value_at (acc_main n) i)) ->
  (forall j, same_dims (value_at (acc_target n') j) (value_at (acc_target n) j)) -> ac_ok n -> ac_ok n'.
Proof.
  unfold ac_ok. intros -> Hm Ht Hok. eapply list.Forall_impl; [exact Hok|]. intros [[i j] b]. cbn. apply pair_ok_dims; done.
Qed.

Lemma set_main_ok n scope used loss : ac_ok n -> ac_ok (set_main n (gradient_step lr scope used loss (acc_main n))).
Proof.
  intros Hok. destruct (gradient_step_ok scope used loss (acc_main n)) as (main & -> & HF). cbn. apply (ac_ok_dims n); [done| | |done]; cbn.
  - intros i. by apply value_at_retrained.
  - intros j. apply same_dims_refl.
Qed.

Lemma set_target_ok n k data : ac_ok n -> ac_ok (set_target n k data).
Proof.
  intros Hok. unfold set_target. destruct (acc_pairs n !! k) as [[[i j] b]|]; [|done]. apply (ac_ok_dims n); [done| | |done]; cbn.
  - intros i'. apply same_dims_refl.
  - intros j'. unfold value_at. destruct (decide (j' = j)) as [->|Hne].
    + rewrite list_lookup_alter_eq. destruct (acc_target n !! j); [apply SetValue_dims|done].
    + rewrite list_lookup_alter_ne by done. apply same_dims_refl.
Qed.
End shapes.

(** ** Setting up succeeds *)

Section setup.
Context {O : GraphOps (list ACVar) float} {S : GraphShapes O} {Lb : ACLib} {LL : ACLibLaws Lb}.
Context (stateSize actionSize : Z) (lr : float).

Definition copied (v : ACVar) : ACVar := mkACVar (acv_Scope v) (acv_Name v) true (acv_Value v).

Lemma clone_all_spec src : forall dst, NoDup ((var_key <$> dst) ++ (var_key <$> src)) -> clone_all src dst = Ok (dst ++ (copied <$> src)).
Proof.
  induction src as [|v src IH]; intros dst Hnd; cbn [clone_all]; [by rewrite app_nil_r|].
  rewrite LocalClone_same. cbn [must]. rewrite Ok_bind, VariableWithValue_new, Ok_bind.
  - rewrite IH; [by rewrite fmap_cons, <- app_assoc|]. rewrite fmap_app, <- app_assoc. exact Hnd.
  - rewrite fmap_cons in Hnd. apply list.NoDup_app in Hnd as (_ & H & _). intros Hin. apply (H _ Hin). by left.
Qed.

Lemma layer_keys (ls : list (list string * Z * Z)) :
  NoDup (paths ls) -> NoDup (var_key <$> concat ((fun '(path, i, o) => ac_layer_vars path i o) <$> ls)).
Proof.
  unfold paths. induction ls as [|[[path i] o] ls IH]; [constructor|]. rewrite !fmap_cons. cbn [concat fst]. intros [Hn Hnd]%list.NoDup_cons.
  rewrite fmap_app. apply list.NoDup_app. split; [apply ac_layer_keys|]. split; [|by apply IH].
  intros k Hin (v & -> & Hv)%list_elem_of_fmap. apply list_elem_of_In, in_concat in Hv as (vs & Hvs & Hv).
  apply list_elem_of_In, list_elem_of_fmap in Hvs as ([[path' i'] o'] & -> & Hl). apply list_elem_of_In in Hv.
  apply (ac_layer_apart path i o path' i' o' (var_key v)); [|done|by apply list_elem_of_fmap_2].
  intros <-. apply Hn. by apply (list_elem_of_fmap_2 (fun l => l.1.1)) in Hl.
Qed.

Lemma layer_rect (ls : list (list string * Z * Z)) : Forall (fun v => rect (acv_Value v)) (concat ((fun '(path, i, o) => ac_layer_vars path i o) <$> ls)).
Proof. induction ls as [|[[path i] o] ls IH]; [constructor|]. rewrite fmap_cons. cbn [concat]. apply Forall_app. split; [apply ac_layer_rect|done]. Qed.

Lemma rect_dims v v' : same_dims v' v -> rect v -> rect v'.
Proof.
  destruct v as [|r| |], v' as [|r'| |]; cbn; try done. intros H%row_lengths HF. assert (Hh : from_option length 0%nat (head r') = from_option length 0%nat (head r)).
  { destruct r, r'; try done. by injection H. }
  rewrite Hh. clear Hh. revert HF. generalize (from_option length 0%nat (head r)). intros c HF. revert r' H.
  induction HF as [|x r Hx _ IH]; intros [|y r'] H; try done. injection H as Hy H. apply list.Forall_cons. split; [congruence|by apply IH].
Qed.

Lemma find_pairs_elem main target : forall k p, p ∈ find_pairs k main target ->
  exists i v j, p = ((k + i)%nat, j, flatLen (acv_Value v)) /\ main !! i = Some v /\ GetVariable target (acv_Scope v) (acv_Name v) = Some j.
Proof.
  induction main as [|u main IH]; intros k p; cbn [find_pairs]; [by intros ?%elem_of_nil|].
  assert (Hnext : p ∈ find_pairs (k + 1) main target -> exists i v j, p = ((k + i)%nat, j, flatLen (acv_Value v)) /\ (u :: main) !! i = Some v /\ GetVariable target (acv_Scope v) (acv_Name v) = Some j).
  { intros (i & v & j & -> & Hv & Hj)%IH. exists (Datatypes.S i), v, j. split; [do 2 f_equal; lia|done]. }
  destruct (negb _); [exact Hnext|]. destruct (GetVariable target _ _) as [j|] eqn:Hj; [|exact Hnext].
  intros [->|Hp]%elem_of_cons; [|by apply Hnext]. exists 0%nat, u, j. split; [do 2 f_equal; lia|done].
Qed.

Lemma find_pairs_complete main target i v : forall k,
  main !! i = Some v -> acv_Trainable v = true -> is_Some (GetVariable target (acv_Scope v) (acv_Name v)) ->
  exists j, ((k + i)%nat, j, flatLen (acv_Value v)) ∈ find_pairs k main target.
Proof.
  revert i. induction main as [|u main IH]; intros i k Hi Ht Hg; [done|]. cbn [find_pairs]. destruct i as [|i]; cbn in Hi.
  - injection Hi as ->. rewrite Ht. cbn [negb]. destruct Hg as [j ->]. exists j. rewrite Nat.add_0_r. by left.
  - destruct (IH i (k + 1)%nat Hi Ht Hg) as [j Hj]. exists j. replace (k + Datatypes.S i)%nat with (k + 1 + i)%nat by lia.
    destruct (negb _); [done|]. destruct (GetVariable target (acv_Scope u) (acv_Name u)); [by right|done].
Qed.

Lemma retrained_keys vars vars' : Forall2 retrained vars vars' -> var_key <$> vars' = var_key <$> vars.
Proof. induction 1 as [|v v' l l' Hv _ IH]; [done|]. rewrite !fmap_cons, IH. f_equal. apply Hv. Qed.

(** The pairs of a context with distinct variables and a full copy of it. *)
Lemma copy_pairs_ok main :
  NoDup (var_key <$> main) -> Forall (fun v => rect (acv_Value v)) main -> ac_ok (mkACContexts main (copied <$> main) (initTargetExecs main (copied <$> main))).
Proof.
  intros Hnd Hr. unfold ac_ok. cbn [acc_pairs]. apply list.Forall_forall. intros p (i & v & j & -> & Hv & Hj)%find_pairs_elem. cbn.
  unfold value_at at 1. rewrite Hv. cbn. destruct (GetVariable_found _ _ _ _ Hj) as (t & Ht & Hk). unfold value_at. rewrite Ht. cbn.
  rewrite list_lookup_fmap in Ht. apply fmap_Some in Ht as (u & Hu & ->). assert (i = j) as <-.
  { apply (NoDup_lookup (var_key <$> main) i j (var_key v) Hnd); rewrite list_lookup_fmap; [by rewrite Hv|]. rewrite Hu. cbn. f_equal. exact Hk. }
  simplify_eq. cbn. apply pair_ok_copy. by apply (Forall_lookup_1 _ _ _ _ Hr Hv).
Qed.

Lemma initNetworks_ok :
  exists main, initNetworks stateSize actionSize lr = Ok main /\ NoDup (var_key <$> main) /\ Forall (fun v => rect (acv_Value v)) main.
Proof.
  unfold initNetworks, train_critic. set (vars := concat _). match goal with |- context [gradient_step lr ?s ?u ?l vars] =>
    destruct (gradient_step_ok lr s u l vars) as (main & -> & HF) end. exists main. split; [done|]. split.
  - rewrite (retrained_keys _ _ HF). apply layer_keys. apply (bool_decide_eq_true_1 _). vm_compute. reflexivity.
  - pose proof (layer_rect (actor_layers stateSize actionSize ++ critic_layers stateSize actionSize)) as Hr. fold vars in Hr. clearbody vars. clear -HF Hr.
    induction HF as [|v v' l l' (_ & _ & Hd) _ IH]; [constructor|]. apply list.Forall_cons in Hr as [Hv Hr].
    apply list.Forall_cons. split; [by eapply rect_dims|by apply IH].
Qed.

(** NewDDPG's networks: the target starts as a copy of the main network, every
    trainable variable has its pair, and the pairs fit. *)
Lemma new_contexts_ok :
  exists n, new_contexts stateSize actionSize lr = Ok n /\ ac_ok n /\ acc_target n = copied <$> acc_main n /\
    forall i v, acc_main n !! i = Some v -> acv_Trainable v = true -> exists j, (i, j, flatLen (acv_Value v)) ∈ acc_pairs n.
Proof.
  destruct initNetworks_ok as (main & Hm & Hnd & Hr). unfold new_contexts. rewrite Hm, Ok_bind. unfold cloneContext.
  rewrite clone_all_spec by done. rewrite Ok_bind. eexists. split; [done|]. cbn [acc_main acc_target acc_pairs app]. split; [by apply copy_pairs_ok|].
  split; [done|]. intros i v Hv Ht. apply (find_pairs_complete main (copied <$> main) i v 0 Hv Ht).
  apply (GetVariable_some (copied <$> main) (copied v)). apply list_elem_of_fmap_2. by eapply list_elem_of_lookup_2.
Qed.
End setup.

(** ** The agent's networks *)

Section agent.
Context {O : GraphOps (list ACVar) float} {S : GraphShapes O} {Lb : ACLib} {LL : ACLibLaws Lb}.
Context (stateSize actionSize : Z) (lr : float).

(** Contexts whose pairs fit. *)
Definition FitContexts : Type := { n : ACContexts | ac_ok n }.

Definition actor_out (vars : list ACVar) (state : list float) : list float :=
  Reshape (Vars := list ACVar) (actorGraphBatched actionSize vars (InsertAxes (Vars := list ACVar) state)) actionSize.
Definition target_value (vars : list ACVar) (nextStates : list (list float)) : list float :=
  let nextActions := actorGraphBatched actionSize vars nextStates in
  criticGraphBatched vars nextStates nextActions.

#[local] Instance graph_agent : ACNet FitContexts := {|
  ac_actor := fun n s => Floats64 (actor_out (acc_main (proj1_sig n)) s);
  ac_targetQ := fun n rows => Floats64 (target_value (acc_target (proj1_sig n)) rows);
  ac_trainCritic := fun n states actions targets =>
    exist ac_ok (set_main (proj1_sig n) (train_critic stateSize actionSize lr (acc_main (proj1_sig n)) states actions targets))
      (set_main_ok lr (proj1_sig n) _ _ _ (proj2_sig n));
  ac_trainActor := fun n states =>
    exist ac_ok (set_main (proj1_sig n) (train_actor stateSize actionSize lr (acc_main (proj1_sig n)) states))
      (set_main_ok lr (proj1_sig n) _ _ _ (proj2_sig n));
  ac_pairs := fun n => pair_of (proj1_sig n) <$> acc_pairs (proj1_sig n);
  ac_SetValue := fun n k data => exist ac_ok (set_target (proj1_sig n) k data) (set_target_ok (proj1_sig n) k data (proj2_sig n));
|}.

Lemma actorGraphBatched_shape vars x : shape (actorGraphBatched actionSize vars x) (length x) (Z.to_nat actionSize).
Proof.
  unfold actorGraphBatched. apply Tanh_shape. rewrite <- (dense_relu_length vars ["actor"; "l1"]%string x ddpgHiddenSize).
  rewrite <- (dense_relu_length vars ["actor"; "l2"]%string (activations_Relu (layers_Dense vars ["actor"; "l1"]%string x ddpgHiddenSize)) ddpgHiddenSize).
  apply Dense_shape.
Qed.

Lemma criticGraphBatched_length vars x a c : shape x (length x) c -> shape a (length x) (Z.to_nat actionSize) -> length (criticGraphBatched vars x a) = length x.
Proof.
  intros Hx Ha. unfold criticGraphBatched. apply Squeeze_length. set (i := g_Concatenate x a).
  assert (Hi : length i = length x) by (apply (Concatenate_shape x a _ c (Z.to_nat actionSize) Hx Ha)). rewrite <- Hi.
  rewrite <- (dense_relu_length vars ["critic"; "l1"]%string i ddpgHiddenSize).
  rewrite <- (dense_relu_length vars ["critic"; "l2"]%string (activations_Relu (layers_Dense vars ["critic"; "l1"]%string i ddpgHiddenSize)) ddpgHiddenSize).
  apply (Dense_shape _ _ _ 1).
Qed.

(** What the optimizer relies on: one action per parameter, one value per row, and
    pairs that can be averaged. *)
Lemma graph_agent_laws : ACNetLaws (AC := graph_agent) (Z.to_nat actionSize).
Proof.
  split.
  - intros net s. unfold tensorToFloat64. cbn. unfold actor_out. apply Reshape_length. pose proof (actorGraphBatched_shape (acc_main (proj1_sig net)) (InsertAxes s)) as H.
    by rewrite (proj1 (InsertAxes_shape s)) in H.
  - intros net rows c Hc. unfold tensorToFloat64. cbn. apply (criticGraphBatched_length _ _ _ c); [by split|apply actorGraphBatched_shape].
  - intros [n Hok]. cbn. by apply Forall_fmap.
Qed.

(** The actor's step moves the variables that EnumerateVariables visits from the
    context of the actor: when it visits that scope only, the critic stays as it was;
    when it visits the whole context, the step also moves the critic's variables, which
    the actor's loss goes through, towards larger values. *)
Definition under (scope : string) (v : ACVar) : bool := bool_decide (head (acv_Scope v) = Some scope).

Lemma train_actor_keeps_critic vars vars' states i v :
  (forall v, ac_visits ["actor"%string] v = under "actor" v) -> train_actor stateSize actionSize lr vars states = Ok vars' ->
  vars !! i = Some v -> under "critic" v = true -> vars' !! i = Some v.
Proof.
  intros Hvis Ht Hi Hc. eapply gradient_step_keeps; [exact Ht|exact Hi|]. unfold step_selected. rewrite Hvis. unfold under in *.
  apply bool_decide_eq_true_1 in Hc. rewrite bool_decide_eq_false_2; [done|]. congruence.
Qed.

Lemma train_actor_moves_critic vars vars' states i v :
  (forall v, ac_visits ["actor"%string] v = true) -> train_actor stateSize actionSize lr vars states = Ok vars' ->
  vars !! i = Some v -> acv_Trainable v = true -> ac_InUse (paths (actor_layers stateSize actionSize ++ critic_layers stateSize actionSize)) v = true ->
  exists g, vars' !! i = Some (mkACVar (acv_Scope v) (acv_Name v) true (val_Sub (acv_Value v) (val_Mul lr g))).
Proof.
  intros Hvis. unfold train_actor, gradient_step. match goal with |- context [ac_gradients ?l vars ?p] => generalize (ac_gradients l vars p) end.
  set (sel := step_selected _ _). revert vars' i. induction vars as [|u vars IH]; intros vars' i grads; cbn [descend_with]; [by intros _|].
  intros H Hi Ht Hu. destruct (sel u) eqn:Hsel; [destruct grads as [|g grads]; [done|]|].
  - apply bind_Ok in H as (u' & [= <-] & (rest & Hr & [= <-])%bind_Ok). destruct i as [|i]; cbn in Hi |- *; [|by eapply IH].
    injection Hi as ->. exists g. by rewrite Ht.
  - apply bind_Ok in H as (rest & Hr & [= <-]). destruct i as [|i]; cbn in Hi |- *; [|by eapply IH].
    injection Hi as ->. revert Hsel. unfold sel, step_selected. by rewrite Hvis, Ht, Hu.
Qed.

(** *** Rounds of training *)

(** One call of Train after sampling: the batch's states and actions and the
    targets. *)
Definition train_round (r : list (list float) * list (list float) * list float) (net : FitContexts) : result FitContexts :=
  let '(states, actions, targets) := r in
  let net := ac_trainCritic net states actions targets in
  let net := ac_trainActor net states in
  softUpdate net.
Fixpoint train_rounds (rs : list (list (list float) * list (list float) * list float)) (net : FitContexts) : result FitContexts :=
  match rs with [] => Ok net | r :: rs => net ← train_round r net; train_rounds rs net end.

Lemma retrained_refl v : retrained v v.
Proof. split; [done|]. split; [done|]. apply same_dims_refl. Qed.
Lemma retrained_all_refl vs : Forall2 retrained vs vs.
Proof. apply Forall_Forall2_diag, list.Forall_forall. intros v _. apply retrained_refl. Qed.
Lemma retrained_trans u v w : retrained u v -> retrained v w -> retrained u w.
Proof. intros (? & ? & ?) (? & ? & ?). split; [congruence|]. split; [congruence|]. by eapply same_dims_trans. Qed.
Lemma retrained_all_trans l1 l2 l3 : Forall2 retrained l1 l2 -> Forall2 retrained l2 l3 -> Forall2 retrained l1 l3.
Proof. intros H. revert l3. induction H as [|u v l1 l2 Huv _ IH]; intros l3 H3; inversion H3; subst; constructor; eauto using retrained_trans. Qed.

(** The names and dimensions of both networks are those of [n0]. *)
Definition keeps (n0 n : ACContexts) : Prop := Forall2 retrained (acc_main n0) (acc_main n) /\ Forall2 retrained (acc_target n0) (acc_target n).

Lemma set_main_keeps n0 n scope used loss : keeps n0 n -> keeps n0 (set_main n (gradient_step lr scope used loss (acc_main n))).
Proof.
  intros [Hm Ht]. destruct (gradient_step_ok lr scope used loss (acc_main n)) as (main & -> & HF). split; cbn; [by eapply retrained_all_trans|done].
Qed.
Lemma set_target_keeps n0 n k data : keeps n0 n -> keeps n0 (set_target n k data).
Proof.
  intros [Hm Ht]. unfold set_target. destruct (acc_pairs n !! k) as [[[i j] b]|]; [|done]. split; [done|]. cbn. eapply retrained_all_trans; [exact Ht|].
  clear. generalize (acc_target n). intros vs. revert j. induction vs as [|v vs IH]; intros [|j]; [constructor..| |]; cbn.
  - constructor; [|apply retrained_all_refl]. split; [done|]. split; [done|]. apply SetValue_dims.
  - constructor; [apply retrained_refl|apply IH].
Qed.

Lemma soft_pairs_keeps n0 ps : forall i (net net' : FitContexts), keeps n0 (proj1_sig net) -> soft_pairs i ps net = Ok net' -> keeps n0 (proj1_sig net').
Proof.
  induction ps as [|p ps IH]; intros i net net' Hk; cbn [soft_pairs]; [by intros [= <-]|]. intros (v & _ & H)%bind_Ok.
  eapply IH; [|exact H]. destruct v; [by apply set_target_keeps|done].
Qed.

Lemma train_round_ok n0 r (net : FitContexts) : keeps n0 (proj1_sig net) -> exists net', train_round r net = Ok net' /\ keeps n0 (proj1_sig net').
Proof.
  destruct r as [[states actions] targets]. intros Hk. unfold train_round. cbv zeta.
  match goal with |- context [softUpdate ?x] => set (net1 := x) end. destruct (softUpdate_total (AL := graph_agent_laws) net1) as (net' & Hs).
  exists net'. split; [done|]. eapply soft_pairs_keeps; [|exact Hs]. by apply set_main_keeps, set_main_keeps.
Qed.

(** C34: NewDDPG's networks are ready to train: the target network is a copy of the main
    one with a fitting pair for every trainable variable, and any number of training
    rounds on any batches returns networks with the same variables in the same
    dimensions. *)
Theorem agent_networks_train (rounds : list (list (list float) * list (list float) * list float)) :
  exists n (Hok : ac_ok n) net,
    new_contexts stateSize actionSize lr = Ok n /\ acc_target n = copied <$> acc_main n /\
    (forall i v, acc_main n !! i = Some v -> acv_Trainable v = true -> exists j, (i, j, flatLen (acv_Value v)) ∈ acc_pairs n) /\
    train_rounds rounds (exist ac_ok n Hok) = Ok net /\ keeps n (proj1_sig net).
Proof.
  destruct (new_contexts_ok stateSize actionSize lr) as (n & Hn & Hok & Ht & Hp).
  assert (Hrun : forall net : FitContexts, keeps n (proj1_sig net) -> exists net', train_rounds rounds net = Ok net' /\ keeps n (proj1_sig net')).
  { induction rounds as [|r rounds IH]; intros net Hk; cbn [train_rounds]; [by exists net|].
    destruct (train_round_ok n r net Hk) as (net1 & -> & Hk1). rewrite Ok_bind. by apply IH. }
  destruct (Hrun (exist ac_ok n Hok)) as (net & Hr & Hk); [split; apply retrained_all_refl|]. by exists n, Hok, net.
Qed.
End agent.

(** ** A library that keeps the laws *)

(** The gradient is the variable itself; layers start at one half. *)
Definition map_val (f : float -> float) (v : VarValue) : VarValue :=
  match v with Vec64 l => Vec64 (f <$> l) | Vec32 l => Vec32 (f <$> l) | Mat64 rows => Mat64 ((fun r : list float => f <$> r) <$> rows) | OtherVar => OtherVar end.
Definition key_is (k : list string * string) (v : ACVar) : Prop := var_key v = k.
#[export] Instance key_is_dec k v : Decision (key_is k v).
Proof. unfold key_is. apply _. Defined.

(** [whole]: enumerating visits the whole context, whatever the scope. *)
Definition plain_ac (whole : bool) : ACLib := {|
  vec_Sub := zip_with PrimFloat.sub;
  vec_Mul := zip_with PrimFloat.mul;
  ReduceAllMean := fun l => (num_sum l / of_int (Z.of_nat (length l)))%float;
  g_Neg := PrimFloat.opp;
  val_Mul := fun lr => map_val (PrimFloat.mul lr);
  val_Sub := fun w g =>
    match w, g with
    | Vec64 l, Vec64 k => Vec64 (zip_with PrimFloat.sub l k)
    | Vec32 l, Vec32 k => Vec32 (zip_with PrimFloat.sub l k)
    | Mat64 r, Mat64 s => Mat64 (zip_with (zip_with PrimFloat.sub) r s)
    | _, _ => w
    end;
  ac_InUse := fun paths v => bool_decide (acv_Scope v ∈ paths);
  ac_visits := fun scope v => whole || bool_decide (take (length scope) (acv_Scope v) = scope);
  ac_gradients := fun _ vars sel => acv_Value <$> filter (fun v => sel v = true) vars;
  ac_layer_vars := fun path i o =>
    [mkACVar path "weights" true (Mat64 (replicate (Z.to_nat i) (replicate (Z.to_nat o) 0.5%float)));
     mkACVar path "biases" true (Vec64 (replicate (Z.to_nat o) 0%float))];
  LocalClone := Some;
  VariableWithValue := fun scope name v c =>
    if decide ((scope, name) ∈ var_key <$> c) then Err (ErrLib "gomlx" "variable already exists") else Ok (c ++ [mkACVar scope name true v]);
  GetVariable := fun c scope name => fst <$> list_find (key_is (scope, name)) c;
|}.

Lemma map_val_dims f w g : same_dims w g -> same_dims w (map_val f g).
Proof.
  destruct w, g; cbn; try done; rewrite ?length_fmap; try done. intros H%row_lengths. apply rows_of_lengths. rewrite H, <- list_fmap_compose.
  apply list_fmap_ext. intros i r _. cbn. by rewrite length_fmap.
Qed.

Lemma plain_ac_laws whole : ACLibLaws (plain_ac whole).
Proof.
  split; cbn.
  - intros _ vars sel. induction (filter _ vars) as [|v l IH]; constructor; [apply same_dims_refl|done].
  - intros lr. apply map_val_dims.
  - intros w g. destruct w, g; cbn; try done; rewrite ?length_zip_with; try lia. induction 1 as [|x y r s Hxy _ IH]; constructor; [rewrite length_zip_with; lia|done].
  - done.
  - intros scope name v c H. by rewrite decide_False.
  - intros c scope name i ([j v] & Hf & [= <-])%fmap_Some. apply list_find_Some in Hf as (Hv & Hk & _). by exists v.
  - intros c v Hv. apply fmap_is_Some, (list_find_elem_of _ _ v Hv). done.
  - intros path i o. repeat constructor. cbn. apply list.Forall_forall. intros r [-> Hi]%elem_of_replicate. by destruct (Z.to_nat i).
  - intros path i o. rewrite list.NoDup_cons, list_elem_of_singleton. split; [done|apply list.NoDup_singleton].
  - intros path i o path' i' o' k Hne Hn Hn'. apply Hne. rewrite !elem_of_cons, elem_of_nil in Hn, Hn'.
    destruct Hn as [-> | [-> | []]], Hn' as [E | [E | []]]; unfold var_key in E; cbn in E; by injection E.
Qed.

Definition ac_layer (c : list ACVar) (path : list string) : list float * list float :=
  let at_ name := from_option (fun v => match v.2.(acv_Value) with Vec64 l | Vec32 l => l | Mat64 rows => concat rows | OtherVar => [] end) []
                    (list_find (key_is (path, name)) c) in
  (at_ "weights", at_ "biases")%string.
Definition ac_ops : GraphOps (list ACVar) float :=
  list_ops ac_layer (fun x => if (x <? 0)%float then 0%float else x) id (fun _ => 0) (fun _ => 0).

(** ** The property at a concrete agent *)

Lemma agent_networks_train_witness :
  exists n (Hok : ac_ok n) net,
    new_contexts (O := ac_ops) (Lb := plain_ac false) 3 1 0.1%float = Ok n /\
    train_rounds (O := ac_ops) (LL := plain_ac_laws false) 3 1 0.1%float [([[1; 0; 1]], [[1]], [1]); ([[0; 0; 1]], [[0]], [0.5])]%float (exist ac_ok n Hok) = Ok net /\
    keeps n (proj1_sig net).
Proof.
  destruct (agent_networks_train (O := ac_ops) (S := list_ops_shapes _ _ _ _ _) (LL := plain_ac_laws false) 3 1 0.1%float
    [([[1; 0; 1]], [[1]], [1]); ([[0; 0; 1]], [[0]], [0.5])]%float) as (n & Hok & net & Hn & _ & _ & Hr & Hk).
  exists n, Hok, net. split; [exact Hn|]. split; [exact Hr|]. exact Hk.
Defined.
