(* ===== verification/Background.v ===== *)
(** * Background goroutines (src/pkg/broker/broker.go, load_predictor.go, offset_store.go, src/pkg/optimizer/optimizer.go)

    The groups of goroutines that Start begins and Stop waits for, as a step relation
    on the state they share with the requests: ticks, panics that are recovered,
    cancellation and the return of each loop.  Then the offset store with its dump loop:
    what a store opened after a stop or a crash knows of the offsets that were
    committed. *)

From S2P Require Import Prelude Message PriorityIndex Wal Compression GoFloat Config Partition Topic Backpressure OffsetStore LoadPredictor Metrics Balancer Scheduler.
From S2P Require Import NN Preprocessing Broker Optimizer.

(** ** Groups of loops *)

Section group.
Context {In St : Type}.

(** What a tick of each loop does with the clock readings and draws it meets. *)
Definition loops : Type := list (In -> St -> result St).

(** A loop runs, was ended by a panic, or returned because the context was done. *)
Inductive phase : Type := Running | Recovered | Returned.

(** An errgroup with its context, and the state the loops work on. *)
Record group : Type := mkGroup { g_state : St; g_cancelled : bool; g_phases : list phase }.

(** Start: one goroutine per loop. *)
Definition group_Start (ls : loops) (st : St) : group := mkGroup st false (replicate (length ls) Running).
(** cancel() *)
Definition group_cancel (g : group) : group := mkGroup (g_state g) true (g_phases g).
(** Wait returns when every goroutine has ended. *)
Definition group_waited (g : group) : bool := forallb (fun p => match p with Running => false | _ => true end) (g_phases g).

Definition set_phase (i : nat) (p : phase) (g : group) : group := mkGroup (g_state g) (g_cancelled g) (<[i := p]> (g_phases g)).
Definition set_state (st : St) (g : group) : group := mkGroup st (g_cancelled g) (g_phases g).

(** A step of the group.  A tick may be chosen also when the context is done; the
    deferred function recovers a panic, wherever it left the state, and the goroutine
    returns. *)
Inductive group_step (ls : loops) : group -> group -> Prop :=
| step_tick g i body x st :
    ls !! i = Some body -> g_phases g !! i = Some Running -> body x (g_state g) = Ok st -> group_step ls g (set_state st g)
| step_panic g i body x st :
    ls !! i = Some body -> g_phases g !! i = Some Running -> is_ok (body x (g_state g)) = false -> group_step ls g (set_phase i Recovered (set_state st g))
| step_return g i :
    g_phases g !! i = Some Running -> g_cancelled g = true -> group_step ls g (set_phase i Returned g).

(** Steps of the group, with what the others do in between. *)
Inductive group_run (ls : loops) (others : St -> St -> Prop) : group -> group -> Prop :=
| run_done g : group_run ls others g g
| run_step g g1 g2 : group_step ls g g1 -> group_run ls others g1 g2 -> group_run ls others g g2
| run_cancel g g2 : group_run ls others (group_cancel g) g2 -> group_run ls others g g2
| run_others g st g2 : others (g_state g) st -> group_run ls others (set_state st g) g2 -> group_run ls others g g2.

#[export] Instance phase_eq_dec : EqDecision phase.
Proof. solve_decision. Defined.

(** The loops that still run. *)
Definition running (g : group) : nat := length (filter (fun p => p = Running) (g_phases g)).

Lemma waited_running g : group_waited g = true <-> forall i, g_phases g !! i <> Some Running.
Proof.
  unfold group_waited. rewrite forallb_forall. split.
  - intros H i Hi. by apply list_elem_of_lookup_2, list_elem_of_In, H in Hi.
  - intros H p Hp%list_elem_of_In. destruct p; [|done..]. apply list_elem_of_lookup in Hp as [i Hi]. by apply H in Hi.
Qed.

Lemma step_keeps_ended ls g g' i p : group_step ls g g' -> g_phases g !! i = Some p -> p <> Running -> g_phases g' !! i = Some p.
Proof.
  intros Hs Hi Hp. destruct Hs as [g j body x st Hb Hj|g j body x st Hb Hj|g j Hj Hc]; cbn; [done|..];
    (rewrite list_lookup_insert_ne; [done|]; intros ->; congruence).
Qed.

(** A loop that ended, by a panic or by returning, never runs again. *)
Lemma run_keeps_ended ls others g g' i p : group_run ls others g g' -> g_phases g !! i = Some p -> p <> Running -> g_phases g' !! i = Some p.
Proof.
  intros Hr. induction Hr as [| | |]; intros Hi Hp; [done|..]; eauto using step_keeps_ended.
Qed.

(** After Wait has returned, only the others change the state. *)
Lemma waited_run ls others g g' : group_run ls others g g' -> group_waited g = true -> group_waited g' = true /\ rtc others (g_state g) (g_state g').
Proof.
  intros Hr. induction Hr as [g|g g1 g2 Hs _ _|g g2 _ IH|g st g2 Ho _ IH]; intros Hw.
  - done.
  - rewrite waited_running in Hw. destruct Hs; exfalso; by eapply Hw.
  - by apply IH.
  - destruct (IH Hw) as [Hw' Hrtc]. split; [done|]. by eapply rtc_l.
Qed.

Lemma running_return i g : g_phases g !! i = Some Running -> running g = S (running (set_phase i Returned g)).
Proof.
  unfold running, set_phase. cbn [g_phases]. intros Hi. pose proof (lookup_lt_Some _ _ _ Hi) as Hlt.
  rewrite (insert_take_drop _ _ _ Hlt). rewrite <- (take_drop_middle _ _ _ Hi) at 1.
  rewrite !list.filter_app, !length_app, !filter_cons. rewrite decide_True, decide_False by done. cbn [length]. lia.
Qed.

(** Stop returns: when the context is done every loop can return, and that many
    steps bring Wait to its end without touching the state. *)
Lemma stop_returns ls g : g_cancelled g = true ->
  exists g', nsteps (group_step ls) (running g) g g' /\ group_waited g' = true /\ g_state g' = g_state g.
Proof.
  intros Hc. remember (running g) as n eqn:Hn. revert g Hc Hn. induction n as [|n IH]; intros g Hc Hn.
  - exists g. split; [constructor|]. split; [|done]. apply waited_running. intros i Hi%running_return. lia.
  - destruct (filter (fun p => p = Running) (g_phases g)) as [|p ps] eqn:Hf; [unfold running in Hn; by rewrite Hf in Hn|].
    assert (Hp : p ∈ filter (fun p => p = Running) (g_phases g)) by (rewrite Hf; by left).
    apply list_elem_of_filter in Hp as [-> [i Hi]%list_elem_of_lookup].
    destruct (IH (set_phase i Returned g)) as (g' & Hsteps & Hw & Hst); [done|apply running_return in Hi; lia|].
    exists g'. split; [|done]. eapply nsteps_l; [by apply step_return|done].
Qed.
End group.
Arguments loops : clear implicits.
Arguments group : clear implicits.

(** ** The groups of the program *)

Section groups.
Context {W : Wal} {K : Compressors} {F : Filepath} {D : Badger} {G : Gonum} {V : Govy} {R : MapRange} {E : BrokerEnv}.
Context {Bal : Type} {B : Balancer Bal} {Sch : Type} {Sc : Scheduler Sch}.

Definition broker_loops : loops Time (Broker (Bal := Bal) (Sch := Sch)) :=
  [metrics_tick; fun now b => Ok (retention_tick now b); fun now b => Ok (session_tick now b)].
Definition broker_Start (b : Broker (Bal := Bal) (Sch := Sch)) : group Broker := group_Start broker_loops b.

(** The end of Stop, once Wait has returned. *)
Definition broker_stopped (g : group (Broker (Bal := Bal) (Sch := Sch))) : option Broker :=
  if group_waited g then Some (broker_Stop (g_state g)) else None.

Definition predictor_loops : loops unit LoadPredictor := [fun _ lp => predict lp].
Definition predictor_Start (lp : LoadPredictor) : group LoadPredictor := group_Start predictor_loops lp.

Definition optimizer_loops {L : GonumLA} {Net : Type} {AC : ACNet Net} : loops TickEnv (Optimizer Net * Broker (Bal := Bal) (Sch := Sch)) :=
  [fun env '(o, b) => opt_step env o b].
Definition optimizer_Start {L : GonumLA} {Net : Type} {AC : ACNet Net} (o : Optimizer Net) (b : Broker (Bal := Bal) (Sch := Sch)) :
    group (Optimizer Net * Broker (Bal := Bal) (Sch := Sch)) := group_Start optimizer_loops (o, b).

(** Stopping a started broker: whatever the requests and the loops did before, Stop
    comes to its end in at most three steps of the loops, and the topics it leaves are
    those of the moment it was called, closed. *)
Lemma broker_stop_returns others b g :
  group_run broker_loops others (broker_Start b) g ->
  exists g' b' n, (n <= 3)%nat /\ nsteps (group_step broker_loops) n (group_cancel g) g' /\ broker_stopped g' = Some b' /\
    b_topics b' = (fun t => fst (topic_Close t)) <$> b_topics (g_state g).
Proof.
  intros Hrun. destruct (stop_returns broker_loops (group_cancel g)) as (g' & Hs & Hw & Hst); [done|].
  exists g', (broker_Stop (g_state g')), (running (group_cancel g)). split.
  - assert (Hlen : length (g_phases g) = 3%nat).
    { clear -Hrun. remember (broker_Start b) as g0 eqn:H0. assert (length (g_phases g0) = 3%nat) as Hl by (by rewrite H0). clear H0.
      induction Hrun as [|g g1 g2 Hs _ IH| |]; auto. apply IH. destruct Hs; cbn; rewrite ?length_insert; done. }
    unfold running, group_cancel. cbn [g_phases]. rewrite <- Hlen. apply length_filter.
  - split; [done|]. unfold broker_stopped. rewrite Hw. split; [done|]. rewrite Hst. unfold broker_Stop. by destruct (b_offsetStore _).
Qed.
End groups.

(** ** Offsets across stops and crashes *)

(** What reaches an offset store: commits, ticks of its dump loop, expiry of sessions
    and deleted topics, in any order. *)
Inductive store_event : Type :=
| EvCommit (now : Time) (group topic : string) (partition offset : Z)
| EvDump
| EvExpire (now : Time) (timeout : Z)
| EvDeleteTopic (topic : string).

Section offsets.
Context {D : Badger}.

(** dumpLoop runs only when there is an interval. *)
Definition store_do (e : store_event) (s : OffsetStore) : OffsetStore * list error :=
  match e with
  | EvCommit now group topic partition offset => let '(s, r) := Commit now s group topic partition offset in (s, logged r)
  | EvDump => if 0 <? dumpInterval s then dump s else (s, [])
  | EvExpire now timeout => (ExpireSessions now s timeout, [])
  | EvDeleteTopic topic => store_DeleteTopic s topic
  end.
Fixpoint store_run (evs : list store_event) (s : OffsetStore) : OffsetStore * list error :=
  match evs with
  | [] => (s, [])
  | e :: evs => let '(s, errs) := store_do e s in let '(s, errs') := store_run evs s in (s, errs ++ errs')
  end.

(** What Close does to the store, and the errors that are logged: the last round of
    dumpLoop. *)
Definition store_closing (s : OffsetStore) : OffsetStore * list error := store_do EvDump s.

Lemma store_closing_Close s : fst (store_closing s) = fst (store_Close s).
Proof. unfold store_closing, store_do, store_Close. by destruct (0 <? dumpInterval s). Qed.

(** The offsets committed under a key. *)
Definition committed (evs : list store_event) (key : string) (v : Z) : Prop :=
  exists now group topic partition, EvCommit now group topic partition v ∈ evs /\ bucketKey topic partition group = key.
Definition event_ok (e : store_event) : Prop := match e with EvCommit _ _ _ _ offset => in_i64 offset | _ => True end.

Context {DL : BadgerLaws D}.

(** What failing calls of the database do: every key has its old contents or what one
    of the writes put there. *)
Class BadgerFaults : Prop := {
  badger_Set_any db k v db' r : badger_Set db k v = (db', r) -> badger_kv db' = badger_kv db \/ badger_kv db' = <[k := v]> (badger_kv db);
  wb_Set_any b k v b' r : wb_Set b k v = (b', r) -> wb_ops b' = wb_ops b \/ wb_ops b' = wb_ops b ++ [(k, Some v)];
  wb_Delete_any b k b' r : wb_Delete b k = (b', r) -> wb_ops b' = wb_ops b \/ wb_ops b' = wb_ops b ++ [(k, None)];
  wb_Flush_any db b db' r : wb_Flush db b = (db', r) ->
    forall k, badger_kv db' !! k = badger_kv db !! k \/ exists o, (k, o) ∈ wb_ops b /\ badger_kv db' !! k = o;
}.
Context {DF : BadgerFaults}.

(** The database has an offset under a cache key. *)
Definition on_disk (d : bdb) (key : string) (v : Z) : Prop :=
  exists bs, badger_kv d !! badgerKey key = Some bs /\ length bs = 8%nat /\ v = i64 (be_get bs).

(** Every offset in memory and in the database is one of those [Q] allows. *)
Definition allowed (Q : string -> Z -> Prop) (s : OffsetStore) : Prop :=
  (forall k v, cache s !! k = Some v -> Q k v) /\ (forall k v, on_disk (db s) k v -> Q k v).

(** Whatever is in memory is in the database. *)
Definition mirrored (s : OffsetStore) : Prop := forall k v, cache s !! k = Some v -> on_disk (db s) k v.

(** As NewOffsetStore leaves them, memory and database agree. *)
Definition agrees (s : OffsetStore) : Prop := forall k v, cache s !! k = Some v <-> on_disk (db s) k v.

Lemma encoded_on_disk d k v : badger_kv d !! badgerKey k = Some (encode_offset v) -> in_i64 v -> on_disk d k v.
Proof. intros Hk Hv. exists (encode_offset v). split; [done|]. split; [apply length_be_put|by rewrite decode_encode]. Qed.

Lemma wb_set_all_any entries b b' errs k o :
  wb_set_all entries b = (b', errs) -> (badgerKey k, o) ∈ wb_ops b' -> (badgerKey k, o) ∈ wb_ops b \/ exists v, (k, v) ∈ entries /\ o = Some (encode_offset v).
Proof.
  revert b errs. induction entries as [|[k' v] es IH]; intros b errs; cbn; [intros [= <- <-]; by left|].
  destruct (wb_Set b _ _) as [b1 r] eqn:E. destruct (wb_set_all es b1) as [b2 errs2] eqn:E2. intros [= <- <-] Hin.
  destruct (IH _ _ E2 Hin) as [Hb|(v' & Hv & ->)]; [|right; exists v'; split; [by right|done]].
  apply wb_Set_any in E as [Heq|Heq]; rewrite Heq in Hb; [by left|]. rewrite elem_of_app, list_elem_of_singleton in Hb. destruct Hb as [Hb|[->%badgerKey_inj ->]%pair_equal_spec]; [by left|].
  right. exists v. split; [by left|done].
Qed.

Lemma wb_delete_all_any keys b k o : (badgerKey k, o) ∈ wb_ops (wb_delete_all keys b) -> (badgerKey k, o) ∈ wb_ops b \/ k ∈ keys /\ o = None.
Proof.
  revert b. induction keys as [|k' ks IH]; intros b; cbn; [by left|]. intros [Hb|[Hk ->]]%IH; [|right; split; [by right|done]].
  destruct (wb_Delete b _) as [b1 r] eqn:E. cbn [fst] in Hb. apply wb_Delete_any in E as [Heq|Heq]; rewrite Heq in Hb; [by left|].
  apply elem_of_app in Hb as [Hb|[->%badgerKey_inj ->]%list_elem_of_singleton%pair_equal_spec]; [by left|]. right. split; [by left|done].
Qed.

Lemma lookup_foldr_delete_Some (ks : list string) (c : gmap string Z) k v : foldr delete c ks !! k = Some v -> c !! k = Some v.
Proof.
  destruct (decide (k ∈ ks)); [by rewrite lookup_foldr_delete|by rewrite lookup_foldr_delete_not_elem_of].
Qed.

Section preserved.
Context (Q : string -> Z -> Prop) (HQ : forall k v, Q k v -> in_i64 v).

Lemma commit_allowed now s group topic partition offset :
  Q (bucketKey topic partition group) offset -> allowed Q s -> allowed Q (fst (Commit now s group topic partition offset)).
Proof.
  intros Hq [Hc Hd]. set (key := bucketKey topic partition group) in *.
  assert (Hcache : forall k v, <[key := offset]> (cache s) !! k = Some v -> Q k v).
  { intros k v [[<- <-]|[_ Hk]]%lookup_insert_Some; [done|by apply Hc]. }
  unfold Commit. cbn [dumpInterval]. fold key. destruct (0 <? dumpInterval s); cbn [fst]; [done|]. unfold writeOne. cbn [db].
  destruct (badger_Set _ _ _) as [d r] eqn:E. apply badger_Set_any in E. split; [done|]. cbn [fst with_db db]. intros k v (bs & Hbs & Hl & ->).
  destruct E as [E|E]; rewrite E in Hbs; [apply Hd; by exists bs|]. apply lookup_insert_Some in Hbs as [[Hk%badgerKey_inj <-]|[_ Hk]]; [|apply Hd; by exists bs].
  subst k. rewrite decode_encode; [done|by eapply HQ].
Qed.

Lemma dump_allowed s : allowed Q s -> allowed Q (fst (dump s)).
Proof.
  intros [Hc Hd]. unfold dump. destruct (wb_set_all _ _) as [b errs] eqn:E. case_decide; [done|].
  destruct (wb_Flush _ b) as [d r] eqn:F. split; [done|]. cbn [fst with_db db]. intros k w (bs & Hbs & Hl & ->).
  destruct (wb_Flush_any _ _ _ _ F (badgerKey k)) as [E' | (o & Ho & E')]; rewrite E' in Hbs; [apply Hd; by exists bs|].
  destruct (wb_set_all_any _ _ _ _ _ _ E Ho) as [Hn|(v & Hv & ->)]; [by rewrite badger_New_ops in Hn; apply not_elem_of_nil in Hn|].
  injection Hbs as <-. apply elem_of_map_to_list, Hc in Hv. rewrite decode_encode; [done|by eapply HQ].
Qed.

Lemma delete_allowed s topic : allowed Q s -> allowed Q (fst (store_DeleteTopic s topic)).
Proof.
  intros [Hc Hd]. unfold store_DeleteTopic. destruct (wb_Flush _ _) as [d r] eqn:F. split; cbn [fst with_db with_cache db cache].
  - intros k v Hk%lookup_foldr_delete_Some. by apply Hc.
  - intros k w (bs & Hbs & Hl & ->). destruct (wb_Flush_any _ _ _ _ F (badgerKey k)) as [E | (o & Ho & E)]; rewrite E in Hbs; [apply Hd; by exists bs|].
    apply wb_delete_all_any in Ho as [Hn|[_ ->]]; [by rewrite badger_New_ops in Hn; apply not_elem_of_nil in Hn|done].
Qed.

Lemma expire_allowed now timeout s : allowed Q s -> allowed Q (ExpireSessions now s timeout).
Proof. intros [Hc Hd]. split; [|done]. cbn. intros k v Hk%lookup_foldr_delete_Some. by apply Hc. Qed.

Lemma do_allowed e s : (forall k v, committed [e] k v -> Q k v) -> allowed Q s -> allowed Q (fst (store_do e s)).
Proof.
  intros He Hs. destruct e as [now group topic partition offset| |now timeout|topic]; cbn.
  - pose proof (commit_allowed now s group topic partition offset) as H. destruct (Commit _ _ _ _ _ _). apply H; [|done].
    apply He. exists now, group, topic, partition. split; [by left|done].
  - destruct (0 <? dumpInterval s); [by apply dump_allowed|done].
  - by apply expire_allowed.
  - by apply delete_allowed.
Qed.

Lemma run_allowed evs s : (forall k v, committed evs k v -> Q k v) -> allowed Q s -> allowed Q (fst (store_run evs s)).
Proof.
  revert s. induction evs as [|e evs IH]; intros s He Hs; [done|]. cbn.
  assert (H1 : allowed Q (fst (store_do e s))).
  { apply do_allowed; [|done]. intros k v (now & g & t & p & [= <-]%list_elem_of_singleton & Hk). apply He. exists now, g, t, p. split; [by left|done]. }
  destruct (store_do e s) as [s1 errs]. specialize (IH s1). destruct (store_run evs s1) as [s2 errs']. apply IH; [|done].
  intros k v (now & g & t & p & Hin & Hk). apply He. exists now, g, t, p. split; [by right|done].
Qed.
End preserved.

(** Without an interval and without an error, memory never gets ahead of the
    database. *)
Lemma do_mirrored e s s' : event_ok e -> dumpInterval s <= 0 -> mirrored s -> store_do e s = (s', []) -> mirrored s' /\ dumpInterval s' <= 0.
Proof.
  intros He Hi Hm. destruct e as [now group topic partition offset| |now timeout|topic]; cbn.
  - unfold Commit. cbn [dumpInterval]. rewrite (proj2 (Z.ltb_ge _ _) Hi). unfold writeOne. cbn [db].
    destruct (badger_Set _ _ _) as [d r] eqn:E. intros [= <- Hr]. destruct r as [[]|e|]; [|done..]. apply badger_Set_Ok in E. split; [|done].
    intros k v. cbn [with_db cache db]. intros [[<- <-]|[Hne Hk]]%lookup_insert_Some.
    + apply encoded_on_disk; [|done]. cbn. rewrite E. apply lookup_insert_eq.
    + destruct (Hm _ _ Hk) as (bs & Hbs & ?). exists bs. split; [|done]. cbn. rewrite E, lookup_insert_ne; [done|]. by intros ?%badgerKey_inj.
  - rewrite (proj2 (Z.ltb_ge _ _) Hi). by intros [= <-].
  - intros [= <-]. split; [|done]. intros k v. cbn. intros Hk%lookup_foldr_delete_Some. by apply Hm.
  - unfold store_DeleteTopic. destruct (wb_Flush _ _) as [d r] eqn:F. intros [= <- _]. split; [|done]. intros k v. cbn [with_db with_cache cache db]. intros Hk.
    destruct (decide (k ∈ topic_keys topic (cache s))) as [Hd|Hd]; [by rewrite lookup_foldr_delete in Hk|]. rewrite lookup_foldr_delete_not_elem_of in Hk by done.
    destruct (Hm _ _ Hk) as (bs & Hbs & ?). exists bs. split; [|done]. cbn.
    destruct (wb_Flush_any _ _ _ _ F (badgerKey k)) as [-> | (o & Ho & _)]; [done|]. exfalso.
    apply wb_delete_all_any in Ho as [Hn|[? _]]; [|done]. by rewrite badger_New_ops in Hn; apply not_elem_of_nil in Hn.
Qed.

Lemma run_mirrored evs s s' : Forall event_ok evs -> dumpInterval s <= 0 -> mirrored s -> store_run evs s = (s', []) -> mirrored s'.
Proof.
  revert s. induction evs as [|e evs IH]; intros s Hev Hi Hm; cbn; [by intros [= <-]|]. apply list.Forall_cons in Hev as [He Hev].
  destruct (store_do e s) as [s1 errs] eqn:E. destruct (store_run evs s1) as [s2 errs'] eqn:E'. intros [= <- [-> ->]%app_eq_nil].
  destruct (do_mirrored e s s1 He Hi Hm E) as [Hm1 Hi1]. by eapply IH.
Qed.

(** ** Opening the store again *)

Lemma warm_cache_sound items c c' k v :
  warm_cache items c = Ok c' -> c' !! k = Some v ->
  c !! k = Some v \/ exists K bs, (K, Ok bs) ∈ items /\ String.substring (String.length offsetsPrefix) (String.length K - String.length offsetsPrefix) K = k /\
    length bs = 8%nat /\ v = i64 (be_get bs).
Proof.
  revert c. induction items as [|[K r] items IH]; intros c; [intros [= <-]; by left|]. cbn [warm_cache]. rewrite bind_Ok. intros (w & ->%wrapf_Ok & Hw) Hk.
  destruct (IH _ Hw Hk) as [Hc|(K' & bs & Hin & ?)]; [|right; exists K', bs; split; [by right|done]].
  case_decide; [|by left]. apply lookup_insert_Some in Hc as [[<- <-]|[_ Hc]]; [|by left]. right. exists K, w. split; [by left|done].
Qed.

Lemma warm_cache_complete items c c' (kv : gmap string bytes) k bs :
  (forall K w, (K, Ok w) ∈ items -> kv !! K = Some w /\ exists u, K = badgerKey u) -> kv !! badgerKey k = Some bs -> length bs = 8%nat ->
  c !! k = Some (i64 (be_get bs)) \/ (exists r, (badgerKey k, r) ∈ items) -> warm_cache items c = Ok c' -> c' !! k = Some (i64 (be_get bs)).
Proof.
  intros Hsound Hk Hl. revert c Hsound. induction items as [|[K r] items IH]; intros c Hsound Hc.
  { cbn. intros [= <-]. destruct Hc as [|[r Hr]]; [done|]. by apply not_elem_of_nil in Hr. }
  cbn [warm_cache]. rewrite bind_Ok. intros (w & ->%wrapf_Ok & Hw). destruct (Hsound K w) as [HK (u & ->)]; [by left|]. rewrite strip_badgerKey in Hw.
  eapply IH; [| |exact Hw]; [intros K' w' Hin; apply Hsound; by right|]. destruct (decide (u = k)) as [->|Hne].
  - left. rewrite HK in Hk. injection Hk as ->. by rewrite decide_True, lookup_insert_eq.
  - destruct Hc as [Hc|[r Hr]].
    + left. case_decide; [|done]. by rewrite lookup_insert_ne.
    + right. exists r. apply elem_of_cons in Hr as [Heq|]; [|done]. apply (f_equal fst), badgerKey_inj in Heq. congruence.
Qed.

(** A store that was opened has exactly the offsets of its database. *)
Lemma NewOffsetStore_agrees {F : Filepath} dataDir interval d s :
  badger_Open (filepath_Join [dataDir; "offsets.badger"]) = Ok d -> NewOffsetStore dataDir interval = Ok s -> agrees s /\ db s = d.
Proof.
  intros Ho. unfold NewOffsetStore. rewrite Ho. cbn [wrapf]. rewrite Ok_bind, bind_Ok. intros (c & Hc%wrapf_Ok & [= <-]). split; [|done].
  assert (Hs : forall K w, (K, Ok w) ∈ badger_Iterate d offsetsPrefix -> badger_kv d !! K = Some w /\ exists u, K = badgerKey u).
  { intros K w [HK Hp]%badger_Iterate_sound. split; [done|]. by apply string_prefix_app in Hp. }
  intros k v. cbn [cache db]. split.
  - intros Hk. destruct (warm_cache_sound _ _ _ _ _ Hc Hk) as [He|(K & bs & Hin & Hkey & ?)]; [by rewrite lookup_empty in He|].
    apply Hs in Hin as [HK (u & ->)]. rewrite strip_badgerKey in Hkey. subst u. by exists bs.
  - intros (bs & Hbs & Hl & ->). eapply (warm_cache_complete _ ∅ c (badger_kv d)); [done|done|done| |done]. right.
    eapply badger_Iterate_complete; [done|]. apply string_prefix_app. by eexists.
Qed.

Lemma Load_cache s group topic partition v : Load s group topic partition = Ok v <-> cache s !! bucketKey topic partition group = Some v.
Proof. unfold Load. destruct (cache s !! _); [|done]. split; congruence. Qed.

Lemma on_disk_kv d d' k v : badger_kv d = badger_kv d' -> on_disk d k v <-> on_disk d' k v.
Proof. unfold on_disk. by intros ->. Qed.

(** Where the offsets of a store come from. *)
Definition origin (evs : list store_event) (s0 : OffsetStore) (k : string) (v : Z) : Prop := in_i64 v /\ (cache s0 !! k = Some v \/ committed evs k v).

Lemma run_origin evs s0 : agrees s0 -> Forall event_ok evs -> allowed (origin evs s0) (fst (store_run evs s0)).
Proof.
  intros Ha Hev. apply run_allowed; [by intros k v [? _]| |].
  - intros k v Hc. split; [|by right]. destruct Hc as (now & g & t & p & Hin & _). rewrite list.Forall_forall in Hev. exact (Hev _ Hin).
  - split; intros k v; [intros Hk; split; [apply Ha in Hk as (bs & _ & _ & ->); apply i64_range|by left]|].
    intros Hk. split; [destruct Hk as (bs & _ & _ & ->); apply i64_range|left; by apply Ha].
Qed.

(** C16: Offsets across restarts.  Commits, ticks of the dump loop, expiry and deletion of
    topics reach a store in any order, with calls of the database failing or not; then
    a store is opened on what the database holds.  (1) After a crash it never skips: an
    offset it has was there at the start or was committed.  (2) With a dump
    interval, when the dump of Close logs no error, and (3) without one, when no
    error occurred and memory and database agreed at the start, it has every offset
    that the old store had. *)
Theorem offsets_survive {F : Filepath} (dataDir : string) (interval : list Z) (d : bdb) (evs : list store_event) (s0 s s2 : OffsetStore) (errs : list error) :
  agrees s0 -> Forall event_ok evs -> store_run evs s0 = (s, errs) ->
  badger_Open (filepath_Join [dataDir; "offsets.badger"]) = Ok d -> NewOffsetStore dataDir interval = Ok s2 ->
  (badger_kv d = badger_kv (db s) -> forall group topic partition v, Load s2 group topic partition = Ok v ->
     Load s0 group topic partition = Ok v \/ committed evs (bucketKey topic partition group) v) /\
  (forall s1, 0 < dumpInterval s -> store_closing s = (s1, []) -> badger_kv d = badger_kv (db s1) ->
     forall group topic partition v, Load s group topic partition = Ok v -> Load s2 group topic partition = Ok v) /\
  (dumpInterval s0 <= 0 -> errs = [] -> badger_kv d = badger_kv (db s) ->
     forall group topic partition v, Load s group topic partition = Ok v -> Load s2 group topic partition = Ok v).
Proof.
  intros Ha Hev Hrun Ho Hn. destruct (NewOffsetStore_agrees _ _ _ _ Ho Hn) as [H2 Hd2].
  pose proof (run_origin evs s0 Ha Hev) as [Hc Hd]. rewrite Hrun in Hc, Hd. cbn [fst] in Hc, Hd. split; [|split].
  - intros Hkv group topic partition v. rewrite !Load_cache. intros Hk%H2. rewrite Hd2, (on_disk_kv _ _ _ _ Hkv) in Hk. by apply Hd in Hk as [_ ?].
  - intros s1 Hi Hcl Hkv group topic partition v. rewrite !Load_cache. intros Hk. apply H2. rewrite Hd2, (on_disk_kv _ _ _ _ Hkv).
    unfold store_closing, store_do in Hcl. rewrite (proj2 (Z.ltb_lt _ _) Hi) in Hcl. apply encoded_on_disk; [by eapply dump_kv|by apply Hc in Hk as [? _]].
  - intros Hi -> Hkv group topic partition v. rewrite !Load_cache. intros Hk. apply H2. rewrite Hd2, (on_disk_kv _ _ _ _ Hkv).
    eapply run_mirrored; [exact Hev|exact Hi| |exact Hrun|exact Hk]. intros k w. apply Ha.
Qed.
End offsets.
Arguments BadgerFaults {D} DL.

(** ** A run of a store *)

#[export] Instance mem_badger_faults : BadgerFaults mem_badger_laws.
Proof.
  split; cbn.
  - intros m k v m' r [= <- _]. by right.
  - intros b k v b' r [= <- _]. by right.
  - intros b k b' r [= <- _]. by right.
  - intros m b m' r [= <- _] k. destruct (decide (k ∈ b.*1)) as [Hin|Hout]; [|left; by apply apply_ops_other].
    right. revert m Hin. induction b as [|[k' o] b IH] using rev_ind; intros m Hin; [by apply not_elem_of_nil in Hin|].
    rewrite fmap_app in Hin. apply elem_of_app in Hin. rewrite foldl_app. cbn [foldl].
    destruct (decide (k = k')) as [->|Hne].
    + exists o. split; [apply elem_of_app; right; by left|]. unfold apply_op. cbn. destruct o; [apply lookup_insert_eq|apply lookup_delete_eq].
    + destruct Hin as [Hin|Hin%list_elem_of_singleton]; [|done]. destruct (IH m Hin) as (o' & Ho & Hl). exists o'. split; [apply elem_of_app; by left|].
      rewrite <- Hl. unfold apply_op. cbn. destruct o; [by apply lookup_insert_ne|by apply lookup_delete_ne].
Qed.
#[export] Instance opened_faults m : BadgerFaults (opened_laws m).
Proof. destruct mem_badger_faults. by split. Qed.

(** A group commits, a dump follows, it commits again and the process dies; and the
    same with synchronous commits. *)
Definition crash_events : list store_event := [EvCommit 10 "billing" "orders" 0 5; EvDump; EvCommit 11 "billing" "orders" 0 9].
Definition crash_kv (interval : Z) : gmap string bytes := db (fst (store_run crash_events (mkStore (D := mem_badger) ∅ ∅ ∅ interval))).
Definition crash_store (interval : Z) : OffsetStore (D := opened (crash_kv interval)) := mkStore (D := opened (crash_kv interval)) ∅ ∅ ∅ interval.

Lemma empty_agrees interval : agrees (crash_store interval).
Proof. intros k v. cbn. rewrite lookup_empty. split; [done|]. intros (bs & Hbs & _). cbn in Hbs. by rewrite lookup_empty in Hbs. Qed.

Lemma crash_events_ok : Forall event_ok crash_events.
Proof. repeat constructor; unfold in_i64; lia. Qed.

Lemma offsets_survive_witness :
  (exists s2, NewOffsetStore (D := opened (crash_kv 5)) (F := join_paths) "/data" [] = Ok s2 /\ Load s2 "billing" "orders" 0 = Ok 5 /\
     committed crash_events (bucketKey "orders" 0 "billing") 5) /\
  (exists s2, NewOffsetStore (D := opened (crash_kv 0)) (F := join_paths) "/data" [] = Ok s2 /\ Load s2 "billing" "orders" 0 = Ok 9).
Proof.
  split.
  - assert (Hl : match NewOffsetStore (D := opened (crash_kv 5)) (F := join_paths) "/data" [] with Ok s2 => Load s2 "billing" "orders" 0 | _ => Panic end = Ok 5)
      by (vm_compute; reflexivity).
    destruct (NewOffsetStore (D := opened (crash_kv 5)) (F := join_paths) "/data" []) as [s2| |] eqn:E; [|discriminate Hl..].
    destruct (store_run crash_events (crash_store 5)) as [s errs] eqn:Hr.
    destruct (offsets_survive (D := opened (crash_kv 5)) (F := join_paths) "/data" [] (crash_kv 5) crash_events (crash_store 5) s s2 errs (empty_agrees 5) crash_events_ok Hr eq_refl E) as [H _].
    exists s2. split; [reflexivity|]. split; [exact Hl|]. destruct (H ltac:(apply (f_equal (fun x => db (fst x))) in Hr; rewrite <- (Hr : _ = db s); vm_compute; reflexivity) _ _ _ _ Hl) as [H0|H0].
    + discriminate H0.
    + exact H0.
  - assert (Hl : is_ok (NewOffsetStore (D := opened (crash_kv 0)) (F := join_paths) "/data" []) = true) by (vm_compute; reflexivity).
    destruct (NewOffsetStore (D := opened (crash_kv 0)) (F := join_paths) "/data" []) as [s2| |] eqn:E; [|discriminate Hl..].
    destruct (store_run crash_events (crash_store 0)) as [s errs] eqn:Hr.
    destruct (offsets_survive (D := opened (crash_kv 0)) (F := join_paths) "/data" [] (crash_kv 0) crash_events (crash_store 0) s s2 errs (empty_agrees 0) crash_events_ok Hr eq_refl E) as (_ & _ & H).
    exists s2. split; [reflexivity|]. apply H; [cbn; lia| | |].
    + apply (f_equal snd) in Hr. rewrite <- (Hr : _ = errs). vm_compute. reflexivity.
    + apply (f_equal (fun x => db (fst x))) in Hr. rewrite <- (Hr : _ = db s). vm_compute. reflexivity.
    + apply (f_equal (fun x => Load (fst x) "billing" "orders" 0)) in Hr. rewrite <- (Hr : _ = Load s "billing" "orders" 0). vm_compute. reflexivity.
Defined.
