(* ===== verification/Collector.v ===== *)
(** * The experiments' collector (src/experiments/collector.go, reporter.go)

    During an experiment the collector counts messages and errors and keeps
    latencies: in histograms, whose library is a parameter ([Hdr]), and per
    priority in a reservoir of bounded size.  Random draws and clock readings are
    arguments.  The mutexes make each method one step. *)

From stdpp Require Import sorting.
From S2P Require Import Prelude PriorityIndex GoFloat Metrics.

(** The calls of github.com/HdrHistogram/hdrhistogram-go.  RecordValue's error is
    dropped by the code, so only the histogram is returned; a value the
    histogram does not cover leaves it as it was. *)
Class Hdr : Type := {
  hist : Type;
  hdr_New : Z -> Z -> Z -> hist;
  hdr_covers : hist -> Z -> bool;
  hdr_RecordValue : hist -> Z -> hist;
  hdr_Reset : hist -> hist;
  hdr_Merge : hist -> hist -> hist;
  hdr_TotalCount : hist -> Z;
  hdr_ValueAtQuantile : hist -> float -> Z;
}.

(** Counting: [h ~ h'] have the same range. *)
Class HdrLaws (H : Hdr) : Prop := {
  hdr_New_count lo hi d : hdr_TotalCount (hdr_New lo hi d) = 0;
  hdr_New_covers lo hi d v : lo <= v <= hi -> hdr_covers (hdr_New lo hi d) v = true;
  hdr_Record_count h v : hdr_TotalCount (hdr_RecordValue h v) = hdr_TotalCount h + (if hdr_covers h v then 1 else 0);
  hdr_Record_covers h v w : hdr_covers (hdr_RecordValue h v) w = hdr_covers h w;
  hdr_Reset_count h : hdr_TotalCount (hdr_Reset h) = 0;
  hdr_Reset_covers h v : hdr_covers (hdr_Reset h) v = hdr_covers h v;
  hdr_Merge_count h h' : (forall v, hdr_covers h v = hdr_covers h' v) -> hdr_TotalCount (hdr_Merge h h') = hdr_TotalCount h + hdr_TotalCount h';
  hdr_Merge_covers h h' v : hdr_covers (hdr_Merge h h') v = hdr_covers h v;
}.

Definition maxPrioritySamples : Z := 10000.
Definition defaultNumShards : nat := 16.
Definition loadStdDevGracePeriod : Z := 5 * 1000000000.

(** ** The reservoir of one priority *)

Record prioritySampler : Type := mkSampler { samples : list Z; total : Z }.

(** [j]: what [rand.Int64N] returns; it panics unless its argument is positive. *)
Definition record_within (cap : Z) (j : Z) (d : Z) (s : prioritySampler) : result prioritySampler :=
  let n := i64 (total s + 1) in
  if n <=? cap then Ok (mkSampler (samples s ++ [d]) n)
  else if n <=? 0 then Panic
  else if j <? cap then (smp ← store (samples s) (Z.to_nat j) d; Ok (mkSampler smp n))
  else Ok (mkSampler (samples s) n).
Definition record : Z -> Z -> prioritySampler -> result prioritySampler := record_within maxPrioritySamples.

Definition percentile (sorted : list float) (p : float) : result float :=
  let n := length sorted in
  if decide (n = 0%nat) then Ok 0%float
  else if bool_decide (n = 1%nat) || (p <=? 0)%float then index sorted 0
  else if (1 <=? p)%float then index sorted (n - 1)
  else
    let pos := (p * of_int (Z.of_nat n - 1))%float in
    let i := to_int64 pos in
    let frac := (pos - of_int i)%float in
    if i <? 0 then Panic
    else
      a ← index sorted (Z.to_nat i);
      b ← index sorted (Z.to_nat (i + 1));
      Ok (a * (1 - frac) + b * frac)%float.

Record PriorityStats : Type := mkStats { ps_P50 : Z; ps_P99 : Z; ps_Count : Z }.

#[export] Instance fle_dec : RelDecision (fun x y : float => (x <=? y)%float = true).
Proof. intros x y. apply _. Defined.

Definition sampler_snapshot (s : prioritySampler) : result PriorityStats :=
  if decide (length (samples s) = 0%nat) then Ok (mkStats 0 0 (total s))
  else
    let sorted := merge_sort (fun x y => (x <=? y)%float = true) (of_int <$> samples s) in
    p50 ← percentile sorted 0.5;
    p99 ← percentile sorted 0x1.fae147ae147aep-1;      (* 0.99 *)
    Ok (mkStats (to_int64 p50) (to_int64 p99) (total s)).

(** ** The collector *)

Section collector.
Context {H : Hdr} {G : Gonum}.

Record exp_counters : Type := mkCounters {
  xn_produced : Z;
  xn_consumed : Z;
  xn_publishErrors : Z;
  xn_publishThrottled : Z;
  xn_consumeErrors : Z;
}.

Record ExpCollector : Type := mkXC {
  xc_shards : list hist;
  xc_loadStddevs : list float;
  xc_byPriority : list prioritySampler;
  xc_enqueueToFlush : hist;
  xc_flushToAppend : hist;
  xc_appendToConsume : hist;
  xc_counters : exp_counters;
  xc_startTime : Time;
  xc_endTime : Time;
}.

Definition new_hist : hist := hdr_New 1 30000000 4.

Definition NewExpCollector : ExpCollector :=
  mkXC (replicate defaultNumShards new_hist) [] (replicate 10 (mkSampler [] 0)) new_hist new_hist new_hist
    (mkCounters 0 0 0 0 0) zeroTime zeroTime.

Definition xc_set_times (s e : Time) (c : ExpCollector) : ExpCollector :=
  mkXC (xc_shards c) (xc_loadStddevs c) (xc_byPriority c) (xc_enqueueToFlush c) (xc_flushToAppend c) (xc_appendToConsume c) (xc_counters c) s e.
Definition xc_set_counters (n : exp_counters) (c : ExpCollector) : ExpCollector :=
  mkXC (xc_shards c) (xc_loadStddevs c) (xc_byPriority c) (xc_enqueueToFlush c) (xc_flushToAppend c) (xc_appendToConsume c) n
    (xc_startTime c) (xc_endTime c).
Definition xc_set_loads (l : list float) (c : ExpCollector) : ExpCollector :=
  mkXC (xc_shards c) l (xc_byPriority c) (xc_enqueueToFlush c) (xc_flushToAppend c) (xc_appendToConsume c) (xc_counters c)
    (xc_startTime c) (xc_endTime c).
Definition xc_set_latencies (sh : list hist) (pr : list prioritySampler) (c : ExpCollector) : ExpCollector :=
  mkXC sh (xc_loadStddevs c) pr (xc_enqueueToFlush c) (xc_flushToAppend c) (xc_appendToConsume c) (xc_counters c)
    (xc_startTime c) (xc_endTime c).
Definition xc_set_stages (a b d : hist) (c : ExpCollector) : ExpCollector :=
  mkXC (xc_shards c) (xc_loadStddevs c) (xc_byPriority c) a b d (xc_counters c) (xc_startTime c) (xc_endTime c).

Definition xc_Start (now : Time) (c : ExpCollector) : ExpCollector := xc_set_times now (xc_endTime c) c.
Definition xc_Stop (now : Time) (c : ExpCollector) : ExpCollector := xc_set_times (xc_startTime c) now c.

Definition xc_Reset (c : ExpCollector) : ExpCollector :=
  xc_set_loads []
    (xc_set_stages (hdr_Reset (xc_enqueueToFlush c)) (hdr_Reset (xc_flushToAppend c)) (hdr_Reset (xc_appendToConsume c))
       (xc_set_latencies (hdr_Reset <$> xc_shards c) ((fun _ => mkSampler [] 0) <$> xc_byPriority c) c)).

(** The counters are 64-bit. *)
Definition xc_RecordProduce (c : ExpCollector) : ExpCollector :=
  let n := xc_counters c in
  xc_set_counters (mkCounters (i64 (xn_produced n + 1)) (xn_consumed n) (xn_publishErrors n) (xn_publishThrottled n) (xn_consumeErrors n)) c.
Definition xc_RecordPublishError (c : ExpCollector) : ExpCollector :=
  let n := xc_counters c in
  xc_set_counters (mkCounters (xn_produced n) (xn_consumed n) (i64 (xn_publishErrors n + 1)) (xn_publishThrottled n) (xn_consumeErrors n)) c.
Definition xc_RecordPublishThrottled (c : ExpCollector) : ExpCollector :=
  let n := xc_counters c in
  xc_set_counters (mkCounters (xn_produced n) (xn_consumed n) (xn_publishErrors n) (i64 (xn_publishThrottled n + 1)) (xn_consumeErrors n)) c.
Definition xc_RecordConsumeError (c : ExpCollector) : ExpCollector :=
  let n := xc_counters c in
  xc_set_counters (mkCounters (xn_produced n) (xn_consumed n) (xn_publishErrors n) (xn_publishThrottled n) (i64 (xn_consumeErrors n + 1))) c.
Definition count_consumed (c : ExpCollector) : ExpCollector :=
  let n := xc_counters c in
  xc_set_counters (mkCounters (xn_produced n) (i64 (xn_consumed n + 1)) (xn_publishErrors n) (xn_publishThrottled n) (xn_consumeErrors n)) c.

(** A latency in microseconds, at least one. *)
Definition at_least_one (us : Z) : Z := if us <? 1 then 1 else us.

(** [priority] is a uint8; [j] the draw of the reservoir. *)
Definition RecordConsumeWithPriority (j : Z) (priority latency : Z) (c : ExpCollector) : result ExpCollector :=
  let c := count_consumed c in
  let us := at_least_one (Z.quot latency 1000) in
  let i := Z.to_nat (priority mod Z.of_nat (length (xc_shards c))) in
  sh ← index (xc_shards c) i;
  let shards := <[i := hdr_RecordValue sh us]> (xc_shards c) in
  if priority <? Z.of_nat (length (xc_byPriority c)) then
    s ← index (xc_byPriority c) (Z.to_nat priority);
    s ← record j latency s;
    Ok (xc_set_latencies shards (<[Z.to_nat priority := s]> (xc_byPriority c)) c)
  else Ok (xc_set_latencies shards (xc_byPriority c) c).

Definition xc_RecordConsume (j : Z) (latency : Z) (c : ExpCollector) : result ExpCollector := RecordConsumeWithPriority j 0 latency c.

(** The time from [a] to [b] in a histogram, when it is positive. *)
Definition record_stage (a b : Z) (h : hist) : hist :=
  if a <? b then hdr_RecordValue h (at_least_one (Z.quot (i64 (b - a)) 1000)) else h.

Definition RecordConsumeMultiStage (now : Z) (enqueueTime produceTime appendTime : Z) (c : ExpCollector) : ExpCollector :=
  if (0 <? produceTime) && (0 <? appendTime) then
    xc_set_stages (record_stage enqueueTime produceTime (xc_enqueueToFlush c)) (record_stage produceTime appendTime (xc_flushToAppend c))
      (record_stage appendTime now (xc_appendToConsume c)) c
  else c.

Definition RecordLoadStdDev (now : Time) (sd : float) (c : ExpCollector) : ExpCollector :=
  if time_Sub now (xc_startTime c) <? loadStdDevGracePeriod then c else xc_set_loads (xc_loadStddevs c ++ [sd]) c.

Definition RecordLoadSample (now : Time) (loads : list float) (c : ExpCollector) : ExpCollector :=
  if decide (length loads < 2)%nat then c else RecordLoadStdDev now (stat_StdDev loads) c.

Record ExperimentResult : Type := mkResult {
  er_Scenario : string;
  er_Algorithm : string;
  er_System : string;
  er_Mode : string;
  er_Throughput : float;
  er_LatencyP50 : Z;
  er_LatencyP95 : Z;
  er_LatencyP99 : Z;
  er_LoadStdDev : float;
  er_Produced : Z;
  er_Consumed : Z;
  er_PublishErrors : Z;
  er_MessagesThrottled : Z;
  er_ConsumeErrors : Z;
  er_Duration : Z;
  er_EnqueueToFlushP50 : Z;
  er_FlushToAppendP50 : Z;
  er_AppendToConsumeP50 : Z;
  er_AppendToConsumeP95 : Z;
  er_LatencyByPriority : list PriorityStats;
}.

Definition merged (c : ExpCollector) : hist := foldl hdr_Merge new_hist (xc_shards c).

(** A quantile of a histogram as a duration, 0 when it is empty. *)
Definition quantile_us (h : hist) (q : float) : Z :=
  if 0 <? hdr_TotalCount h then i64 (hdr_ValueAtQuantile h q * 1000) else 0.

Definition xc_Snapshot (now : Time) (scenario algorithm system mode : string) (c : ExpCollector) : result ExperimentResult :=
  let duration := time_Sub (xc_endTime c) (xc_startTime c) in
  let duration := if duration <=? 0 then time_Sub now (xc_startTime c) else duration in
  let n := xc_counters c in
  let throughput := if (0 <? Seconds duration)%float then (of_int (xn_consumed n) / Seconds duration)%float else 0%float in
  let stddev := if decide (0 < length (xc_loadStddevs c))%nat then stat_Mean (xc_loadStddevs c) else 0%float in
  let m := merged c in
  stats ← mapM sampler_snapshot (xc_byPriority c);
  Ok (mkResult scenario algorithm system mode throughput (quantile_us m 50) (quantile_us m 95) (quantile_us m 99) stddev
        (xn_produced n) (xn_consumed n) (xn_publishErrors n) (xn_publishThrottled n) (xn_consumeErrors n) duration
        (quantile_us (xc_enqueueToFlush c) 50) (quantile_us (xc_flushToAppend c) 50)
        (quantile_us (xc_appendToConsume c) 50) (quantile_us (xc_appendToConsume c) 95) stats).

(** prioGroupStats of reporter.go over the levels from [from] below [to]; the mean
    of the levels with observations, in microseconds. *)
Fixpoint group_sums (stats : list PriorityStats) (sum50 sum99 : float) (count : Z) : float * float * Z :=
  match stats with
  | [] => (sum50, sum99, count)
  | s :: stats =>
      if ps_Count s =? 0 then group_sums stats sum50 sum99 count
      else group_sums stats (sum50 + of_int (ps_P50 s) / 1000)%float (sum99 + of_int (ps_P99 s) / 1000)%float (count + 1)
  end.
Definition prioGroupStats (stats : list PriorityStats) (from to : nat) : float * float :=
  let '(sum50, sum99, count) := group_sums (take (to - from) (drop from stats)) 0 0 0 in
  if count =? 0 then (0%float, 0%float) else ((sum50 / of_int count)%float, (sum99 / of_int count)%float).
End collector.
