(* ===== verification/CollectorProps.v ===== *)
(** * The experiments' collector: what its numbers mean

    The reservoir is a uniform sample of the observations; the counters and
    histograms of a result account for every message recorded; taking a result
    never panics. *)

From stdpp Require Import sorting.
From S2P Require Import Prelude PriorityIndex GoFloat Metrics Collector.

(** ** Counting *)

(** How many elements satisfy a decidable property. *)
Definition count {A} (P : A -> Prop) `{!forall x, Decision (P x)} (l : list A) : Z := foldr (fun x n => (if decide (P x) then 1 else 0) + n) 0 l.

Section counting.
Context {A : Type}.
Implicit Types l : list A.

Lemma count_app (P : A -> Prop) `{!forall x, Decision (P x)} l1 l2 : count P (l1 ++ l2) = count P l1 + count P l2.
Proof. induction l1 as [|x l1 IH]; cbn; [done|]. fold (count P (l1 ++ l2)). fold (count P l1). rewrite IH. lia. Qed.

Lemma count_ext (P Q : A -> Prop) `{!forall x, Decision (P x), !forall x, Decision (Q x)} l :
  (forall x, x ∈ l -> P x <-> Q x) -> count P l = count Q l.
Proof.
  induction l as [|x l IH]; intros HPQ; [done|]. cbn. fold (count P l). fold (count Q l). rewrite IH by (intros y Hy; apply HPQ; by right).
  rewrite (decide_ext _ (Q x)) by (apply HPQ; by left). done.
Qed.

Lemma count_all (P : A -> Prop) `{!forall x, Decision (P x)} l : (forall x, x ∈ l -> P x) -> count P l = Z.of_nat (length l).
Proof.
  induction l as [|x l IH]; intros HP; [done|]. cbn [count foldr]. fold (count P l). rewrite decide_True by (apply HP; by left).
  rewrite IH by (intros y Hy; apply HP; by right). cbn. lia.
Qed.

Lemma count_none (P : A -> Prop) `{!forall x, Decision (P x)} l : (forall x, x ∈ l -> ~ P x) -> count P l = 0.
Proof.
  induction l as [|x l IH]; intros HP; [done|]. cbn [count foldr]. fold (count P l). rewrite decide_False by (apply HP; by left).
  rewrite IH by (intros y Hy; apply HP; by right). done.
Qed.

Lemma count_map {B} (f : B -> A) (P : A -> Prop) `{!forall x, Decision (P x)} (l : list B) : count P (f <$> l) = count (fun x => P (f x)) l.
Proof. induction l as [|x l IH]; [done|]. cbn [count foldr fmap list_fmap]. unfold count in IH. by rewrite IH. Qed.
End counting.

(** Among the numbers below [n], [c] are below [c], and all but one are not [i]. *)
Lemma count_seqZ_lt c n : 0 <= c <= n -> count (fun j => j < c) (seqZ 0 n) = c.
Proof.
  intros Hc. replace n with (c + (n - c)) by lia. rewrite seqZ_app, count_app, count_all, count_none, length_seqZ; try lia;
    intros x Hx%elem_of_seqZ; lia.
Qed.

Lemma count_seqZ_ne i n : 0 <= i < n -> count (fun j => j <> i) (seqZ 0 n) = n - 1.
Proof.
  intros Hi. replace n with (i + (1 + (n - i - 1))) at 1 by lia. rewrite !seqZ_app, !count_app, count_all by (lia || intros x Hx%elem_of_seqZ; lia).
  rewrite count_none, count_all, !length_seqZ; [lia|intros x Hx%elem_of_seqZ; lia|intros x Hx%elem_of_seqZ; lia].
Qed.

(** Counting over pairs, when each first component has the same number of
    completions. *)
Lemma count_bind {A B} (P : B -> Prop) (Q : A -> Prop) `{!forall x, Decision (P x), !forall x, Decision (Q x)} (f : A -> list B) (l : list A) c :
  (forall a, a ∈ l -> count P (f a) = if decide (Q a) then c else 0) -> count P (l ≫= f) = count Q l * c.
Proof.
  intros Hf. induction l as [|a l IH]; [done|]. rewrite bind_cons, count_app, IH by (intros a' Ha; apply Hf; by right).
  rewrite (Hf a) by (by left). cbn [count foldr]. fold (count Q l). case_decide; lia.
Qed.

(** ** The reservoir *)

Section reservoir.
Context (cap : Z).

(** A run on observations with their draws. *)
Fixpoint record_all (obs : list (Z * Z)) (s : prioritySampler) : result prioritySampler :=
  match obs with
  | [] => Ok s
  | (d, j) :: obs => s ← record_within cap j d s; record_all obs s
  end.

Lemma record_all_app obs obs' s : record_all (obs ++ obs') s = s ← record_all obs s; record_all obs' s.
Proof.
  revert s. induction obs as [|[d j] obs IH]; intros s; cbn [app record_all]; [done|].
  destruct (record_within cap j d s); try done. rewrite !Ok_bind. apply IH.
Qed.

(** What the sampler holds after the observations [ds]. *)
Definition holds (ds : list Z) (s : prioritySampler) : Prop :=
  total s = Z.of_nat (length ds) /\ Z.of_nat (length (samples s)) = Z.min cap (Z.of_nat (length ds)) /\ samples s ⊆ ds /\ (NoDup ds -> NoDup (samples s)) /\
  (Z.of_nat (length ds) <= cap -> samples s = ds).

Lemma NoDup_insert (l : list Z) i x : NoDup l -> x ∉ l -> NoDup (<[i:=x]> l).
Proof.
  revert i. induction l as [|y l IH]; intros [|i] Hnd Hx; try done; cbn.
  - apply list.NoDup_cons in Hnd as [_ Hnd]. apply list.NoDup_cons. split; [|done]. intros Hin. apply Hx. by right.
  - apply list.NoDup_cons in Hnd as [Hy Hnd]. apply list.NoDup_cons. split.
    + intros Hin. apply list_elem_of_lookup in Hin as [k Hk]. apply list_lookup_insert_Some in Hk as [(_ & -> & _)|[_ Hk]].
      * apply Hx. by left.
      * apply Hy. by eapply list_elem_of_lookup_2.
    + apply IH; [done|]. intros Hin. apply Hx. by right.
Qed.

Lemma subseteq_insert (l ds : list Z) i x : l ⊆ ds -> <[i:=x]> l ⊆ ds ++ [x].
Proof.
  intros Hs y Hy. apply list_elem_of_lookup in Hy as [k Hk]. apply elem_of_app.
  apply list_lookup_insert_Some in Hk as [(_ & -> & _)|[_ Hk]]; [right; by left|left]. apply Hs. by eapply list_elem_of_lookup_2.
Qed.

(** One observation: appended while there is room, then put in the drawn slot. *)
Lemma record_step j d ds s :
  0 <= cap -> holds ds s -> Z.of_nat (length ds) + 1 < 2 ^ 63 -> 0 <= j -> (NoDup (ds ++ [d]) -> d ∉ ds) ->
  exists s', record_within cap j d s = Ok s' /\ holds (ds ++ [d]) s' /\
    samples s' = (if Z.of_nat (length ds) <? cap then samples s ++ [d] else if j <? cap then <[Z.to_nat j := d]> (samples s) else samples s).
Proof.
  intros Hcap (Ht & Hl & Hsub & Hnd & Hall) Hb Hj Hnew. unfold record_within. rewrite Ht, i64_small by (unfold in_i64; lia).
  destruct (Z.leb_spec (Z.of_nat (length ds) + 1) cap) as [Hle|Hgt].
  - rewrite (proj2 (Z.ltb_lt _ _)) by lia. eexists. split; [done|]. split; [|done]. split; [cbn; rewrite length_app; cbn; lia|].
    split; [cbn; rewrite !length_app; cbn; lia|]. rewrite Hall by lia. cbn [samples]. done.
  - rewrite (proj2 (Z.ltb_ge (Z.of_nat (length ds)) cap)) by lia. rewrite (proj2 (Z.leb_gt _ _)) by lia.
    assert (Hdone : forall smp, length smp = length (samples s) -> smp ⊆ ds ++ [d] -> (NoDup (ds ++ [d]) -> NoDup smp) ->
      holds (ds ++ [d]) (mkSampler smp (Z.of_nat (length ds) + 1))).
    { intros smp H1 H2 H3. split; [cbn; rewrite length_app; cbn; lia|]. split; [cbn; rewrite H1, length_app; cbn; lia|].
      split; [done|]. split; [done|]. rewrite length_app. cbn. lia. }
    assert (Hnd' : NoDup (ds ++ [d]) -> NoDup ds) by (intros (? & _)%list.NoDup_app; done).
    destruct (Z.ltb_spec j cap).
    + rewrite store_Ok, Ok_bind by lia. eexists. split; [done|]. split; [|done]. apply Hdone.
      * apply length_insert.
      * by apply subseteq_insert.
      * intros H'. apply NoDup_insert; [by apply Hnd, Hnd'|]. intros Hin. apply (Hnew H'). by apply Hsub.
    + eexists. split; [done|]. split; [|done]. apply Hdone; [done| |by intros H'; apply Hnd, Hnd'].
      intros x Hx. apply elem_of_app. left. by apply Hsub.
Qed.

(** *** Uniformity *)

(** All sequences of draws for [k] observations beyond the first [cap]: the
    draw for the [n]-th observation is one of [n] numbers. *)
Fixpoint draw_seqs (k : nat) : list (list Z) :=
  match k with
  | O => [[]]
  | S k => draw_seqs k ≫= fun js => (fun j => js ++ [j]) <$> seqZ 0 (cap + Z.of_nat k + 1)
  end.

(** The observations with their draws; the first [cap] need none. *)
Definition with_draws (ds js : list Z) : list (Z * Z) := zip ds (replicate (Z.to_nat cap) 0 ++ js).

(** What is in the reservoir after the observations [ds] with the draws [js]. *)
Definition sampled (ds js : list Z) : list Z :=
  match record_all (with_draws ds js) (mkSampler [] 0) with Ok s => samples s | _ => [] end.

Lemma draw_seqs_length k : 0 <= cap -> Forall (fun js => length js = k /\ Forall (Z.le 0) js) (draw_seqs k).
Proof.
  intros Hcap. induction k as [|k IH]; cbn [draw_seqs]; [repeat constructor|].
  apply list.Forall_forall. intros js Hjs. apply list_elem_of_bind in Hjs as (js' & Hjs & Hjs'). apply list_elem_of_fmap in Hjs as (j & -> & Hj).
  apply elem_of_seqZ in Hj. rewrite list.Forall_forall in IH. destruct (IH js' Hjs') as [Hl Hf]. rewrite length_app. cbn. split; [lia|].
  apply Forall_app_2; [done|]. repeat constructor. lia.
Qed.

Lemma draw_seqs_count k : 0 <= cap -> Z.of_nat (length (draw_seqs (S k))) = Z.of_nat (length (draw_seqs k)) * (cap + Z.of_nat k + 1).
Proof.
  intros Hcap. cbn [draw_seqs]. induction (draw_seqs k) as [|js l IH]; [done|]. rewrite bind_cons, length_app, length_fmap, length_seqZ. cbn [length]. lia.
Qed.

(** The first observations fill the reservoir. *)
Lemma record_all_holds ds js :
  0 <= cap -> length ds = (Z.to_nat cap + length js)%nat -> Z.of_nat (length ds) < 2 ^ 63 -> NoDup ds -> Forall (Z.le 0) js ->
  exists s, record_all (with_draws ds js) (mkSampler [] 0) = Ok s /\ holds ds s.
Proof.
  intros Hcap Hl Hb Hnd Hjs. unfold with_draws. assert (Hd : Forall (Z.le 0) (replicate (Z.to_nat cap) 0 ++ js)) by
    (apply Forall_app_2; [by apply Forall_replicate|done]).
  assert (Hlen : length (replicate (Z.to_nat cap) 0 ++ js) = length ds) by (rewrite length_app, length_replicate; lia).
  revert Hd Hlen. generalize (replicate (Z.to_nat cap) 0 ++ js). clear Hjs Hl. induction ds as [|d ds IH] using rev_ind; intros js' Hd Hlen.
  - exists (mkSampler [] 0). split; [done|]. split; [done|]. split; [cbn; lia|]. split; [done|]. split; [done|]. done.
  - destruct js' as [|j js' _] using rev_ind; [rewrite length_app in Hlen; cbn in Hlen; lia|].
    rewrite (length_app js'), (length_app ds) in Hlen. rewrite length_app in Hb. cbn [length] in Hlen, Hb. apply Forall_app in Hd as [Hd Hj]. apply list.Forall_cons_1 in Hj as [Hj _].
    pose proof Hnd as (Hnd' & Hdis & _)%list.NoDup_app. rewrite (zip_with_app _ ds [d] js' [j]) by lia. rewrite record_all_app.
    destruct (IH ltac:(lia) Hnd' js' Hd ltac:(lia)) as (s & -> & Hs). rewrite Ok_bind. cbn [zip_with record_all].
    destruct (record_step j d ds s Hcap Hs ltac:(lia) Hj) as (s' & -> & Hs' & _); [|rewrite Ok_bind; eauto].
    intros _ Hin. apply (Hdis d Hin). by left.
Qed.

Lemma sampled_snoc ds x js j :
  0 <= cap -> length ds = (Z.to_nat cap + length js)%nat -> Z.of_nat (length ds) + 1 < 2 ^ 63 -> NoDup (ds ++ [x]) -> Forall (Z.le 0) js -> 0 <= j ->
  sampled (ds ++ [x]) (js ++ [j]) = (if j <? cap then <[Z.to_nat j := x]> (sampled ds js) else sampled ds js) /\
  NoDup (sampled ds js) /\ sampled ds js ⊆ ds /\ Z.of_nat (length (sampled ds js)) = cap.
Proof.
  intros Hcap Hl Hb Hnd Hjs Hj. pose proof Hnd as (Hnd' & Hdis & _)%list.NoDup_app.
  destruct (record_all_holds ds js Hcap Hl ltac:(lia) Hnd' Hjs) as (s & Hs & Hh).
  unfold sampled, with_draws in *. rewrite app_assoc, zip_with_app by (rewrite length_app, length_replicate; lia).
  rewrite record_all_app, Hs, Ok_bind. cbn [zip_with record_all].
  destruct (record_step j x ds s Hcap Hh Hb Hj) as (s' & -> & _ & Heq); [intros _ Hin; apply (Hdis x Hin); by left|].
  rewrite Ok_bind, Heq, (proj2 (Z.ltb_ge _ _)) by lia. split; [done|]. destruct Hh as (_ & Hlen & Hsub & Hns & _).
  split; [by apply Hns|]. split; [done|]. lia.
Qed.

(** Which draws keep an element of the reservoir: all but one. *)
Lemma insert_keeps (l : list Z) x d :
  NoDup l -> x ∉ l -> d ∈ l -> Z.of_nat (length l) = cap ->
  exists i, 0 <= i < cap /\ forall j, 0 <= j -> d ∈ (if j <? cap then <[Z.to_nat j := x]> l else l) <-> j <> i.
Proof.
  intros Hnd Hx Hd Hl. apply list_elem_of_lookup in Hd as [i Hi]. pose proof (lookup_lt_Some _ _ _ Hi) as Hlt.
  exists (Z.of_nat i). split; [lia|]. intros j Hj. destruct (Z.ltb_spec j cap) as [Hjc|Hjc].
  - split.
    + intros Hin ->. rewrite Nat2Z.id in Hin. apply list_elem_of_lookup in Hin as [k Hk]. apply list_lookup_insert_Some in Hk as [(_ & -> & _)|[Hne Hk]].
      * apply Hx. by eapply list_elem_of_lookup_2.
      * apply Hne. eapply (NoDup_lookup l); eauto.
    + intros Hne. apply list_elem_of_lookup. exists i. rewrite list_lookup_insert_ne by lia. done.
  - split; [lia|]. intros _. by eapply list_elem_of_lookup_2.
Qed.

(** Each observation is in the reservoir for the same share of the draws. *)
Lemma sampled_uniform k : forall ds d,
  0 < cap -> length ds = (Z.to_nat cap + k)%nat -> Z.of_nat (length ds) < 2 ^ 63 -> NoDup ds -> d ∈ ds ->
  count (fun js => d ∈ sampled ds js) (draw_seqs k) * Z.of_nat (length ds) = cap * Z.of_nat (length (draw_seqs k)).
Proof.
  induction k as [|k IH]; intros ds d Hcap Hl Hb Hnd Hd.
  { cbn [draw_seqs count foldr length]. destruct (record_all_holds ds [] ltac:(lia) ltac:(cbn; lia) Hb Hnd ltac:(constructor)) as (s & Hs & Hh).
    unfold sampled. rewrite Hs. destruct Hh as (_ & _ & _ & _ & Hall). rewrite Hall by lia. rewrite decide_True by done. lia. }
  destruct ds as [|x ds _] using rev_ind; [cbn in Hl; lia|]. rewrite length_app in Hl, Hb. cbn [length] in Hl, Hb.
  pose proof Hnd as (Hnd' & Hdis & _)%list.NoDup_app. pose proof (draw_seqs_length k ltac:(lia)) as Hseq. rewrite list.Forall_forall in Hseq.
  assert (Hx : x ∉ ds) by (intros Hin; apply (Hdis x Hin); by left). rewrite draw_seqs_count, length_app by lia. cbn [length].
  assert (Hstep : forall js, js ∈ draw_seqs k -> forall j, j ∈ seqZ 0 (cap + Z.of_nat k + 1) ->
    sampled (ds ++ [x]) (js ++ [j]) = (if j <? cap then <[Z.to_nat j := x]> (sampled ds js) else sampled ds js)).
  { intros js Hjs j Hj%elem_of_seqZ. destruct (Hseq js Hjs) as [H1 H2]. apply sampled_snoc; try done; lia. }
  assert (Hres : forall js, js ∈ draw_seqs k -> NoDup (sampled ds js) /\ sampled ds js ⊆ ds /\ Z.of_nat (length (sampled ds js)) = cap).
  { intros js Hjs. destruct (Hseq js Hjs) as [H1 H2]. eapply (sampled_snoc ds x js 0); try done; lia. }
  cbn [draw_seqs]. destruct (decide (d = x)) as [->|Hne].
  - rewrite (count_bind _ (fun _ => True) _ _ cap).
    + rewrite count_all by done. lia.
    + intros js Hjs. rewrite count_map, decide_True by done. destruct (Hres js Hjs) as (H1 & H2 & H3).
      rewrite (count_ext _ (fun j => j < cap)); [apply count_seqZ_lt; lia|]. intros j Hj. rewrite (Hstep js Hjs j Hj). apply elem_of_seqZ in Hj.
      destruct (Z.ltb_spec j cap); [split; [done|]|split; [|lia]; intros Hin; exfalso; by apply Hx, H2].
      intros _. apply list_elem_of_lookup. exists (Z.to_nat j). apply list_lookup_insert_eq. lia.
  - assert (Hd' : d ∈ ds) by (apply elem_of_app in Hd as [|Hd]; [done|]; by apply list_elem_of_singleton in Hd).
    rewrite (count_bind _ (fun js => d ∈ sampled ds js) _ _ (cap + Z.of_nat k)).
    + specialize (IH ds d Hcap ltac:(lia) ltac:(lia) Hnd' Hd'). replace (Z.of_nat (length ds)) with (cap + Z.of_nat k) in IH by lia.
      rewrite IH. lia.
    + intros js Hjs. rewrite count_map. destruct (Hres js Hjs) as (H1 & H2 & H3). case_decide as Hin.
      * destruct (insert_keeps (sampled ds js) x d H1 ltac:(by intros ?%H2) Hin H3) as (i & Hi & Hk).
        rewrite (count_ext _ (fun j => j <> i)); [rewrite count_seqZ_ne by lia; lia|]. intros j Hj. rewrite (Hstep js Hjs j Hj). apply Hk.
        apply elem_of_seqZ in Hj. lia.
      * apply count_none. intros j Hj. rewrite (Hstep js Hjs j Hj). destruct (j <? cap); [|done].
        intros Hi. apply list_elem_of_lookup in Hi as [m Hm]. apply list_lookup_insert_Some in Hm as [(_ & -> & _)|[_ Hm]]; [done|].
        apply Hin. by eapply list_elem_of_lookup_2.
Qed.
End reservoir.

(** In how many of the sequences of [k] draws the observation [d] is kept. *)
Definition kept (ds : list Z) (k : nat) (d : Z) : Z := count (fun js => d ∈ sampled maxPrioritySamples ds js) (draw_seqs maxPrioritySamples k).

(** C39: The reservoir is a uniform sample.  After [n] distinct observations, at
    least as many as it has room for, no draw sequence makes it fail, it holds
    exactly maxPrioritySamples of them, and over all equally likely sequences of
    draws each observation is kept in the same number of cases, the fraction
    maxPrioritySamples / n. *)
Theorem reservoir_uniform (ds : list Z) (k : nat) :
  NoDup ds -> length ds = (Z.to_nat maxPrioritySamples + k)%nat -> Z.of_nat (length ds) < 2 ^ 63 ->
  (forall js, js ∈ draw_seqs maxPrioritySamples k -> exists s, record_all maxPrioritySamples (with_draws maxPrioritySamples ds js) (mkSampler [] 0) = Ok s /\
     total s = Z.of_nat (length ds) /\ Z.of_nat (length (samples s)) = maxPrioritySamples /\ samples s ⊆ ds) /\
  forall d, d ∈ ds -> kept ds k d * Z.of_nat (length ds) = maxPrioritySamples * Z.of_nat (length (draw_seqs maxPrioritySamples k)).
Proof.
  intros Hnd Hl Hb. split.
  - intros js Hjs. pose proof (draw_seqs_length maxPrioritySamples k ltac:(done)) as Hseq. rewrite list.Forall_forall in Hseq. destruct (Hseq js Hjs) as [H1 H2].
    destruct (record_all_holds maxPrioritySamples ds js ltac:(done) ltac:(lia) Hb Hnd H2) as (s & Hs & Ht & Hlen & Hsub & _).
    exists s. split; [done|]. split; [done|]. split; [|done]. assert (0 <= maxPrioritySamples) by done. lia.
  - intros d Hd. by apply sampled_uniform.
Qed.

(** ** Accounting *)

(** The positions percentile reads are inside a full or partly filled reservoir. *)
Lemma percentile_positions :
  forallb (fun n => let i := to_int64 (0.5 * of_int (n - 1)) in let i' := to_int64 (0x1.fae147ae147aep-1 * of_int (n - 1)) in
                    (0 <=? i) && (i + 1 <? n) && (0 <=? i') && (i' + 1 <? n)) (seqZ 2 9999) = true.
Proof. vm_compute. reflexivity. Qed.

Lemma percentile_total (sorted : list float) (p : float) :
  p = 0.5%float \/ p = 0x1.fae147ae147aep-1%float -> Z.of_nat (length sorted) <= maxPrioritySamples -> exists x, percentile sorted p = Ok x.
Proof.
  intros Hp Hn. unfold percentile. case_decide as H0; [eauto|].
  assert (Hp0 : (p <=? 0)%float = false) by (by destruct Hp as [->| ->]; vm_compute).
  assert (Hp1 : (1 <=? p)%float = false) by (by destruct Hp as [->| ->]; vm_compute). rewrite Hp0, Hp1, orb_false_r.
  assert (Hidx : forall i, (i < length sorted)%nat -> exists x, index sorted i = Ok x).
  { intros i Hi. unfold index. destruct (lookup_lt_is_Some_2 _ _ Hi) as [x ->]. by eexists. }
  case_bool_decide as H1; [apply Hidx; lia|].
  pose proof percentile_positions as Hall. rewrite forallb_forall in Hall. specialize (Hall (Z.of_nat (length sorted))).
  rewrite <- list_elem_of_In, elem_of_seqZ in Hall. cbv zeta in Hall. rewrite !andb_true_iff, !Z.leb_le, !Z.ltb_lt in Hall.
  unfold maxPrioritySamples in Hn. destruct Hall as (((Ha & Hb) & Hc) & Hd); [lia|].
  assert (Hi : 0 <= to_int64 (p * of_int (Z.of_nat (length sorted) - 1)) /\ to_int64 (p * of_int (Z.of_nat (length sorted) - 1)) + 1 < Z.of_nat (length sorted))
    by (destruct Hp as [->| ->]; done).
  cbv zeta. revert Hi. generalize (to_int64 (p * of_int (Z.of_nat (length sorted) - 1))). intros i Hi. rewrite (proj2 (Z.ltb_ge _ _)) by lia.
  destruct (Hidx (Z.to_nat i)) as [a ->]; [lia|]. destruct (Hidx (Z.to_nat (i + 1))) as [b ->]; [lia|]. rewrite !Ok_bind. by eexists.
Qed.

Lemma sampler_snapshot_total s : Z.of_nat (length (samples s)) <= maxPrioritySamples -> exists st, sampler_snapshot s = Ok st /\ ps_Count st = total s.
Proof.
  intros Hl. unfold sampler_snapshot. case_decide; [eauto|].
  set (sorted := merge_sort _ _). assert (Hs : Z.of_nat (length sorted) <= maxPrioritySamples).
  { unfold sorted. by rewrite (Permutation_length (merge_sort_Permutation _ _)), length_fmap. }
  destruct (percentile_total sorted 0.5 ltac:(by left) Hs) as [a ->]. rewrite Ok_bind.
  destruct (percentile_total sorted 0x1.fae147ae147aep-1 ltac:(by right) Hs) as [b ->]. rewrite Ok_bind. eauto.
Qed.

Section accounting.
Context {H : Hdr} {HL : HdrLaws H} {G : Gonum}.

(** The calls an experiment makes. *)
Inductive xc_event : Type :=
| XProduce
| XPublishError
| XThrottled
| XConsumeError
| XConsume (j priority latency : Z)
| XStages (now enqueueTime produceTime appendTime : Z)
| XLoads (now : Time) (loads : list float)
| XStdDev (now : Time) (sd : float)
| XReset.

Definition xc_step (ev : xc_event) (c : ExpCollector) : result ExpCollector :=
  match ev with
  | XProduce => Ok (xc_RecordProduce c)
  | XPublishError => Ok (xc_RecordPublishError c)
  | XThrottled => Ok (xc_RecordPublishThrottled c)
  | XConsumeError => Ok (xc_RecordConsumeError c)
  | XConsume j priority latency => RecordConsumeWithPriority j priority latency c
  | XStages now e p a => Ok (RecordConsumeMultiStage now e p a c)
  | XLoads now loads => Ok (RecordLoadSample now loads c)
  | XStdDev now sd => Ok (RecordLoadStdDev now sd c)
  | XReset => Ok (xc_Reset c)
  end.
Fixpoint xc_run (evs : list xc_event) (c : ExpCollector) : result ExpCollector :=
  match evs with [] => Ok c | ev :: evs => c ← xc_step ev c; xc_run evs c end.

Lemma xc_run_snoc evs ev c : xc_run (evs ++ [ev]) c = c ← xc_run evs c; xc_step ev c.
Proof.
  revert c. induction evs as [|e evs IH]; intros c; cbn [app xc_run].
  - rewrite Ok_bind. by destruct (xc_step ev c).
  - destruct (xc_step e c); [|done..]. rewrite !Ok_bind. apply IH.
Qed.

Definition xc_event_ok (ev : xc_event) : Prop := match ev with XConsume j priority _ => 0 <= j /\ 0 <= priority < 256 | _ => True end.

(** The events since the last reset. *)
Definition since_reset (evs : list xc_event) : list xc_event :=
  foldl (fun l ev => match ev with XReset => [] | _ => l ++ [ev] end) [] evs.

(** The latencies of the messages of priority [p], and how many of all messages
    have one the histograms cover. *)
Definition latency_of (p : nat) (ev : xc_event) : option Z :=
  match ev with XConsume _ q d => if decide (q = Z.of_nat p) then Some d else None | _ => None end.
Definition latencies (p : nat) (evs : list xc_event) : list Z := omap (latency_of p) evs.
Definition covered (ev : xc_event) : bool :=
  match ev with XConsume _ _ d => hdr_covers new_hist (at_least_one (Z.quot d 1000)) | _ => false end.
Definition is_produce (ev : xc_event) : bool := match ev with XProduce => true | _ => false end.
Definition is_consume (ev : xc_event) : bool := match ev with XConsume _ _ _ => true | _ => false end.
Definition is_publish_error (ev : xc_event) : bool := match ev with XPublishError => true | _ => false end.
Definition is_throttled (ev : xc_event) : bool := match ev with XThrottled => true | _ => false end.
Definition is_consume_error (ev : xc_event) : bool := match ev with XConsumeError => true | _ => false end.

Definition tally (evs : list xc_event) : exp_counters :=
  mkCounters (count is_produce evs) (count is_consume evs) (count is_publish_error evs) (count is_throttled evs) (count is_consume_error evs).

Definition hist_sum (l : list hist) : Z := foldr (fun h n => hdr_TotalCount h + n) 0 l.

(** What the collector holds after the events [evs]. *)
Definition accounts (evs : list xc_event) (c : ExpCollector) : Prop :=
  xc_counters c = tally evs /\
  (length (xc_shards c) = defaultNumShards /\ Forall (fun h => forall v, hdr_covers h v = hdr_covers new_hist v) (xc_shards c) /\
   hist_sum (xc_shards c) = count covered (since_reset evs)) /\
  (length (xc_byPriority c) = 10%nat /\ forall p s, xc_byPriority c !! p = Some s -> holds maxPrioritySamples (latencies p (since_reset evs)) s).

Lemma since_reset_snoc evs ev : since_reset (evs ++ [ev]) = match ev with XReset => [] | _ => since_reset evs ++ [ev] end.
Proof. unfold since_reset. by rewrite foldl_app. Qed.

Lemma since_reset_length evs : (length (since_reset evs) <= length evs)%nat.
Proof.
  induction evs as [|ev evs IH] using rev_ind; [done|]. rewrite since_reset_snoc, length_app. destruct ev; cbn [length]; rewrite ?length_app; cbn; lia.
Qed.

Lemma latencies_length p evs : (length (latencies p evs) <= length evs)%nat.
Proof. induction evs as [|ev evs IH]; [done|]. cbn. fold (latencies p evs). destruct (latency_of p ev); cbn [length]; lia. Qed.

Lemma count_bound {A} (P : A -> Prop) `{!forall x, Decision (P x)} l : 0 <= count P l <= Z.of_nat (length l).
Proof. induction l as [|x l IH]; [done|]. cbn [count foldr length]. fold (count P l). case_decide; lia. Qed.

Lemma tally_snoc evs ev :
  tally (evs ++ [ev]) = mkCounters (count is_produce evs + (if is_produce ev then 1 else 0)) (count is_consume evs + (if is_consume ev then 1 else 0))
    (count is_publish_error evs + (if is_publish_error ev then 1 else 0)) (count is_throttled evs + (if is_throttled ev then 1 else 0))
    (count is_consume_error evs + (if is_consume_error ev then 1 else 0)).
Proof. unfold tally. rewrite !count_app. by destruct ev. Qed.

Lemma hist_sum_insert l i h h' : l !! i = Some h -> hist_sum (<[i:=h']> l) = hist_sum l + (hdr_TotalCount h' - hdr_TotalCount h).
Proof.
  revert i. induction l as [|x l IH]; intros [|i] Hi; try done.
  - injection Hi as ->. cbn. fold (hist_sum l). lia.
  - change (hist_sum (<[S i:=h']> (x :: l))) with (hdr_TotalCount x + hist_sum (<[i:=h']> l)). rewrite (IH i Hi). cbn. fold (hist_sum l). lia.
Qed.

Lemma hist_sum_reset l : hist_sum (hdr_Reset <$> l) = 0.
Proof. induction l as [|h l IH]; [done|]. cbn. fold (hist_sum (hdr_Reset <$> l)). by rewrite hdr_Reset_count, IH. Qed.

Lemma merged_count (l : list hist) h0 :
  (forall v, hdr_covers h0 v = hdr_covers new_hist v) -> Forall (fun h => forall v, hdr_covers h v = hdr_covers new_hist v) l ->
  hdr_TotalCount (foldl hdr_Merge h0 l) = hdr_TotalCount h0 + hist_sum l.
Proof.
  revert h0. induction l as [|h l IH]; intros h0 H0 Hl; cbn [foldl hist_sum foldr]; [lia|]. apply list.Forall_cons_1 in Hl as [Hh Hl]. fold (hist_sum l).
  rewrite IH; [|intros v; by rewrite hdr_Merge_covers|done]. rewrite hdr_Merge_count by (intros v; by rewrite H0, Hh). lia.
Qed.

(** Recording a message's latency. *)
Lemma record_accounts evs j p d c :
  accounts evs c -> 0 <= j -> 0 <= p < 256 -> Z.of_nat (length evs) + 1 < 2 ^ 63 ->
  exists c', RecordConsumeWithPriority j p d c = Ok c' /\ accounts (evs ++ [XConsume j p d]) c'.
Proof.
  intros (Hn & (Hsl & Hcov & Hsum) & Hpl & Hp) Hj Hpr Hb. unfold RecordConsumeWithPriority, count_consumed. cbn [xc_set_counters xc_shards xc_byPriority].
  rewrite Hsl, Hpl. assert (Hi : 0 <= p mod Z.of_nat defaultNumShards < 16) by (apply Z.mod_pos_bound; done).
  destruct (lookup_lt_is_Some_2 (xc_shards c) (Z.to_nat (p mod Z.of_nat defaultNumShards))) as [sh Hsh]; [rewrite Hsl; unfold defaultNumShards in *; lia|].
  unfold index. rewrite Hsh. cbn [must]. rewrite Ok_bind. set (i := Z.to_nat _) in *. set (us := at_least_one _).
  assert (Hall : forall pr, length pr = 10%nat ->
    (forall q s, pr !! q = Some s -> holds maxPrioritySamples (latencies q (since_reset (evs ++ [XConsume j p d]))) s) ->
    accounts (evs ++ [XConsume j p d])
      (xc_set_latencies (<[i:=hdr_RecordValue sh us]> (xc_shards c)) pr
         (xc_set_counters (mkCounters (xn_produced (xc_counters c)) (i64 (xn_consumed (xc_counters c) + 1)) (xn_publishErrors (xc_counters c))
            (xn_publishThrottled (xc_counters c)) (xn_consumeErrors (xc_counters c))) c))).
  { intros pr Hl Hpr'. split; [|split].
    - rewrite tally_snoc. cbn [is_produce is_consume is_publish_error is_throttled is_consume_error]. cbn -[count i64]. rewrite Hn. cbn -[count i64].
      rewrite !Z.add_0_r. f_equal. apply i64_small. pose proof (count_bound is_consume evs). unfold in_i64. lia.
    - cbn [xc_shards xc_set_latencies]. rewrite length_insert. split; [done|]. split.
      + apply Forall_insert; [done|]. intros v. rewrite hdr_Record_covers. by apply (list.Forall_lookup_1 _ _ _ _ Hcov Hsh).
      + rewrite (hist_sum_insert _ _ sh), Hsum, hdr_Record_count, since_reset_snoc, count_app by done.
        rewrite (list.Forall_lookup_1 _ _ _ _ Hcov Hsh us). assert (Hc : count covered [XConsume j p d] = if hdr_covers new_hist us then 1 else 0).
        { cbn. fold us. by destruct (hdr_covers new_hist us). }
        rewrite Hc. lia.
    - done. }
  assert (Hlat : forall q, latencies q (since_reset (evs ++ [XConsume j p d])) = latencies q (since_reset evs) ++ (if decide (p = Z.of_nat q) then [d] else [])).
  { intros q. rewrite since_reset_snoc. unfold latencies. rewrite omap_app. cbn. by case_decide. }
  destruct (Z.ltb_spec p (Z.of_nat 10)) as [Hlt|Hge].
  - destruct (lookup_lt_is_Some_2 (xc_byPriority c) (Z.to_nat p)) as [s Hs]; [lia|]. rewrite Hs. cbn [must]. rewrite Ok_bind.
    destruct (record_step maxPrioritySamples j d (latencies (Z.to_nat p) (since_reset evs)) s) as (s' & Hrec & Hs' & _); [done|by apply Hp| |done| |].
    + pose proof (since_reset_length evs). pose proof (latencies_length (Z.to_nat p) (since_reset evs)). lia.
    + intros (_ & Hd & _)%list.NoDup_app Hin. apply (Hd d Hin). by left.
    + unfold record. rewrite Hrec, Ok_bind. eexists. split; [done|]. apply Hall; [by rewrite length_insert|].
      intros q s0 Hq. rewrite Hlat. apply list_lookup_insert_Some in Hq as [(<- & -> & _)|[Hne Hq]].
      * rewrite decide_True by lia. done.
      * rewrite decide_False by lia. rewrite app_nil_r. by apply Hp.
  - eexists. split; [done|]. apply Hall; [done|]. intros q s Hq. rewrite Hlat. pose proof (lookup_lt_Some _ _ _ Hq).
    rewrite decide_False by lia. rewrite app_nil_r. by apply Hp.
Qed.

Lemma accounts_new : accounts [] NewExpCollector.
Proof.
  split; [done|]. split.
  - split; [done|]. split; [by apply Forall_replicate|]. cbn. unfold new_hist. by rewrite !hdr_New_count.
  - split; [done|]. intros p s Hs. apply lookup_replicate in Hs as [-> _]. split; [done|]. split; [done|]. split; [done|]. split; [constructor|done].
Qed.

(** Every call keeps the account, and none panics. *)
Lemma step_accounts evs ev c :
  accounts evs c -> xc_event_ok ev -> Z.of_nat (length evs) + 1 < 2 ^ 63 -> exists c', xc_step ev c = Ok c' /\ accounts (evs ++ [ev]) c'.
Proof.
  intros Hacc Hok Hb. pose proof Hacc as (Hn & (Hsl & Hcov & Hsum) & Hpl & Hp).
  assert (Hsame : forall c', xc_counters c' = tally (evs ++ [ev]) -> xc_shards c' = xc_shards c -> xc_byPriority c' = xc_byPriority c ->
    since_reset (evs ++ [ev]) = since_reset evs ++ [ev] -> covered ev = false -> (forall p, latency_of p ev = None) -> accounts (evs ++ [ev]) c').
  { intros c' H1 H2 H3 H4 H5 H6. split; [done|]. rewrite H2, H3, H4. split.
    - split; [done|]. split; [done|]. rewrite count_app, Hsum. assert (Hc : count covered [ev] = 0) by (cbn; by rewrite H5). lia.
    - split; [done|]. intros p s Hs. unfold latencies. rewrite omap_app. cbn. rewrite H6, app_nil_r. by apply Hp. }
  assert (Hcount : forall n, 0 <= n <= Z.of_nat (length evs) -> i64 (n + 1) = n + 1) by (intros n Hn'; apply i64_small; unfold in_i64; lia).
  destruct ev; try (cbn [xc_step]; eexists; split; [done|]; apply Hsame; try done;
    [rewrite tally_snoc; cbn -[count i64]; rewrite Hn; cbn -[count i64]; rewrite ?Hcount, ?Z.add_0_r by apply count_bound; done|
     rewrite since_reset_snoc; done]).
  - destruct Hok as [Hj Hpr]. by apply record_accounts.
  - cbn [xc_step]. unfold RecordConsumeMultiStage. eexists. split; [done|].
    destruct (_ && _); (apply Hsame; [rewrite tally_snoc; cbn -[count i64]; rewrite Hn, !Z.add_0_r; done|done|done|by rewrite since_reset_snoc|done|done]).
  - cbn [xc_step]. unfold RecordLoadSample, RecordLoadStdDev. eexists. split; [done|].
    case_decide; [|destruct (_ <? _)]; (apply Hsame; [rewrite tally_snoc; cbn -[count i64]; rewrite Hn, !Z.add_0_r; done|done|done|by rewrite since_reset_snoc|done|done]).
  - cbn [xc_step]. unfold RecordLoadStdDev. eexists. split; [done|].
    destruct (_ <? _); (apply Hsame; [rewrite tally_snoc; cbn -[count i64]; rewrite Hn, !Z.add_0_r; done|done|done|by rewrite since_reset_snoc|done|done]).
  - cbn [xc_step]. eexists. split; [done|]. split; [rewrite tally_snoc; cbn -[count i64]; rewrite Hn, !Z.add_0_r; done|].
    rewrite since_reset_snoc. cbn [xc_Reset xc_set_loads xc_set_stages xc_set_latencies xc_shards xc_byPriority]. split.
    + rewrite length_fmap, hist_sum_reset. split; [done|]. split; [|done]. apply list.Forall_fmap. eapply list.Forall_impl; [exact Hcov|].
      cbn. intros h Hh v. by rewrite hdr_Reset_covers.
    + rewrite length_fmap. split; [done|]. intros p s Hs. apply list_lookup_fmap_Some in Hs as (s' & -> & _).
      split; [done|]. split; [done|]. split; [done|]. split; [constructor|done].
Qed.

Lemma run_accounts_from evs0 evs c :
  accounts evs0 c -> Forall xc_event_ok evs -> Z.of_nat (length evs0 + length evs) < 2 ^ 63 -> exists c', xc_run evs c = Ok c' /\ accounts (evs0 ++ evs) c'.
Proof.
  intros Hacc0. induction evs as [|ev evs IH] using rev_ind; intros Hok Hb; [exists c; split; [done|]; by rewrite app_nil_r|].
  rewrite length_app in Hb. cbn in Hb. apply Forall_app in Hok as [Hok Hev]. apply list.Forall_cons_1 in Hev as [Hev _].
  destruct IH as (c1 & Hc & Hacc); [done|lia|].
  destruct (step_accounts (evs0 ++ evs) ev c1 Hacc Hev ltac:(rewrite length_app; lia)) as (c' & Hc' & Hacc').
  exists c'. rewrite app_assoc. split; [|done]. by rewrite xc_run_snoc, Hc, Ok_bind.
Qed.

Lemma run_accounts evs :
  Forall xc_event_ok evs -> Z.of_nat (length evs) < 2 ^ 63 -> exists c, xc_run evs NewExpCollector = Ok c /\ accounts evs c.
Proof. intros Hok Hb. by apply (run_accounts_from [] evs _ accounts_new). Qed.

(** A result can be taken, and has the collector's counts. *)
Lemma snapshot_accounts evs c now sc al sy mo :
  accounts evs c -> exists r, xc_Snapshot now sc al sy mo c = Ok r /\
    mkCounters (er_Produced r) (er_Consumed r) (er_PublishErrors r) (er_MessagesThrottled r) (er_ConsumeErrors r) = tally evs /\
    length (er_LatencyByPriority r) = 10%nat /\
    forall p st, er_LatencyByPriority r !! p = Some st -> ps_Count st = Z.of_nat (length (latencies p (since_reset evs))).
Proof.
  intros (Hn & _ & Hpl & Hp). unfold xc_Snapshot.
  assert (Hst : exists stats, mapM sampler_snapshot (xc_byPriority c) = Ok stats /\ Forall2 (fun s st => ps_Count st = total s) (xc_byPriority c) stats).
  { assert (Hb : Forall (fun s => Z.of_nat (length (samples s)) <= maxPrioritySamples) (xc_byPriority c)).
    { apply list.Forall_lookup. intros p s Hs. destruct (Hp p s Hs) as (_ & Hl & _). lia. }
    clear -Hb. induction (xc_byPriority c) as [|s l IH]; [by exists []|]. apply list.Forall_cons_1 in Hb as [Hs Hl].
    destruct (sampler_snapshot_total s Hs) as (st & Hst & Hc). destruct (IH Hl) as (stats & Hm & HF).
    exists (st :: stats). cbn [mapM]. rewrite Hst, Ok_bind, Hm, Ok_bind. split; [done|]. by constructor. }
  destruct Hst as (stats & -> & HF). rewrite Ok_bind. eexists. split; [done|]. cbn [er_Produced er_Consumed er_PublishErrors er_MessagesThrottled er_ConsumeErrors er_LatencyByPriority].
  split; [rewrite Hn; done|]. split; [by rewrite <- (list.Forall2_length _ _ _ HF)|].
  intros p st Hst. destruct (list.Forall2_lookup_r _ _ _ _ _ HF Hst) as (s & Hs & ->). by destruct (Hp p s Hs) as [-> _].
Qed.

(** C40: A result accounts for every message of its experiment.  Whatever calls
    the producers and consumers make, none panics, the result can be taken, its
    counters are the numbers of the calls, the histogram its latencies come from
    has every message consumed since the last reset whose latency is in range,
    and each priority level counts exactly its own messages. *)
Theorem collector_accounts (evs : list xc_event) (now : Time) (sc al sy mo : string) :
  Forall xc_event_ok evs -> Z.of_nat (length evs) < 2 ^ 63 ->
  exists c r, xc_run evs NewExpCollector = Ok c /\ xc_Snapshot now sc al sy mo c = Ok r /\
    mkCounters (er_Produced r) (er_Consumed r) (er_PublishErrors r) (er_MessagesThrottled r) (er_ConsumeErrors r) = tally evs /\
    hdr_TotalCount (merged c) = count covered (since_reset evs) /\
    length (er_LatencyByPriority r) = 10%nat /\
    forall p st, er_LatencyByPriority r !! p = Some st -> ps_Count st = Z.of_nat (length (latencies p (since_reset evs))).
Proof.
  intros Hok Hb. destruct (run_accounts evs Hok Hb) as (c & Hc & Hacc). destruct (snapshot_accounts evs c now sc al sy mo Hacc) as (r & Hr & H1 & H2 & H3).
  exists c, r. split; [done|]. split; [done|]. split; [done|]. split; [|by split].
  destruct Hacc as (_ & (_ & Hcov & Hsum) & _). unfold merged. rewrite merged_count by done. unfold new_hist. by rewrite hdr_New_count, Hsum.
Qed.
End accounting.

(** A histogram that keeps its values and counts those in range. *)
Definition in_range (r : Z * Z) (v : Z) : bool := (r.1 <=? v) && (v <=? r.2).
#[local] Instance list_Hdr : Hdr := {|
  hist := (Z * Z) * list Z;
  hdr_New lo hi _ := ((lo, hi), []);
  hdr_covers h v := in_range h.1 v;
  hdr_RecordValue h v := (h.1, v :: h.2);
  hdr_Reset h := (h.1, []);
  hdr_Merge h h' := (h.1, h'.2 ++ h.2);
  hdr_TotalCount h := count (in_range h.1) h.2;
  hdr_ValueAtQuantile h q := default 0 (head h.2);
|}.
#[local] Instance list_Hdr_laws : HdrLaws list_Hdr.
Proof.
  split; try done.
  - intros lo hi d v Hv. apply andb_true_iff. rewrite !Z.leb_le. done.
  - intros h v. cbn -[count]. change (v :: h.2) with ([v] ++ h.2). rewrite count_app, Z.add_comm. f_equal. cbn. by destruct (in_range h.1 v).
  - intros h h' Hc. cbn -[count] in *. rewrite count_app, (count_ext _ (in_range h'.1) h'.2) by (intros v _; by rewrite Hc). lia.
Qed.

#[local] Existing Instance plain_stats.

Definition sample_events : list xc_event :=
  [XProduce; XProduce; XProduce; XConsume 0 9 5000; XReset; XConsume 0 3 7000; XConsume 0 3 40000000000; XConsume 0 12 1000; XThrottled].

Lemma collector_accounts_witness :
  exists c r, xc_run sample_events NewExpCollector = Ok c /\ xc_Snapshot zeroTime "" "" "" "" c = Ok r /\
    er_Produced r = 3 /\ er_Consumed r = 4 /\ hdr_TotalCount (merged c) = 2 /\ ps_Count <$> er_LatencyByPriority r !! 3%nat = Some 2.
Proof.
  destruct (collector_accounts sample_events zeroTime "" "" "" "") as (c & r & Hc & Hr & Hn & Hm & Hl & Hp); [|done|].
  { repeat constructor. all: cbn; lia. }
  exists c, r. split; [done|]. split; [done|]. injection Hn as -> -> _ _ _. rewrite Hm. split; [done|]. split; [done|]. split; [done|].
  destruct (lookup_lt_is_Some_2 (er_LatencyByPriority r) 3) as [st Hst]; [lia|]. rewrite Hst. cbn. by rewrite (Hp 3%nat st Hst).
Defined.

Lemma reservoir_uniform_witness :
  kept (seqZ 0 10001) 1 0 * 10001 = maxPrioritySamples * Z.of_nat (length (draw_seqs maxPrioritySamples 1)).
Proof.
  assert (Hl : length (seqZ 0 10001) = (Z.to_nat maxPrioritySamples + 1)%nat) by (rewrite length_seqZ; unfold maxPrioritySamples; lia).
  destruct (reservoir_uniform (seqZ 0 10001) 1 (NoDup_seqZ _ _) Hl) as [_ Hu]; [rewrite length_seqZ; lia|].
  specialize (Hu 0 ltac:(apply elem_of_seqZ; lia)). rewrite length_seqZ in Hu. exact Hu.
Defined.
