(* ===== verification/App.v ===== *)
(** * The application (src/internal/app/app.go, options.go; src/experiments/algorithms.go)

    BrokerApp puts the parts together: it opens the offset store, creates the
    balancer and the broker, gives every topic the scheduler of its mode, and
    starts and stops the servers.  Go's interface values are sums here:
    [AnyBalancer] and [AnyScheduler] have one constructor per implementation and
    the interface's methods dispatch on it.  Parameters: [net_Listen], and the
    initial weights and draws of the learning parts. *)

From S2P Require Import Prelude Message PriorityIndex Wal Compression GoFloat Config Partition Topic Backpressure OffsetStore LoadPredictor Metrics Balancer.
From S2P Require Import RoundRobin P2C PSA Scheduler NN QNet DqnScheduler DqnSchedulerProps DqnBalancer Preprocessing Broker Optimizer.

(** [net.Listen("tcp", addr)]: the address it is bound to, in a process that
    listens on the addresses [bound] already. *)
Class NetListen : Type := { net_Listen : list string -> string -> result string }.
(** An address that is in use is refused ("address already in use"). *)
Class NetListenLaws (N : NetListen) : Prop := {
  net_Listen_fresh bound addr l : net_Listen bound addr = Ok l -> l ∉ bound;
}.

(** The value of a constructor that cannot fail. *)
Definition is_Ok {A} (r : result A) : bool := match r with Ok _ => true | _ => false end.
Definition from_Ok {A} (r : result A) : is_Ok r = true -> A :=
  match r with Ok x => fun _ => x | _ => fun H => False_rect A (diff_false_true H) end.

Lemma from_Ok_eq {A} (r : result A) H : r = Ok (from_Ok r H).
Proof. by destruct r. Qed.

(** ** Balancers and schedulers behind their interfaces *)

Section interfaces.
Context {W : Wal} {K : Compressors} {U : Lru} {O : RangeOrders} {M : MathLib} {G : Gonum} {Net : Type}.

Inductive AnyBalancer : Type :=
| BalRoundRobin (b : RoundRobin)
| BalPowerOfTwoChoices (b : PowerOfTwoChoices)
| BalPSA (b : PSA)
| BalDQN (b : DQNBalancer Net).

(** A method's result, back behind the interface. *)
Definition repack {A} (f : A -> AnyBalancer) (r : result (A * Z)) : result (AnyBalancer * Z) := '(b, p) ← r; Ok (f b, p).

#[export] Instance any_balancer : Balancer AnyBalancer := {|
  bal_SelectPartition d now b topic key n :=
    match b with
    | BalRoundRobin b => repack BalRoundRobin (bal_SelectPartition d now b topic key n)
    | BalPowerOfTwoChoices b => repack BalPowerOfTwoChoices (bal_SelectPartition d now b topic key n)
    | BalPSA b => repack BalPSA (bal_SelectPartition d now b topic key n)
    | BalDQN b => repack BalDQN (bal_SelectPartition d now b topic key n)
    end;
  bal_OnMetrics now b m :=
    match b with
    | BalRoundRobin b => b ← bal_OnMetrics now b m; Ok (BalRoundRobin b)
    | BalPowerOfTwoChoices b => b ← bal_OnMetrics now b m; Ok (BalPowerOfTwoChoices b)
    | BalPSA b => b ← bal_OnMetrics now b m; Ok (BalPSA b)
    | BalDQN b => b ← bal_OnMetrics now b m; Ok (BalDQN b)
    end;
  bal_OnPublishComplete b p :=
    match b with
    | BalRoundRobin b => b ← bal_OnPublishComplete b p; Ok (BalRoundRobin b)
    | BalPowerOfTwoChoices b => b ← bal_OnPublishComplete b p; Ok (BalPowerOfTwoChoices b)
    | BalPSA b => b ← bal_OnPublishComplete b p; Ok (BalPSA b)
    | BalDQN b => b ← bal_OnPublishComplete b p; Ok (BalDQN b)
    end;
  bal_SetBaseThroughput b t :=
    match b with
    | BalRoundRobin b => BalRoundRobin (bal_SetBaseThroughput b t)
    | BalPowerOfTwoChoices b => BalPowerOfTwoChoices (bal_SetBaseThroughput b t)
    | BalPSA b => BalPSA (bal_SetBaseThroughput b t)
    | BalDQN b => BalDQN (bal_SetBaseThroughput b t)
    end;
  bal_DroppedExperience b :=
    match b with
    | BalRoundRobin b => bal_DroppedExperience b
    | BalPowerOfTwoChoices b => bal_DroppedExperience b
    | BalPSA b => bal_DroppedExperience b
    | BalDQN b => bal_DroppedExperience b
    end;
  bal_EvictionCount b :=
    match b with
    | BalRoundRobin b => bal_EvictionCount b
    | BalPowerOfTwoChoices b => bal_EvictionCount b
    | BalPSA b => bal_EvictionCount b
    | BalDQN b => bal_EvictionCount b
    end;
|}.

Inductive AnyScheduler : Type :=
| SchedFIFO (s : FIFO)
| SchedStrictPriority (s : StrictPriority)
| SchedDQN (s : DQNScheduler Net).

#[export] Instance any_scheduler : Scheduler AnyScheduler := {|
  Next env s p off :=
    match s with
    | SchedFIFO s => let '(s, p, r) := Next env s p off in (SchedFIFO s, p, r)
    | SchedStrictPriority s => let '(s, p, r) := Next env s p off in (SchedStrictPriority s, p, r)
    | SchedDQN s => let '(s, p, r) := Next env s p off in (SchedDQN s, p, r)
    end;
|}.

(** A learning scheduler with its default settings; [rnd] and [net] are the draws
    and the initial weights. *)
Lemma NewDQNScheduler_total (rnd : nat -> nat -> float) (net : Net) : is_Ok (NewDQNScheduler rnd net []) = true.
Proof. by destruct (NewDQNScheduler_ok rnd net) as (d & -> & _). Qed.

Definition newDQNScheduler (rnd : nat -> nat -> float) (net : Net) : DQNScheduler Net :=
  from_Ok (NewDQNScheduler rnd net []) (NewDQNScheduler_total rnd net).

(** The scheduler factory of New. *)
Definition scheduler_for (rnd : nat -> nat -> float) (net : Net) (tc : TopicConfig) : AnyScheduler :=
  match tc_ScheduleMode tc with
  | ModeStrictPriority => SchedStrictPriority NewStrictPriority
  | ModeDQNAdaptive => SchedDQN (newDQNScheduler rnd net)
  | ModeFIFO => SchedFIFO NewFIFO
  end.
End interfaces.
Arguments AnyBalancer {U} Net.
Arguments AnyScheduler Net : clear implicits.

(** ** Options *)

Record loadPredictorConfig : Type := mkLPConfig { lpc_window : nat; lpc_horizon : nat; lpc_interval : Z }.
Record backpressureConfig : Type := mkBPConfig { bpc_threshold : float; bpc_horizon : Z }.
Record optimizerConfig : Type := mkOConfig { occ_params : list TunableParam; occ_optCfg : OptimizerConfig; occ_pilot : list PilotData }.

Section app.
Context {W : Wal} {K : Compressors} {F : Filepath} {D : Badger} {G : Gonum} {V : Govy} {R : MapRange} {E : BrokerEnv}.
Context {U : Lru} {O : RangeOrders} {M : MathLib} {Net : Type} {L : GonumLA} {ANet : Type} {AC : ACNet ANet} {NL : NetListen}.
Abbreviation AppBroker := (Broker (Bal := AnyBalancer Net) (Sch := AnyScheduler Net)).

(** What the options set.  A balancer factory may panic: a constructor given a
    negative number of partitions does. *)
Record AppOptions : Type := mkOptions {
  ao_balancerFactory : unit -> result (AnyBalancer Net);
  ao_schedulers : gmap string (AnyScheduler Net);
  ao_grpcAddr : string;
  ao_httpAddr : string;
  ao_adminAddr : string;
  ao_metricsInterval : Z;
  ao_loadPredictorCfg : option loadPredictorConfig;
  ao_backpressureCfg : option backpressureConfig;
  ao_optimizerCfg : option optimizerConfig;
}.
Definition Option : Type := AppOptions -> AppOptions.

Definition WithBalancerFactory (fn : unit -> result (AnyBalancer Net)) : Option := fun a =>
  mkOptions fn (ao_schedulers a) (ao_grpcAddr a) (ao_httpAddr a) (ao_adminAddr a) (ao_metricsInterval a)
    (ao_loadPredictorCfg a) (ao_backpressureCfg a) (ao_optimizerCfg a).
Definition WithBalancer (b : AnyBalancer Net) : Option := WithBalancerFactory (fun _ => Ok b).
Definition WithP2CBalancer (opts : list P2COption) : Option := WithBalancerFactory (fun _ => Ok (BalPowerOfTwoChoices (NewPowerOfTwoChoices opts))).
Definition WithDefaultBalancer : Option := WithP2CBalancer [].
Definition WithRoundRobinBalancer (opts : list RROption) : Option := WithBalancerFactory (fun _ => Ok (BalRoundRobin (NewRoundRobin opts))).
Definition WithScheduler (topic : string) (s : AnyScheduler Net) : Option := fun a =>
  mkOptions (ao_balancerFactory a) (<[topic := s]> (ao_schedulers a)) (ao_grpcAddr a) (ao_httpAddr a) (ao_adminAddr a) (ao_metricsInterval a)
    (ao_loadPredictorCfg a) (ao_backpressureCfg a) (ao_optimizerCfg a).
Definition WithGRPC (addr : string) : Option := fun a =>
  mkOptions (ao_balancerFactory a) (ao_schedulers a) addr (ao_httpAddr a) (ao_adminAddr a) (ao_metricsInterval a)
    (ao_loadPredictorCfg a) (ao_backpressureCfg a) (ao_optimizerCfg a).
Definition WithHTTP (addr : string) : Option := fun a =>
  mkOptions (ao_balancerFactory a) (ao_schedulers a) (ao_grpcAddr a) addr (ao_adminAddr a) (ao_metricsInterval a)
    (ao_loadPredictorCfg a) (ao_backpressureCfg a) (ao_optimizerCfg a).
Definition WithAdmin (addr : string) : Option := fun a =>
  mkOptions (ao_balancerFactory a) (ao_schedulers a) (ao_grpcAddr a) (ao_httpAddr a) addr (ao_metricsInterval a)
    (ao_loadPredictorCfg a) (ao_backpressureCfg a) (ao_optimizerCfg a).
Definition WithLoadPredictor (window horizon : nat) (interval : Z) : Option := fun a =>
  mkOptions (ao_balancerFactory a) (ao_schedulers a) (ao_grpcAddr a) (ao_httpAddr a) (ao_adminAddr a) (ao_metricsInterval a)
    (Some (mkLPConfig window horizon interval)) (ao_backpressureCfg a) (ao_optimizerCfg a).
Definition WithBackpressure (threshold : float) (horizon : Z) : Option := fun a =>
  mkOptions (ao_balancerFactory a) (ao_schedulers a) (ao_grpcAddr a) (ao_httpAddr a) (ao_adminAddr a) (ao_metricsInterval a)
    (ao_loadPredictorCfg a) (Some (mkBPConfig threshold horizon)) (ao_optimizerCfg a).
Definition set_optimizerCfg (c : option optimizerConfig) : Option := fun a =>
  mkOptions (ao_balancerFactory a) (ao_schedulers a) (ao_grpcAddr a) (ao_httpAddr a) (ao_adminAddr a) (ao_metricsInterval a)
    (ao_loadPredictorCfg a) (ao_backpressureCfg a) c.
Definition WithOptimizer (params : list TunableParam) (optCfg : list OptimizerConfig) : Option :=
  set_optimizerCfg (Some (mkOConfig params (default DefaultOptimizerConfig (head optCfg)) [])).
Definition WithLassoPilot (pilot : list PilotData) : Option := fun a =>
  match ao_optimizerCfg a with
  | Some c => set_optimizerCfg (Some (mkOConfig (occ_params c) (occ_optCfg c) pilot)) a
  | None => a
  end.
Definition WithMetricsInterval (d : Z) : Option := fun a =>
  mkOptions (ao_balancerFactory a) (ao_schedulers a) (ao_grpcAddr a) (ao_httpAddr a) (ao_adminAddr a) d
    (ao_loadPredictorCfg a) (ao_backpressureCfg a) (ao_optimizerCfg a).

(** ** The application's state *)

(** A server: the address it listens on once Start succeeded, and whether it
    still serves. *)
Record server : Type := mkServer { srv_addr : option string; srv_serving : bool }.
Definition no_server : server := mkServer None false.
Definition stop_server (s : server) : server := mkServer (srv_addr s) false.

Record BrokerApp : Type := mkApp {
  a_cfg : Config;
  a_dataDir : string;
  a_opts : AppOptions;
  a_broker : AppBroker;
  a_loadPredictor : option LoadPredictor;
  a_opt : option (Optimizer ANet);
  a_server : option server;
  a_httpServer : option server;
  a_adminServer : option server;
  a_ready : bool;
  a_loops : list string;       (* the parts whose background loops run *)
}.

Definition commit_interval (cfg : Config) : Z :=
  if decide (cfg_SyncPolicy cfg <> SyncEveryWrite)
  then i64 ((if FlushIntervalMs cfg <=? 0 then 100 else FlushIntervalMs cfg) * time_Millisecond) else 0.

Definition default_options : AppOptions :=
  mkOptions (fun _ => Ok (BalPowerOfTwoChoices (NewPowerOfTwoChoices []))) ∅ "" "" "" 0 None None None.

(** [rnd], [net]: for the schedulers; [anet]: for the optimizer's networks. *)
Definition app_New (now : Time) (rnd : nat -> nat -> float) (net : Net) (anet : ANet) (cfg : Config) (dataDir : string) (opts : list Option)
    : result BrokerApp :=
  let o := foldl (fun a opt => opt a) default_options opts in
  store ← wrapf "offset store" (NewOffsetStore dataDir [commit_interval cfg]);
  bal ← ao_balancerFactory o tt;
  let b := Broker.New now cfg dataDir bal (Some store) in
  let b := SetSchedulerFactory b (scheduler_for rnd net) in
  let b := map_fold (fun topic sched b => SetScheduler b topic sched) b (ao_schedulers o) in
  let lp := (fun c => NewLoadPredictor (lpc_window c) (lpc_horizon c)) <$> ao_loadPredictorCfg o in
  let b := match ao_loadPredictorCfg o with
           | Some _ =>
               let threshold := match ao_backpressureCfg o with Some c => bpc_threshold c | None => 0x1.b333333333333p-1%float (* 0.85 *) end in
               SetBackpressure b (Some (NewBackpressureController threshold))
           | None => b
           end in
  opt ← match ao_optimizerCfg o with
        | Some c => opt ← NewOptimizer anet b (occ_params c) (occ_optCfg c) (occ_pilot c); Ok (Some opt)
        | None => Ok None
        end;
  Ok (mkApp cfg dataDir o b lp opt None None None false []).

Definition set_parts (srv http admin : option server) (ready : bool) (loops : list string) (a : BrokerApp) : BrokerApp :=
  mkApp (a_cfg a) (a_dataDir a) (a_opts a) (a_broker a) (a_loadPredictor a) (a_opt a) srv http admin ready loops.
Definition set_ready (r : bool) (a : BrokerApp) : BrokerApp := set_parts (a_server a) (a_httpServer a) (a_adminServer a) r (a_loops a) a.
Definition set_broker (b : AppBroker) (a : BrokerApp) : BrokerApp :=
  mkApp (a_cfg a) (a_dataDir a) (a_opts a) b (a_loadPredictor a) (a_opt a) (a_server a) (a_httpServer a) (a_adminServer a) (a_ready a) (a_loops a).

(** The addresses the application listens on. *)
Definition app_bound (a : BrokerApp) : list string :=
  s ← omap (fun s => s) [a_server a; a_httpServer a; a_adminServer a];
  if srv_serving s then option_list (srv_addr s) else [].

(** The Start method of the three servers: a listener, and serving. *)
Definition server_Start (msg : string) (bound : list string) (addr : string) : result server :=
  l ← wrapf msg (net_Listen bound addr); Ok (mkServer (Some l) true).

(** Start one server when it has an address: it is created first, and is there
    even when it cannot listen. *)
Definition start_one (msg wrap addr : string) (keep : option server -> BrokerApp -> BrokerApp) (a : BrokerApp) : BrokerApp * result unit :=
  if decide (addr = ""%string) then (a, Ok tt)
  else match wrapf wrap (server_Start msg (app_bound a) addr) with
       | Ok s => (keep (Some s) a, Ok tt)
       | Err e => (keep (Some no_server) a, Err e)
       | Panic => (keep (Some no_server) a, Panic)
       end.
Definition set_server (s : option server) (a : BrokerApp) : BrokerApp := set_parts s (a_httpServer a) (a_adminServer a) (a_ready a) (a_loops a) a.
Definition set_httpServer (s : option server) (a : BrokerApp) : BrokerApp := set_parts (a_server a) s (a_adminServer a) (a_ready a) (a_loops a) a.
Definition set_adminServer (s : option server) (a : BrokerApp) : BrokerApp := set_parts (a_server a) (a_httpServer a) s (a_ready a) (a_loops a) a.

Definition then_ (r : BrokerApp * result unit) (f : BrokerApp -> BrokerApp * result unit) : BrokerApp * result unit :=
  match r with (a, Ok _) => f a | (a, e) => (a, e) end.

(** A part's Start and Stop, as far as its background loops go. *)
Definition start_loop (name : string) (a : BrokerApp) : BrokerApp :=
  set_parts (a_server a) (a_httpServer a) (a_adminServer a) (a_ready a) (a_loops a ++ [name]) a.
Definition stop_loop (name : string) (a : BrokerApp) : BrokerApp :=
  set_parts (a_server a) (a_httpServer a) (a_adminServer a) (a_ready a) (base.filter (fun n => n <> name) (a_loops a)) a.

Definition start_loops (a : BrokerApp) : BrokerApp :=
  let a := start_loop "broker" a in
  let a := match a_loadPredictor a with Some _ => start_loop "loadPredictor" a | None => a end in
  match a_opt a with Some _ => start_loop "optimizer" a | None => a end.

Definition app_Start (a : BrokerApp) : BrokerApp * result unit :=
  let o := a_opts a in
  then_ (start_one "listen %s" "grpc start" (ao_grpcAddr o) set_server (start_loops a)) (fun a =>
  then_ (start_one "http listen %s" "http start" (ao_httpAddr o) set_httpServer a) (fun a =>
  then_ (start_one "admin listen %s" "admin start" (ao_adminAddr o) set_adminServer a) (fun a =>
  (set_ready true a, Ok tt)))).

Definition app_Stop (a : BrokerApp) : BrokerApp :=
  let a := set_ready false a in
  let a := set_adminServer (stop_server <$> a_adminServer a) a in
  let a := set_httpServer (stop_server <$> a_httpServer a) a in
  let a := set_server (stop_server <$> a_server a) a in
  let a := match a_opt a with Some _ => stop_loop "optimizer" a | None => a end in
  let a := match a_loadPredictor a with Some _ => stop_loop "loadPredictor" a | None => a end in
  stop_loop "broker" (set_broker (broker_Stop (a_broker a)) a).

Definition app_Addr (a : BrokerApp) : string := from_option (fun s => default ""%string (srv_addr s)) ""%string (a_server a).
Definition app_HTTPAddr (a : BrokerApp) : string := from_option (fun s => default ""%string (srv_addr s)) ""%string (a_httpServer a).

(** The handlers of the admin server: the status and the body. *)
Definition healthz (a : BrokerApp) : Z * string := (200, "ok"%string).
Definition readyz (a : BrokerApp) : Z * string := if a_ready a then (200, "ready"%string) else (503, "not ready"%string).

(** ** The algorithms of the experiments *)

Record AlgorithmConfig : Type := mkAlgorithm {
  alg_Name : string;
  alg_NewBalancer : Z -> result (AnyBalancer Net);
  alg_NewScheduler : unit -> AnyScheduler Net;
  alg_Mode : ScheduleMode;
  alg_WithOptimizer : bool;
}.

Definition AllAlgorithms (rnd : nat -> nat -> float) (net : Net) : list AlgorithmConfig :=
  [mkAlgorithm "RR+FIFO" (fun _ => Ok (BalRoundRobin (NewRoundRobin []))) (fun _ => SchedFIFO NewFIFO) ModeFIFO false;
   mkAlgorithm "P2C+FIFO" (fun _ => Ok (BalPowerOfTwoChoices (NewPowerOfTwoChoices []))) (fun _ => SchedFIFO NewFIFO) ModeFIFO false;
   mkAlgorithm "PSA+FIFO" (fun k => Ok (BalPSA (NewPSA k))) (fun _ => SchedFIFO NewFIFO) ModeFIFO false;
   mkAlgorithm "DQN+Priority" (fun k => b ← NewDQNBalancer net k []; Ok (BalDQN b)) (fun _ => SchedStrictPriority NewStrictPriority)
     ModeStrictPriority false;
   mkAlgorithm "DQN+DDPG" (fun k => b ← NewDQNBalancer net k []; Ok (BalDQN b)) (fun _ => SchedDQN (newDQNScheduler rnd net)) ModeDQNAdaptive true].

(** The result's label in Kafka mode; it has no constructors. *)
Definition KafkaBaseline : string := "Kafka".
End app.
