(* ===== verification/AppProps.v ===== *)
(** * The application: every topic is served by the scheduler of its mode

    A scheduler other than FIFO needs the partitions' priority index, which only
    partitions of a topic with that mode have.  The application keeps the two
    together along every run of the broker; and what starting and stopping leave
    running. *)

From stdpp Require Import relations.
From S2P Require Import Prelude Message PriorityIndex Wal Compression GoFloat Config Partition Topic Backpressure OffsetStore LoadPredictor Metrics Balancer.
From S2P Require Import RoundRobin P2C PSA Scheduler NN NNProps QNet DqnScheduler DqnSchedulerProps DqnBalancer DqnBalancerProps Preprocessing Broker BrokerProps.
From S2P Require Import Optimizer OptimizerProps App.

(** ** The index of a partition comes with its mode *)

Section index.
Context {W : Wal} {K : Compressors} {D : Badger} {Net : Type}.
Implicit Types p : Partition.

(** [p'] has a priority index exactly when [p] has. *)
Definition keeps_index p p' : Prop := priorityIndex p' = None <-> priorityIndex p = None.

#[global] Instance keeps_index_preorder : PreOrder keeps_index.
Proof. split; [by intros p|]. intros p1 p2 p3 H1 H2. unfold keeps_index in *. tauto. Qed.

Lemma index_written_keeps p now msgs offs : keeps_index p (index_written p now msgs offs).1.1.
Proof. unfold index_written. destruct (priorityIndex p) eqn:E; [|by unfold keeps_index; cbn; rewrite E]. destruct (index_batch _ _ _ _); unfold keeps_index; cbn; by rewrite E. Qed.

Lemma AppendBatch_keeps ck pool p msgs : keeps_index p (AppendBatch ck pool p msgs).1.1.
Proof.
  unfold AppendBatch. case_decide; [done|]. destruct (encode_batch _ _ _ _ _) as [[[[msgs' offs] batch] next]| |]; [|done..].
  destruct (wal_WriteBatch _ _) as [l err]. destruct (wrapf _ err); [|done..]. by rewrite <- index_written_keeps.
Qed.

Lemma Append_keeps ck pool p msg : keeps_index p (Append ck pool p msg).1.1.
Proof. unfold Append. pose proof (AppendBatch_keeps ck pool p [msg]) as H. by destruct (AppendBatch _ _ _ _) as [[p' msgs] r]. Qed.

Lemma AppendBatchCompressed_keeps ck p msgs codec : keeps_index p (AppendBatchCompressed ck p msgs codec).1.1.
Proof.
  unfold AppendBatchCompressed. case_decide; [done|]. destruct (_ ≫= _); [|done..]. destruct (redirects _ _ _ _) as [[offs batch] next].
  destruct (wal_WriteBatch _ _) as [l err]. destruct (wrapf _ err); [|done..]. by rewrite <- index_written_keeps.
Qed.

Lemma append_group_keeps env cfg codec i p batch : keeps_index p (append_group env cfg codec i p batch).1.1.
Proof.
  unfold append_group. destruct (_ && _); [apply AppendBatchCompressed_keeps|].
  destruct (if bool_decide _ then _ else _) as [batch' [u|e|]]; [apply AppendBatch_keeps|done..].
Qed.

Lemma truncate_at_keeps p acc : keeps_index p (truncate_at p acc).1.
Proof. destruct acc as [[a n] s]. cbn. destruct (0 <? a); [|done]. by destruct (wal_TruncateFront _ _). Qed.

Lemma TruncateBefore_keeps p cutoff : keeps_index p (TruncateBefore p cutoff).1.
Proof. unfold TruncateBefore. destruct (wal_FirstIndex _); [|done..]. destruct (_ =? _); [done|]. apply truncate_at_keeps. Qed.

Lemma TruncateOldestUntilSize_keeps p n : keeps_index p (TruncateOldestUntilSize p n).1.
Proof.
  unfold TruncateOldestUntilSize. destruct (wal_FirstIndex _); [|done..]. destruct (_ =? _); [done|]. destruct (_ <=? _); [done|]. apply truncate_at_keeps.
Qed.

Lemma TruncateFront_keeps p o : keeps_index p (TruncateFront p o).1.
Proof. unfold TruncateFront. destruct (_ <? _); [done|]. by destruct (wal_TruncateFront _ _). Qed.

Lemma retain_partition_keeps now cfg offsets name mc p : keeps_index p (retain_partition now cfg offsets name mc p).2.
Proof.
  unfold retain_partition.
  assert (H1 : exists mc1 p1, keeps_index p p1 /\
    (if 0 <? RetentionMaxAge cfg then let '(p, r) := TruncateBefore p (now - RetentionMaxAge cfg) in
       match r with Ok (n, sz) => (if 0 <? n then RecordRetention mc n sz else mc, p) | _ => (mc, p) end else (mc, p)) = (mc1, p1)).
  { destruct (0 <? _); [|by exists mc, p]. pose proof (TruncateBefore_keeps p (now - RetentionMaxAge cfg)) as H.
    destruct (TruncateBefore _ _) as [p1 [[n sz]|e|]]; by eexists _, p1. }
  destruct H1 as (mc1 & p1 & Hp1 & ->).
  assert (H2 : exists mc2 p2, keeps_index p p2 /\
    (if 0 <? RetentionMaxBytes cfg then let '(p, r) := TruncateOldestUntilSize p1 (RetentionMaxBytes cfg) in
       match r with Ok (n, sz) => (if 0 <? n then RecordRetention mc1 n sz else mc1, p) | _ => (mc1, p) end else (mc1, p1)) = (mc2, p2)).
  { destruct (0 <? _); [|by exists mc1, p1]. pose proof (TruncateOldestUntilSize_keeps p1 (RetentionMaxBytes cfg)) as H.
    destruct (TruncateOldestUntilSize _ _) as [p2 [[n sz]|e|]]; eexists _, p2; (split; [by etrans|done]). }
  destruct H2 as (mc2 & p2 & Hp2 & ->).
  destruct (_ && _); [|done]. destruct offsets as [s|]; [|done]. destruct (CommitFloor _ _ _) as [floor| |]; [|done..].
  destruct (_ <? _); [|done]. cbn [snd]. rewrite Hp2. apply TruncateFront_keeps.
Qed.

(** ** Schedulers *)

Definition sched_matches (mode : ScheduleMode) (s : AnyScheduler Net) : bool :=
  match mode, s with
  | ModeFIFO, SchedFIFO _ | ModeStrictPriority, SchedStrictPriority _ | ModeDQNAdaptive, SchedDQN _ => true
  | _, _ => false
  end.

Lemma Next_keeps env (s : AnyScheduler Net) p off :
  let '(s', p', _) := Next env s p off in keeps_index p p' /\ forall mode, sched_matches mode s' = sched_matches mode s.
Proof.
  destruct s as [s|s|d]; cbn [Next any_scheduler fifo_scheduler strict_scheduler dqn_scheduler].
  - split; [done|]. by intros [].
  - unfold strict_Next. destruct (priorityIndex p) as [pi|] eqn:E; [|split; [done|by intros []]].
    destruct (PopHighest pi) as [[[pi' e]|]| |]; (split; [unfold keeps_index; cbn; by rewrite ?E|by intros []]).
  - unfold dqn_Next. destruct (priorityIndex p) as [pi|] eqn:E; [|split; [done|by intros []]].
    destruct (choose_threshold _ _) as [t| |]; [|split; [done|by intros []]..].
    destruct (PopWithThreshold pi t) as [[[pi' e]|]| |]; [|split; [done|by intros []]..].
    destruct (Read _ _) as [m| |]; [destruct (record_latency _ _ _ _)|..]; (split; [unfold keeps_index; cbn; by rewrite ?E|by intros []]).
Qed.

(** The error of a scheduler that finds no index. *)
Definition ErrNoIndex : error := Errorf "partition %d has no PriorityIndex".

Lemma bind_not_Err {A B} (r : result A) (f : A -> result B) e : r <> Err e -> (forall x, f x <> Err e) -> (r ≫= f) <> Err e.
Proof. destruct r as [x|e'|]; cbn; [by intros _ H|intros H _ [= ->]; done|done]. Qed.
Lemma wrapf_not_Err {A} fmt (r : result A) : wrapf fmt r <> Err ErrNoIndex.
Proof. by destruct r. Qed.
Lemma must_not_Err {A} (o : option A) e : must o <> Err e.
Proof. by destruct o. Qed.

(** Following a computation: no step of it ends in that error. *)
Create HintDb no_err.
#[local] Hint Resolve wrapf_not_Err must_not_Err : no_err.
Ltac no_err := repeat (first [discriminate | solve [auto with no_err] | apply bind_not_Err; [|intros ?] | case_match]).

Lemma subslice_not_Err {A} (l : list A) i j e : subslice l i j <> Err e.
Proof. unfold subslice. no_err. Qed.
Lemma index_not_Err {A} (l : list A) i e : index l i <> Err e.
Proof. unfold index. no_err. Qed.
Lemma store_not_Err {A} (l : list A) i x e : store l i x <> Err e.
Proof. unfold store. no_err. Qed.
Lemma gomod_not_Err a b e : gomod a b <> Err e.
Proof. unfold gomod. no_err. Qed.
#[local] Hint Resolve subslice_not_Err index_not_Err store_not_Err gomod_not_Err : no_err.
Lemma read_be_not_Err d i n e : read_be d i n <> Err e.
Proof. unfold read_be. pose proof (subslice_not_Err d i (i + n) e). by destruct (subslice _ _ _); cbn; congruence. Qed.
#[local] Hint Resolve read_be_not_Err : no_err.
Lemma Unmarshal_not_Err d : UnmarshalMessage d <> Err ErrNoIndex.
Proof. unfold UnmarshalMessage, decodeHeader. no_err. Qed.
#[local] Hint Resolve Unmarshal_not_Err : no_err.
Lemma scan_batch_not_Err d off k : scan_batch d off k <> Err ErrNoIndex.
Proof. revert off. induction k as [|k IH]; intros off; cbn [scan_batch]; no_err. Qed.
#[local] Hint Resolve scan_batch_not_Err : no_err.
Lemma Read_not_Err p off : Read p off <> Err ErrNoIndex.
Proof. unfold Read, readFromBatch, readFromBatchData. no_err. Qed.
#[local] Hint Resolve Read_not_Err : no_err.

Lemma try_pop_not_Err pi q e : try_pop pi q <> Err e.
Proof. unfold try_pop, popFront, level. no_err. Qed.
#[local] Hint Resolve try_pop_not_Err : no_err.
Lemma pop_first_not_Err pi ps e : pop_first pi ps <> Err e.
Proof. induction ps as [|q ps IH]; cbn [pop_first]; no_err. Qed.
#[local] Hint Resolve pop_first_not_Err : no_err.
Lemma best_level_not_Err pi ps best e : best_level pi ps best <> Err e.
Proof. revert best. induction ps as [|q ps IH]; intros best; cbn [best_level]; unfold level, peekFront; no_err. Qed.
#[local] Hint Resolve best_level_not_Err : no_err.
Lemma PopWithThreshold_not_Err pi t e : PopWithThreshold pi t <> Err e.
Proof. unfold PopWithThreshold. no_err. Qed.

(** Served by the scheduler of its mode, a partition never lacks the index. *)
Lemma Next_has_index env (s : AnyScheduler Net) p off mode :
  sched_matches mode s = true -> (priorityIndex p = None <-> mode = ModeFIFO) -> (Next env s p off).2 <> Err ErrNoIndex.
Proof.
  intros Hs Hi. destruct s as [s|s|d]; cbn [Next any_scheduler fifo_scheduler strict_scheduler dqn_scheduler snd].
  - unfold fifo_Next. cbn zeta. no_err.
  - destruct mode; try done. unfold strict_Next. destruct (priorityIndex p) as [pi|]; [|by destruct Hi as [Hi _]; specialize (Hi eq_refl)].
    pose proof (pop_first_not_Err pi (down_to 0) ErrNoIndex). unfold PopHighest. destruct (pop_first _ _) as [[[pi' e]|]|e|]; cbn [snd]; [|done|congruence|done]. no_err.
  - destruct mode; try done. unfold dqn_Next. destruct (priorityIndex p) as [pi|]; [|by destruct Hi as [Hi _]; specialize (Hi eq_refl)].
    assert (Hc : choose_threshold env (with_lastPI (topicName p, p_id p) d) <> Err ErrNoIndex) by (unfold choose_threshold; no_err).
    destruct (choose_threshold _ _) as [t|e|]; cbn; [|congruence|done].
    pose proof (PopWithThreshold_not_Err pi t ErrNoIndex). destruct (PopWithThreshold pi t) as [[[pi' e]|]|e|]; cbn [snd]; [|done|congruence|done].
    pose proof (Read_not_Err (with_index p (Some pi')) (u64 (WalOffset e))). destruct (Read _ _) as [m|e'|]; cbn [snd]; [|congruence|done].
    assert (Hr : record_latency (se_now env) e m (with_lastPI (topicName p, p_id p) d) <> Err ErrNoIndex) by (unfold record_latency; no_err).
    destruct (record_latency _ _ _ _) as [d'|e'|]; cbn [snd]; congruence.
Qed.
End index.

(** ** The broker stays wired *)

Section wired.
Context {W : Wal} {K : Compressors} {F : Filepath} {D : Badger} {G : Gonum} {V : Govy} {R : MapRange} {E : BrokerEnv}.
Context {Bal : Type} {B : Balancer Bal} {Net : Type}.
Context {L : GonumLA} {ANet : Type} {AC : ACNet ANet}.
Implicit Types b : Broker (Bal := Bal) (Sch := AnyScheduler Net).
Implicit Types t : Topic.

Definition mode_of t : ScheduleMode := tc_ScheduleMode (t_config t).

(** The partitions of a topic have the index its mode needs. *)
Definition topic_wired t : Prop := Forall (fun p => priorityIndex p = None <-> mode_of t = ModeFIFO) (partitions t).

(** Which calls have been made that take the scheduling out of the application's
    hands: whether the broker still has the scheduler factory New gave it, and the
    topics whose scheduler that factory did not make, because SetScheduler
    replaced it, another factory made it, or Stop removed it. *)
Record wiring : Type := mkWiring { own_factory : bool; foreign : gset string }.

Definition scheduled b name t : Prop := exists s, b_schedulers b !! name = Some s /\ sched_matches (mode_of t) s = true.

Definition wired_in (w : wiring) b : Prop :=
  (own_factory w = true -> exists f, b_factory b = Some f /\ forall tc, sched_matches (tc_ScheduleMode tc) (f tc) = true) /\
  forall name t, b_topics b !! name = Some t -> topic_wired t /\ (name ∉ foreign w -> scheduled b name t).

(** The fields the wiring is about. *)
Definition same_wiring b b' : Prop := b_factory b' = b_factory b /\ b_topics b' = b_topics b /\ b_schedulers b' = b_schedulers b.

#[local] Instance same_wiring_preorder : PreOrder same_wiring.
Proof. split; [by intros b|]. intros b1 b2 b3 (H1 & H2 & H3) (H4 & H5 & H6). unfold same_wiring. split_and!; congruence. Qed.

(** A partition replaced by a later state of itself. *)
Lemma topic_wired_partition t i p p' :
  topic_wired t -> topic_Partition t i = Ok p -> keeps_index p p' -> topic_wired (with_partition t i p').
Proof.
  intros Ht [_ Hp]%topic_Partition_Ok Hk. unfold topic_wired, mode_of in *. cbn [with_partition partitions t_config].
  apply Forall_insert; [done|]. rewrite (Hk : _ <-> _). by apply (list.Forall_lookup_1 _ _ _ _ Ht Hp).
Qed.

(** *** What every call keeps, whatever has been replaced before *)

Section kept.
Context (w : wiring).
Local Abbreviation wired := (wired_in w).

Lemma wired_same b b' : same_wiring b b' -> wired b -> wired b'.
Proof. intros (H1 & H2 & H3) [Hf Ht]. unfold wired_in, scheduled. by rewrite H1, H2, H3. Qed.

Lemma wired_topic b name t t' :
  wired b -> b_topics b !! name = Some t -> topic_wired t' -> mode_of t' = mode_of t -> wired (with_topics b (<[name := t']> (b_topics b))).
Proof.
  intros [Hf Ht] Hn Hw Hm. split; [done|]. intros name' t0. cbn [b_topics b_schedulers with_topics].
  destruct (decide (name' = name)) as [->|Hne]; [|rewrite lookup_insert_ne by done; apply Ht].
  rewrite lookup_insert_eq. intros [= <-]. split; [done|]. unfold scheduled. rewrite Hm. by apply Ht.
Qed.

Lemma wired_partition b name t i p p' :
  wired b -> b_topics b !! name = Some t -> topic_Partition t i = Ok p -> keeps_index p p' -> wired (with_topic_partition b name t i p').
Proof.
  intros Hw Hn Hp Hk. unfold with_topic_partition. eapply wired_topic; [done|done| |done].
  eapply topic_wired_partition; [|done|done]. by apply (proj2 Hw) in Hn as [? _].
Qed.

Lemma wired_scheduler b name s s' :
  wired b -> b_schedulers b !! name = Some s -> (forall mode, sched_matches mode s' = sched_matches mode s) ->
  wired (with_schedulers b (<[name := s']> (b_schedulers b))).
Proof.
  intros [Hf Ht] Hs Hm. split; [done|]. intros name' t. cbn [b_topics b_schedulers with_schedulers]. intros Hn.
  destruct (Ht name' t Hn) as (Hw & Hsch). split; [done|]. intros (s0 & Hs0 & Hm0)%Hsch.
  unfold scheduled. cbn [b_schedulers with_schedulers]. destruct (decide (name' = name)) as [->|Hne].
  - rewrite lookup_insert_eq. exists s'. split; [done|]. rewrite Hm. congruence.
  - rewrite lookup_insert_ne by done. eauto.
Qed.

(** *** Topics *)

Lemma DeleteTopic_wired b name : wired b -> wired (DeleteTopic b name).1.
Proof.
  intros [Hf Hts]. unfold DeleteTopic. destruct (b_topics b !! name) as [t|] eqn:Hn; [|by split].
  assert (Hw : wired (stopScheduler (with_topics b (delete name (b_topics b))) name)).
  { split; [done|]. intros name' t0. cbn [b_topics b_schedulers stopScheduler with_topics with_schedulers].
    intros [Hne Ht0]%lookup_delete_Some. unfold scheduled. cbn [b_schedulers stopScheduler with_topics with_schedulers].
    rewrite lookup_delete_ne by done. by apply Hts. }
  set (b1 := stopScheduler _ _) in *. destruct (wrapf _ _); [|done..]. destruct (forget_partitions _ _ _) as [[mc lp]| |]; [|done..].
  destruct (wrapf _ _); cbn [fst]; (eapply wired_same; [|exact Hw]; by split_and!).
Qed.

(** *** Publishing *)

Lemma check_closed_same b i : same_wiring b (check_closed b i).1.
Proof. unfold check_closed. destruct (b_backpressure b); [|done]. by destruct (Check _ _). Qed.

Lemma publish_complete_same b i b' : publish_complete b i = Ok b' -> same_wiring b b'.
Proof. unfold publish_complete. rewrite bind_Ok. by intros (bal & _ & [= <-]). Qed.

Lemma publish_append_wired env b name t i p msg :
  wired b -> b_topics b !! name = Some t -> topic_Partition t i = Ok p -> wired (publish_append env b name t i p msg).1.1.
Proof.
  intros Hw Hn Hp. unfold publish_append. pose proof (Append_keeps (pe_clock env i) (pe_pool env) p (set_ProduceTime (pe_now env) msg)) as Hk.
  destruct (Append _ _ _ _) as [[p' msg'] r]. cbn in Hk. pose proof (wired_partition b name t i p p' Hw Hn Hp Hk) as Hw'.
  destruct (publish_complete _ _) as [b1| |] eqn:Hc; cbn [fst]; [|done..]. apply publish_complete_same in Hc. apply (wired_same _ _ Hc) in Hw'.
  destruct (wrapf _ r); cbn [fst]; [|done..]. unfold record_produce. destruct (RecordProduce _ _ _) as [mc| |]; cbn; [|done..].
  eapply wired_same; [|exact Hw']. by split_and!.
Qed.

Lemma Publish_wired env b name msg : wired b -> wired (Publish env b name msg).1.1.
Proof.
  intros Hw. unfold Publish. destruct (too_large _ _); [done|]. destruct (wrapf _ _); [|done..]. destruct (b_topics b !! name) as [t|] eqn:Hn; [|done].
  destruct (bal_SelectPartition _ _ _ _ _ _) as [[bal i]| |]; [|done..].
  pose proof (check_closed_same (with_balancer b bal) i) as Hs. destruct (check_closed _ _) as [b1 closed]. cbn [fst] in Hs.
  assert (Hw1 : wired b1) by (eapply wired_same; [exact Hs|]; eapply wired_same; [|exact Hw]; by split_and!).
  destruct closed as [[|]| |]; try done. destruct (topic_Partition t i) as [p| |] eqn:Hp; cbn [wrapf fst]; [|done..].
  apply publish_append_wired; [done| |done]. destruct Hs as (_ & -> & _). done.
Qed.

Lemma assign_all_same env name n i msgs st b' groups ms rs :
  assign_all env name n i msgs st = Ok (b', groups, ms, rs) -> same_wiring st.1 b'.
Proof.
  revert i st b' groups ms rs. induction msgs as [|m msgs IH]; intros i [b gs] b' groups ms rs; cbn [assign_all]; [by intros [= <- <- <- <-]|].
  rewrite bind_Ok. intros ([[[b1 gs1] m1] r1] & H1 & H). rewrite bind_Ok in H. destruct H as ([[[b2 gs2] ms2] rs2] & H2 & [= <- <- <- <-]).
  apply IH in H2. cbn [fst] in *. etrans; [|exact H2]. unfold assign_one in H1. destruct (too_large _ _); [by injection H1 as <- _ _ _|].
  rewrite bind_Ok in H1. destruct H1 as ([bal q] & _ & H1). pose proof (check_closed_same (with_balancer b bal) q) as Hs.
  destruct (check_closed _ _) as [b3 closed]. cbn [fst] in Hs. rewrite bind_Ok in H1. destruct H1 as ([|] & _ & H1).
  - rewrite bind_Ok in H1. destruct H1 as (b4 & H4%publish_complete_same & [= <- _ _ _]). etrans; [|exact H4]. etrans; [|exact Hs]. by split_and!.
  - injection H1 as <- _ _ _. etrans; [|exact Hs]. by split_and!.
Qed.

Lemma complete_n_same b i n b' : complete_n b i n = Ok b' -> same_wiring b b'.
Proof.
  revert b. induction n as [|n IH]; intros b; cbn [complete_n]; [by intros [= <-]|]. rewrite bind_Ok. intros (b1 & H1%publish_complete_same & H2%IH).
  by etrans.
Qed.

Lemma run_group_wired env gated name g st st' :
  wired (bs_broker st) -> run_group env gated name g st = Ok st' -> wired (bs_broker st').
Proof.
  intros Hw. unfold run_group. destruct (if gated then _ else _); [by intros [= <-]|]. unfold appendPartitionBatch.
  destruct (b_topics (bs_broker st) !! name) as [t|] eqn:Hn; [|done]. destruct (topic_Partition t g.1) as [p| |] eqn:Hp; [|by intros [= <-]|done].
  rewrite bind_Ok. intros (batch & _ & H). pose proof (append_group_keeps env (b_cfg (bs_broker st)) (b_codec (bs_broker st)) g.1 p batch) as Hk.
  destruct (append_group _ _ _ _ _ _) as [[p' batch'] r]. cbn [fst] in Hk. apply (wired_partition _ name t g.1 p p' Hw Hn Hp) in Hk.
  rewrite bind_Ok in H. destruct H as (rs & _ & H). rewrite bind_Ok in H. destruct H as (b1 & H1%complete_n_same & H).
  rewrite bind_Ok in H. destruct H as (mc & _ & [= <-]). cbn [bs_broker]. apply (wired_same _ _ H1) in Hk. eapply wired_same; [|exact Hk]. by split_and!.
Qed.

Lemma PublishBatch_wired env b name msgs st : wired b -> PublishBatch env b name msgs = Ok st -> wired (bs_broker st).
Proof.
  intros Hw. unfold PublishBatch. destruct (b_topics b !! name) as [t|]; [|by intros [= <-]]. rewrite bind_Ok.
  intros ([[[b1 groups] ms] rs] & H1%assign_all_same & H). cbn [fst] in H1. apply (wired_same _ _ H1) in Hw. clear H1.
  set (st0 := mkBatch b1 ms rs) in H. assert (Hw0 : wired (bs_broker st0)) by done. clearbody st0. clear Hw.
  revert st0 Hw0 H. induction (pe_order env groups) as [|g gs IH]; intros st0 Hw0; cbn [run_groups]; [by intros [= <-]|].
  rewrite bind_Ok. intros (st1 & H1 & H2). eapply IH; [|exact H2]. by eapply run_group_wired.
Qed.

(** *** Consuming *)

Lemma ConsumeFrom_wired env b name group i off : wired b -> wired (ConsumeFrom env b name group i off).1.
Proof.
  intros Hw. unfold ConsumeFrom. destruct (b_topics b !! name) as [t|] eqn:Hn; [|done].
  destruct (topic_Partition t i) as [p| |] eqn:Hp; cbn [wrapf]; [|done..]. destruct (b_schedulers b !! name) as [s|] eqn:Hs; [|done].
  pose proof (Next_keeps env s p off) as Hk. destruct (Next env s p off) as [[s' p'] r]. destruct Hk as [Hk Hm].
  pose proof (wired_partition b name t i p p' Hw Hn Hp Hk) as Hw1.
  pose proof (wired_scheduler _ name s s' Hw1 Hs Hm) as Hw2.
  destruct (wrapf _ r) as [[msg next]| |]; [|done..]. destruct (wrapf _ _) as [msg'| |]; [|done..].
  destruct (RecordConsume _ _ _ _) as [mc| |]; cbn [fst]; [|done..]. eapply wired_same; [|exact Hw2]. by split_and!.
Qed.

Lemma consume_loop_wired env b name group i off acc last n : wired b -> wired (consume_loop env b name group i off acc last n).1.1.1.
Proof.
  revert b off acc last. induction n as [|n IH]; intros b off acc last Hw; cbn [consume_loop]; [done|].
  pose proof (ConsumeFrom_wired (env (S n)) b name group i off Hw) as H1. destruct (ConsumeFrom _ _ _ _ _ _) as [b1 r]. cbn [fst] in H1.
  destruct r as [[msg next]|e|]; [by apply IH|by destruct (_ || _)|done].
Qed.

Lemma Commit_same now b group name i o : same_wiring b (broker_Commit now b group name i o).1.
Proof. unfold broker_Commit. destruct (b_offsetStore b) as [s|]; [|done]. by destruct (Commit _ _ _ _ _ _). Qed.

Lemma ConsumeBatch_wired now env b name group i n : wired b -> wired (ConsumeBatch now env b name group i n).1.1.1.
Proof.
  intros Hw. unfold ConsumeBatch.
  pose proof (consume_loop_wired env b name group i (start_offset b group name i) [] 0 (Z.to_nat n) Hw) as H1.
  destruct (consume_loop _ _ _ _ _ _ _ _ _) as [[[b1 msgs] last] r]. cbn [fst] in H1. destruct r as [u|e|]; [|done..].
  case_decide; [done|]. pose proof (Commit_same now b1 group name i (i64 last)) as H2. destruct (broker_Commit _ _ _ _ _ _) as [b2 r2]. cbn [fst] in *.
  by eapply wired_same.
Qed.

(** *** Configuration and ticks *)

Lemma ApplyConfig_same b cfg : same_wiring b (ApplyConfig b cfg).1.
Proof. unfold ApplyConfig. destruct (wrapf _ _); [|done..]. by case_decide. Qed.

Lemma opt_step_same env (o : Optimizer ANet) b o' b' : opt_step env o b = Ok (o', b') -> same_wiring b b'.
Proof.
  unfold opt_step. set (o0 := set_tick _ _ _).
  assert (H1 : same_wiring b (checkEmergencyRollback o0 b (broker_Metrics b)).2).
  { unfold checkEmergencyRollback. destruct (op_rolledBack o0); [done|]. destruct (_ <=? _); [apply ApplyConfig_same|done]. }
  destruct (checkEmergencyRollback _ _ _) as [o1 b1]. cbn [snd] in H1. rewrite bind_Ok. intros ([ddpg action] & _ & H).
  rewrite bind_Ok in H. destruct H as ([o2 b2] & H2 & H). rewrite bind_Ok in H. destruct H as (o3 & _ & [= <- <-]). etrans; [exact H1|].
  destruct (_ && _); [|by injection H2 as <- <-]. unfold applyAction in H2. destruct (_ && _); [by injection H2 as <- <-|].
  rewrite bind_Ok in H2. destruct H2 as ([vals changed] & _ & H2). destruct (negb changed); [by injection H2 as <- <-|].
  rewrite bind_Ok in H2. destruct H2 as (cfg & _ & [= <- <-]). apply ApplyConfig_same.
Qed.

Lemma metrics_tick_same now b b' : metrics_tick now b = Ok b' -> same_wiring b b'.
Proof.
  unfold metrics_tick. destruct (Collect _ _ _) as [snap mc]. rewrite bind_Ok. intros ([b1 snap1] & H1 & H).
  assert (Hs1 : same_wiring b b1).
  { case_decide; [|by injection H1 as <- _]. rewrite bind_Ok in H1. destruct H1 as (lp & _ & [= <- _]). by split_and!. }
  rewrite bind_Ok in H. destruct H as (bal & _ & [= <-]). etrans; [exact Hs1|]. clear.
  set (b2 := match _ with Some _ => _ | None => _ end).
  assert (Hs2 : same_wiring b1 b2).
  { unfold b2. destruct (b_backpressure _); [|by split_and!]. unfold tick_backpressure. case_decide; by split_and!. }
  etrans; [exact Hs2|]. case_decide; by split_and!.
Qed.

Lemma retain_partitions_keep now cfg offsets name mc ps (P : Prop) :
  Forall (fun p => priorityIndex p = None <-> P) ps -> Forall (fun p => priorityIndex p = None <-> P) (retain_partitions now cfg offsets name mc ps).2.
Proof.
  revert mc. induction ps as [|p ps IH]; intros mc Hps; cbn [retain_partitions]; [done|]. apply list.Forall_cons_1 in Hps as [Hp Hps].
  pose proof (retain_partition_keeps now cfg offsets name mc p) as Hk. destruct (retain_partition _ _ _ _ _ _) as [mc1 p1]. cbn [snd] in Hk.
  specialize (IH mc1 Hps). destruct (retain_partitions _ _ _ _ _ _) as [mc2 ps2]. cbn [snd] in *. constructor; [|done]. by rewrite (Hk : _ <-> _).
Qed.

Lemma retention_tick_wired now b : wired b -> wired (retention_tick now b).
Proof.
  intros Hw. unfold retention_tick.
  assert (Hall : Forall (fun nt => topic_wired nt.2 /\ (nt.1 ∉ foreign w -> exists s, b_schedulers b !! nt.1 = Some s /\ sched_matches (mode_of nt.2) s = true)) (ListTopics b)).
  { apply list.Forall_forall. intros [name t] Hin. unfold ListTopics in Hin. apply list_elem_of_omap in Hin as (name' & _ & Hin).
    destruct (b_topics b !! name') eqn:Hn; [|done]. injection Hin as <- <-. by apply (proj2 Hw). }
  revert Hall. assert (Hs : b_schedulers b = b_schedulers b) by done. revert Hs. generalize (b_schedulers b) at 2 3. intros ss.
  generalize (ListTopics b). intros l. revert b Hw. induction l as [|[name t] l IH]; intros b Hw Hss Hall; cbn [foldl]; [done|].
  apply list.Forall_cons_1 in Hall as [[Ht Hs] Hall]. apply IH; [| |done]; unfold retain_topic; (destruct (IsClosed t); [done|]).
  - pose proof (retain_partitions_keep now (b_cfg b) (b_offsetStore b) (t_name t) (b_metrics b) (partitions t) _ Ht) as Hk.
    destruct (retain_partitions _ _ _ _ _ _) as [mc ps]. cbn [snd] in Hk. split; [apply Hw|]. intros name' t0. cbn [b_topics b_schedulers with_topics with_metrics with_stats].
    destruct (decide (name' = name)) as [->|Hne].
    + rewrite lookup_insert_eq. intros [= <-]. split; [exact Hk|]. unfold scheduled. cbn [b_schedulers with_topics with_metrics with_stats].
      rewrite Hss. exact Hs.
    + rewrite lookup_insert_ne by done. apply Hw.
  - by destruct (retain_partitions _ _ _ _ _ _).
Qed.
End kept.

(** *** The calls that decide who schedules a topic *)

(** Creating a topic gives it the current factory's scheduler. *)
Definition creating (w : wiring) b name cfg : wiring :=
  match (CreateTopic b name cfg).2 with
  | Ok _ => mkWiring (own_factory w) (if own_factory w then foreign w ∖ {[name]} else foreign w ∪ {[name]})
  | _ => w
  end.

Lemma CreateTopic_wired w b name cfg : wired_in w b -> wired_in (creating w b name cfg) (CreateTopic b name cfg).1.
Proof.
  intros Hw. unfold creating, CreateTopic.
  destruct (NewTopic name (b_dataDir b) cfg (cfg_SyncPolicy (b_cfg b))) as [t| |] eqn:Ht; cbn [wrapf]; [|done..].
  destruct (b_topics b !! name) eqn:Hn; [done|]. set (t' := if decide _ then _ else t).
  assert (Hmode : mode_of t' = tc_ScheduleMode cfg /\ topic_wired t').
  { unfold NewTopic in Ht. rewrite bind_Ok in Ht. destruct Ht as (ps & [_ Hps]%open_partitions_spec & [= <-]).
    assert (Hm : tc_ScheduleMode (if NumPartitions cfg <=? 0 then set_NumPartitions 4 cfg else cfg) = tc_ScheduleMode cfg) by (by destruct (_ <=? _)).
    assert (Hall : Forall (fun p => priorityIndex p = None <-> tc_ScheduleMode cfg = ModeFIFO) ps).
    { apply list.Forall_lookup. intros k p Hk. rewrite <- Hm. apply (Hps k p Hk). }
    unfold t', topic_wired, mode_of. case_decide; cbn [t_config partitions]; rewrite Hm; (split; [done|]); [|done]. by apply list.Forall_fmap. }
  destruct Hmode as [Hm Htw]. destruct Hw as [Hfac Hts]. cbn [fst snd b_factory with_topics].
  match goal with |- wired_in (match (?c).2 with Ok _ => _ | _ => _ end) _ => assert (Hb1 : exists b1, c = (b1, Ok tt) /\
    b_factory b1 = b_factory b /\ b_topics b1 = <[name := t']> (b_topics b) /\
    (forall name', name' <> name -> b_schedulers b1 !! name' = b_schedulers b !! name') /\
    (forall f, b_factory b = Some f -> b_schedulers b1 !! name = Some (f cfg))) end.
  { destruct (b_factory b) as [f|] eqn:Ef; eexists; (split; [done|]); cbn; (split; [done|]; split; [done|]); split.
    - intros name' Hne. by rewrite lookup_insert_ne.
    - intros f' [= <-]. apply lookup_insert_eq.
    - done.
    - done. }
  destruct Hb1 as (b1 & -> & Hf1 & Ht1 & Hs1 & Hown). clearbody t'. split; cbn [fst snd own_factory foreign].
  { rewrite Hf1. exact Hfac. }
  intros name' t0. rewrite Ht1. destruct (decide (name' = name)) as [->|Hne].
  - rewrite lookup_insert_eq. intros [= <-]. split; [done|]. destruct (own_factory w) eqn:Ew; [|set_solver].
    intros _. destruct (Hfac eq_refl) as (f & Hf & Hfm). exists (f cfg). rewrite Hm. eauto.
  - rewrite lookup_insert_ne by done. intros Hn0. destruct (Hts _ _ Hn0) as [Hw0 Hs0]. split; [done|].
    unfold scheduled in *. rewrite Hs1 by done. intros Hnf. apply Hs0. destruct (own_factory w); set_solver.
Qed.

Lemma SetScheduler_wired w b name s : wired_in w b -> wired_in (mkWiring (own_factory w) (foreign w ∪ {[name]})) (SetScheduler b name s).
Proof.
  intros [Hf Ht]. split; [done|]. intros name' t Hn. destruct (Ht name' t Hn) as [Hw Hs]. split; [done|]. cbn [foreign].
  intros Hnf. unfold scheduled, SetScheduler, stopScheduler. cbn [b_schedulers with_schedulers].
  rewrite lookup_insert_ne, lookup_delete_ne by set_solver. apply Hs. set_solver.
Qed.

Lemma SetSchedulerFactory_wired w b f : wired_in w b -> wired_in (mkWiring false (foreign w)) (SetSchedulerFactory b f).
Proof. intros [_ Ht]. split; [done|]. exact Ht. Qed.

Lemma close_partitions_keep ps e (P : Prop) :
  Forall (fun p => priorityIndex p = None <-> P) ps -> Forall (fun p => priorityIndex p = None <-> P) (close_partitions ps e).1.
Proof.
  revert e. induction ps as [|p ps IH]; intros e Hps; cbn [close_partitions]; [done|]. apply list.Forall_cons_1 in Hps as [Hp Hps].
  unfold Partition.Close. destruct (wal_Close _) as [l r]. set (e' := match e with Some _ => _ | None => _ end).
  specialize (IH e' Hps). destruct (close_partitions ps e') as [ps' e'']. by constructor.
Qed.

Lemma broker_Stop_wired w b : wired_in w b -> wired_in (mkWiring (own_factory w) (foreign w ∪ dom (b_topics b))) (broker_Stop b).
Proof.
  intros [Hf Ht]. split; [done|]. intros name t. cbn [b_topics broker_Stop with_offsets with_topics with_schedulers foreign].
  rewrite lookup_fmap_Some. intros (t0 & <- & Hn). destruct (Ht name t0 Hn) as [Hw _]. split.
  - unfold topic_wired, mode_of, topic_Close in *. pose proof (close_partitions_keep (partitions t0) None _ Hw) as Hk.
    destruct (close_partitions _ _) as [ps errs]. exact Hk.
  - intros Hnf. apply elem_of_dom_2 in Hn. set_solver.
Qed.
End wired.

(** ** Runs of the application's broker *)

Section runs.
Context {W : Wal} {K : Compressors} {F : Filepath} {D : Badger} {G : Gonum} {V : Govy} {R : MapRange} {E : BrokerEnv}.
Context {U : Lru} {O : RangeOrders} {M : MathLib} {Net : Type} {L : GonumLA} {ANet : Type} {AC : ACNet ANet}.
Abbreviation AppBroker := (Broker (Bal := AnyBalancer Net) (Sch := AnyScheduler Net)).

(** A call that leaves the choice of schedulers alone: by a server, a tick of a
    loop, an optimizer's tick, the setters of the other parts, or the learning
    parts' own loops, which only change their state. *)
Inductive broker_call : AppBroker -> AppBroker -> Prop :=
| call_delete b name : broker_call b (DeleteTopic b name).1
| call_publish b env name msg : broker_call b (Publish env b name msg).1.1
| call_publish_batch b env name msgs st : PublishBatch env b name msgs = Ok st -> broker_call b (bs_broker st)
| call_consume b env name group i off : broker_call b (ConsumeFrom env b name group i off).1
| call_consume_batch b now env name group i n : broker_call b (ConsumeBatch now env b name group i n).1.1.1
| call_commit b now group name i off : broker_call b (broker_Commit now b group name i off).1
| call_config b cfg : broker_call b (ApplyConfig b cfg).1
| call_set_balancer b bal : broker_call b (SetBalancer b bal)
| call_set_backpressure b bp : broker_call b (SetBackpressure b bp)
| call_metrics b now b' : metrics_tick now b = Ok b' -> broker_call b b'
| call_retention b now : broker_call b (retention_tick now b)
| call_session b now : broker_call b (session_tick now b)
| call_optimize b env (o o' : Optimizer ANet) b' : opt_step env o b = Ok (o', b') -> broker_call b b'
| call_balancer b bal : broker_call b (with_balancer b bal)
| call_scheduler b name d d' :
    b_schedulers b !! name = Some (SchedDQN d) -> broker_call b (with_schedulers b (<[name := SchedDQN d']> (b_schedulers b))).

(** Any call on the broker, with what it does to the wiring. *)
Inductive broker_step : wiring * AppBroker -> wiring * AppBroker -> Prop :=
| step_call w b b' : broker_call b b' -> broker_step (w, b) (w, b')
| step_create w b name cfg : broker_step (w, b) (creating w b name cfg, (CreateTopic b name cfg).1)
| step_set_scheduler w b name s :
    broker_step (w, b) (mkWiring (own_factory w) (foreign w ∪ {[name]}), SetScheduler b name s)
| step_set_factory w b f : broker_step (w, b) (mkWiring false (foreign w), SetSchedulerFactory b f)
| step_stop w b : broker_step (w, b) (mkWiring (own_factory w) (foreign w ∪ dom (b_topics b)), broker_Stop b).

Lemma call_wired w b b' : broker_call b b' -> wired_in w b -> wired_in w b'.
Proof.
  intros Hs Hw. destruct Hs.
  - by apply DeleteTopic_wired.
  - by apply Publish_wired.
  - by eapply PublishBatch_wired.
  - by apply ConsumeFrom_wired.
  - by apply ConsumeBatch_wired.
  - eapply wired_same; [apply Commit_same|done].
  - eapply wired_same; [apply ApplyConfig_same|done].
  - eapply wired_same; [|exact Hw]. by split_and!.
  - eapply wired_same; [|exact Hw]. by split_and!.
  - by eapply wired_same; [eapply metrics_tick_same|].
  - by apply retention_tick_wired.
  - eapply wired_same; [|exact Hw]. unfold session_tick. destruct (_ <=? _); by split_and!.
  - by eapply wired_same; [eapply opt_step_same|].
  - eapply wired_same; [|exact Hw]. by split_and!.
  - eapply wired_scheduler; [done|done|]. by intros [].
Qed.

Lemma steps_wired wb wb' : rtc broker_step wb wb' -> wired_in wb.1 wb.2 -> wired_in wb'.1 wb'.2.
Proof.
  induction 1 as [|x y z Hxy _ IH]; [done|]. intros Hw. apply IH. destruct Hxy; cbn [fst snd] in *.
  - by eapply call_wired.
  - by apply CreateTopic_wired.
  - by apply SetScheduler_wired.
  - by apply SetSchedulerFactory_wired.
  - by apply broker_Stop_wired.
Qed.

(** A new broker: its factory, and no topic yet. *)
Definition new_wiring : wiring := mkWiring true ∅.

Lemma app_New_wired now rnd net anet cfg dataDir opts (a : BrokerApp (Net := Net) (ANet := ANet)) :
  app_New now rnd net anet cfg dataDir opts = Ok a -> wired_in new_wiring (a_broker a) /\ b_topics (a_broker a) = ∅.
Proof.
  unfold app_New. set (o := foldl _ _ _). rewrite bind_Ok. intros (store & _ & H). rewrite bind_Ok in H. destruct H as (bal & _ & H).
  rewrite bind_Ok in H. destruct H as (opt & _ & [= <-]). cbn [a_broker]. set (b0 := SetSchedulerFactory _ _). set (b1 := map_fold _ _ _).
  assert (H1 : b_factory b1 = b_factory b0 /\ b_topics b1 = ∅).
  { unfold b1. apply (map_fold_weak_ind (fun b _ => b_factory b = b_factory b0 /\ b_topics b = ∅)); [done|]. by intros topic s m b _ [IH1 IH2]. }
  assert (Hw : wired_in new_wiring b1 /\ b_topics b1 = ∅).
  { destruct H1 as [Hf Ht]. split; [|done]. split; [|intros name t; by rewrite Ht, lookup_empty]. rewrite Hf. intros _. eexists. split; [done|].
    intros tc. unfold scheduler_for. by destruct (tc_ScheduleMode tc). }
  destruct (ao_loadPredictorCfg o); [|done]. destruct Hw as [Hw Ht]. split; [|done]. eapply wired_same; [|exact Hw]. by split_and!.
Qed.

Lemma RecordConsume_not_Err mc t i g e : RecordConsume mc t i g <> Err e.
Proof. unfold RecordConsume. destruct (ensurePartCounters _ _). apply bind_not_Err; [|done]. unfold add_at. destruct (_ <? _); [done|].
  apply bind_not_Err; [apply index_not_Err|intros ?; apply store_not_Err]. Qed.

(** Consuming from a topic that exists never fails for want of a scheduler or of
    an index. *)
Lemma ConsumeFrom_equipped env (b : AppBroker) name t group i off :
  topic_wired t -> scheduled b name t -> b_topics b !! name = Some t ->
  (ConsumeFrom env b name group i off).2 <> Err (Errorf "no scheduler configured for topic %q") /\
  (ConsumeFrom env b name group i off).2 <> Err (Wrapf ErrNoIndex "scheduler.Next topic=%q part=%d").
Proof.
  intros Htw (s & Hs & Hm) Hn. unfold ConsumeFrom. rewrite Hn.
  destruct (topic_Partition t i) as [p|e|] eqn:Hp; cbn [wrapf snd]; [|by split..]. rewrite Hs.
  apply topic_Partition_Ok in Hp as [_ Hp]. pose proof (Next_has_index env s p off (mode_of t) Hm (list.Forall_lookup_1 _ _ _ _ Htw Hp)) as Hne.
  destruct (Next env s p off) as [[s' p'] r]. cbn [snd] in Hne. destruct r as [[msg next]|e|]; cbn [wrapf snd]; [|split; congruence|by split].
  destruct (decompressMessage _ _) as [msg'|e|]; cbn [wrapf snd]; [|by split..].
  match goal with |- context [RecordConsume ?mc ?n ?q ?g] => pose proof (RecordConsume_not_Err mc n q g) as Hr; destruct (RecordConsume mc n q g) as [mc'|e|] end;
    cbn [snd]; [by split|by destruct (Hr e)|by split].
Qed.


(** An application's option WithScheduler has no effect on a topic created
    through the broker: creating it installs the factory's scheduler. *)
Lemma WithScheduler_overridden b name cfg f :
  b_factory b = Some f -> (CreateTopic b name cfg).2 = Ok tt -> b_schedulers (CreateTopic b name cfg : AppBroker * _).1 !! name = Some (f cfg).
Proof.
  intros Hf. unfold CreateTopic. destruct (wrapf _ _); [|done..]. destruct (b_topics b !! name); [done|]. cbn [b_factory with_topics]. rewrite Hf.
  intros _. apply lookup_insert_eq.
Qed.

(** *** Starting and stopping *)

Lemma app_Stop_parts (a : BrokerApp (Net := Net) (ANet := ANet)) :
  exists loops, app_Stop a = set_broker (broker_Stop (a_broker a))
    (set_parts (stop_server <$> a_server a) (stop_server <$> a_httpServer a) (stop_server <$> a_adminServer a) false loops a).
Proof. destruct a as [? ? ? ? lp opt]. destruct lp, opt; by eexists. Qed.

(** Stopping, whatever was started. *)
Lemma app_Stop_all (a : BrokerApp (Net := Net) (ANet := ANet)) :
  let a' := app_Stop a in
  a_ready a' = false /\ b_schedulers (a_broker a') = ∅ /\
  (forall s, a_server a' = Some s \/ a_httpServer a' = Some s \/ a_adminServer a' = Some s -> srv_serving s = false) /\
  (forall name t, b_topics (a_broker a') !! name = Some t -> IsClosed t = true).
Proof.
  cbv zeta. destruct (app_Stop_parts a) as [loops ->]. cbn. split; [done|]. split; [done|]. split.
  - intros s Hs. destruct Hs as [Hs|[Hs|Hs]]; apply fmap_Some in Hs as (s0 & _ & ->); done.
  - intros name t. rewrite lookup_fmap_Some. intros (t0 & <- & _). unfold topic_Close. by destruct (close_partitions _ _).
Qed.

(** The loops stopped are the loops started. *)
Lemma loops_stopped (a a' : BrokerApp (Net := Net) (ANet := ANet)) :
  a_loops a = [] -> a_loops a' = a_loops (start_loops a) -> a_opt a' = a_opt a -> a_loadPredictor a' = a_loadPredictor a ->
  a_loops (app_Stop a') = [].
Proof.
  destruct a as [? ? ? ? lp opt], a' as [? ? ? ? lp' opt']. intros H0 Hl Ho Hp. cbn in *. subst.
  destruct lp, opt; cbn in *; subst; reflexivity.
Qed.

(** What listening at one address gives: nothing to do, a listener, or failure. *)
Definition listen_at {NL : NetListen} (bound : list string) (addr : string) : option (option string) :=
  if decide (addr = ""%string) then Some None
  else match net_Listen bound addr with Ok l => Some (Some l) | _ => None end.

(** Listening at one address after the other. *)
Fixpoint listen_all {NL : NetListen} (bound : list string) (addrs : list string) : option (list (option string)) :=
  match addrs with
  | [] => Some []
  | addr :: addrs' => l ← listen_at bound addr; ls ← listen_all (bound ++ option_list l) addrs'; Some (l :: ls)
  end.

Lemma listen_all_NoDup {NL : NetListen} {LL : NetListenLaws NL} bound addrs ls :
  NoDup bound -> listen_all bound addrs = Some ls -> NoDup (bound ++ omap (fun l => l) ls).
Proof.
  revert bound ls. induction addrs as [|addr addrs IH]; intros bound ls Hnd; cbn [listen_all].
  { intros [= <-]. cbn. by rewrite app_nil_r. }
  rewrite bind_Some. intros (l & Hl & H). rewrite bind_Some in H. destruct H as (ls' & Hls & [= <-]).
  assert (Hnd' : NoDup (bound ++ option_list l)).
  { unfold listen_at in Hl. case_decide; [injection Hl as <-; cbn; by rewrite app_nil_r|].
    destruct (net_Listen bound addr) as [x| |] eqn:Ex; [|done..]. injection Hl as <-. apply net_Listen_fresh in Ex. cbn.
    apply list.NoDup_app. split; [done|]. split; [|apply list.NoDup_singleton]. intros y Hy ->%list_elem_of_singleton. done. }
  specialize (IH _ _ Hnd' Hls). rewrite <- app_assoc in IH. destruct l; exact IH.
Qed.

(** One server. *)
Lemma start_one_spec {NL : NetListen} msg wrap addr keep (a : BrokerApp (Net := Net) (ANet := ANet)) :
  match listen_at (app_bound a) addr with
  | Some None => start_one msg wrap addr keep a = (a, Ok tt)
  | Some (Some l) => start_one msg wrap addr keep a = (keep (Some (mkServer (Some l) true)) a, Ok tt)
  | None => exists r, start_one msg wrap addr keep a = (keep (Some no_server) a, r) /\ r <> Ok tt
  end.
Proof.
  unfold listen_at, start_one, server_Start. case_decide; [done|]. destruct (net_Listen _ addr) as [l|e|]; cbn; [done|by eexists..].
Qed.

Definition serving (l : option string) : option server := (fun l => mkServer (Some l) true) <$> l.

(** What a start leaves, the servers apart. *)
Definition started (a a' : BrokerApp (Net := Net) (ANet := ANet)) : Prop :=
  a_loops a' = a_loops (start_loops a) /\ a_opt a' = a_opt a /\ a_loadPredictor a' = a_loadPredictor a.

Lemma start_loops_parts (a : BrokerApp (Net := Net) (ANet := ANet)) :
  exists loops, start_loops a = set_parts (a_server a) (a_httpServer a) (a_adminServer a) (a_ready a) loops a /\ "broker"%string ∈ loops.
Proof.
  destruct a as [? ? ? ? lp opt]. destruct lp, opt; eexists; (split; [reflexivity|]); set_solver.
Qed.

Lemma app_Start_outcome {NL : NetListen} (a : BrokerApp (Net := Net) (ANet := ANet)) :
  a_ready a = false -> a_server a = None -> a_httpServer a = None -> a_adminServer a = None ->
  let '(a', r) := app_Start a in
  let o := a_opts a in
  started a a' /\
  match listen_all [] [ao_grpcAddr o; ao_httpAddr o; ao_adminAddr o] with
  | Some ls => r = Ok tt /\ a_ready a' = true /\ [a_server a'; a_httpServer a'; a_adminServer a'] = serving <$> ls
  | None => r <> Ok tt /\ a_ready a' = false
  end.
Proof.
  intros Hr H1 H2 H3. unfold app_Start. destruct (start_loops_parts a) as (loops & Hloops & _).
  unfold started. rewrite Hloops. rewrite H1, H2, H3, Hr. set (a0 := set_parts None None None false loops a).
  change (a_loops (set_parts None None None false loops a)) with loops.
  assert (Hb0 : app_bound a0 = []) by done. cbn [listen_all].
  pose proof (start_one_spec "listen %s" "grpc start" (ao_grpcAddr (a_opts a)) set_server a0) as S1. rewrite Hb0 in S1.
  destruct (listen_at [] (ao_grpcAddr (a_opts a))) as [l1|] eqn:E1.
  2: { destruct S1 as ([[]| |] & -> & Hne); [done|..]; cbn; done. }
  set (a1 := set_server (serving l1) a0).
  assert (start_one "listen %s" "grpc start" (ao_grpcAddr (a_opts a)) set_server a0 = (a1, Ok tt)) as -> by (by destruct l1).
  cbn [then_]. clear S1. assert (Hb1 : app_bound a1 = [] ++ option_list l1) by (by destruct l1).
  pose proof (start_one_spec "http listen %s" "http start" (ao_httpAddr (a_opts a)) set_httpServer a1) as S2. rewrite Hb1 in S2.
  cbn [mbind option_bind]. destruct (listen_at ([] ++ option_list l1) (ao_httpAddr (a_opts a))) as [l2|] eqn:E2.
  2: { destruct S2 as ([[]| |] & -> & Hne); [done|..]; cbn; done. }
  set (a2 := set_httpServer (serving l2) a1).
  assert (start_one "http listen %s" "http start" (ao_httpAddr (a_opts a)) set_httpServer a1 = (a2, Ok tt)) as -> by (by destruct l2).
  cbn [then_]. clear S2. assert (Hb2 : app_bound a2 = ([] ++ option_list l1) ++ option_list l2) by (by destruct l1, l2).
  pose proof (start_one_spec "admin listen %s" "admin start" (ao_adminAddr (a_opts a)) set_adminServer a2) as S3. rewrite Hb2 in S3.
  cbn [mbind option_bind]. destruct (listen_at (([] ++ option_list l1) ++ option_list l2) (ao_adminAddr (a_opts a))) as [l3|] eqn:E3.
  2: { destruct S3 as ([[]| |] & -> & Hne); [done|..]; cbn; done. }
  set (a3 := set_adminServer (serving l3) a2).
  assert (start_one "admin listen %s" "admin start" (ao_adminAddr (a_opts a)) set_adminServer a2 = (a3, Ok tt)) as -> by (by destruct l3).
  cbn. done.
Qed.

(** C15: Starting and stopping.  The application is ready exactly when starting
    returned no error, which is when every server it has an address for could
    listen, each on an address the ones before it do not use; then those servers
    serve, on distinct addresses.  When starting fails, the background loops run
    all the same.  Stopping, in either case, stops the loops that were started,
    the optimizer's and the load predictor's among them where there is one, so
    that none runs, and leaves no server running, not ready, the topics closed
    and the schedulers gone. *)
Theorem app_lifecycle {NL : NetListen} {LL : NetListenLaws NL} (a : BrokerApp (Net := Net) (ANet := ANet)) :
  a_ready a = false -> a_server a = None -> a_httpServer a = None -> a_adminServer a = None -> a_loops a = [] ->
  exists a' r, app_Start a = (a', r) /\
  let o := a_opts a in
  let listeners := listen_all [] [ao_grpcAddr o; ao_httpAddr o; ao_adminAddr o] in
  (readyz a' = (200, "ready"%string) <-> r = Ok tt) /\
  (r = Ok tt <-> is_Some listeners) /\
  (forall ls, listeners = Some ls ->
     [a_server a'; a_httpServer a'; a_adminServer a'] = serving <$> ls /\ NoDup (omap (fun l => l) ls)) /\
  "broker"%string ∈ a_loops a' /\
  ("loadPredictor"%string ∈ a_loops a' <-> is_Some (a_loadPredictor a)) /\ ("optimizer"%string ∈ a_loops a' <-> is_Some (a_opt a)) /\
  let a'' := app_Stop a' in
  readyz a'' = (503, "not ready"%string) /\ a_loops a'' = [] /\ b_schedulers (a_broker a'') = ∅ /\
  (forall s, a_server a'' = Some s \/ a_httpServer a'' = Some s \/ a_adminServer a'' = Some s -> srv_serving s = false) /\
  (forall name t, b_topics (a_broker a'') !! name = Some t -> IsClosed t = true).
Proof.
  intros Hr H1 H2 H3 H4. pose proof (app_Start_outcome a Hr H1 H2 H3) as Hout. destruct (app_Start a) as [a' r]. cbv zeta in Hout.
  destruct Hout as [Hst Hout]. pose proof Hst as (Hlo & Ho & Hp).
  destruct (app_Stop_all a') as (S1 & S3 & S4 & S5). exists a', r. split; [done|]. cbv zeta. unfold readyz. rewrite S1.
  assert (Hloops : "broker"%string ∈ a_loops a' /\ ("loadPredictor"%string ∈ a_loops a' <-> is_Some (a_loadPredictor a)) /\
                   ("optimizer"%string ∈ a_loops a' <-> is_Some (a_opt a))).
  { rewrite Hlo. destruct a as [? ? ? ? lp opt]. cbn in H4 |- *. subst. destruct lp, opt; cbn; rewrite ?is_Some_alt; set_solver. }
  destruct Hloops as (Hl1 & Hl2 & Hl3). destruct (listen_all _ _) as [ls|] eqn:El.
  - destruct Hout as (-> & -> & Hsv). split; [done|]. split; [by split; [eexists|]|]. split.
    + intros ls' [= <-]. split; [done|]. exact (listen_all_NoDup [] _ ls NoDup_nil_2 El).
    + split_and!; try done. by eapply loops_stopped.
  - destruct Hout as (Hne & ->). split; [by split|]. split; [split; [done|by intros []]|]. split; [done|].
    split_and!; try done. by eapply loops_stopped.
Qed.
End runs.

(** ** The properties at a concrete application *)

Section sample.
Local Open Scope go_scope.
Local Existing Instances join_path plain_stats forwards mem_badger plain_env one_net axis_gonum linear_math.

(** A machine on which nothing else listens. *)
Definition ports : NetListen :=
  {| net_Listen bound addr := if decide (addr ∈ bound) then Err (ErrLib "net" "address already in use") else Ok addr |}.
Local Existing Instance ports.
Instance ports_laws : NetListenLaws ports.
Proof. split. intros bound addr l. cbn. case_decide; [done|]. by intros [= <-]. Qed.

Definition new_app (opts : list (Option (Net := unit))) : result (BrokerApp (Net := unit) (ANet := unit)) :=
  app_New 0 (fun _ _ => 0.5%float) tt tt DefaultConfig "/data" opts.
Lemma sample_app_Ok : is_Ok (new_app [WithGRPC ":9090"; WithHTTP ":9090"]) = true.
Proof. by vm_compute. Qed.
Definition sample_app : BrokerApp (Net := unit) (ANet := unit) := from_Ok _ sample_app_Ok.

Definition priority_topic : TopicConfig := mkTopicConfig ModeStrictPriority 1 10 0 0.
Definition jobs_broker : Broker (Bal := AnyBalancer unit) (Sch := AnyScheduler unit) :=
  (Publish sample_pub (SetScheduler (CreateTopic (a_broker sample_app) "jobs" priority_topic).1 "mail" (SchedFIFO NewFIFO)) "jobs" hello).1.1.

Lemma jobs_created : creating new_wiring (a_broker sample_app) "jobs" priority_topic = mkWiring true ∅.
Proof. vm_compute. reflexivity. Qed.

Lemma jobs_own : "jobs"%string ∉ foreign (mkWiring true (∅ ∪ {["mail"%string]})).
Proof. set_solver. Qed.


(** Two servers configured with one address: the second cannot listen. *)
Lemma app_lifecycle_witness :
  exists a' r, app_Start sample_app = (a', r) /\ readyz a' <> (200, "ready"%string) /\ r <> Ok tt /\ "broker"%string ∈ a_loops a' /\
    a_loops (app_Stop a') = [].
Proof.
  destruct (app_lifecycle sample_app) as (a' & r & Hs & Hr & Hl & _ & Hb & _ & _ & _ & Hlo & _); [by vm_compute..|].
  assert (Hne : r <> Ok tt).
  { rewrite Hl. intros [ls H]. vm_compute in H. discriminate H. }
  exists a', r. split; [exact Hs|]. split; [by rewrite Hr|]. by split_and!.
Defined.

(** With three addresses all serve. *)
Example three_servers :
  listen_all [] [":9090"; ":8080"; ":6060"]%string = Some [Some ":9090"; Some ":8080"; Some ":6060"]%string.
Proof. reflexivity. Qed.
End sample.
