(* ===== verification/Routes.v ===== *)
(** * Requests and routes (src/pkg/transport/http_server.go, http_client.go, admin_server.go)

    The URLs the HTTP client writes, and how the server's multiplexer takes them
    apart: escaping of package net/url, splitting of path and query, the patterns
    registered by NewHTTPServer and NewAdminServer.  Escaped paths are kept as they
    were written (URL.EscapedPath), so that a request is its method and its target,
    the text behind the host.  The servers' limits and timeouts. *)

From Stdlib Require Import Strings.Byte Strings.Ascii.
From stdpp Require Import pretty.
From S2P Require Import Prelude Message PriorityIndex Wal Compression GoFloat Config Partition Topic OffsetStore LoadPredictor Metrics Balancer Scheduler.
From S2P Require Import RoundRobin Broker BrokerProps BatchProps Transport TransportProps Client ClientProps App.

(** ** net/url *)

Definition is_alnum (c : ascii) : bool :=
  let n := char_code c in ((97 <=? n) && (n <=? 122)) || ((65 <=? n) && (n <=? 90)) || ((48 <=? n) && (n <=? 57)).
Definition is_char (s : string) (c : ascii) : bool := bool_decide (c ∈ String.list_ascii_of_string s).

Inductive encoding : Type := encodePathSegment | encodeQueryComponent.

Definition shouldEscape (mode : encoding) (c : ascii) : bool :=
  if is_alnum c then false
  else if is_char "-_.~" c then false
  else if is_char "$&+,/:;=?@" c then match mode with encodePathSegment => is_char "/;,?" c | encodeQueryComponent => true end
  else true.

Definition upperhex (n : N) : ascii := default "0"%char (String.get (N.to_nat n) "0123456789ABCDEF").
Definition escape_char (mode : encoding) (c : ascii) (rest : string) : string :=
  if shouldEscape mode c then
    match mode with
    | encodeQueryComponent => if decide (c = " "%char) then String "+" rest
                              else String "%" (String (upperhex (N_of_ascii c / 16)) (String (upperhex (N_of_ascii c mod 16)) rest))
    | encodePathSegment => String "%" (String (upperhex (N_of_ascii c / 16)) (String (upperhex (N_of_ascii c mod 16)) rest))
    end
  else String c rest.
Fixpoint escape (mode : encoding) (s : string) : string :=
  match s with EmptyString => EmptyString | String c s => escape_char mode c (escape mode s) end.
Definition PathEscape : string -> string := escape encodePathSegment.
Definition QueryEscape : string -> string := escape encodeQueryComponent.

Definition unhex (c : ascii) : option N :=
  let n := char_code c in
  if (48 <=? n) && (n <=? 57) then Some (Z.to_N (n - 48))
  else if (97 <=? n) && (n <=? 102) then Some (Z.to_N (n - 97 + 10))
  else if (65 <=? n) && (n <=? 70) then Some (Z.to_N (n - 65 + 10))
  else None.

(** [None]: an invalid escape. *)
Fixpoint unescape (mode : encoding) (s : string) : option string :=
  match s with
  | EmptyString => Some EmptyString
  | String c s' =>
      if decide (c = "%"%char) then
        match s' with
        | String h (String l rest) =>
            match unhex h, unhex l with
            | Some a, Some b => String (ascii_of_N (a * 16 + b)) <$> unescape mode rest
            | _, _ => None
            end
        | _ => None
        end
      else String (match mode with encodeQueryComponent => if decide (c = "+"%char) then " "%char else c | encodePathSegment => c end) <$> unescape mode s'
  end.

(** strings.Split and strings.Cut at one character. *)
Fixpoint split_on (sep : ascii) (s : string) : list string :=
  match s with
  | EmptyString => [EmptyString]
  | String c s =>
      if decide (c = sep) then EmptyString :: split_on sep s
      else match split_on sep s with [] => [String c EmptyString] | p :: ps => String c p :: ps end
  end.
Fixpoint cut (sep : ascii) (s : string) : string * string :=
  match s with
  | EmptyString => (EmptyString, EmptyString)
  | String c s => if decide (c = sep) then (EmptyString, s) else let '(a, b) := cut sep s in (String c a, b)
  end.

(** url.Query().Get: the first value of the key; parts that do not parse are
    skipped. *)
Definition query_part (part : string) : option (string * string) :=
  if bool_decide (part = EmptyString) || is_char part ";"%char then None
  else let '(k, v) := cut "="%char part in
       match unescape encodeQueryComponent k, unescape encodeQueryComponent v with Some k, Some v => Some (k, v) | _, _ => None end.
Definition query_get (key query : string) : string :=
  from_option snd EmptyString (List.find (fun kv => bool_decide (kv.1 = key)) (omap query_part (split_on "&"%char query))).

(** ** net/http: patterns *)

(** A segment of a pattern: literal, a wildcard, or a final slash, which matches any
    rest. *)
Inductive pattern_seg : Type := Lit (s : string) | Wild (name : string) | AnyRest.

Inductive route : Type :=
| RouteCreateTopic | RouteListTopics | RouteDeleteTopic | RouteProduce | RouteConsume | RouteCommit | RouteMetrics | RouteHealthz | RouteReadyz | RoutePprof.

(** The segments behind the leading slash; a wildcard does not match an empty one. *)
Fixpoint match_segs (pat : list pattern_seg) (segs : list string) : option (list (string * string)) :=
  match pat, segs with
  | [], [] => Some []
  | [AnyRest], _ :: _ => Some []
  | Lit s :: pat, seg :: segs => if decide (unescape encodePathSegment seg = Some s) then match_segs pat segs else None
  | Wild name :: pat, seg :: segs =>
      if decide (seg = EmptyString) then None
      else match unescape encodePathSegment seg with Some v => cons (name, v) <$> match_segs pat segs | None => None end
  | _, _ => None
  end.

(** A pattern for GET also serves HEAD. *)
Definition method_ok (pat method : string) : bool := bool_decide (pat = method) || (bool_decide (pat = "GET") && bool_decide (method = "HEAD")).

(** [Moved]: the path is not clean and the client is sent to the clean one. *)
Inductive routing : Type := Routed (r : route) (values : list (string * string)) | Moved | NoRoute | NoMethod.

(** Not clean: an empty segment before the last one, or one of dots. *)
Definition dots (seg : string) : bool := bool_decide (seg = "."%string) || bool_decide (seg = ".."%string).
Definition clean (segs : list string) : bool :=
  forallb (fun seg => negb (bool_decide (seg = EmptyString)) && negb (dots seg)) (removelast segs) && from_option (fun seg => negb (dots seg)) true (head (rev segs)).

(** The first pattern that matches with its method. *)
Fixpoint first_route (method : string) (matches : list (string * option (list (string * string)) * route)) : option routing :=
  match matches with
  | [] => None
  | (m, Some vs, r) :: matches => if method_ok m method then Some (Routed r vs) else first_route method matches
  | (_, None, _) :: matches => first_route method matches
  end.

(** ServeMux; the patterns are in an order in which the first match is the most
    specific one. *)
Definition matches_of (patterns : list (string * list pattern_seg * route)) (segs : list string) : list (string * option (list (string * string)) * route) :=
  (fun '(m, pat, r) => (m, match_segs pat segs, r)) <$> patterns.
Definition serve_mux (patterns : list (string * list pattern_seg * route)) (method path : string) : routing :=
  match split_on "/"%char path with
  | EmptyString :: segs =>
      if negb (clean segs) then Moved
      else
        let matches := matches_of patterns segs in
        match first_route method matches with
        | Some r => r
        | None => if existsb (fun '(_, vs, _) => match vs with Some _ => true | None => false end) matches then NoMethod else NoRoute
        end
  | _ => Moved
  end.

(** ** The patterns *)

Definition http_patterns : list (string * list pattern_seg * route) :=
  [("POST", [Lit "topics"], RouteCreateTopic);
   ("GET", [Lit "topics"], RouteListTopics);
   ("DELETE", [Lit "topics"; Wild "topic"], RouteDeleteTopic);
   ("POST", [Lit "topics"; Wild "topic"; Lit "messages"], RouteProduce);
   ("GET", [Lit "topics"; Wild "topic"; Lit "messages"], RouteConsume);
   ("POST", [Lit "topics"; Wild "topic"; Lit "offsets"], RouteCommit);
   ("GET", [Lit "metrics"], RouteMetrics);
   ("GET", [Lit "healthz"], RouteHealthz);
   ("GET", [Lit "readyz"], RouteReadyz);
   ("GET", [Lit "debug"; Lit "pprof"; Wild "cmd"], RoutePprof);
   ("GET", [Lit "debug"; Lit "pprof"; AnyRest], RoutePprof)]%string.

(** [gatherer]: NewAdminServer was given a registry. *)
Definition admin_patterns (gatherer : bool) : list (string * list pattern_seg * route) :=
  [("GET", [Lit "healthz"], RouteHealthz);
   ("GET", [Lit "readyz"], RouteReadyz);
   ("GET", [Lit "debug"; Lit "pprof"; Lit "cmdline"], RoutePprof);
   ("GET", [Lit "debug"; Lit "pprof"; Lit "profile"], RoutePprof);
   ("GET", [Lit "debug"; Lit "pprof"; Lit "symbol"], RoutePprof);
   ("GET", [Lit "debug"; Lit "pprof"; Lit "trace"], RoutePprof);
   ("GET", [Lit "debug"; Lit "pprof"; AnyRest], RoutePprof)]%string
  ++ (if gatherer then [("GET", [Lit "metrics"], RouteMetrics)] else [])%string.

(** A request's target is the path and the query. *)
Definition http_route (method target : string) : routing * string := let '(path, query) := cut "?"%char target in (serve_mux http_patterns method path, query).
Definition path_value (name : string) (values : list (string * string)) : string :=
  from_option snd EmptyString (List.find (fun kv => bool_decide (kv.1 = name)) values).

(** ** The client's targets *)

Definition produce_target (topic : string) : string := ("/topics/" +:+ PathEscape topic +:+ "/messages")%string.
Definition consume_target (topic group : string) (partition maxBytes : Z) : string :=
  ("/topics/" +:+ PathEscape topic +:+ "/messages?group=" +:+ QueryEscape group +:+ "&partition=" +:+ pretty partition +:+ "&maxBytes=" +:+ pretty maxBytes)%string.
Definition commit_target (topic : string) : string := ("/topics/" +:+ PathEscape topic +:+ "/offsets")%string.
Definition delete_target (topic : string) : string := ("/topics/" +:+ PathEscape topic)%string.
Definition topics_target : string := "/topics".
Definition metrics_target : string := "/metrics".

(** ** The HTTP server *)

(** The limits of NewHTTPServer, in nanoseconds; zero milliseconds mean the default. *)
Record http_limits : Type := mkLimits { ReadHeaderTimeout : Z; ReadTimeout : Z; WriteTimeout : Z; IdleTimeout : Z; MaxHeaderBytes : Z }.
Definition http_server_limits (cfg : Config) : http_limits :=
  let readTimeout := i64 (ReadTimeoutMs cfg * time_Millisecond) in
  let writeTimeout := i64 (WriteTimeoutMs cfg * time_Millisecond) in
  let readTimeout := if readTimeout =? 0 then 30 * time_Second else readTimeout in
  let writeTimeout := if writeTimeout =? 0 then 30 * time_Second else writeTimeout in
  mkLimits (5 * time_Second) readTimeout writeTimeout (120 * time_Second) (2 ^ 20).
Definition admin_limits : http_limits := mkLimits (5 * time_Second) (30 * time_Second) (60 * time_Second) (120 * time_Second) 0.

(** The options of NewServer; the counts are converted to uint32. *)
Record grpc_options : Type := mkGrpcOptions {
  MaxConcurrentStreams : Z;
  NumStreamWorkers : Z;
  MaxRecvMsgSize : Z;
  MaxSendMsgSize : Z;
  ReadBufferSize : Z;
  WriteBufferSize : Z;
}.
Definition grpc_server_options (cfg : Config) : grpc_options :=
  mkGrpcOptions (u32 (MaxConnections cfg)) (u32 (NumNetworkGoroutines cfg)) (i64 (MaxMessageBytes cfg + 1024)) (i64 (MaxFetchBytes cfg + 1024))
    (RecvBufferBytes cfg) (SendBufferBytes cfg).

(** A server with its listener: the address, and the number of connections accepted
    at a time ([None]: any). *)
Record HTTPServer : Type := mkHTTPServer { hs_limits : http_limits; hs_listener : option (string * option Z); hs_stopped : bool }.
Section http_server.
Context {NL : NetListen}.

Definition NewHTTPServer (cfg : Config) : HTTPServer := mkHTTPServer (http_server_limits cfg) None false.
Definition hs_Start (cfg : Config) (bound : list string) (addr : string) (s : HTTPServer) : HTTPServer * result unit :=
  match wrapf "http listen %s" (net_Listen bound addr) with
  | Ok l =>
      let maxConn := MaxConnections cfg in
      (mkHTTPServer (hs_limits s) (Some (l, if 0 <? maxConn then Some maxConn else None)) (hs_stopped s), Ok tt)
  | Err e => (s, Err e)
  | Panic => (s, Panic)
  end.
Definition hs_Addr (s : HTTPServer) : string := from_option fst EmptyString (hs_listener s).
Definition hs_Stop (s : HTTPServer) : HTTPServer := mkHTTPServer (hs_limits s) (hs_listener s) true.

Definition NewAdminServer : HTTPServer := mkHTTPServer admin_limits None false.
Definition admin_Start (bound : list string) (addr : string) (s : HTTPServer) : HTTPServer * result unit :=
  match wrapf "admin listen %s" (net_Listen bound addr) with
  | Ok l => (mkHTTPServer (hs_limits s) (Some (l, None)) (hs_stopped s), Ok tt)
  | Err e => (s, Err e)
  | Panic => (s, Panic)
  end.
End http_server.

(** ** Dispatch *)

(** The body of a request, as the decoder of each handler sees it. *)
Record http_body : Type := mkBody {
  body_produce : result (list HTTPProduceRecord);
  body_commit : result HTTPCommitRequest;
  body_create : result HTTPCreateTopicRequest;
}.

(** What the server answers; [AnsMoved] and [AnsMux]: the multiplexer itself, with a
    redirection to the clean path or an error status. *)
Inductive answer : Type :=
| AnsProduce (r : HTTPResponse (list HTTPProduceResult))
| AnsConsume (r : HTTPResponse (list HTTPMessageEnvelope))
| AnsDone (r : HTTPResponse unit)
| AnsTopics (r : HTTPResponse (list HTTPTopicInfo))
| AnsMetrics (r : HTTPResponse Metrics)
| AnsText (r : HTTPResponse string)
| AnsPprof
| AnsMoved
| AnsMux (status : Z).

Section dispatch.
Context {W : Wal} {K : Compressors} {F : Filepath} {D : Badger} {G : Gonum} {V : Govy} {R : MapRange} {E : BrokerEnv}.
Context {Bal : Type} {B : Balancer Bal} {Sch : Type} {Sc : Scheduler Sch}.
Implicit Types b : Broker (Bal := Bal) (Sch := Sch).

(** What the clocks and the surroundings give while a request is served. *)
Record serve_env : Type := mkServeEnv { se_pub : PubEnv; se_nano : Z; se_fuel : nat; se_poll : PollEnv (Bal := Bal) (Sch := Sch); se_start : Time }.

Definition answered {A} (f : HTTPResponse A -> answer) (r : result (Broker (Bal := Bal) (Sch := Sch) * HTTPResponse A)) : option (result (Broker (Bal := Bal) (Sch := Sch) * answer)) :=
  Some ('(b, resp) ← r; Ok (b, f resp)).

Definition http_dispatch (env : serve_env) b (method target : string) (body : http_body) : option (result (Broker (Bal := Bal) (Sch := Sch) * answer)) :=
  let '(r, query) := http_route method target in
  match r with
  | Routed RouteCreateTopic _ => answered AnsDone (handleCreateTopic b (body_create body))
  | Routed RouteListTopics _ => Some (Ok (b, AnsTopics (handleListTopics b)))
  | Routed RouteDeleteTopic vs => answered AnsDone (handleDeleteTopic b (path_value "topic" vs))
  | Routed RouteProduce vs => answered AnsProduce (handleProduce (se_pub env) (se_nano env) b (path_value "topic" vs) (body_produce body))
  | Routed RouteConsume vs =>
      r ← handleConsume (se_fuel env) (se_poll env) (se_start env) b (path_value "topic" vs) (query_get "group" query) (query_get "partition" query) (query_get "maxBytes" query);
      answered AnsConsume r
  | Routed RouteCommit vs => answered AnsDone (handleCommit (se_start env) b (path_value "topic" vs) (body_commit body))
  | Routed RouteMetrics _ => Some (Ok (b, AnsMetrics (handleMetrics b)))
  | Routed RouteHealthz _ => Some (Ok (b, AnsText (HTTPBody StatusOK "ok"%string)))
  | Routed RouteReadyz _ => Some (Ok (b, AnsText (handleReadyz b)))
  | Routed RoutePprof _ => Some (Ok (b, AnsPprof))
  | Moved => Some (Ok (b, AnsMoved))
  | NoRoute => Some (Ok (b, AnsMux StatusNotFound))
  | NoMethod => Some (Ok (b, AnsMux 405))
  end.
End dispatch.

(** ** Escaping and splitting *)

Lemma unescape_escape_char mode c rest : unescape mode (escape_char mode c rest) = String c <$> unescape mode rest.
Proof. destruct mode, c as [[] [] [] [] [] [] [] []]; reflexivity. Qed.

Lemma unescape_escape mode s : unescape mode (escape mode s) = Some s.
Proof. induction s as [|c s IH]; [done|]. cbn [escape]. by rewrite unescape_escape_char, IH. Qed.

(** A string without the character. *)
Definition free (sep : ascii) (s : string) : Prop := sep ∉ String.list_ascii_of_string s.

Lemma append_cons c s t : (String c s +:+ t = String c (s +:+ t))%string.
Proof. reflexivity. Qed.
Lemma append_assoc s t u : (s +:+ (t +:+ u) = (s +:+ t) +:+ u)%string.
Proof. induction s as [|c s IH]; [done|]. by rewrite !append_cons, IH. Qed.
Lemma chars_app s t : String.list_ascii_of_string (s +:+ t) = String.list_ascii_of_string s ++ String.list_ascii_of_string t.
Proof. induction s as [|c s IH]; [done|]. rewrite append_cons. cbn. by rewrite IH. Qed.
Lemma free_app sep s t : free sep (s +:+ t) <-> free sep s /\ free sep t.
Proof. unfold free. by rewrite chars_app, not_elem_of_app. Qed.
Lemma free_String sep c s : free sep (String c s) <-> c <> sep /\ free sep s.
Proof. unfold free. cbn. rewrite not_elem_of_cons. naive_solver. Qed.

(** The separators of paths and queries do not occur in escaped text. *)
Definition separator (mode : encoding) (sep : ascii) : bool := is_char "/?;" sep || match mode with encodeQueryComponent => is_char "&=" sep | encodePathSegment => false end.
Definition misses (sep : ascii) (s : string) : bool := forallb (fun c => negb (Ascii.eqb c sep)) (String.list_ascii_of_string s).

Lemma misses_free sep s : misses sep s = true -> free sep s.
Proof.
  unfold misses, free. induction s as [|c s IH]; cbn; [intros _; apply not_elem_of_nil|]. intros [Hc Hs]%andb_true_iff. rewrite not_elem_of_cons. split; [|by apply IH].
  apply negb_true_iff in Hc. intros ->. by rewrite Ascii.eqb_refl in Hc.
Qed.
Lemma separator_cases mode sep : separator mode sep = true -> sep ∈ ["/"; "?"; ";"; "&"; "="]%char /\ (mode = encodePathSegment -> sep ∈ ["/"; "?"; ";"]%char).
Proof. destruct mode, sep as [[] [] [] [] [] [] [] []]; cbn; intros H; try (discriminate H); split; try done; intros; set_solver. Qed.

Lemma escape_char_misses mode c sep : separator mode sep = true -> misses sep (escape_char mode c EmptyString) = true.
Proof.
  intros [Hq Hp]%separator_cases. destruct mode.
  - specialize (Hp eq_refl). rewrite !elem_of_cons, elem_of_nil in Hp.
    destruct Hp as [-> | [-> | [-> | []]]]; destruct c as [[] [] [] [] [] [] [] []]; vm_compute; reflexivity.
  - rewrite !elem_of_cons, elem_of_nil in Hq.
    destruct Hq as [-> | [-> | [-> | [-> | [-> | []]]]]]; destruct c as [[] [] [] [] [] [] [] []]; vm_compute; reflexivity.
Qed.
Lemma escape_char_app mode c rest : escape_char mode c rest = (escape_char mode c EmptyString +:+ rest)%string.
Proof. unfold escape_char. by repeat case_match. Qed.

Lemma escape_free mode s sep : separator mode sep = true -> free sep (escape mode s).
Proof.
  intros Hsep. induction s as [|c s IH]; [by apply misses_free|]. cbn [escape]. rewrite escape_char_app. apply free_app.
  split; [by apply misses_free, escape_char_misses|done].
Qed.

Lemma cut_free sep s t : free sep s -> cut sep (s +:+ String sep t) = (s, t).
Proof.
  unfold free. induction s as [|c s IH].
  - intros _. change ("" +:+ String sep t)%string with (String sep t). cbn [cut]. by rewrite decide_True.
  - rewrite append_cons. cbn [cut String.list_ascii_of_string]. rewrite not_elem_of_cons. intros [Hc Hs]. rewrite decide_False by congruence. by rewrite IH.
Qed.
Lemma cut_none sep s : free sep s -> cut sep s = (s, EmptyString).
Proof.
  unfold free. induction s as [|c s IH]; cbn; [done|]. rewrite not_elem_of_cons. intros [Hc Hs]. rewrite decide_False by congruence. by rewrite IH.
Qed.

Lemma split_on_free sep s : free sep s -> split_on sep s = [s].
Proof.
  unfold free. induction s as [|c s IH]; cbn; [done|]. rewrite not_elem_of_cons. intros [Hc Hs]. rewrite decide_False by congruence. by rewrite IH.
Qed.
Lemma split_on_app sep s t : free sep s -> split_on sep (s +:+ String sep t) = s :: split_on sep t.
Proof.
  unfold free. induction s as [|c s IH].
  - intros _. change ("" +:+ String sep t)%string with (String sep t). cbn [split_on]. by rewrite decide_True.
  - rewrite append_cons. cbn [split_on String.list_ascii_of_string]. rewrite not_elem_of_cons. intros [Hc Hs]. rewrite decide_False by congruence. by rewrite IH.
Qed.

(** ** The client's requests *)

Lemma PathEscape_plain topic s : PathEscape topic = s -> unescape encodePathSegment s = Some s -> topic = s.
Proof. intros H Hs. pose proof (unescape_escape encodePathSegment topic) as E. unfold PathEscape in H. rewrite H, Hs in E. congruence. Qed.

Lemma topic_segment topic : topic ∉ [""; "."; ".."]%string -> PathEscape topic <> EmptyString /\ dots (PathEscape topic) = false.
Proof.
  rewrite !not_elem_of_cons. intros (H1 & H2 & H3 & _). split; [intros E; by apply PathEscape_plain in E|].
  unfold dots. rewrite !bool_decide_eq_false_2; [done|..]; intros E; by apply PathEscape_plain in E.
Qed.

Lemma topic_segments topic tail : free "/"%char tail ->
  split_on "/"%char ("/topics/" +:+ PathEscape topic +:+ String "/" tail) = [""; "topics"; PathEscape topic; tail]%string.
Proof.
  intros Ht. change ("/topics/" +:+ PathEscape topic +:+ String "/" tail)%string with ("" +:+ String "/" ("topics" +:+ String "/" (PathEscape topic +:+ String "/" tail)))%string.
  rewrite !split_on_app; [by rewrite split_on_free|by apply escape_free|by apply misses_free|by apply misses_free].
Qed.

(** Routing a path of a topic that its name does not make unclean. *)
Lemma route_topic method topic tail :
  topic ∉ [""; "."; ".."]%string -> tail ∈ ["messages"; "offsets"]%string ->
  serve_mux http_patterns method ("/topics/" +:+ PathEscape topic +:+ String "/" tail)%string =
    if bool_decide (tail = "messages"%string) then
      if method_ok "POST" method then Routed RouteProduce [("topic", topic)]%string
      else if method_ok "GET" method then Routed RouteConsume [("topic", topic)]%string else NoMethod
    else if method_ok "POST" method then Routed RouteCommit [("topic", topic)]%string else NoMethod.
Proof.
  intros Htopic Htail. destruct (topic_segment topic Htopic) as [Hx Hd]. pose proof (unescape_escape encodePathSegment topic) as Hu. fold (PathEscape topic) in Hu.
  assert (Hfree : free "/"%char tail). { rewrite !elem_of_cons, elem_of_nil in Htail. destruct Htail as [-> | [-> | []]]; by apply misses_free. }
  unfold serve_mux. rewrite (topic_segments topic tail Hfree). set (X := PathEscape topic) in *. clearbody X.
  assert (HX : forall T (a c : T), (if decide (X = ""%string) then a else c) = c) by (intros; by rewrite decide_False).
  assert (Hclean : clean ["topics"; X; tail]%string = true).
  { unfold clean. cbn [removelast rev app head from_option forallb]. rewrite Hd, (bool_decide_eq_false_2 (X = "")) by done.
    rewrite !elem_of_cons, elem_of_nil in Htail. destruct Htail as [-> | [-> | []]]; reflexivity. }
  rewrite Hclean. cbn [negb]. assert (Hm : exists vs ws : option (list (string * string)), matches_of http_patterns ["topics"; X; tail]%string =
    [("POST", None, RouteCreateTopic); ("GET", None, RouteListTopics); ("DELETE", None, RouteDeleteTopic); ("POST", vs, RouteProduce); ("GET", vs, RouteConsume);
     ("POST", ws, RouteCommit); ("GET", None, RouteMetrics); ("GET", None, RouteHealthz); ("GET", None, RouteReadyz); ("GET", None, RoutePprof); ("GET", None, RoutePprof)]%string /\
    if bool_decide (tail = "messages"%string) then vs = Some [("topic", topic)]%string /\ ws = None else vs = None /\ ws = Some [("topic", topic)]%string).
  { unfold matches_of, http_patterns. cbn [fmap list_fmap match_segs]. rewrite !HX, Hu.
    rewrite !elem_of_cons, elem_of_nil in Htail. destruct Htail as [-> | [-> | []]]; eexists _, _; (split; [vm_compute; reflexivity|]); done. }
  destruct Hm as (vs & ws & -> & Hcase). cbv zeta. cbn [first_route existsb]. destruct (bool_decide _); destruct Hcase as [-> ->];
    destruct (method_ok "POST" method), (method_ok "GET" method); reflexivity.
Qed.

Lemma route_delete topic :
  topic ∉ [""; "."; ".."]%string -> serve_mux http_patterns "DELETE" ("/topics/" +:+ PathEscape topic)%string = Routed RouteDeleteTopic [("topic", topic)]%string.
Proof.
  intros Htopic. destruct (topic_segment topic Htopic) as [Hx Hd]. pose proof (unescape_escape encodePathSegment topic) as Hu. fold (PathEscape topic) in Hu.
  unfold serve_mux. change ("/topics/" +:+ PathEscape topic)%string with ("" +:+ String "/" ("topics" +:+ String "/" (PathEscape topic)))%string.
  rewrite !split_on_app by (by apply misses_free). rewrite split_on_free by (by apply escape_free). set (X := PathEscape topic) in *. clearbody X.
  assert (HX : forall T (a c : T), (if decide (X = ""%string) then a else c) = c) by (intros; by rewrite decide_False).
  assert (Hclean : clean ["topics"; X]%string = true). { unfold clean. cbn [removelast rev app head from_option forallb]. by rewrite Hd. }
  rewrite Hclean. cbn [negb]. unfold matches_of, http_patterns. cbn [fmap list_fmap match_segs]. rewrite !HX, Hu. vm_compute. reflexivity.
Qed.

(** *** The query *)

Lemma query_part_escaped k v :
  misses "="%char k = true -> misses ";"%char k = true -> k <> EmptyString -> unescape encodeQueryComponent k = Some k ->
  query_part (k +:+ String "=" (QueryEscape v)) = Some (k, v).
Proof.
  intros Heq Hsemi Hne Hk. unfold query_part. rewrite bool_decide_eq_false_2 by (destruct k; [done|by rewrite append_cons]). cbn [orb].
  assert (Hs : is_char (k +:+ String "=" (QueryEscape v)) ";"%char = false).
  { apply bool_decide_eq_false_2. change (free ";"%char (k +:+ String "=" (QueryEscape v))). apply free_app. split; [by apply misses_free|].
    apply free_String. split; [done|by apply escape_free]. }
  rewrite Hs, cut_free by (by apply misses_free). by rewrite Hk, unescape_escape.
Qed.

(** A number needs no escaping. *)
Definition plain_char (c : ascii) : bool := negb (shouldEscape encodeQueryComponent c).
Lemma escape_plain s : forallb plain_char (String.list_ascii_of_string s) = true -> QueryEscape s = s.
Proof.
  unfold QueryEscape. induction s as [|c s IH]; [done|]. cbn [String.list_ascii_of_string forallb escape]. intros [Hc Hs]%andb_true_iff. rewrite IH by done.
  unfold escape_char, plain_char in *. apply negb_true_iff in Hc. by rewrite Hc.
Qed.
Lemma pretty_N_go_plain x : forall s, forallb plain_char (String.list_ascii_of_string s) = true -> forallb plain_char (String.list_ascii_of_string (pretty_N_go x s)) = true.
Proof.
  induction x as [x IH] using (well_founded_induction N.lt_wf_0). intros s Hs. destruct (decide (x = 0)%N) as [->|Hn]; [by rewrite pretty_N_go_0|].
  rewrite pretty_N_go_step by lia. apply IH; [apply N.div_lt; lia|]. cbn. rewrite Hs, andb_true_r. pose proof (N.mod_lt x 10 ltac:(done)) as Hm.
  revert Hm. generalize (x mod 10)%N. intros d Hd. assert (d = 0 \/ d = 1 \/ d = 2 \/ d = 3 \/ d = 4 \/ d = 5 \/ d = 6 \/ d = 7 \/ d = 8 \/ d = 9)%N as H by lia.
  by repeat (destruct H as [->|H]; [reflexivity|]); subst.
Qed.
Lemma QueryEscape_pretty (z : Z) : QueryEscape (pretty z) = pretty z.
Proof.
  apply escape_plain. destruct z as [|q|q]; [done|..].
  - change (pretty (Z.pos q)) with (pretty_N_go (N.pos q) ""). by apply pretty_N_go_plain.
  - change (pretty (Z.neg q)) with (String "-" (pretty_N_go (N.pos q) "")). cbn [String.list_ascii_of_string forallb]. by rewrite pretty_N_go_plain.
Qed.

Definition consume_query (group : string) (partition maxBytes : Z) : string :=
  ("group=" +:+ QueryEscape group +:+ "&partition=" +:+ pretty partition +:+ "&maxBytes=" +:+ pretty maxBytes)%string.

Lemma consume_query_parts group partition maxBytes :
  omap query_part (split_on "&"%char (consume_query group partition maxBytes)) =
    [("group", group); ("partition", pretty partition); ("maxBytes", pretty maxBytes)]%string.
Proof.
  unfold consume_query. rewrite <- (QueryEscape_pretty partition), <- (QueryEscape_pretty maxBytes).
  change ("group=" +:+ QueryEscape group +:+ "&partition=" +:+ QueryEscape (pretty partition) +:+ "&maxBytes=" +:+ QueryEscape (pretty maxBytes))%string with
    (("group" +:+ String "=" (QueryEscape group)) +:+ String "&" (("partition" +:+ String "=" (QueryEscape (pretty partition))) +:+ String "&" ("maxBytes" +:+ String "=" (QueryEscape (pretty maxBytes)))))%string.
  assert (Hf : forall k v, misses "&"%char k = true -> free "&"%char (k +:+ String "=" (QueryEscape v))).
  { intros k v Hk. apply free_app. split; [by apply misses_free|]. apply free_String. split; [done|by apply escape_free]. }
  rewrite split_on_app by (by apply Hf). rewrite split_on_app by (by apply Hf). rewrite split_on_free by (by apply Hf). cbn [omap list_omap].
  rewrite !query_part_escaped by done. by rewrite !QueryEscape_pretty.
Qed.

Lemma target_path path : free "?"%char path -> forall method, http_route method path = (serve_mux http_patterns method path, EmptyString).
Proof. intros Hf method. unfold http_route. by rewrite cut_none. Qed.
Lemma topic_target_free topic tail : misses "?"%char tail = true -> free "?"%char ("/topics/" +:+ PathEscape topic +:+ tail)%string.
Proof. intros Ht. apply free_app. split; [by apply misses_free|]. apply free_app. split; [by apply escape_free|by apply misses_free]. Qed.

Lemma consume_target_route topic group partition maxBytes :
  topic ∉ [""; "."; ".."]%string ->
  http_route "GET" (consume_target topic group partition maxBytes) = (Routed RouteConsume [("topic", topic)]%string, consume_query group partition maxBytes).
Proof.
  intros Ht. unfold http_route. change (consume_target topic group partition maxBytes) with
    ("/topics/" +:+ PathEscape topic +:+ ("/messages" +:+ String "?" (consume_query group partition maxBytes)))%string.
  rewrite !append_assoc. rewrite cut_free; [|rewrite <- append_assoc; by apply topic_target_free].
  f_equal. rewrite <- append_assoc. apply (route_topic "GET" topic "messages" Ht). set_solver.
Qed.

Section dispatched.
Context {W : Wal} {K : Compressors} {F : Filepath} {D : Badger} {G : Gonum} {V : Govy} {R : MapRange} {E : BrokerEnv}.
Context {Bal : Type} {B : Balancer Bal} {Sch : Type} {Sc : Scheduler Sch}.
Implicit Types b : Broker (Bal := Bal) (Sch := Sch).

(** C24: Every request that the HTTP client builds reaches the handler it is meant for,
    with the topic and the group as they were given, whatever characters they
    contain, and with the numbers it formatted; only the topic names that are empty
    or dots are sent away by the multiplexer. *)
Theorem http_requests_dispatched (env : serve_env (Bal := Bal) (Sch := Sch)) b (topic group : string) (partition maxBytes : Z) (body : http_body) :
  topic ∉ [""; "."; ".."]%string ->
  http_dispatch env b "POST" (produce_target topic) body = answered AnsProduce (handleProduce (se_pub env) (se_nano env) b topic (body_produce body)) /\
  http_dispatch env b "GET" (consume_target topic group partition maxBytes) body =
    (r ← handleConsume (se_fuel env) (se_poll env) (se_start env) b topic group (pretty partition) (pretty maxBytes); answered AnsConsume r) /\
  http_dispatch env b "POST" (commit_target topic) body = answered AnsDone (handleCommit (se_start env) b topic (body_commit body)) /\
  http_dispatch env b "DELETE" (delete_target topic) body = answered AnsDone (handleDeleteTopic b topic) /\
  http_dispatch env b "POST" topics_target body = answered AnsDone (handleCreateTopic b (body_create body)) /\
  http_dispatch env b "GET" topics_target body = Some (Ok (b, AnsTopics (handleListTopics b))) /\
  http_dispatch env b "GET" metrics_target body = Some (Ok (b, AnsMetrics (handleMetrics b))) /\
  (forall t, t ∈ [""; "."; ".."]%string -> http_dispatch env b "POST" (produce_target t) body = Some (Ok (b, AnsMoved))).
Proof.
  intros Ht. unfold http_dispatch. split_and!.
  - unfold produce_target. rewrite target_path by (by apply topic_target_free). rewrite (route_topic "POST" topic "messages" Ht) by set_solver. reflexivity.
  - rewrite consume_target_route by done. unfold query_get. rewrite consume_query_parts. reflexivity.
  - unfold commit_target. rewrite target_path by (by apply topic_target_free). rewrite (route_topic "POST" topic "offsets" Ht) by set_solver. reflexivity.
  - unfold delete_target. rewrite target_path; [by rewrite route_delete|]. apply free_app. split; [by apply misses_free|by apply escape_free].
  - reflexivity.
  - reflexivity.
  - reflexivity.
  - intros t. rewrite !elem_of_cons, elem_of_nil. intros [-> | [-> | [-> | []]]]; reflexivity.
Qed.
End dispatched.

(** ** At a concrete broker *)

Section sample.
Local Existing Instances join_path plain_stats forwards mem_badger plain_env.

Lemma http_requests_dispatched_witness :
  http_dispatch (mkServeEnv sample_pub 0 10 quiet_poll 0) stocked_broker "DELETE" (delete_target "eu/orders?x=1") (mkBody (Ok []) Panic Panic) =
    answered AnsDone (handleDeleteTopic stocked_broker "eu/orders?x=1") /\
  delete_target "eu/orders?x=1" = "/topics/eu%2Forders%3Fx=1"%string.
Proof.
  split; [|reflexivity].
  destruct (http_requests_dispatched (mkServeEnv sample_pub 0 10 quiet_poll 0) stocked_broker "eu/orders?x=1" "g" 0 0 (mkBody (Ok []) Panic Panic)) as (_ & _ & _ & H & _).
  - apply (bool_decide_eq_true_1 _). vm_compute. reflexivity.
  - exact H.
Defined.

(** A fetch answers with at least one message, however large; the limit on what the
    gRPC server sends does not leave room for it, and its offset is committed. *)
Definition narrow_config : Config := set_MaxFetchBytes 16 DefaultConfig.
Example fetch_exceeds_send_limit :
  match server_Produce sample_pub 0 (sample_broker narrow_config) (mkProduceRequest "orders" [] [] 0 [mkProduceMessage [] (replicate 1100 x61) 1]) with
  | Ok (b, Ok _) =>
      match server_Consume 10 quiet_poll 0 b (mkConsumeRequest "orders" "billing" 1 0) with
      | Some (b', Ok [e]) =>
          MaxSendMsgSize (grpc_server_options narrow_config) < Z.of_nat (length (env_Value e)) /\ start_offset b' "billing" "orders" 1 = 2
      | _ => False
      end
  | _ => False
  end.
Proof. vm_compute. done. Qed.
End sample.
