(* ===== verification/Stubs.v ===== *)
(** * The remote interface (src/pkg/proto/queue_grpc.pb.go, src/pkg/transport/client.go)

    The client's stubs, the server's interface and handlers, and the description of
    the service that connects them.  What gRPC does between a stub and a handler is the
    parameter [GrpcRuntime]: it looks the method up by its full name, enforces the size
    limits, and runs the handler under the interceptor; what protobuf does is
    [Protobuf], an encoding that can be undone where it is defined.  A call of a stub is
    then the server's method of that name behind the admission control. *)

From Stdlib Require Import Strings.Byte.
From S2P Require Import Prelude Message PriorityIndex Wal Compression GoFloat Config Partition Topic OffsetStore LoadPredictor Metrics Balancer Scheduler.
From S2P Require Import RoundRobin Broker BrokerProps BatchProps Transport TransportProps Client ClientProps App Routes.

(** ** Messages *)

Record CommitRequest : Type := mkCommitRequest { cmr_Topic : string; cmr_Group : string; cmr_Partition : Z; cmr_Offset : Z }.
Record CreateTopicRequest : Type := mkCreateTopicRequest { ctr_Topic : string; ctr_NumPartitions : Z; ctr_ScheduleConfig : option TopicScheduleConfig }.
Record DeleteTopicRequest : Type := mkDeleteTopicRequest { dtr_Topic : string }.

(** A request or response; those without fields carry nothing. *)
Inductive rpc_msg : Type :=
| MProduceRequest (m : ProduceRequest)
| MProduceResponse (m : ProduceResponse)
| MConsumeRequest (m : ConsumeRequest)
| MConsumeResponse (m : list MessageEnvelope)
| MCommitRequest (m : CommitRequest)
| MCommitResponse (m : unit)
| MCreateTopicRequest (m : CreateTopicRequest)
| MCreateTopicResponse (m : unit)
| MDeleteTopicRequest (m : DeleteTopicRequest)
| MDeleteTopicResponse (m : unit)
| MListTopicsRequest (m : unit)
| MListTopicsResponse (m : list TopicInfo)
| MMetricsRequest (m : unit)
| MMetricsResponse (m : MetricsResponse).

(** A message type: how its values are messages, and the type assertion. *)
Record rpc_type (A : Type) : Type := mkType { wrap : A -> rpc_msg; unwrap : rpc_msg -> option A; unwrap_wrap : forall a, unwrap (wrap a) = Some a }.
Arguments mkType {A}.
Arguments wrap {A}.
Arguments unwrap {A}.
Arguments unwrap_wrap {A}.

Definition TProduceRequest : rpc_type ProduceRequest := mkType MProduceRequest (fun m => match m with MProduceRequest x => Some x | _ => None end) (fun _ => eq_refl).
Definition TProduceResponse : rpc_type ProduceResponse := mkType MProduceResponse (fun m => match m with MProduceResponse x => Some x | _ => None end) (fun _ => eq_refl).
Definition TConsumeRequest : rpc_type ConsumeRequest := mkType MConsumeRequest (fun m => match m with MConsumeRequest x => Some x | _ => None end) (fun _ => eq_refl).
Definition TConsumeResponse : rpc_type (list MessageEnvelope) := mkType MConsumeResponse (fun m => match m with MConsumeResponse x => Some x | _ => None end) (fun _ => eq_refl).
Definition TCommitRequest : rpc_type CommitRequest := mkType MCommitRequest (fun m => match m with MCommitRequest x => Some x | _ => None end) (fun _ => eq_refl).
Definition TCommitResponse : rpc_type unit := mkType MCommitResponse (fun m => match m with MCommitResponse x => Some x | _ => None end) (fun _ => eq_refl).
Definition TCreateTopicRequest : rpc_type CreateTopicRequest := mkType MCreateTopicRequest (fun m => match m with MCreateTopicRequest x => Some x | _ => None end) (fun _ => eq_refl).
Definition TCreateTopicResponse : rpc_type unit := mkType MCreateTopicResponse (fun m => match m with MCreateTopicResponse x => Some x | _ => None end) (fun _ => eq_refl).
Definition TDeleteTopicRequest : rpc_type DeleteTopicRequest := mkType MDeleteTopicRequest (fun m => match m with MDeleteTopicRequest x => Some x | _ => None end) (fun _ => eq_refl).
Definition TDeleteTopicResponse : rpc_type unit := mkType MDeleteTopicResponse (fun m => match m with MDeleteTopicResponse x => Some x | _ => None end) (fun _ => eq_refl).
Definition TListTopicsRequest : rpc_type unit := mkType MListTopicsRequest (fun m => match m with MListTopicsRequest x => Some x | _ => None end) (fun _ => eq_refl).
Definition TListTopicsResponse : rpc_type (list TopicInfo) := mkType MListTopicsResponse (fun m => match m with MListTopicsResponse x => Some x | _ => None end) (fun _ => eq_refl).
Definition TMetricsRequest : rpc_type unit := mkType MMetricsRequest (fun m => match m with MMetricsRequest x => Some x | _ => None end) (fun _ => eq_refl).
Definition TMetricsResponse : rpc_type MetricsResponse := mkType MMetricsResponse (fun m => match m with MMetricsResponse x => Some x | _ => None end) (fun _ => eq_refl).

(** Encoding, which fails on a string that is not UTF-8; decoding is into a message of
    the expected type. *)
Class Protobuf : Type := {
  pb_Marshal : rpc_msg -> option bytes;
  pb_Unmarshal : forall {A}, rpc_type A -> bytes -> result A;
}.
Class ProtobufLaws (P : Protobuf) : Prop := {
  pb_round_trip A (t : rpc_type A) (a : A) (out : bytes) : pb_Marshal (wrap t a) = Some out -> pb_Unmarshal t out = Ok a;
}.

(** ** The server's side *)

Section stubs.
Context {St : Type}.

(** The interface NyaQueueServer. *)
Record NyaQueueServer : Type := mkNyaQueueServer {
  srv_Produce : ProduceRequest -> St -> St * result ProduceResponse;
  srv_Consume : ConsumeRequest -> St -> St * result (list MessageEnvelope);
  srv_Commit : CommitRequest -> St -> St * result unit;
  srv_CreateTopic : CreateTopicRequest -> St -> St * result unit;
  srv_DeleteTopic : DeleteTopicRequest -> St -> St * result unit;
  srv_ListTopics : unit -> St -> St * result (list TopicInfo);
  srv_GetMetrics : unit -> St -> St * result MetricsResponse;
}.

Definition unimplemented {A B : Type} (msg : string) (_ : A) (st : St) : St * result B := (st, Err (ErrStatus codes_Unimplemented (Errorf msg))).
Definition UnimplementedNyaQueueServer : NyaQueueServer :=
  mkNyaQueueServer (unimplemented "method Produce not implemented") (unimplemented "method Consume not implemented") (unimplemented "method Commit not implemented")
    (unimplemented "method CreateTopic not implemented") (unimplemented "method DeleteTopic not implemented") (unimplemented "method ListTopics not implemented")
    (unimplemented "method GetMetrics not implemented").

(** An interceptor gets the request and the handler, which asserts its type. *)
Definition UnaryHandler : Type := rpc_msg -> St -> St * result rpc_msg.
Definition UnaryServerInterceptor : Type := rpc_msg -> UnaryHandler -> St -> St * result rpc_msg.

(** [dec]: decoding what the connection delivered. *)
Definition handler_type : Type := (forall A, rpc_type A -> result A) -> option UnaryServerInterceptor -> St -> St * result rpc_msg.

Definition unary_handler {A B : Type} (ta : rpc_type A) (tb : rpc_type B) (method : A -> St -> St * result B) : handler_type := fun dec interceptor st =>
  match dec A ta with
  | Ok in_ =>
      match interceptor with
      | None => let '(st, r) := method in_ st in (st, out ← r; Ok (wrap tb out))
      | Some ic =>
          let handler : UnaryHandler := fun req st =>
            match unwrap ta req with
            | Some in_ => let '(st, r) := method in_ st in (st, out ← r; Ok (wrap tb out))
            | None => (st, Panic)
            end in
          ic (wrap ta in_) handler st
      end
  | Err e => (st, Err e)
  | Panic => (st, Panic)
  end.

Definition Produce_Handler (srv : NyaQueueServer) : handler_type := unary_handler TProduceRequest TProduceResponse (srv_Produce srv).
Definition Consume_Handler (srv : NyaQueueServer) : handler_type := unary_handler TConsumeRequest TConsumeResponse (srv_Consume srv).
Definition Commit_Handler (srv : NyaQueueServer) : handler_type := unary_handler TCommitRequest TCommitResponse (srv_Commit srv).
Definition CreateTopic_Handler (srv : NyaQueueServer) : handler_type := unary_handler TCreateTopicRequest TCreateTopicResponse (srv_CreateTopic srv).
Definition DeleteTopic_Handler (srv : NyaQueueServer) : handler_type := unary_handler TDeleteTopicRequest TDeleteTopicResponse (srv_DeleteTopic srv).
Definition ListTopics_Handler (srv : NyaQueueServer) : handler_type := unary_handler TListTopicsRequest TListTopicsResponse (srv_ListTopics srv).
Definition GetMetrics_Handler (srv : NyaQueueServer) : handler_type := unary_handler TMetricsRequest TMetricsResponse (srv_GetMetrics srv).

(** The description of the service: its name and its methods. *)
Record ServiceDesc : Type := mkServiceDesc { sd_ServiceName : string; sd_Methods : list (string * handler_type) }.
Definition NyaQueue_ServiceDesc (srv : NyaQueueServer) : ServiceDesc :=
  mkServiceDesc "nyaqueue.NyaQueue"
    [("Produce", Produce_Handler srv); ("Consume", Consume_Handler srv); ("Commit", Commit_Handler srv); ("CreateTopic", CreateTopic_Handler srv);
     ("DeleteTopic", DeleteTopic_Handler srv); ("ListTopics", ListTopics_Handler srv); ("GetMetrics", GetMetrics_Handler srv)]%string.

(** A gRPC server: its options, its interceptor and what is registered with it. *)
Record GrpcServer : Type := mkGrpcServer { gs_options : grpc_options; gs_interceptor : option UnaryServerInterceptor; gs_services : list ServiceDesc }.
Definition RegisterNyaQueueServer (s : GrpcServer) (srv : NyaQueueServer) : GrpcServer :=
  mkGrpcServer (gs_options s) (gs_interceptor s) (gs_services s ++ [NyaQueue_ServiceDesc srv]).

(** ** The client's side *)

Definition NyaQueue_Produce_FullMethodName : string := "/nyaqueue.NyaQueue/Produce".
Definition NyaQueue_Consume_FullMethodName : string := "/nyaqueue.NyaQueue/Consume".
Definition NyaQueue_Commit_FullMethodName : string := "/nyaqueue.NyaQueue/Commit".
Definition NyaQueue_CreateTopic_FullMethodName : string := "/nyaqueue.NyaQueue/CreateTopic".
Definition NyaQueue_DeleteTopic_FullMethodName : string := "/nyaqueue.NyaQueue/DeleteTopic".
Definition NyaQueue_ListTopics_FullMethodName : string := "/nyaqueue.NyaQueue/ListTopics".
Definition NyaQueue_GetMetrics_FullMethodName : string := "/nyaqueue.NyaQueue/GetMetrics".

Context {P : Protobuf}.

Definition ErrMarshal : error := ErrStatus codes_Internal (Errorf "grpc: error while marshaling").

(** [invoke]: the connection, from the name of the method and the encoded request to
    the encoded response. *)
Definition Invoke {A B : Type} (invoke : string -> bytes -> St -> St * result bytes) (method : string) (ta : rpc_type A) (tb : rpc_type B)
    (in_ : A) (st : St) : St * result B :=
  match pb_Marshal (wrap ta in_) with
  | Some data => let '(st, r) := invoke method data st in (st, out ← r; pb_Unmarshal tb out)
  | None => (st, Err ErrMarshal)
  end.

Section client.
Context (cc : string -> bytes -> St -> St * result bytes).
Definition stub_Produce : ProduceRequest -> St -> St * result ProduceResponse := Invoke cc NyaQueue_Produce_FullMethodName TProduceRequest TProduceResponse.
Definition stub_Consume : ConsumeRequest -> St -> St * result (list MessageEnvelope) := Invoke cc NyaQueue_Consume_FullMethodName TConsumeRequest TConsumeResponse.
Definition stub_Commit : CommitRequest -> St -> St * result unit := Invoke cc NyaQueue_Commit_FullMethodName TCommitRequest TCommitResponse.
Definition stub_CreateTopic : CreateTopicRequest -> St -> St * result unit := Invoke cc NyaQueue_CreateTopic_FullMethodName TCreateTopicRequest TCreateTopicResponse.
Definition stub_DeleteTopic : DeleteTopicRequest -> St -> St * result unit := Invoke cc NyaQueue_DeleteTopic_FullMethodName TDeleteTopicRequest TDeleteTopicResponse.
Definition stub_ListTopics : unit -> St -> St * result (list TopicInfo) := Invoke cc NyaQueue_ListTopics_FullMethodName TListTopicsRequest TListTopicsResponse.
Definition stub_GetMetrics : unit -> St -> St * result MetricsResponse := Invoke cc NyaQueue_GetMetrics_FullMethodName TMetricsRequest TMetricsResponse.
End client.
End stubs.
Arguments NyaQueueServer : clear implicits.
Arguments GrpcServer : clear implicits.
Arguments ServiceDesc : clear implicits.
Arguments UnaryServerInterceptor : clear implicits.

(** ** The connection *)

Definition full_name {St} (sd : ServiceDesc St) (method : string) : string := ("/" +:+ sd_ServiceName sd +:+ "/" +:+ method)%string.
Definition full_names {St} (s : GrpcServer St) : list string := concat ((fun sd => (fun m => full_name sd m.1) <$> sd_Methods sd) <$> gs_services s).

(** What a client accepts and sends when it sets no limits of its own, as NewClient does
    not. *)
Definition defaultClientMaxReceiveMessageSize : Z := 4 * 2 ^ 20.
Definition defaultClientMaxSendMessageSize : Z := 2 ^ 31 - 1.
Definition request_limit (opts : grpc_options) : Z := Z.min defaultClientMaxSendMessageSize (MaxRecvMsgSize opts).
Definition response_limit (opts : grpc_options) : Z := Z.min defaultClientMaxReceiveMessageSize (MaxSendMsgSize opts).

(** The response on its way to the client; one that is too long is replaced by an
    error, after the handler ran. *)
Definition send_response {P : Protobuf} (opts : grpc_options) (m : rpc_msg) : result bytes :=
  match pb_Marshal m with
  | None => Err ErrMarshal
  | Some out =>
      if Z.of_nat (length out) <=? response_limit opts then Ok out
      else Err (ErrStatus codes_ResourceExhausted (Errorf "grpc: message larger than max"))
  end.

(** google.golang.org/grpc: serving a call.  A request that fits the limits runs the
    handler registered under its name, with the server's interceptor, and the
    handler's error reaches the client with its code; one that does not fit is refused
    before any handler runs. *)
Class GrpcRuntime {P : Protobuf} : Type := { grpc_call : forall St, GrpcServer St -> string -> bytes -> St -> St * result bytes }.
Class GrpcRuntimeLaws {P : Protobuf} (Rt : GrpcRuntime) {Gr : Grpc} (GL : GrpcLaws Gr) : Prop := {
  call_method St (s : GrpcServer St) sd name h b st :
    NoDup (full_names s) -> sd ∈ gs_services s -> (name, h) ∈ sd_Methods sd -> Z.of_nat (length b) <= request_limit (gs_options s) ->
    grpc_call St s (full_name sd name) b st =
      let '(st', r) := h (fun A t => pb_Unmarshal t b) (gs_interceptor s) st in (st', m ← transmitted r; send_response (gs_options s) m);
  call_too_large St (s : GrpcServer St) method b st :
    request_limit (gs_options s) < Z.of_nat (length b) ->
    exists e, grpc_call St s method b st = (st, Err e) /\ status_Code e = codes_ResourceExhausted;
}.

(** ** The broker's server *)

(** The interceptor of NewServer, on the semaphore beside the rest of the state. *)
Definition sem_interceptor {B : Type} : UnaryServerInterceptor (Semaphore * B) := fun req handler st =>
  match sem_enter st.1 with
  | None => (st, Err ErrServerOverloaded)
  | Some s => let '(st, r) := handler req (s, st.2) in ((sem_leave st.1, st.2), r)
  end.

(** The methods do not touch the semaphore. *)
Definition beside {A B C : Type} (f : A -> B -> B * result C) (a : A) (st : Semaphore * B) : (Semaphore * B) * result C := let '(b, r) := f a st.2 in ((st.1, b), r).
Definition beside_server {B : Type} (srv : NyaQueueServer B) : NyaQueueServer (Semaphore * B) :=
  mkNyaQueueServer (beside (srv_Produce srv)) (beside (srv_Consume srv)) (beside (srv_Commit srv)) (beside (srv_CreateTopic srv)) (beside (srv_DeleteTopic srv))
    (beside (srv_ListTopics srv)) (beside (srv_GetMetrics srv)).

(** NewServer and Start. *)
Definition NewServer {B : Type} (cfg : Config) : GrpcServer (Semaphore * B) := mkGrpcServer (grpc_server_options cfg) (Some sem_interceptor) [].
Definition started {B : Type} (cfg : Config) (srv : NyaQueueServer B) : GrpcServer (Semaphore * B) := RegisterNyaQueueServer (NewServer cfg) (beside_server srv).

Section calls.
Context {P : Protobuf} {PL : ProtobufLaws P} {Rt : GrpcRuntime} {Gr : Grpc} {GL : GrpcLaws Gr} {RL : GrpcRuntimeLaws Rt GL}.
Context {B : Type} (cfg : Config) (srv : NyaQueueServer B).

Definition connection : string -> bytes -> Semaphore * B -> (Semaphore * B) * result bytes := grpc_call _ (started cfg srv).

(** What the client gets of the method's result. *)
Definition delivered {C : Type} (tc : rpc_type C) (r : result C) : result C :=
  out ← transmitted r; _ ← send_response (grpc_server_options cfg) (wrap tc out); Ok out.

(** A stub refines a method: a request that can be encoded within the limits runs the
    method behind the semaphore and delivers its result; any other changes nothing. *)
Definition stub_refines {A C : Type} (ta : rpc_type A) (tc : rpc_type C) (stub : A -> Semaphore * B -> (Semaphore * B) * result C) (method : A -> B -> B * result C) : Prop :=
  forall req s st,
    match pb_Marshal (wrap ta req) with
    | None => stub req (s, st) = ((s, st), Err ErrMarshal)
    | Some data =>
        if Z.of_nat (length data) <=? request_limit (grpc_server_options cfg) then
          stub req (s, st) = let '(s', st', r) := semaphoreInterceptor s (method req) st in ((s', st'), delivered tc r)
        else exists e, stub req (s, st) = ((s, st), Err e) /\ status_Code e = codes_ResourceExhausted
    end.

Lemma started_names : NoDup (full_names (started cfg srv)).
Proof. apply (bool_decide_eq_true_1 _). vm_compute. reflexivity. Qed.

(** A response that was sent is decoded to what the method returned. *)
Lemma delivered_decoded {C : Type} (tc : rpc_type C) (r : result C) :
  (bs ← (m ← transmitted (out ← r; Ok (wrap tc out)); send_response (grpc_server_options cfg) m); pb_Unmarshal tc bs) = delivered tc r.
Proof.
  unfold delivered. destruct r as [out|e|]; [|done..]. rewrite !Ok_bind. cbn [transmitted]. rewrite !Ok_bind. unfold send_response.
  destruct (pb_Marshal (wrap tc out)) as [data|] eqn:Hm; [|done]. case_match; [|done]. rewrite !Ok_bind. by apply pb_round_trip.
Qed.

Lemma handler_refines {A C : Type} (ta : rpc_type A) (tc : rpc_type C) (name : string) (method : A -> B -> B * result C) :
  (name, unary_handler ta tc (beside method)) ∈ sd_Methods (NyaQueue_ServiceDesc (beside_server srv)) ->
  stub_refines ta tc (Invoke connection (full_name (NyaQueue_ServiceDesc (beside_server srv)) name) ta tc) method.
Proof.
  intros Hin req s st. unfold Invoke, connection. destruct (pb_Marshal (wrap ta req)) as [data|] eqn:Hd; [|done]. case_match eqn:Hsz.
  - apply Z.leb_le in Hsz.
    rewrite (call_method _ (started cfg srv) (NyaQueue_ServiceDesc (beside_server srv)) name (unary_handler ta tc (beside method)) data (s, st) started_names);
      [|by left|exact Hin|exact Hsz].
    unfold unary_handler. rewrite (pb_round_trip _ _ _ _ Hd). cbn [gs_interceptor started RegisterNyaQueueServer NewServer]. unfold sem_interceptor, semaphoreInterceptor.
    cbn [fst snd]. destruct (sem_enter s) as [s'|]; [|done]. rewrite unwrap_wrap. unfold beside. cbn [fst snd]. destruct (method req st) as [st' r]. cbn [fst snd].
    f_equal. apply delivered_decoded.
  - apply Z.leb_gt in Hsz.
    destruct (call_too_large _ (started cfg srv) (full_name (NyaQueue_ServiceDesc (beside_server srv)) name) data (s, st) Hsz) as (e & -> & He).
    by exists e.
Qed.

(** A request within the limits, with a slot free and without one. *)
Lemma refined_call {A C : Type} {ta : rpc_type A} {tc : rpc_type C} {stub method} req data s st :
  stub_refines ta tc stub method -> pb_Marshal (wrap ta req) = Some data -> (Z.of_nat (length data) <=? request_limit (grpc_server_options cfg)) = true ->
  stub req (s, st) = match sem_enter s with
                     | Some s' => let '(st', r) := method req st in ((sem_leave s', st'), delivered tc r)
                     | None => ((s, st), Err (transmit ErrServerOverloaded))
                     end.
Proof.
  intros H Hd Hsz. specialize (H req s st). rewrite Hd, Hsz in H. rewrite H. unfold semaphoreInterceptor.
  destruct (sem_enter s); [|done]. by destruct (method req st).
Qed.

Lemma create_refines : stub_refines TCreateTopicRequest TCreateTopicResponse (stub_CreateTopic connection) (srv_CreateTopic srv).
Proof. apply (handler_refines TCreateTopicRequest TCreateTopicResponse "CreateTopic"). repeat (first [by left|right]). Qed.
Lemma delete_refines : stub_refines TDeleteTopicRequest TDeleteTopicResponse (stub_DeleteTopic connection) (srv_DeleteTopic srv).
Proof. apply (handler_refines TDeleteTopicRequest TDeleteTopicResponse "DeleteTopic"). repeat (first [by left|right]). Qed.

(** C23: Every stub is the server's method of the same name behind the admission
    control: with a free slot and messages within the limits it does what the method
    does and returns its result, errors as status errors with their codes; without a
    slot it is refused, and a request over the limit runs nothing. *)
Theorem stubs_refine_server :
  stub_refines TProduceRequest TProduceResponse (stub_Produce connection) (srv_Produce srv) /\
  stub_refines TConsumeRequest TConsumeResponse (stub_Consume connection) (srv_Consume srv) /\
  stub_refines TCommitRequest TCommitResponse (stub_Commit connection) (srv_Commit srv) /\
  stub_refines TCreateTopicRequest TCreateTopicResponse (stub_CreateTopic connection) (srv_CreateTopic srv) /\
  stub_refines TDeleteTopicRequest TDeleteTopicResponse (stub_DeleteTopic connection) (srv_DeleteTopic srv) /\
  stub_refines TListTopicsRequest TListTopicsResponse (stub_ListTopics connection) (srv_ListTopics srv) /\
  stub_refines TMetricsRequest TMetricsResponse (stub_GetMetrics connection) (srv_GetMetrics srv).
Proof.
  split_and!.
  - apply (handler_refines TProduceRequest TProduceResponse "Produce"). repeat (first [by left|right]).
  - apply (handler_refines TConsumeRequest TConsumeResponse "Consume"). repeat (first [by left|right]).
  - apply (handler_refines TCommitRequest TCommitResponse "Commit"). repeat (first [by left|right]).
  - exact create_refines.
  - exact delete_refines.
  - apply (handler_refines TListTopicsRequest TListTopicsResponse "ListTopics"). repeat (first [by left|right]).
  - apply (handler_refines TMetricsRequest TMetricsResponse "GetMetrics"). repeat (first [by left|right]).
Qed.
End calls.

(** ** The methods of Server *)

Section broker_server.
Context {W : Wal} {K : Compressors} {F : Filepath} {D : Badger} {G : Gonum} {V : Govy} {R : MapRange} {E : BrokerEnv}.
Context {Bal : Type} {Bl : Balancer Bal} {Sch : Type} {Sc : Scheduler Sch}.

(** [consume]: [server_Consume] on its clock, which returns. *)
Definition broker_server (env : PubEnv) (now : Z) (at_commit : Time)
    (consume : ConsumeRequest -> Broker (Bal := Bal) (Sch := Sch) -> Broker (Bal := Bal) (Sch := Sch) * result (list MessageEnvelope)) :
    NyaQueueServer (Broker (Bal := Bal) (Sch := Sch)) :=
  mkNyaQueueServer
    (fun req b => match server_Produce env now b req with Ok br => br | Err e => (b, Err e) | Panic => (b, Panic) end)
    consume
    (fun req b => server_Commit at_commit b (cmr_Topic req) (cmr_Group req) (cmr_Partition req) (cmr_Offset req))
    (fun req b => server_CreateTopic b (ctr_Topic req) (ctr_NumPartitions req) (ctr_ScheduleConfig req))
    (fun req b => server_DeleteTopic b (dtr_Topic req))
    (fun _ b => (b, Ok (server_ListTopics b)))
    (fun _ b => (b, Ok (server_GetMetrics b))).

Lemma sem_enter_leave s s' : sem_enter s = Some s' -> sem_leave s' = s.
Proof.
  unfold sem_enter, sem_leave. destruct s as [[cap|] taken]; cbn; [|by intros [= <-]]. case_match; intros [= <-]. cbn. do 2 f_equal. lia.
Qed.

(** The client's calls on topics over the connection are the remote calls the
    transparency theorem is about: one slot is taken and given back. *)
Section remote.
Context {P : Protobuf} {PL : ProtobufLaws P} {Rt : GrpcRuntime} {Gr : Grpc} {GL : GrpcLaws Gr} {RL : GrpcRuntimeLaws Rt GL}.
Context (cfg : Config) (env : PubEnv) (now : Z) (at_commit : Time).
Context (consume : ConsumeRequest -> Broker (Bal := Bal) (Sch := Sch) -> Broker (Bal := Bal) (Sch := Sch) * result (list MessageEnvelope)).
Let srv := broker_server env now at_commit consume.

(** The request and the response pass. *)
Definition passes {A C} (ta : rpc_type A) (tc : rpc_type C) (req : A) (resp : C) : Prop :=
  (exists data, pb_Marshal (wrap ta req) = Some data /\ Z.of_nat (length data) <= request_limit (grpc_server_options cfg)) /\
  is_ok (send_response (grpc_server_options cfg) (wrap tc resp)) = true.

Lemma passed_call {A C : Type} {ta : rpc_type A} {tc : rpc_type C} {St : Type} {stub} {method : A -> St -> St * result C} req s s' (b : St) :
  stub_refines cfg ta tc stub method -> sem_enter s = Some s' ->
  (forall resp, (method req b).2 = Ok resp -> passes ta tc req resp) -> (exists resp, passes ta tc req resp) ->
  stub req (s, b) = let '(b', r) := method req b in ((s, b'), transmitted r).
Proof.
  intros Hst Hs Hr (resp & (data & Hd & Hsz%Z.leb_le) & _). rewrite (refined_call cfg req data s b Hst Hd Hsz), Hs, (sem_enter_leave _ _ Hs).
  destruct (method req b) as [b' [out|e|]]; [|done..]. destruct (Hr out eq_refl) as [_ Hp]. unfold delivered. cbn [transmitted]. rewrite Ok_bind.
  destruct (send_response _ _) as [bs|e|]; [|done..]. by rewrite Ok_bind.
Qed.

Lemma remote_topic_calls b s s' (topic : string) (n mode : Z) :
  sem_enter s = Some s' ->
  (passes TCreateTopicRequest TCreateTopicResponse (mkCreateTopicRequest topic n (Some (mkScheduleConfig mode 0 0 0%float))) tt ->
   client_CreateTopic (fun topic n sc => stub_CreateTopic (connection cfg srv) (mkCreateTopicRequest topic n sc)) topic n mode (s, b) =
     let '(b', r) := remote_CreateTopic b topic n mode in ((s, b'), r)) /\
  (passes TDeleteTopicRequest TDeleteTopicResponse (mkDeleteTopicRequest topic) tt ->
   client_DeleteTopic (fun topic => stub_DeleteTopic (connection cfg srv) (mkDeleteTopicRequest topic)) topic (s, b) =
     let '(b', r) := remote_DeleteTopic b topic in ((s, b'), r)).
Proof.
  intros Hs. split; intros Hp; unfold client_CreateTopic, client_DeleteTopic, remote_CreateTopic, remote_DeleteTopic.
  - rewrite (passed_call _ s s' b (create_refines cfg srv) Hs); [|by intros [] _|by exists tt].
    cbn [srv broker_server srv_CreateTopic ctr_Topic ctr_NumPartitions ctr_ScheduleConfig]. unfold client_CreateTopic. by destruct (server_CreateTopic _ _ _ _).
  - rewrite (passed_call _ s s' b (delete_refines cfg srv) Hs); [|by intros [] _|by exists tt].
    cbn [srv broker_server srv_DeleteTopic dtr_Topic]. unfold client_DeleteTopic. by destruct (server_DeleteTopic _ _).
Qed.
End remote.
End broker_server.

(** ** A runtime *)

(** The two messages of DeleteTopic, behind a tag; nothing else is encoded. *)
Definition tagged_encode (m : rpc_msg) : option bytes :=
  match m with
  | MDeleteTopicRequest d => Some (x09 :: String.list_byte_of_string (dtr_Topic d))
  | MDeleteTopicResponse tt => Some [x0a]
  | _ => None
  end.
Definition tagged_decode (b : bytes) : option rpc_msg :=
  match b with
  | x09 :: name => Some (MDeleteTopicRequest (mkDeleteTopicRequest (String.string_of_list_byte name)))
  | [x0a] => Some (MDeleteTopicResponse tt)
  | _ => None
  end.
Definition tagged_protobuf : Protobuf :=
  {| pb_Marshal := tagged_encode;
     pb_Unmarshal := fun A t b => match tagged_decode b ≫= unwrap t with Some a => Ok a | None => Err (Errorf "proto: cannot parse") end |}.

Lemma tagged_round_trip m b : tagged_encode m = Some b -> tagged_decode b = Some m.
Proof.
  destruct m as [| | | | | | | |[name]|[]| | | |]; try done; intros [= <-]; [|done].
  exact (f_equal (fun n => Some (MDeleteTopicRequest (mkDeleteTopicRequest n))) (String.string_of_list_byte_of_string name)).
Qed.
#[export] Instance tagged_protobuf_laws : ProtobufLaws tagged_protobuf.
Proof. split. intros A t a out Hm. cbn. rewrite (tagged_round_trip _ _ Hm). cbn. by rewrite unwrap_wrap. Qed.

Definition registered {St} (s : GrpcServer St) : list (string * handler_type (St := St)) :=
  concat ((fun sd => (fun m => (full_name sd m.1, m.2)) <$> sd_Methods sd) <$> gs_services s).

Section table.
Local Existing Instance tagged_protobuf.
Local Existing Instance status_grpc.
Local Existing Instance status_grpc_laws.

Definition table_call (St : Type) (s : GrpcServer St) (method : string) (b : bytes) (st : St) : St * result bytes :=
  if Z.of_nat (length b) <=? request_limit (gs_options s) then
    match (list_to_map (registered s) : gmap string _) !! method with
    | Some h => let '(st', r) := h (fun A t => pb_Unmarshal t b) (gs_interceptor s) st in (st', m ← transmitted r; send_response (gs_options s) m)
    | None => (st, Err (ErrStatus codes_Unimplemented (Errorf "unknown method")))
    end
  else (st, Err (ErrStatus codes_ResourceExhausted (Errorf "grpc: received message larger than max"))).
Definition table_runtime : GrpcRuntime := {| grpc_call := table_call |}.

Lemma registered_names {St} (s : GrpcServer St) : (registered s).*1 = full_names s.
Proof.
  unfold registered, full_names. induction (gs_services s) as [|sd sds IH]; [done|]. cbn. rewrite fmap_app. f_equal; [|exact IH].
  by rewrite <- list_fmap_compose.
Qed.
Lemma elem_registered {St} (s : GrpcServer St) sd name h : sd ∈ gs_services s -> (name, h) ∈ sd_Methods sd -> (full_name sd name, h) ∈ registered s.
Proof.
  intros Hsd Hm. apply list_elem_of_In, in_concat. eexists. split; [apply list_elem_of_In, list_elem_of_fmap_2, Hsd|].
  apply list_elem_of_In. change (full_name sd name, h) with ((fun m => (full_name sd m.1, m.2)) (name, h)). by apply list_elem_of_fmap_2.
Qed.
#[local] Instance table_runtime_laws : GrpcRuntimeLaws table_runtime status_grpc_laws.
Proof.
  split.
  - intros St s sd name h b st Hnd Hsd Hm Hsz. cbn. unfold table_call. rewrite (proj2 (Z.leb_le _ _) Hsz).
    rewrite <- registered_names in Hnd. by rewrite (elem_of_list_to_map_1 _ _ _ Hnd (elem_registered _ _ _ _ Hsd Hm)).
  - intros St s method b st Hsz. cbn [grpc_call table_runtime]. unfold table_call. rewrite (proj2 (Z.leb_gt _ _) Hsz). by eexists.
Qed.

Local Existing Instance join_path.
Local Existing Instance plain_stats.
Local Existing Instance forwards.
Local Existing Instance mem_badger.
Local Existing Instance plain_env.

Definition sample_server : NyaQueueServer (Broker (Bal := RoundRobin) (Sch := FIFO)) :=
  broker_server sample_pub 0 0 (fun req b => default (b, Panic) (server_Consume 10 quiet_poll 0 b req)).

(** A topic deleted over the connection, and the same call with every slot taken. *)
Lemma stubs_refine_server_witness :
  (let '(b, r) := server_DeleteTopic stocked_broker "orders" in r = Ok tt /\
   stub_DeleteTopic (connection (Rt := table_runtime) DefaultConfig sample_server) (mkDeleteTopicRequest "orders") (mkSem (Some 1) 0, stocked_broker) =
     ((mkSem (Some 1) 0, b), Ok tt)) /\
  stub_DeleteTopic (connection (Rt := table_runtime) DefaultConfig sample_server) (mkDeleteTopicRequest "orders") (mkSem (Some 1) 1, stocked_broker) =
    ((mkSem (Some 1) 1, stocked_broker), Err (transmit ErrServerOverloaded)).
Proof.
  destruct (stubs_refine_server (Rt := table_runtime) DefaultConfig sample_server) as (_ & _ & _ & _ & H & _).
  assert (Hsz : (7 <=? request_limit (grpc_server_options DefaultConfig)) = true) by (vm_compute; reflexivity).
  assert (Hr : snd (server_DeleteTopic stocked_broker "orders") = Ok tt) by (vm_compute; reflexivity).
  assert (Hd : delivered DefaultConfig TDeleteTopicResponse (Ok tt) = Ok tt) by (vm_compute; reflexivity).
  pose proof (fun s b => refined_call DefaultConfig (mkDeleteTopicRequest "orders") _ s b H eq_refl Hsz) as Hc. clear H. split; [|exact (Hc (mkSem (Some 1) 1) stocked_broker)].
  assert (Hf : forall b, stub_DeleteTopic (connection (Rt := table_runtime) DefaultConfig sample_server) (mkDeleteTopicRequest "orders") (mkSem (Some 1) 0, b) =
    let '(b', r) := server_DeleteTopic b "orders" in ((mkSem (Some 1) 0, b'), delivered DefaultConfig TDeleteTopicResponse r)) by exact (Hc (mkSem (Some 1) 0)).
  rewrite Hf. clear Hc Hf. destruct (server_DeleteTopic stocked_broker "orders") as [b r]. cbn [snd] in Hr. subst r. by rewrite Hd.
Defined.
End table.
