(* ===== verification/Scenarios.v ===== *)
(** * The benchmark scenarios (src/benchmarks/scenarios.go)

    The load patterns of the experiments, and drawing a message's priority from a
    scenario's distribution.  The random numbers are arguments. *)

From S2P Require Import Prelude PriorityIndex GoFloat Config.

Record Scenario : Type := mkScenario {
  sc_Name : string;
  sc_Duration : Z;
  sc_NumPartitions : Z;
  sc_Producers : Z;
  sc_Consumers : Z;
  sc_MsgSize : Z;
  sc_RatePerSec : Z;
  sc_BurstEvery : Z;
  sc_BurstFactor : Z;
  sc_SkewRatio : float;
  sc_Priorities : list float;
  sc_Seed : Z;
  sc_BatchBytes : Z;
  sc_LingerMs : Z;
}.

Definition uniformPriorities : list float := replicate 10 0x1.999999999999ap-4%float.    (* 0.1 *)

(** 0.30, 0.25, 0.15, 0.10, 0.08, 0.05, 0.03, 0.02, 0.01, 0.01 *)
Definition skewedPriorities : list float :=
  [0x1.3333333333333p-2; 0.25; 0x1.3333333333333p-3; 0x1.999999999999ap-4; 0x1.47ae147ae147bp-4; 0x1.999999999999ap-5; 0x1.eb851eb851eb8p-6;
   0x1.47ae147ae147bp-6; 0x1.47ae147ae147bp-7; 0x1.47ae147ae147bp-7]%float.

Definition Uniform : Scenario :=
  mkScenario "uniform" (30 * time_Second) 0 4 4 256 1200 0 0 0 uniformPriorities 42 0 1.
Definition Skewed : Scenario :=
  mkScenario "skewed" (30 * time_Second) 0 4 4 256 1200 0 0 0x1.999999999999ap-1 uniformPriorities 42 0 1.    (* 0.8 *)
Definition Bursty : Scenario :=
  mkScenario "bursty" (60 * time_Second) 0 4 4 256 1200 (10 * time_Second) 5 0 uniformPriorities 42 0 1.
Definition GrowingLoad : Scenario :=
  mkScenario "growing" (60 * time_Second) 0 4 4 256 600 0 0 0 uniformPriorities 42 0 1.
Definition MixedPriority : Scenario :=
  mkScenario "mixed_priority" (30 * time_Second) 0 4 4 256 1200 0 0 0 skewedPriorities 42 0 1.
Definition Overload : Scenario :=
  mkScenario "overload" (30 * time_Second) 0 4 4 256 0 0 0 0 skewedPriorities 42 0 0.
Definition SkewedK16 : Scenario :=
  mkScenario "skewed_k16" (30 * time_Second) 16 16 16 256 4800 0 0 0x1.999999999999ap-1 uniformPriorities 42 0 1.
Definition OverloadK16 : Scenario :=
  mkScenario "overload_k16" (30 * time_Second) 16 16 16 256 0 0 0 0 skewedPriorities 42 0 0.

Definition AllScenarios : list Scenario :=
  [Uniform; Skewed; Bursty; GrowingLoad; MixedPriority; Overload; SkewedK16; OverloadK16].

Definition zeroScenario : Scenario := mkScenario "" 0 0 0 0 0 0 0 0 0 (replicate 10 0%float) 0 0 0.

Fixpoint FindByName (ss : list Scenario) (name : string) : bool * Scenario :=
  match ss with
  | [] => (false, zeroScenario)
  | s :: ss => if decide (sc_Name s = name) then (true, s) else FindByName ss name
  end.

(** The loop of both samplers: the first level whose cumulative probability
    reaches [r], 0 when none does. *)
Fixpoint sample_loop (r cumulative : float) (i : Z) (ps : list float) : Z :=
  match ps with
  | [] => 0
  | p :: ps =>
      let cumulative := (cumulative + p)%float in
      if (r <=? cumulative)%float then i else sample_loop r cumulative (i + 1) ps
  end.

(** [n]: what crypto/rand's Int returns, below a million. *)
Definition SamplePriority (n : Z) (s : Scenario) : Z := sample_loop (of_int n / 1000000) 0 0 (sc_Priorities s).
(** [r]: the generator's Float64. *)
Definition SamplePrioritySeeded (r : float) (s : Scenario) : Z := sample_loop r 0 0 (sc_Priorities s).

(** [body]: what crypto/rand's Read fills the buffer with. *)
Definition GenerateMessage (body : bytes) (size : nat) : bytes := take size (body ++ replicate size Byte.x00).

(** ** What is drawn *)

(** The cumulative probabilities, as the loop adds them up. *)
Fixpoint cumulatives (c : float) (ps : list float) : list float :=
  match ps with [] => [] | p :: ps => (c + p)%float :: cumulatives (c + p) ps end.

Lemma sample_loop_spec r c i ps :
  (exists k x, cumulatives c ps !! k = Some x /\ (r <=? x)%float = true /\ sample_loop r c i ps = i + Z.of_nat k /\
     forall j y, (j < k)%nat -> cumulatives c ps !! j = Some y -> (r <=? y)%float = false) \/
  ((forall j y, cumulatives c ps !! j = Some y -> (r <=? y)%float = false) /\ sample_loop r c i ps = 0).
Proof.
  revert c i. induction ps as [|p ps IH]; intros c i; cbn [sample_loop cumulatives]; [by right|].
  destruct (r <=? c + p)%float eqn:Hr.
  - left. exists 0%nat, (c + p)%float. split; [done|]. split; [done|]. split; [lia|]. lia.
  - destruct (IH (c + p)%float (i + 1)) as [(k & x & Hk & Hx & -> & Hlt)|[Hno ->]].
    + left. exists (S k), x. split; [done|]. split; [done|]. split; [lia|]. intros [|j] y Hj Hy; [by injection Hy as <-|].
      apply (Hlt j y); [lia|done].
    + right. split; [|done]. intros [|j] y Hy; [by injection Hy as <-|]. by apply (Hno j y).
Qed.

Lemma cumulatives_length c ps : length (cumulatives c ps) = length ps.
Proof. revert c. induction ps as [|p ps IH]; intros c; cbn; [done|]. by rewrite IH. Qed.

Lemma sample_level r s : length (sc_Priorities s) = 10%nat -> 0 <= SamplePrioritySeeded r s < 10.
Proof.
  intros Hl. unfold SamplePrioritySeeded. destruct (sample_loop_spec r 0 0 (sc_Priorities s)) as [(k & x & Hk & _ & -> & _)|[_ ->]]; [|lia].
  apply lookup_lt_Some in Hk. rewrite cumulatives_length in Hk. lia.
Qed.

(** Names are unique, so that every scenario is found by its name. *)
Lemma FindByName_all : Forall (fun s => FindByName AllScenarios (sc_Name s) = (true, s)) AllScenarios.
Proof. repeat (apply List.Forall_cons; [vm_compute; reflexivity|]). apply List.Forall_nil. Qed.

(** The rounded sums still cover every value of Float64(), at most 1 - 2^-53: the
    last cumulative probability is not below that in any scenario, so the level 0
    that the loop falls back to is never returned for want of another. *)
Lemma draws_covered : Forall (fun s => exists x, cumulatives 0 (sc_Priorities s) !! 9%nat = Some x /\ (0x1.fffffffffffffp-1 <=? x)%float = true) AllScenarios.
Proof. repeat (apply List.Forall_cons; [eexists; split; vm_compute; reflexivity|]). apply List.Forall_nil. Qed.
