(* ===== verification/Harness.v ===== *)
(** * The experiments' harness (src/experiments/harness.go, src/internal/kafkadriver/driver.go)

    The harness gives an experiment one set of calls for four systems: the broker
    in the same process, the broker behind gRPC, behind HTTP, and Kafka.  Its
    methods run in a small state and error monad over the harness's own fields and
    the state of the systems, whose calls are the interface [Target]; Kafka's
    client library is [Kafka].  Readings of the clock are arguments. *)

From Stdlib Require Import Strings.Byte.
From S2P Require Import Prelude Message PriorityIndex Wal Compression GoFloat Config Partition Topic LoadPredictor Metrics Balancer Scheduler Broker.
From S2P Require Import Transport Client.

(** ** State and errors *)

Definition M (S A : Type) : Type := S -> S * result A.
Definition mret {S A} (a : A) : M S A := fun s => (s, Ok a).
Definition mfail {S A} (e : error) : M S A := fun s => (s, Err e).
Definition mthen {S A B} (m : M S A) (k : A -> M S B) : M S B := fun s =>
  match m s with
  | (s, Ok a) => k a s
  | (s, Err e) => (s, Err e)
  | (s, Panic) => (s, Panic)
  end.
(** The result as a value: what [x, err := m] binds. *)
Definition mtry {S A} (m : M S A) : M S (result A) := fun s => let '(s, r) := m s in (s, match r with Panic => Panic | _ => Ok r end).
Definition mwrap {S A} (fmt : string) (m : M S A) : M S A := fun s => let '(s, r) := m s in (s, wrapf fmt r).
Definition mlift {S A} (r : result A) : M S A := fun s => (s, r).

Declare Scope harness_scope.
Delimit Scope harness_scope with harness.
Notation "'let!' x := m 'in' k" := (mthen m (fun x => k)) (at level 10, x name, k at level 200) : harness_scope.
Notation "'do!' m 'in' k" := (mthen m (fun _ => k)) (at level 10, k at level 200) : harness_scope.
Open Scope harness_scope.

(** ** Kafka *)

(** The calls of github.com/segmentio/kafka-go, on the state [St] of the cluster.
    A connection is named by its address. *)
Class Kafka (St : Type) : Type := {
  kwriter : Type;
  kreader : Type;
  kafka_Dial : string -> M St unit;
  kafka_Controller : string -> M St string;             (* joined host and port *)
  kafka_CreateTopics : string -> string -> Z -> M St unit;
  kafka_DeleteTopics : string -> string -> M St unit;
  kafka_UnknownTopic : error -> bool;                   (* errors.As and == kafka.UnknownTopicOrPartition *)
  kafka_NewWriter : list string -> string -> kwriter;
  kafka_WriteMessages : kwriter -> list (bytes * bytes) -> M St unit;
  kafka_CloseWriter : kwriter -> St -> St;
  kafka_NewReader : list string -> string -> Z -> Z -> kreader;
  kafka_ReadMessage : kreader -> M St (bytes * bytes * Z);
  kafka_CloseReader : kreader -> St -> St;
}.

Definition ErrKafkaTopicNotFound : error := Errorf "kafka: topic not found".

Record readerKey : Type := mkReaderKey { rk_topic : string; rk_group : string; rk_partition : Z }.
#[export] Instance readerKey_eq_dec : EqDecision readerKey.
Proof. solve_decision. Defined.
#[export] Instance readerKey_countable : Countable readerKey.
Proof.
  refine (inj_countable' (fun k => (rk_topic k, rk_group k, rk_partition k)) (fun '(t, g, p) => mkReaderKey t g p) _). by intros [].
Defined.

Record KafkaMessage : Type := mkKafkaMessage { km_Key : bytes; km_Value : bytes; km_Offset : Z; km_Priority : Z }.

Section kafkadriver.
Context {St : Type} {Kf : Kafka St}.

Record KafkaHarness : Type := mkKafka {
  kh_brokers : list string;
  kh_writers : gmap string kwriter;
  kh_readers : gmap readerKey kreader;
}.
Definition kafka_New (brokers : list string) : KafkaHarness := mkKafka brokers ∅ ∅.

(** The methods act on the driver's maps and the cluster. *)
Definition KM (A : Type) : Type := M (KafkaHarness * St) A.
Definition on_cluster {A} (m : M St A) : KM A := fun '(h, st) => let '(st, r) := m st in ((h, st), r).
Definition get_driver : KM KafkaHarness := fun s => (s, Ok s.1).
Definition put_driver (h : KafkaHarness) : KM unit := fun s => ((h, s.2), Ok tt).

(** Connecting to the first broker and then to the controller. *)
Definition dial_controller : KM string :=
  let! h := get_driver in
  let! addr := mlift (index (kh_brokers h) 0) in
  do! mwrap "dial" (on_cluster (kafka_Dial addr)) in
  let! c := mwrap "controller" (on_cluster (kafka_Controller addr)) in
  do! mwrap "dial controller" (on_cluster (kafka_Dial c)) in
  mret c.

Definition kafka_CreateTopic (name : string) (partitions : Z) : KM unit :=
  let! c := dial_controller in on_cluster (kafka_CreateTopics c name partitions).

(** The writer and the readers of a topic, closed and forgotten. *)
Definition forget_topic (name : string) : KM unit := fun '(h, st) =>
  let st := match kh_writers h !! name with Some w => kafka_CloseWriter w st | None => st end in
  let gone := filter (fun kr => rk_topic kr.1 = name) (kh_readers h) in
  let st := map_fold (fun _ r st => kafka_CloseReader r st) st gone in
  ((mkKafka (kh_brokers h) (delete name (kh_writers h)) (kh_readers h ∖ gone), st), Ok tt).

Definition kafka_DeleteTopic (name : string) : KM unit :=
  let! c := dial_controller in
  let! r := mtry (on_cluster (kafka_DeleteTopics c name)) in
  match r with
  | Ok _ => forget_topic name
  | Err e => if kafka_UnknownTopic e then mfail ErrKafkaTopicNotFound else mfail (Wrapf e "delete kafka topic %q")
  | Panic => mlift Panic
  end.

Definition writerFor (topic : string) : KM kwriter :=
  let! h := get_driver in
  match kh_writers h !! topic with
  | Some w => mret w
  | None =>
      let w := kafka_NewWriter (kh_brokers h) topic in
      do! put_driver (mkKafka (kh_brokers h) (<[topic := w]> (kh_writers h)) (kh_readers h)) in mret w
  end.

Definition readerFor (topic group : string) (partition maxBytes : Z) : KM kreader :=
  let! h := get_driver in
  let rk := mkReaderKey topic group partition in
  match kh_readers h !! rk with
  | Some r => mret r
  | None =>
      let r := kafka_NewReader (kh_brokers h) topic partition maxBytes in
      do! put_driver (mkKafka (kh_brokers h) (kh_writers h) (<[rk := r]> (kh_readers h))) in mret r
  end.

Definition kafka_ProduceBatch (topic : string) (msgs : list (bytes * bytes)) : KM unit :=
  let! w := writerFor topic in on_cluster (kafka_WriteMessages w msgs).
Definition kafka_Produce (topic : string) (key value : bytes) : KM unit := kafka_ProduceBatch topic [(key, value)].

Definition kafka_Consume (topic group : string) (partition maxBytes : Z) : KM (list KafkaMessage) :=
  let! r := readerFor topic group partition maxBytes in
  let! m := mwrap "kafka read topic=%q part=%d" (on_cluster (kafka_ReadMessage r)) in
  let '(key, value, offset) := m in
  mret [mkKafkaMessage key value offset 0].

Definition kafka_Close : KM unit := fun '(h, st) =>
  let st := map_fold (fun _ w st => kafka_CloseWriter w st) st (kh_writers h) in
  let st := map_fold (fun _ r st => kafka_CloseReader r st) st (kh_readers h) in
  ((h, st), Ok tt).
End kafkadriver.

(** ** The systems under test *)

(** Which server the local application runs. *)
Inductive app_kind : Type := PlainApp | GrpcApp | HttpApp.

(** The calls the harness makes, on the state [St] of the systems: the
    application in the same process and its broker, the connection of the gRPC
    client, the HTTP client's exchanges. *)
Class Target (St : Type) : Type := {
  tg_New : app_kind -> string -> Z -> M St unit;         (* app.New, with the algorithm's balancer for that many partitions *)
  tg_Start : M St unit;
  tg_Stop : St -> St;
  tg_Addr : St -> string;
  tg_HTTPAddr : St -> string;
  brk_CreateTopic : string -> TopicConfig -> M St unit;
  brk_DeleteTopic : string -> M St unit;
  brk_SetScheduler : string -> string -> St -> St;       (* a topic's scheduler: a new one of the algorithm *)
  brk_Publish : string -> Message -> M St (Z * Z);
  brk_PublishBatch : string -> list Message -> M St (list PublishResult);
  brk_ConsumeBatch : string -> string -> Z -> Z -> M St (list Message * Z);
  brk_Metrics : St -> Metrics;
  tg_Dial : string -> M St unit;                         (* transport.NewClient *)
  tg_CloseGRPC : St -> St;
  tg_cancelled : nat -> option error;                    (* the context, while a call is retried *)
  rpc_Produce : ProduceRequest -> M St ProduceResponse;
  rpc_Consume : ConsumeRequest -> M St (list MessageEnvelope);
  rpc_CreateTopic : string -> Z -> option TopicScheduleConfig -> M St unit;
  rpc_DeleteTopic : string -> M St unit;
  rpc_ListTopics : M St (list TopicInfo);
  rpc_GetMetrics : M St MetricsResponse;
  do_Produce : string -> list HTTPProduceRecord -> M St (HTTPReply (list HTTPProduceResult));
  do_Consume : ConsumeURL -> M St (HTTPReply (list HTTPMessageEnvelope));
  do_CreateTopic : HTTPCreateTopicRequest -> M St (HTTPReply unit);
  do_DeleteTopic : string -> M St (HTTPReply unit);
  do_ListTopics : M St (HTTPReply (list HTTPTopicInfo));
  do_GetMetrics : M St (HTTPReply HTTPMetricsResponse);
}.

(** ** The harness *)

Inductive Mode : Type := ModeInProcess | ModeGRPC | ModeHTTP | ModeKafka | ModeUnknown (n : Z).
#[export] Instance Mode_eq_dec : EqDecision Mode.
Proof. solve_decision. Defined.

Definition Mode_String (m : Mode) : string :=
  match m with
  | ModeInProcess => "inprocess"
  | ModeGRPC => "grpc"
  | ModeHTTP => "http"
  | ModeKafka => "kafka"
  | ModeUnknown _ => "unknown"
  end.

Definition ErrNoMessage : error := Errorf "no message available".
Definition grpcMaxFetchBytes : Z := 2 ^ 20.
Definition ErrUnsupported : error := Errorf "unsupported mode".

Record BatchItem : Type := mkItem { bi_Key : bytes; bi_Value : bytes; bi_Priority : byte }.

Record ConsumedMessage : Type := mkConsumed {
  cm_Value : bytes;
  cm_Offset : Z;
  cm_Priority : Z;
  cm_ProduceTime : Z;
  cm_AppendTime : Z;
}.

Record MetricsSnapshot : Type := mkMSnapshot {
  ms_PartitionLoads : list float;
  ms_QueueDepth : list Z;
  ms_LoadStdDev : float;
  ms_HasStdDev : bool;
}.

Record HarnessConfig : Type := mkHConfig {
  hc_Mode : Mode;
  hc_Algorithm : string;
  hc_NumPartitions : Z;
  hc_KafkaBrokers : list string;
  hc_BrokerAddr : string;
  hc_HTTPBrokerAddr : string;
}.

Section harness.
Context {St : Type} {Kf : Kafka St} {T : Target St} {Gr : Grpc}.

Record Harness : Type := mkHarness {
  h_mode : Mode;
  h_app : bool;                       (* app is not nil *)
  h_grpc : bool;
  h_http : bool;
  h_kfk : option KafkaHarness;
  h_external : bool;
  h_managedTopic : string;
  h_brokerAddr : string;
  h_httpBrokerAddr : string;
  h_partitionCounts : gmap Z Z;
}.

Definition set_clients (app grpc http : bool) (kfk : option KafkaHarness) (external : bool) (h : Harness) : Harness :=
  mkHarness (h_mode h) app grpc http kfk external (h_managedTopic h) (h_brokerAddr h) (h_httpBrokerAddr h) (h_partitionCounts h).
Definition set_managed (t : string) (h : Harness) : Harness :=
  mkHarness (h_mode h) (h_app h) (h_grpc h) (h_http h) (h_kfk h) (h_external h) t (h_brokerAddr h) (h_httpBrokerAddr h) (h_partitionCounts h).
Definition set_counts (c : gmap Z Z) (h : Harness) : Harness :=
  mkHarness (h_mode h) (h_app h) (h_grpc h) (h_http h) (h_kfk h) (h_external h) (h_managedTopic h) (h_brokerAddr h) (h_httpBrokerAddr h) c.

Definition HM (A : Type) : Type := M (Harness * St) A.
Definition get_h : HM Harness := fun s => (s, Ok s.1).
Definition modify_h (f : Harness -> Harness) : HM unit := fun s => ((f s.1, s.2), Ok tt).
Definition modify_st (f : St -> St) : HM unit := fun s => ((s.1, f s.2), Ok tt).
Definition read_st {A} (f : St -> A) : HM A := fun s => (s, Ok (f s.2)).
Definition on_target {A} (m : M St A) : HM A := fun '(h, st) => let '(st, r) := m st in ((h, st), r).
(** A method of the Kafka driver; calling one on a nil driver panics. *)
Definition on_kafka {A} (m : KM A) : HM A := fun '(h, st) =>
  match h_kfk h with
  | Some k => let '((k, st), r) := m (k, st) in ((set_clients (h_app h) (h_grpc h) (h_http h) (Some k) (h_external h) h, st), r)
  | None => ((h, st), Panic)
  end.

Definition IsExternal (h : Harness) : bool := h_external h || bool_decide (h_mode h = ModeKafka).
Definition SetManagedTopic (topic : string) : HM unit := modify_h (set_managed topic).

(** *** Starting *)

(** The loop of waitForGRPCReady and waitForHTTPReady: one probe, then a wait;
    an element of [waits] is a wait that ended after 100 ms, or with the context's
    error; at the end of the list the 30 seconds are over. *)
Fixpoint wait_ready {A} (late : string) (probe : M St A) (waits : list (option error)) : M St unit :=
  let! r := mtry probe in
  match r with
  | Ok _ => mret tt
  | Err e => match waits with
             | [] => mfail (Wrapf e late)
             | Some ctxErr :: _ => mfail ctxErr
             | None :: waits => wait_ready late probe waits
             end
  | Panic => mlift Panic
  end.
Definition waitForGRPCReady : list (option error) -> M St unit := wait_ready "grpc server not ready after 30s" (client_ListTopics rpc_ListTopics).
Definition waitForHTTPReady : list (option error) -> M St unit := wait_ready "http server not ready after 30s" (http_ListTopics (Ok tt) do_ListTopics).

(** On an error: clean up, then return it. *)
Definition or_else {A} (m : HM A) (cleanup : HM unit) : HM A :=
  let! r := mtry m in
  match r with Ok a => mret a | Err e => do! cleanup in mfail e | Panic => mlift Panic end.

Definition start_app (kind : app_kind) (alg : string) (k : Z) : HM unit :=
  do! mwrap "app new" (on_target (tg_New kind alg k)) in
  do! mwrap "app start" (on_target tg_Start) in
  modify_h (fun h => set_clients true (h_grpc h) (h_http h) (h_kfk h) (h_external h) h).

Definition open_harness (cfg : HarnessConfig) (waits : list (option error)) : HM unit :=
  match hc_Mode cfg with
  | ModeInProcess => start_app PlainApp (hc_Algorithm cfg) (hc_NumPartitions cfg)
  | ModeGRPC =>
      if decide (hc_BrokerAddr cfg <> ""%string) then
        do! mwrap "grpc client to %s" (on_target (tg_Dial (hc_BrokerAddr cfg))) in
        do! modify_h (fun h => set_clients (h_app h) true (h_http h) (h_kfk h) true h) in
        or_else (mwrap "external grpc broker not ready at %s" (on_target (waitForGRPCReady waits))) (modify_st tg_CloseGRPC)
      else
        do! start_app GrpcApp (hc_Algorithm cfg) (hc_NumPartitions cfg) in
        let! addr := read_st tg_Addr in
        do! or_else (mwrap "grpc client" (on_target (tg_Dial addr))) (modify_st tg_Stop) in
        do! modify_h (fun h => set_clients (h_app h) true (h_http h) (h_kfk h) (h_external h) h) in
        or_else (mwrap "grpc readiness" (on_target (waitForGRPCReady waits))) (modify_st tg_Stop)
  | ModeHTTP =>
      let httpAddr := if decide (hc_HTTPBrokerAddr cfg = ""%string) then hc_BrokerAddr cfg else hc_HTTPBrokerAddr cfg in
      if decide (httpAddr <> ""%string) then
        do! modify_h (fun h => set_clients (h_app h) (h_grpc h) true (h_kfk h) true h) in
        mwrap "external http broker not ready at %s" (on_target (waitForHTTPReady waits))
      else
        do! start_app HttpApp (hc_Algorithm cfg) (hc_NumPartitions cfg) in
        do! modify_h (fun h => set_clients (h_app h) (h_grpc h) true (h_kfk h) (h_external h) h) in
        or_else (mwrap "http readiness" (on_target (waitForHTTPReady waits))) (modify_st tg_Stop)
  | ModeKafka => modify_h (fun h => set_clients (h_app h) (h_grpc h) (h_http h) (Some (kafka_New (hc_KafkaBrokers cfg))) (h_external h) h)
  | ModeUnknown _ => mfail (Errorf "unknown mode: %d")
  end.

Definition NewHarness (cfg : HarnessConfig) (waits : list (option error)) (st : St) : (Harness * St) * result unit :=
  open_harness cfg waits (mkHarness (hc_Mode cfg) false false false None false "" (hc_BrokerAddr cfg) (hc_HTTPBrokerAddr cfg) ∅, st).

(** *** Topics *)

Definition grpc_mode (m : ScheduleMode) : Z :=
  match m with ModeStrictPriority => ScheduleMode_STRICT_PRIORITY | ModeDQNAdaptive => ScheduleMode_DQN_ADAPTIVE | ModeFIFO => ScheduleMode_FIFO end.
Definition http_mode_name (m : ScheduleMode) : string :=
  match m with ModeStrictPriority => "strict_priority" | ModeDQNAdaptive => "dqn_adaptive" | ModeFIFO => "fifo" end.

Definition h_CreateTopic (topic : string) (cfg : TopicConfig) : HM unit :=
  let! h := get_h in
  match h_mode h with
  | ModeInProcess => on_target (brk_CreateTopic topic cfg)
  | ModeGRPC =>
      if h_external h
      then on_target (client_CreateTopic rpc_CreateTopic topic (i32 (NumPartitions cfg)) (grpc_mode (tc_ScheduleMode cfg)))
      else on_target (brk_CreateTopic topic cfg)
  | ModeHTTP =>
      if h_external h
      then on_target (http_CreateTopic (Ok tt) (Ok tt) do_CreateTopic topic (i32 (NumPartitions cfg)) (http_mode_name (tc_ScheduleMode cfg)))
      else on_target (brk_CreateTopic topic cfg)
  | ModeKafka => on_kafka (kafka_CreateTopic topic (NumPartitions cfg))
  | ModeUnknown _ => mfail ErrUnsupported
  end.

Definition h_DeleteTopic (topic : string) : HM unit :=
  let! h := get_h in
  match h_mode h with
  | ModeInProcess => on_target (brk_DeleteTopic topic)
  | ModeGRPC => if h_external h then on_target (client_DeleteTopic rpc_DeleteTopic topic) else on_target (brk_DeleteTopic topic)
  | ModeHTTP => if h_external h then on_target (http_DeleteTopic (Ok tt) do_DeleteTopic topic) else on_target (brk_DeleteTopic topic)
  | ModeKafka =>
      let! r := mtry (on_kafka (kafka_DeleteTopic topic)) in
      match r with
      | Ok _ => mret tt
      | Err e => if errors_Is e ErrKafkaTopicNotFound then mfail ErrTopicNotFound else mfail (Wrapf e "delete topic %q via kafka")
      | Panic => mlift Panic
      end
  | ModeUnknown _ => mfail ErrUnsupported
  end.

(** *** Publishing *)

(** The results of the produce calls of the gRPC client, without its waits. *)
Definition no_waits {A} (m : St -> St * result A * list Z) : M St A := fun st => let '(st, r, _) := m st in (st, r).

Definition h_Publish (now : Z) (topic : string) (key value : bytes) (priority : byte) : HM unit :=
  let! h := get_h in
  match h_mode h with
  | ModeInProcess => let! _x := mwrap "publish in-process topic=%q" (on_target (brk_Publish topic (NewMessage now priority key value))) in mret tt
  | ModeGRPC =>
      let! _x := mwrap "produce gRPC topic=%q" (on_target (no_waits (client_Produce tg_cancelled rpc_Produce topic key value (bval priority)))) in mret tt
  | ModeHTTP =>
      let! _x := mwrap "produce HTTP topic=%q" (on_target (http_Produce (Ok tt) (Ok tt) do_Produce topic key value (bval priority))) in mret tt
  | ModeKafka => on_kafka (kafka_Produce topic key value)
  | ModeUnknown _ => mfail ErrUnsupported
  end.

Definition recordPartition (partition : Z) (h : Harness) : Harness :=
  set_counts (<[partition := i64 (default 0 (h_partitionCounts h !! partition) + 1)]> (h_partitionCounts h)) h.

(** The loop over the results of the in-process call. *)
Fixpoint count_results (rs : list PublishResult) (ok : Z) (firstErr : option error) (h : Harness) : Z * option error * Harness :=
  match rs with
  | [] => (ok, firstErr, h)
  | r :: rs =>
      match pr_Err r with
      | None => count_results rs (ok + 1) firstErr (recordPartition (pr_Partition r) h)
      | Some e => count_results rs ok (match firstErr with None => Some e | _ => firstErr end) h
      end
  end.

(** [PublishBatch] returns a count and an error, here side by side. *)
Definition h_PublishBatch (now : nat -> Z) (topic : string) (items : list BatchItem) : HM (Z * option error) :=
  if decide (length items = 0%nat) then mret (0, None)
  else
    let! h := get_h in
    match h_mode h with
    | ModeInProcess =>
        let msgs := imap (fun i it => NewMessage (now i) (bi_Priority it) (bi_Key it) (bi_Value it)) items in
        let! results := on_target (brk_PublishBatch topic msgs) in
        let '(ok, firstErr, h') := count_results results 0 None h in
        do! modify_h (fun _ => h') in mret (ok, firstErr)
    | ModeGRPC =>
        let msgs := (fun it => mkProduceMessage (bi_Key it) (bi_Value it) (bval (bi_Priority it))) <$> items in
        let! r := mtry (on_target (no_waits (client_ProduceBatch tg_cancelled rpc_Produce topic msgs))) in
        match r with
        | Ok results =>
            do! modify_h (fun h => foldl (fun h r => recordPartition (prs_Partition r) h) h results) in mret (Z.of_nat (length results), None)
        | Err e => mret (0, Some (Wrapf e "produce batch gRPC topic=%q"))
        | Panic => mlift Panic
        end
    | ModeHTTP =>
        let records := (fun it => mkHTTPProduceRecord (bi_Key it) (bi_Value it) (bval (bi_Priority it))) <$> items in
        let! r := mtry (on_target (http_ProduceBatch (Ok tt) (Ok tt) do_Produce topic records)) in
        match r with
        | Ok results =>
            do! modify_h (fun h => foldl (fun h r => recordPartition (hpr_Partition r) h) h results) in mret (Z.of_nat (length results), None)
        | Err e => mret (0, Some (Wrapf e "produce batch HTTP topic=%q"))
        | Panic => mlift Panic
        end
    | ModeKafka =>
        let! r := mtry (on_kafka (kafka_ProduceBatch topic ((fun it => (bi_Key it, bi_Value it)) <$> items))) in
        match r with
        | Ok _ => mret (Z.of_nat (length items), None)
        | Err e => mret (0, Some (Wrapf e "produce batch kafka topic=%q"))
        | Panic => mlift Panic
        end
    | ModeUnknown _ => mret (0, Some ErrUnsupported)
    end.

(** *** Consuming *)

Definition consumed_of (e : MessageEnvelope) : ConsumedMessage :=
  mkConsumed (env_Value e) (env_Offset e) (env_Priority e mod 256) (env_ProduceTime e) (env_AppendTime e).
Definition http_consumed_of (e : HTTPMessageEnvelope) : ConsumedMessage :=
  mkConsumed (hme_Value e) (hme_Offset e) (hme_Priority e mod 256) (hme_ProduceTime e) (hme_AppendTime e).
Definition some_messages {A} (ms : list A) (k : list ConsumedMessage) : HM (list ConsumedMessage) :=
  if decide (length ms = 0%nat) then mfail ErrNoMessage else mret k.

Definition h_ConsumeBatch (topic group : string) (partition : Z) : HM (list ConsumedMessage) :=
  let! h := get_h in
  match h_mode h with
  | ModeInProcess =>
      let! r := mtry (on_target (brk_ConsumeBatch topic group partition 16)) in
      match r with
      | Ok (msgs, _) =>
          mret ((fun m => mkConsumed (Value m) 0 (bval (Priority (Header m))) (ProduceTime (Header m)) (AppendTime (Header m))) <$> msgs)
      | Err e => if errors_Is e ErrNoMessages then mfail ErrNoMessage else mfail (Wrapf e "consume batch")
      | Panic => mlift Panic
      end
  | ModeGRPC =>
      let! r := mtry (on_target (client_Consume rpc_Consume topic group (i32 partition) grpcMaxFetchBytes)) in
      match r with
      | Ok envs => some_messages envs (consumed_of <$> envs)
      | Err e => if errors_Is e ErrNoMessages then mfail ErrNoMessage else mfail (Wrapf e "grpc consume")
      | Panic => mlift Panic
      end
  | ModeHTTP =>
      let! envs := mwrap "http consume" (on_target (http_Consume (Ok tt) do_Consume topic group (i32 partition) grpcMaxFetchBytes)) in
      some_messages envs (http_consumed_of <$> envs)
  | ModeKafka =>
      let! msgs := mwrap "kafka consume" (on_kafka (kafka_Consume topic group partition grpcMaxFetchBytes)) in
      some_messages msgs ((fun m => mkConsumed (km_Value m) (km_Offset m) 0 0 0) <$> take 1 msgs)
  | ModeUnknown _ => mfail ErrUnsupported
  end.

(** *** Metrics *)

(** [range_counts]: the order in which the counters are visited. *)
Definition publishStdDev (range_counts : gmap Z Z -> list (Z * Z)) (h : Harness) : option float :=
  let counts := (fun '(_, n) => of_int n) <$> range_counts (h_partitionCounts h) in
  if decide (length counts < 2)%nat then None
  else
    let n := of_int (Z.of_nat (length counts)) in
    let mean := (foldl PrimFloat.add 0 counts / n)%float in
    if (mean =? 0)%float then None
    else
      let variance := (foldl (fun v c => v + (c - mean) * (c - mean)) 0 counts / n)%float in
      Some (PrimFloat.sqrt variance / mean)%float.

Definition with_stddev (sd : option float) (loads : list float) (depth : list Z) : MetricsSnapshot :=
  match sd with Some x => mkMSnapshot loads depth x true | None => mkMSnapshot loads depth 0 false end.

Definition GetMetricsSnapshot (range_counts : gmap Z Z -> list (Z * Z)) : HM MetricsSnapshot :=
  let! h := get_h in
  match h_mode h with
  | ModeInProcess =>
      if h_app h then
        let! m := read_st brk_Metrics in
        mret (mkMSnapshot (PartitionLoads m) (QueueDepths m) (LoadStdDev m) (0 <? LoadStdDev m)%float)
      else mret (mkMSnapshot [] [] 0 false)
  | ModeGRPC =>
      let! resp := mwrap "get metrics gRPC" (on_target (client_GetMetrics rpc_GetMetrics)) in
      mret (with_stddev (publishStdDev range_counts h) (mr_PartitionLoads resp) (mr_QueueDepth resp))
  | ModeHTTP =>
      let! resp := mwrap "get metrics HTTP" (on_target (http_GetMetrics (Ok tt) do_GetMetrics)) in
      mret (with_stddev (publishStdDev range_counts h) (hm_PartitionLoads resp) [])
  | ModeKafka | ModeUnknown _ => mret (mkMSnapshot [] [] 0 false)
  end.

Definition GetPartitionLoads (range_counts : gmap Z Z -> list (Z * Z)) : HM (list float) :=
  let! snap := mwrap "get metrics snapshot" (GetMetricsSnapshot range_counts) in mret (ms_PartitionLoads snap).

(** *** Reconnecting and closing *)

Definition reconnectMaxAttempts : nat := 3.

(** The attempts left; [waits k] for the readiness loop of attempt [k]. *)
Fixpoint grpc_attempts (waits : nat -> list (option error)) (n : nat) : HM unit :=
  match n with
  | O => mfail (Errorf "gRPC reconnect failed after max attempts")
  | S n =>
      let! h := get_h in
      do! (if h_grpc h then modify_st tg_CloseGRPC else mret tt) in
      let! r := mtry (do! on_target (tg_Dial (h_brokerAddr h)) in or_else (on_target (waitForGRPCReady (waits n))) (modify_st tg_CloseGRPC)) in
      match r with
      | Ok _ => modify_h (fun h => set_clients (h_app h) true (h_http h) (h_kfk h) (h_external h) h)
      | Err _ => grpc_attempts waits n
      | Panic => mlift Panic
      end
  end.
Definition reconnectGRPC (waits : nat -> list (option error)) : HM unit :=
  let! h := get_h in
  if decide (h_brokerAddr h = ""%string) then mfail (Errorf "no broker address for reconnect") else grpc_attempts waits reconnectMaxAttempts.

Fixpoint http_attempts (waits : nat -> list (option error)) (n : nat) : HM unit :=
  match n with
  | O => mfail (Errorf "HTTP reconnect failed after max attempts")
  | S n =>
      do! modify_h (fun h => set_clients (h_app h) (h_grpc h) true (h_kfk h) (h_external h) h) in
      let! r := mtry (on_target (waitForHTTPReady (waits n))) in
      match r with
      | Ok _ => mret tt
      | Err _ => http_attempts waits n
      | Panic => mlift Panic
      end
  end.
Definition reconnectHTTP (waits : nat -> list (option error)) : HM unit :=
  let! h := get_h in
  let addr := if decide (h_httpBrokerAddr h = ""%string) then h_brokerAddr h else h_httpBrokerAddr h in
  if decide (addr = ""%string) then mfail (Errorf "no broker address for reconnect") else http_attempts waits reconnectMaxAttempts.

Definition h_Close : HM unit :=
  let! h := get_h in
  do! (if decide (h_managedTopic h <> ""%string)
       then do! mtry (h_DeleteTopic (h_managedTopic h)) in modify_h (set_managed "") else mret tt) in
  do! (if h_grpc h then modify_st tg_CloseGRPC else mret tt) in
  do! (if h_app h then modify_st tg_Stop else mret tt) in
  match h_kfk h with Some _ => on_kafka kafka_Close | None => mret tt end.
End harness.
