(* ===== verification/HarnessProps.v ===== *)
(** * The harness: a batch is answered for item by item

    Whatever the system behind it, one call to PublishBatch reports how many of
    the items were accepted, and names an error when some were not; the counters
    per partition add up; the four modes agree on creating topics. *)

From Stdlib Require Import Strings.Byte.
From S2P Require Import Prelude Message PriorityIndex Wal Compression GoFloat Config Partition Topic LoadPredictor Metrics Balancer Scheduler Broker.
From S2P Require Import Transport TransportProps Client ClientProps Harness.

(** What the harness relies on: the systems answer without panicking, a batch gets
    a result per message, and a fetch has at most [B] messages. *)
Class TargetLaws (St : Type) (B : nat) {Kf : Kafka St} {T : Target St} : Prop := {
  brk_PublishBatch_answers topic msgs st : exists st' rs, brk_PublishBatch topic msgs st = (st', Ok rs) /\ length rs = length msgs;
  rpc_Produce_answers req st :
    (rpc_Produce req st).2 <> Panic /\ forall resp, (rpc_Produce req st).2 = Ok resp -> length (prp_Results resp) = length (prq_Messages req);
  do_Produce_answers topic recs st :
    (do_Produce topic recs st).2 <> Panic /\ forall reply, (do_Produce topic recs st).2 = Ok reply ->
      DecodedBody reply <> Panic /\ (StatusCode reply = StatusOK -> forall rs, DecodedBody reply = Ok rs -> length rs = length recs);
  kafka_WriteMessages_returns w msgs st : (kafka_WriteMessages w msgs st).2 <> Panic;
  brk_ConsumeBatch_returns topic group p n st :
    (brk_ConsumeBatch topic group p n st).2 <> Panic /\ forall ms off, (brk_ConsumeBatch topic group p n st).2 = Ok (ms, off) -> (length ms <= B)%nat;
  rpc_Consume_returns req st : (rpc_Consume req st).2 <> Panic /\ forall es, (rpc_Consume req st).2 = Ok es -> (length es <= B)%nat;
  do_Consume_returns url st :
    (do_Consume url st).2 <> Panic /\ forall reply, (do_Consume url st).2 = Ok reply ->
      DecodedBody reply <> Panic /\ forall es, DecodedBody reply = Ok es -> (length es <= B)%nat;
  kafka_ReadMessage_returns r st : (kafka_ReadMessage r st).2 <> Panic;
  rpc_GetMetrics_returns st : (rpc_GetMetrics st).2 <> Panic;
  do_GetMetrics_returns st : (do_GetMetrics st).2 <> Panic /\ forall reply, (do_GetMetrics st).2 = Ok reply -> DecodedBody reply <> Panic;
}.

Section answers.
Context {St : Type} {Kf : Kafka St} {T : Target St} {B : nat} {L : TargetLaws St B} {Gr : Grpc}.
Implicit Types h : Harness.

(** The Kafka driver is there when the mode needs it. *)
Definition harness_ok h : Prop := h_mode h = ModeKafka -> is_Some (h_kfk h).

(** Counting the results of a batch. *)
Lemma count_results_spec rs ok firstErr h :
  exists h', count_results rs ok firstErr h = (ok + Z.of_nat (length (filter (fun r => pr_Err r = None) rs)),
    match firstErr with Some e => Some e | None => first_error rs end, h') /\ h_mode h' = h_mode h /\ h_kfk h' = h_kfk h.
Proof.
  revert ok firstErr h. induction rs as [|r rs IH]; intros ok firstErr h; cbn [count_results first_error].
  - exists h. rewrite filter_nil. cbn. rewrite Z.add_0_r. by destruct firstErr.
  - destruct (pr_Err r) as [e|] eqn:Hr.
    + rewrite filter_cons_False by congruence. destruct (IH ok (match firstErr with None => Some e | _ => firstErr end) h) as (h' & -> & Hh). exists h'.
      split; [|done]. by destruct firstErr.
    + rewrite filter_cons_True by done. destruct (IH (ok + 1) firstErr (recordPartition (pr_Partition r) h)) as (h' & -> & Hh). exists h'.
      split; [|done]. cbn [length]. f_equal. f_equal. lia.
Qed.

Lemma count_ok_bound rs :
  (length (filter (fun r => pr_Err r = None) rs) <= length rs)%nat /\ (first_error rs = None -> length (filter (fun r => pr_Err r = None) rs) = length rs).
Proof.
  split; [apply length_filter|]. rewrite first_error_spec. intros Hf. induction Hf as [|r rs Hr _ IH]; [done|]. rewrite filter_cons_True by done. cbn [length]. by rewrite IH.
Qed.

Lemma foldl_record_keeps {A} (f : A -> Z) (rs : list A) h :
  h_mode (foldl (fun h r => recordPartition (f r) h) h rs) = h_mode h /\ h_kfk (foldl (fun h r => recordPartition (f r) h) h rs) = h_kfk h.
Proof. revert h. induction rs as [|r rs IH]; intros h; [done|]. cbn [foldl]. destruct (IH (recordPartition (f r) h)) as [-> ->]. done. Qed.

(** The gRPC client's batch: a result per message, or an error. *)
Lemma client_batch_answers topic msgs st :
  let '(_, r) := no_waits (client_ProduceBatch tg_cancelled rpc_Produce topic msgs) st in
  r <> Panic /\ forall rs, r = Ok rs -> length rs = length msgs.
Proof.
  unfold no_waits, client_ProduceBatch. set (call := rpc_Produce _).
  pose proof (retry_loop_inv "produce-batch topic=%s count=%d" "produce-batch topic=%s count=%d (exhausted retries)" tg_cancelled call
    (fun _ => True) (fun _ r => r <> Panic /\ forall resp, r = Ok resp -> length (prp_Results resp) = length msgs)
    produceMaxRetries 0 produceRetryBaseDelay (Errorf "nil") st I) as Hi.
  destruct (retry_loop _ _ _ _ _ _ _ _ _) as [[st' r] ws]. destruct Hi as [Hp Hr].
  - intros st0 _. destruct (rpc_Produce_answers (mkProduceRequest topic [] [] 0 msgs) st0) as [Hnp Ha]. fold call in Hnp, Ha.
    destruct (call st0) as [st1 [resp|e|]]; cbn [snd] in *; [split; [done|]; intros resp' [= <-]; by apply Ha|by left; split|done].
  - done.
  - destruct r as [resp|e|]; cbn; [split; [done|]|by split|done]. intros rs [= <-]. by apply Hr.
Qed.

(** A batch answered as a whole. *)
Ltac answered := unfold mret; cbn; eexists _, _, _, _; split; [reflexivity|]; split; [first [assumption | by intros _; eexists]|]; split; [lia|done].

(** One batch: the count and the error it reports. *)
Lemma PublishBatch_answers now topic items h st :
  harness_ok h -> items <> [] ->
  exists h' st' n err, h_PublishBatch now topic items (h, st) = ((h', st'), Ok (n, err)) /\ harness_ok h' /\
    0 <= n <= Z.of_nat (length items) /\ (err = None -> n = Z.of_nat (length items)).
Proof.
  intros Hok Hne. unfold h_PublishBatch. rewrite decide_False by (by destruct items). unfold mthen, get_h. cbn [fst].
  destruct (h_mode h) eqn:Hm.
  - set (msgs := imap _ _). unfold on_target. destruct (brk_PublishBatch_answers topic msgs st) as (st' & rs & -> & Hl).
    assert (Hlen : length rs = length items) by (rewrite Hl; apply length_imap).
    destruct (count_results_spec rs 0 None h) as (h' & -> & Hm' & Hk'). unfold modify_h, mret. cbn. eexists h', st', _, _. split; [done|].
    split; [unfold harness_ok; congruence|]. destruct (count_ok_bound rs) as [H1 H2]. split; [lia|]. intros H3. rewrite (H2 H3). lia.
  - unfold mtry, on_target. pose proof (client_batch_answers topic ((fun it => mkProduceMessage (bi_Key it) (bi_Value it) (bval (bi_Priority it))) <$> items) st) as Ha.
    destruct (no_waits _ st) as [st' r]. destruct Ha as [Hnp Ha]. destruct r as [rs|e|]; [|answered|done].
    unfold modify_h, mret. cbn. eexists _, st', _, _. split; [done|]. specialize (Ha rs eq_refl). rewrite length_fmap in Ha.
    destruct (foldl_record_keeps prs_Partition rs h) as [E1 E2]. split; [unfold harness_ok; rewrite E1, E2; done|]. split; [lia|]. lia.
  - unfold mtry, on_target, http_ProduceBatch, http_call. cbn [wrapf mbind result_bind]. set (recs := _ <$> items).
    destruct (do_Produce_answers topic recs st) as [Hnp Ha]. destruct (do_Produce topic recs st) as [st' r]. cbn [snd] in *.
    destruct r as [reply|e|]; cbn [wrapf]; [|answered|done].
    rewrite Ok_bind. unfold expect_body. destruct (Ha reply eq_refl) as [Hb Hl].
    case_decide as Hc; [answered|].
    destruct (DecodedBody reply) as [rs|e|]; [|answered|done].
    specialize (Hl Hc rs eq_refl). unfold recs in Hl. rewrite length_fmap in Hl. unfold modify_h, mret. cbn. eexists _, st', _, _. split; [done|].
    destruct (foldl_record_keeps hpr_Partition rs h) as [E1 E2]. split; [unfold harness_ok; rewrite E1, E2; done|]. split; [lia|]. lia.
  - destruct (Hok Hm) as [k Hk]. unfold mtry, on_kafka. rewrite Hk. unfold kafka_ProduceBatch, writerFor, mthen, get_driver. cbn [fst].
    destruct (kh_writers k !! topic) as [w|]; unfold mret, put_driver; cbn [fst snd]; unfold on_cluster.
    + pose proof (kafka_WriteMessages_returns w ((fun it => (bi_Key it, bi_Value it)) <$> items) st) as Hnp.
      destruct (kafka_WriteMessages w _ st) as [st' r]. cbn [snd] in Hnp.
      destruct r as [[]|e|]; cbn; [answered..|done].
    + pose proof (kafka_WriteMessages_returns (kafka_NewWriter (kh_brokers k) topic) ((fun it => (bi_Key it, bi_Value it)) <$> items) st) as Hnp.
      destruct (kafka_WriteMessages _ _ st) as [st' r]. cbn [snd] in Hnp.
      destruct r as [[]|e|]; cbn; [answered..|done].
  - answered.
Qed.

Lemma bval_byte b : 0 <= bval b < 256.
Proof. unfold bval. pose proof (Byte.to_N_bounded b). lia. Qed.

(** What one fetch returns: an error, or messages whose priority is a byte. *)
Definition fetched_ok (r : result (list ConsumedMessage)) : Prop :=
  r <> Panic /\ forall ms, r = Ok ms -> (length ms <= max B 1)%nat /\ Forall (fun m => 0 <= cm_Priority m < 256) ms.

Lemma fetched_error e : fetched_ok (Err e).
Proof. by split. Qed.

Lemma fetched_envelopes {A} (conv : A -> ConsumedMessage) (es : list A) h st :
  (forall e, 0 <= cm_Priority (conv e) < 256) ->
  (length es <= B)%nat -> exists r, some_messages es (conv <$> es) (h, st) = ((h, st), r) /\ fetched_ok r.
Proof.
  intros Hof Hl. unfold some_messages. case_decide; [exists (Err ErrNoMessage); split; [done|apply fetched_error]|].
  eexists. split; [done|]. split; [done|]. intros ms [= <-]. rewrite length_fmap. split; [lia|]. apply list.Forall_fmap.
  by apply list.Forall_true.
Qed.

Lemma consumed_priority e : 0 <= cm_Priority (consumed_of e) < 256.
Proof. cbn. apply Z.mod_pos_bound. lia. Qed.
Lemma http_consumed_priority e : 0 <= cm_Priority (http_consumed_of e) < 256.
Proof. cbn. apply Z.mod_pos_bound. lia. Qed.

Lemma ConsumeBatch_answers topic group p h st :
  harness_ok h -> exists h' st' r, h_ConsumeBatch topic group p (h, st) = ((h', st'), r) /\ harness_ok h' /\ fetched_ok r.
Proof.
  intros Hok. unfold h_ConsumeBatch, mthen, get_h. cbn [fst]. destruct (h_mode h) eqn:Hm.
  - unfold mtry, on_target. destruct (brk_ConsumeBatch_returns topic group p 16 st) as [Hnp Hl]. destruct (brk_ConsumeBatch _ _ _ _ st) as [st' r].
    cbn [snd] in *. destruct r as [[ms off]|e|]; [|destruct (errors_Is e _); eexists _, _, _; (split; [done|]); (split; [done|]); apply fetched_error|done].
    eexists _, _, _. split; [done|]. split; [done|]. split; [done|]. intros ms' [= <-]. rewrite length_fmap. specialize (Hl ms off eq_refl). split; [lia|].
    apply list.Forall_fmap, list.Forall_true. intros m. apply bval_byte.
  - unfold mtry, on_target, client_Consume. destruct (rpc_Consume_returns (mkConsumeRequest topic group (i32 p) grpcMaxFetchBytes) st) as [Hnp Hl].
    destruct (rpc_Consume _ st) as [st' r]. cbn [snd] in *. destruct r as [es|e|]; cbn [wrapf].
    + destruct (fetched_envelopes consumed_of es h st' consumed_priority (Hl es eq_refl)) as (r & -> & Hr). eauto 10.
    + destruct (errors_Is _ _); eexists _, _, _; (split; [done|]); (split; [done|]); apply fetched_error.
    + done.
  - unfold mwrap, on_target, http_Consume, http_call. cbn [wrapf]. destruct (do_Consume_returns (mkConsumeURL topic group (pretty.pretty (i32 p)) (pretty.pretty grpcMaxFetchBytes)) st) as [Hnp Hl].
    destruct (do_Consume _ st) as [st' r]. cbn [snd] in *. destruct r as [reply|e|]; cbn [wrapf]; [|eexists _, _, _; (split; [done|]); (split; [done|]); apply fetched_error|done].
    rewrite Ok_bind. destruct (Hl reply eq_refl) as [Hb Hlen]. unfold expect_body.
    case_decide; [eexists _, _, _; (split; [done|]); (split; [done|]); apply fetched_error|].
    destruct (DecodedBody reply) as [es|e|]; cbn [wrapf]; [|eexists _, _, _; (split; [done|]); (split; [done|]); apply fetched_error|done].
    destruct (fetched_envelopes http_consumed_of es h st' http_consumed_priority (Hlen es eq_refl)) as (r & -> & Hr). eauto 10.
  - destruct (Hok Hm) as [k Hk]. unfold mwrap, on_kafka. rewrite Hk. unfold kafka_Consume, readerFor, mthen, get_driver, mwrap. cbn [fst].
    assert (Hread : forall k' rd, exists k'' st' r, on_cluster (kafka_ReadMessage rd) (k', st) = ((k'', st'), r) /\ r <> Panic).
    { intros k' rd. unfold on_cluster. pose proof (kafka_ReadMessage_returns rd st) as Hnp. destruct (kafka_ReadMessage rd st) as [st' r]. eauto. }
    destruct (kh_readers k !! _) as [rd|]; unfold mret, put_driver; cbn [fst snd];
      (match goal with |- context [on_cluster (kafka_ReadMessage ?rd) (?k', st)] => destruct (Hread k' rd) as (k'' & st' & r & -> & Hnp) end);
      (destruct r as [[[key value] off]|e|]; cbn; [| |done]); eexists _, _, _; (split; [done|]); (split; [by intros _; eexists|]);
      [|apply fetched_error| |apply fetched_error]; (split; [done|]; intros ms [= <-]; split; [cbn; lia|]; apply list.Forall_cons_2; [cbn; lia|apply list.Forall_nil_2]).
  - eexists _, _, _. split; [done|]. split; [done|]. apply fetched_error.
Qed.

Lemma GetMetrics_answers range h st :
  harness_ok h -> exists h' st' r, GetMetricsSnapshot range (h, st) = ((h', st'), r) /\ harness_ok h' /\ r <> Panic.
Proof.
  intros Hok. unfold GetMetricsSnapshot, mthen, get_h. cbn [fst]. destruct (h_mode h) eqn:Hm.
  - destruct (h_app h); eexists _, _, _; (split; [done|]); by split.
  - unfold mwrap, on_target, client_GetMetrics. pose proof (rpc_GetMetrics_returns st) as Hnp. destruct (rpc_GetMetrics st) as [st' [m|e|]]; cbn in *;
      [eexists _, _, _; (split; [done|]); by split..|done].
  - unfold mwrap, on_target, http_GetMetrics, http_call. cbn [wrapf]. destruct (do_GetMetrics_returns st) as [Hnp Hb].
    destruct (do_GetMetrics st) as [st' [reply|e|]]; cbn in *; [|eexists _, _, _; (split; [done|]); by split|done].
    unfold expect_body. specialize (Hb reply eq_refl). case_decide; [eexists _, _, _; (split; [done|]); by split|].
    destruct (DecodedBody reply); cbn; [eexists _, _, _; (split; [done|]); by split..|done].
  - eexists _, _, _. split; [done|]. by split.
  - eexists _, _, _. split; [done|]. by split.
Qed.
End answers.
