(* ===== verification/Runner.v ===== *)
(** * The experiment runner (src/experiments/runner.go)

    Producers batch messages and publish them through the harness, consumers poll
    their partition, a sampler records loads; the collector counts.  The
    goroutines of a scenario run as an interleaving of the iterations of their
    loops, which [run_events] executes; the harness and the collector synchronise
    the calls.  Random draws, clock readings and which case a select takes are the
    iterations' inputs.  Around the scenarios: the order of the runs, and giving
    up on a mode that keeps failing. *)

From Stdlib Require Import Strings.Byte.
From stdpp Require Import pretty.
From S2P Require Import Prelude Message PriorityIndex Wal Compression GoFloat Config Partition Topic LoadPredictor Metrics Balancer Scheduler Broker.
From S2P Require Import Transport Client Collector Scenarios Harness.

Definition timestampPrefixBytes : nat := 8.
Definition loadSampleInterval : Z := 100 * time_Millisecond.
Definition defaultMsgSize : Z := 256.
Definition expGroup : string := "exp-group".
Definition produceBatchSize : Z := 64.
Definition defaultBatchBytes : Z := 16 * 1024.
Definition failFastThreshold : Z := 3.

Definition expTopicName (scenario alg : string) (mode : Mode) : string :=
  ("exp-" +:+ scenario +:+ "-" +:+ alg +:+ "-" +:+ Mode_String mode)%string.

(** ** Messages *)

(** [body]: random bytes; a value too short for the time panics. *)
Definition encodeValue (now : Z) (body : bytes) (size : nat) : result bytes :=
  put_at 0 (be_put 8 (u64 now)) (GenerateMessage body size).

Definition decodeLatency (now : Time) (value : bytes) : option (Z * Z) :=
  if decide (length value < timestampPrefixBytes)%nat then None
  else
    let ts := i64 (be_get (take timestampPrefixBytes value)) in
    let latency := time_Sub now ts in
    if latency <? 0 then None else Some (latency, ts).

(** [f], [u]: the generator's Float64 and Uint64; both key generators. *)
Definition generateKeySeeded (f : float) (u : Z) (skewRatio : float) : bytes :=
  if (0 <? skewRatio)%float && (f <? skewRatio)%float then replicate 8 x00 else be_put 8 (u64 u).
Definition generateKey : float -> Z -> float -> bytes := generateKeySeeded.

Definition topicConfigFor (sc : Scenario) : TopicConfig :=
  set_NumPartitions
    (if 0 <? sc_NumPartitions sc then sc_NumPartitions sc else if sc_Producers sc <? 1 then 1 else sc_Producers sc) DefaultTopicConfig.

Definition lingerInterval (sc : Scenario) : Z := i64 ((if sc_LingerMs sc <=? 0 then 1 else sc_LingerMs sc) * time_Millisecond).

(** [time.Second / time.Duration(perProducer)]; no producers: a division by zero. *)
Definition producer_interval (sc : Scenario) : result Z :=
  if decide (sc_Producers sc = 0) then Panic
  else
    let perProducer := Z.quot (sc_RatePerSec sc) (sc_Producers sc) in
    Ok (Z.quot time_Second (if perProducer <? 1 then 1 else perProducer)).

Definition seed_of (sc : Scenario) : Z := if sc_Seed sc =? 0 then 42 else sc_Seed sc.
Definition target_bytes (sc : Scenario) : Z := if sc_BatchBytes sc <=? 0 then defaultBatchBytes else sc_BatchBytes sc.

(** The message size of a scenario, at least the time's. *)
Definition msg_size (sc : Scenario) : Z :=
  let msgSize := if sc_MsgSize sc =? 0 then defaultMsgSize else sc_MsgSize sc in
  if msgSize <? Z.of_nat timestampPrefixBytes then Z.of_nat timestampPrefixBytes else msgSize.

Definition isThrottleError {Gr : Grpc} (e : error) : bool :=
  errors_Is e ErrThrottled || bool_decide (status_Code e = codes_ResourceExhausted).

(** What an iteration of a producer draws: for the key, the priority, the body,
    and the clock. *)
Record produce_input : Type := mkProduceInput {
  pi_hot : float;
  pi_key : Z;
  pi_prio : float;
  pi_body : bytes;
  pi_now : Z;
}.

Definition make_item (sc : Scenario) (i : produce_input) : result BatchItem :=
  value ← encodeValue (pi_now i) (pi_body i) (Z.to_nat (msg_size sc));
  Ok (mkItem (generateKeySeeded (pi_hot i) (pi_key i) (sc_SkewRatio sc)) value (byte_of (SamplePrioritySeeded (pi_prio i) sc))).

Section runner.
Context {St : Type} {Kf : Kafka St} {T : Target St} {Gr : Grpc} {H : Hdr} {G : Gonum}.
Abbreviation HS := (Harness * St)%type.

(** ** Producers *)

(** The variables of a producer's loop; [p_linger]: the timer runs. *)
Record producer : Type := mkProducer { p_batch : list BatchItem; p_bytes : Z; p_linger : bool }.
Definition new_producer : producer := mkProducer [] 0 false.

(** The closure [flush] of both loops; [now i] stamps the [i]-th message. *)
Definition flush (now : nat -> Z) (topic : string) (p : producer) (c : ExpCollector) (s : HS) : result (producer * ExpCollector * HS) :=
  let len := Z.of_nat (length (p_batch p)) in
  if len =? 0 then Ok (p, c, s)
  else
    let '(s, r) := h_PublishBatch now topic (p_batch p) s in
    '(n, err) ← r;
    let c := Nat.iter (Z.to_nat n) xc_RecordProduce c in
    let c := match err with
             | Some e =>
                 if n <? len then
                   if isThrottleError e then Nat.iter (Z.to_nat (len - n)) xc_RecordPublishThrottled c
                   else Nat.iter (Z.to_nat (len - n)) xc_RecordPublishError c
                 else c
             | None => c
             end in
    Ok (new_producer, c, s).

Definition item_bytes (it : BatchItem) : Z := Z.of_nat (length (bi_Key it)) + Z.of_nat (length (bi_Value it)).
Definition append_item (it : BatchItem) (p : producer) : producer := mkProducer (p_batch p ++ [it]) (p_bytes p + item_bytes it) (p_linger p).

(** One iteration of runUnlimitedProducer, the context not done. *)
Definition unlimited_iteration (sc : Scenario) (now : nat -> Z) (topic : string) (i : produce_input) (p : producer) (c : ExpCollector) (s : HS)
    : result (producer * ExpCollector * HS) :=
  it ← make_item sc i;
  let p := append_item it p in
  if target_bytes sc <=? p_bytes p then flush now topic p c s else Ok (p, c, s).

(** One iteration of runRateLimitedProducer; [fired]: the select took the linger
    timer's case, which it can while the timer runs. *)
Definition limited_iteration (sc : Scenario) (now : nat -> Z) (topic : string) (i : produce_input) (fired : bool) (p : producer) (c : ExpCollector) (s : HS)
    : result (producer * ExpCollector * HS) :=
  it ← make_item sc i;
  let p := append_item it p in
  '(p, c, s) ← (if target_bytes sc <=? p_bytes p then flush now topic p c s
                 else Ok (if decide (length (p_batch p) = 1%nat) then mkProducer (p_batch p) (p_bytes p) true else p, c, s));
  if fired && p_linger p then flush now topic (mkProducer (p_batch p) (p_bytes p) false) c s else Ok (p, c, s).

Definition producer_iteration (sc : Scenario) (now : nat -> Z) (topic : string) (i : produce_input) (fired : bool)
    : producer -> ExpCollector -> HS -> result (producer * ExpCollector * HS) :=
  if 0 <? sc_RatePerSec sc then limited_iteration sc now topic i fired else unlimited_iteration sc now topic i.

(** ** Consumers *)

(** The messages of one fetch; [draw i] the reservoir's, [now i] the clock's for
    the [i]-th. *)
Fixpoint record_messages (draw : nat -> Z) (now : nat -> Z) (i : nat) (msgs : list ConsumedMessage) (c : ExpCollector) : result ExpCollector :=
  match msgs with
  | [] => Ok c
  | m :: msgs =>
      match decodeLatency (now i) (cm_Value m) with
      | None => record_messages draw now (i + 1) msgs (xc_RecordConsumeError c)
      | Some (latency, enqueueTime) =>
          c ← RecordConsumeWithPriority (draw i) (cm_Priority m) latency c;
          let c := if 0 <? cm_ProduceTime m then RecordConsumeMultiStage (now i) enqueueTime (cm_ProduceTime m) (cm_AppendTime m) c else c in
          record_messages draw now (i + 1) msgs c
      end
  end.

(** One iteration of runConsumer: what the call returned, and the collector and
    the systems after it.  [ended]: the context is done when an error is looked
    at; the consumer then returns, and the call counts for nothing. *)
Definition consumer_iteration (draw : nat -> Z) (now : nat -> Z) (ended : bool) (topic : string) (partition : Z) (c : ExpCollector) (s : HS)
    : result (option (result (list ConsumedMessage)) * ExpCollector * HS) :=
  let '(s, r) := h_ConsumeBatch topic expGroup partition s in
  match r with
  | Ok msgs => c ← record_messages draw now 0 msgs c; Ok (Some r, c, s)
  | Err e =>
      if ended then Ok (None, c, s)
      else Ok (Some r, if errors_Is e ErrNoMessage then c else xc_RecordConsumeError c, s)
  | Panic => Panic
  end.

(** One tick of sampleLoadsFromHarness. *)
Definition sample_loads (range_counts : gmap Z Z -> list (Z * Z)) (now : Time) (c : ExpCollector) (s : HS) : result (ExpCollector * HS) :=
  let '(s, r) := GetMetricsSnapshot range_counts s in
  match r with
  | Ok snap =>
      Ok (if ms_HasStdDev snap then RecordLoadStdDev now (ms_LoadStdDev snap) c
          else if decide (0 < length (ms_PartitionLoads snap))%nat then RecordLoadSample now (ms_PartitionLoads snap) c else c, s)
  | Err _ => Ok (c, s)
  | Panic => Panic
  end.

(** ** A scenario *)

Record run_state : Type := mkRun { rs_producers : list producer; rs_collector : ExpCollector; rs_system : HS }.

Inductive run_event : Type :=
| EvProduce (k : nat) (i : produce_input) (now : nat -> Z) (fired : bool)
| EvConsume (draw : nat -> Z) (now : nat -> Z) (ended : bool) (partition : Z)
| EvSample (range_counts : gmap Z Z -> list (Z * Z)) (now : Time).

(** One iteration of one goroutine; what a consumer's call returned, unless the
    end of the context cut it off. *)
Definition do_event (sc : Scenario) (topic : string) (ev : run_event) (rs : run_state) : result (run_state * list (result (list ConsumedMessage))) :=
  match ev with
  | EvProduce k i now fired =>
      p ← index (rs_producers rs) k;
      '(p, c, s) ← producer_iteration sc now topic i fired p (rs_collector rs) (rs_system rs);
      Ok (mkRun (<[k := p]> (rs_producers rs)) c s, [])
  | EvConsume draw now ended partition =>
      '(r, c, s) ← consumer_iteration draw now ended topic partition (rs_collector rs) (rs_system rs);
      Ok (mkRun (rs_producers rs) c s, option_list r)
  | EvSample range_counts now =>
      '(c, s) ← sample_loads range_counts now (rs_collector rs) (rs_system rs);
      Ok (mkRun (rs_producers rs) c s, [])
  end.
Fixpoint run_events (sc : Scenario) (topic : string) (evs : list run_event) (rs : run_state) : result (run_state * list (result (list ConsumedMessage))) :=
  match evs with
  | [] => Ok (rs, [])
  | ev :: evs => '(rs, l1) ← do_event sc topic ev rs; '(rs, l2) ← run_events sc topic evs rs; Ok (rs, l1 ++ l2)
  end.

(** Cancelling the producers: each flushes what it has and returns. *)
Fixpoint finish_producers (topic : string) (now : nat -> Z) (ps : list producer) (c : ExpCollector) (s : HS) : result (ExpCollector * HS) :=
  match ps with
  | [] => Ok (c, s)
  | p :: ps => '(_, c, s) ← flush now topic p c s; finish_producers topic now ps c s
  end.

Definition num_producers (sc : Scenario) : nat := Z.to_nat (if sc_Producers sc <? 1 then 1 else sc_Producers sc).

(** The producers that get into their loop.  The pool recovers a panic of a task:
    a rate without a number of producers ends the only task at the division. *)
Definition started_producers (sc : Scenario) : nat :=
  if 0 <? sc_RatePerSec sc then match producer_interval sc with Ok _ => num_producers sc | _ => 0 end else num_producers sc.

(** [evs]: what runs until the producers stop, [late]: what runs after; [t]: the
    readings of the clock at start and end. *)
Definition runScenario (t : Time * Time) (evs late : list run_event) (now : nat -> Z) (sc : Scenario) (algName system : string) (mode : Mode)
    (topic : string) (s : HS) : result (ExperimentResult * list (result (list ConsumedMessage)) * HS) :=
  let rs := mkRun (replicate (started_producers sc) new_producer) (xc_Start t.1 NewExpCollector) s in
  '(rs, l1) ← run_events sc topic evs rs;
  '(c, s) ← finish_producers topic now (rs_producers rs) (rs_collector rs) (rs_system rs);
  '(rs, l2) ← run_events sc topic late (mkRun [] c s);
  let c := xc_Stop t.2 (rs_collector rs) in
  r ← xc_Snapshot t.2 (sc_Name sc) algName system (Mode_String mode) c;
  Ok (r, l1 ++ l2, rs_system rs).

(** ** One run *)

(** The fields of AlgorithmConfig that the runner reads; the name stands for the
    constructors. *)
Record Algorithm : Type := mkAlg { al_Name : string; al_Mode : ScheduleMode }.

(** errors.Is and errors.As for the error values of syscall and net. *)
Context (is_addr_not_avail as_dns_error as_op_error : error -> bool).
Definition isRetryableError (e : error) : bool := is_addr_not_avail e || as_dns_error e || as_op_error e.

(** backoff.Retry of github.com/cenkalti/backoff: [tries] further attempts fit in
    the time. *)
Inductive attempt : Type := Finished | Again (e : error) | Permanent (e : error).
Fixpoint backoff_Retry {S} (tries : nat) (op : M S attempt) : M S unit :=
  let! a := op in
  match a with
  | Finished => mret tt
  | Permanent e => mfail e
  | Again e => match tries with O => mfail e | S tries => backoff_Retry tries op end
  end.

Definition delete_stale (topic : string) : M HS attempt :=
  let! r := mtry (h_DeleteTopic topic) in
  mret match r with
       | Err e => if errors_Is e ErrTopicNotFound then Finished else if isRetryableError e then Again e else Permanent e
       | _ => Finished
       end.

Definition create_fresh (topic : string) (cfg : TopicConfig) : M HS attempt :=
  let! r := mtry (h_CreateTopic topic cfg) in
  match r with
  | Err e =>
      if errors_Is e ErrTopicAlreadyExists then do! mtry (h_DeleteTopic topic) in mret (Again e)
      else mret (if isRetryableError e then Again e else Permanent e)
  | _ => mret Finished
  end.

(** Polling until the queues are empty, [polls] times before the deadline. *)
Fixpoint drainQueues (range_counts : gmap Z Z -> list (Z * Z)) (polls : nat) : M HS bool :=
  match polls with
  | O => mret false
  | S polls =>
      let! r := mtry (GetMetricsSnapshot range_counts) in
      match r with
      | Ok snap => if decide (foldl Z.add 0 (ms_QueueDepth snap) = 0) then mret true else drainQueues range_counts polls
      | _ => drainQueues range_counts polls
      end
  end.

(** What one run sees of the outside. *)
Record RunEnv : Type := mkRunEnv {
  re_dirs : result unit;                       (* os.RemoveAll and os.MkdirAll *)
  re_waits : list (option error);
  re_tries : nat;
  re_times : Time * Time;
  re_evs : list run_event;
  re_late : list run_event;
  re_now : nat -> Z;
  re_warmup : list run_event;
  re_range : gmap Z Z -> list (Z * Z);
  re_polls : nat;
}.

Record Runner : Type := mkRunner {
  r_Scenarios : list Scenario;
  r_Algorithms : list Algorithm;
  r_Modes : list Mode;
  r_KafkaBrokers : list string;
  r_Duration : Z;
  r_BrokerAddr : string;
  r_HTTPBrokerAddr : string;
}.

(** [runScenario] inside the monad. *)
Definition scenario (env : RunEnv) (evs : list run_event) (sc : Scenario) (algName system : string) (mode : Mode) (topic : string) : M HS ExperimentResult :=
  fun s => match runScenario (re_times env) evs (re_late env) (re_now env) sc algName system mode topic s with
           | Ok (r, _, s) => (s, Ok r)
           | Err e => (s, Err e)
           | Panic => (s, Panic)
           end.

(** A harness for the length of a run: [defer h.Close()]. *)
Definition with_harness {A} (cfg : HarnessConfig) (waits : list (option error)) (wrap : string) (m : M HS A) : M St A := fun st =>
  let '((h, st), r) := NewHarness cfg waits st in
  match wrapf wrap r with
  | Ok _ => let '(s, r) := m (h, st) in let '((_, st), _) := h_Close s in (st, r)
  | Err e => (st, Err e)
  | Panic => (st, Panic)
  end.

Definition contains (sub s : string) : bool := bool_decide (is_Some (String.index 0 sub s)).

Definition runNyaQueue (r : Runner) (env : RunEnv) (sc : Scenario) (alg : Algorithm) (mode : Mode) : M St ExperimentResult :=
  let cfg := topicConfigFor sc in
  let cfg := mkTopicConfig (al_Mode alg) (NumPartitions cfg) (PriorityLevels cfg) (AntiStarvationTTL cfg) (DQNThrottleOnLoad cfg) in
  let topic := expTopicName (sc_Name sc) (al_Name alg) mode in
  do! mlift (re_dirs env) in
  with_harness (mkHConfig mode (al_Name alg) (NumPartitions cfg) [] (r_BrokerAddr r) (r_HTTPBrokerAddr r)) (re_waits env) "create harness for %s/%s"
    (let! h := get_h in
     do! (if IsExternal h then mwrap "delete stale topic" (backoff_Retry (re_tries env) (delete_stale topic)) else mret tt) in
     do! mwrap "create topic" (backoff_Retry (re_tries env) (create_fresh topic cfg)) in
     do! SetManagedTopic topic in
     do! (if h_app h then modify_st (brk_SetScheduler topic (al_Name alg)) else mret tt) in
     do! (if contains "DQN" (al_Name alg)
          then do! scenario env (re_warmup env) sc (al_Name alg) "nyaqueue" ModeInProcess topic in mret tt else mret tt) in
     let! result := scenario env (re_evs env) sc (al_Name alg) "nyaqueue" mode topic in
     do! drainQueues (re_range env) (re_polls env) in
     mret result).

Definition runKafka (r : Runner) (env : RunEnv) (sc : Scenario) : M St ExperimentResult :=
  let topic := expTopicName (sc_Name sc) "Kafka" ModeKafka in
  if decide (length (r_KafkaBrokers r) = 0%nat) then mfail (Errorf "no kafka brokers configured")
  else
    with_harness (mkHConfig ModeKafka "" 0 (r_KafkaBrokers r) "" "") (re_waits env) "create kafka harness for %s"
      (let! d := mtry (h_DeleteTopic topic) in
       do! match d with Err e => if errors_Is e ErrTopicNotFound then mret tt else mfail (Wrapf e "delete stale kafka topic") | _ => mret tt end in
       do! mwrap "create kafka topic" (h_CreateTopic topic (topicConfigFor sc)) in
       scenario env (re_evs env) sc "Kafka" "kafka" ModeKafka topic).

(** The scenario of the run before the others; its results are dropped. *)
Definition warmupScenario : Scenario := mkScenario "warmup" (10 * time_Second) 4 2 0 defaultMsgSize 0 0 0 0 (replicate 10 0%float) 0 0 0.

Definition warmup_mode (r : Runner) (env : RunEnv) (alg : Algorithm) (mode : Mode) : M St unit := fun st =>
  let cfg := topicConfigFor warmupScenario in
  let run := with_harness
    (mkHConfig mode (al_Name alg) (NumPartitions cfg) (r_KafkaBrokers r) (r_BrokerAddr r) (r_HTTPBrokerAddr r)) (re_waits env) "skip"
    (do! mtry (h_CreateTopic "warmup-topic" cfg) in
     do! SetManagedTopic "warmup-topic" in
     let! h := get_h in
     do! (if h_app h then modify_st (brk_SetScheduler "warmup-topic" (al_Name alg)) else mret tt) in
     scenario env (re_warmup env) warmupScenario "warmup" "warmup" mode "warmup-topic") in
  match run st with (st, Panic) => (st, Panic) | (st, _) => (st, Ok tt) end.

Fixpoint warmup_modes (r : Runner) (env : nat -> RunEnv) (alg : Algorithm) (modes : list Mode) : M St unit :=
  match modes with
  | [] => mret tt
  | mode :: modes => do! warmup_mode r (env (length modes)) alg mode in warmup_modes r env alg modes
  end.
(** [r.Algorithms[0]]: panics when there is a mode and no algorithm. *)
Definition runWarmup (r : Runner) (env : nat -> RunEnv) : M St unit :=
  match r_Modes r, r_Algorithms r with
  | [], _ => mret tt
  | _ :: _, [] => mlift Panic
  | modes, alg :: _ => warmup_modes r env alg modes
  end.
End runner.

(** ** All runs *)

Section run_all.
Context {S R : Type} (run_kafka : Scenario -> M S R) (run_nya : Scenario -> Algorithm -> Mode -> M S R).

(** The loops' variables: the results, the modes given up on, and the failures in
    a row of each mode in this scenario. *)
Record all_state : Type := mkAll { as_results : list R; as_disabled : list Mode; as_fails : Mode -> Z }.

Definition set_fails (mode : Mode) (n : Z) (a : all_state) : all_state :=
  mkAll (as_results a) (as_disabled a) (fun m => if decide (m = mode) then n else as_fails a m).
Definition is_disabled (mode : Mode) (a : all_state) : bool := bool_decide (mode ∈ as_disabled a).

(** A failed run: count it, and give up on the mode at the third in a row. *)
Definition failed_run (mode : Mode) (a : all_state) : all_state :=
  let n := as_fails a mode + 1 in
  let a := set_fails mode n a in
  if failFastThreshold <=? n then mkAll (as_results a) (mode :: as_disabled a) (as_fails a) else a.
Definition successful_run (mode : Mode) (res : R) (a : all_state) : all_state :=
  let a := set_fails mode 0 a in mkAll (as_results a ++ [res]) (as_disabled a) (as_fails a).

(** One run and its bookkeeping. *)
Definition record_run (mode : Mode) (run : M S R) (a : all_state) : M S all_state :=
  let! r := mtry run in
  mret match r with Ok res => successful_run mode res a | _ => failed_run mode a end.

Fixpoint run_algorithms (sc : Scenario) (mode : Mode) (algs : list Algorithm) (a : all_state) : M S all_state :=
  match algs with
  | [] => mret a
  | alg :: algs =>
      if is_disabled mode a then mret a
      else let! a := record_run mode (run_nya sc alg mode) a in run_algorithms sc mode algs a
  end.

Definition run_mode (sc : Scenario) (algs : list Algorithm) (mode : Mode) (a : all_state) : M S all_state :=
  if is_disabled mode a then mret a
  else if decide (mode = ModeKafka) then record_run mode (run_kafka sc) a
  else run_algorithms sc mode algs a.

Fixpoint run_modes (sc : Scenario) (algs : list Algorithm) (modes : list Mode) (a : all_state) : M S all_state :=
  match modes with [] => mret a | mode :: modes => let! a := run_mode sc algs mode a in run_modes sc algs modes a end.

Fixpoint run_scenarios (algs : list Algorithm) (modes : list Mode) (scs : list Scenario) (a : all_state) : M S all_state :=
  match scs with
  | [] => mret a
  | sc :: scs =>
      let! a := run_modes sc algs modes (mkAll (as_results a) (as_disabled a) (fun _ => 0)) in
      run_scenarios algs modes scs a
  end.
End run_all.

(** RunAll: the shared clients are opened and closed without being used. *)
Definition RunAll {St} {Kf : Kafka St} {T : Target St} {Gr : Grpc} {H : Hdr} {G : Gonum} (eaddr edns eop : error -> bool)
    (env : Mode -> string -> string -> RunEnv) (wenv : nat -> RunEnv) (r : Runner) : M St (list ExperimentResult) :=
  do! (if decide (0 < length (r_Scenarios r))%nat then runWarmup r wenv else mret tt) in
  let! a := run_scenarios
    (fun sc => runKafka r (env ModeKafka (sc_Name sc) ""%string) sc)
    (fun sc alg mode => runNyaQueue eaddr edns eop r (env mode (sc_Name sc) (al_Name alg)) sc alg mode)
    (r_Algorithms r) (r_Modes r) (r_Scenarios r) (mkAll [] [] (fun _ => 0)) in
  mret (as_results a).
