(* ===== verification/RunnerProps.v ===== *)
(** * The experiment runner: every message is accounted for

    What a producer encodes a consumer decodes; the counts of a result are the
    messages its producers generated and its consumers got; a mode that fails
    three times in a row in a scenario is given up. *)

From Stdlib Require Import Strings.Byte.
From S2P Require Import Prelude Message PriorityIndex Wal Compression GoFloat Config Partition Topic LoadPredictor Metrics Balancer Scheduler Broker.
From S2P Require Import Transport Client Collector CollectorProps Scenarios Harness HarnessProps Runner.

(** ** Latencies *)

Lemma GenerateMessage_length body size : length (GenerateMessage body size) = size.
Proof. unfold GenerateMessage. rewrite length_take, length_app, length_replicate. lia. Qed.

Lemma encodeValue_spec now body size :
  (8 <= size)%nat -> exists rest, encodeValue now body size = Ok (be_put 8 (u64 now) ++ rest) /\ length rest = (size - 8)%nat.
Proof.
  intros Hs. unfold encodeValue, put_at. rewrite GenerateMessage_length, length_be_put, decide_True by lia. eexists. split; [done|].
  rewrite length_drop, GenerateMessage_length. lia.
Qed.

(** What a producer stamps on a message is what the consumer subtracts: a
    value encoded at one time and decoded later, on a clock that did not go back,
    gives the time in between and the time of sending; on a clock that did, it
    is refused, and so is a value too short to hold a time. *)
Theorem latency_round_trip (now later : Z) (body v : bytes) (size : nat) :
  in_i64 now -> later - now < 2 ^ 63 -> encodeValue now body size = Ok v ->
  length v = size /\ decodeLatency later v = (if later <? now then None else Some (later - now, now)) /\
  forall w, (length w < 8)%nat -> decodeLatency later w = None.
Proof.
  intros Hn Hd Hv. assert (Hs : (8 <= size)%nat).
  { unfold encodeValue, put_at in Hv. rewrite GenerateMessage_length, length_be_put in Hv. case_decide; [lia|done]. }
  destruct (encodeValue_spec now body size Hs) as (rest & Hv' & Hl). assert (v = be_put 8 (u64 now) ++ rest) as -> by congruence. rewrite length_app, length_be_put.
  split; [lia|]. split.
  - unfold decodeLatency, timestampPrefixBytes. rewrite length_app, length_be_put, decide_False by lia.
    rewrite take_app_le, take_ge by (rewrite length_be_put; lia). rewrite be_get_put. change (2 ^ (8 * Z.of_nat 8)) with (2 ^ 64).
    rewrite (Z.mod_small (u64 now)) by (unfold u64; apply Z.mod_pos_bound; lia). rewrite i64_u64 by done. unfold time_Sub.
    destruct (Z.ltb_spec later now).
    + rewrite (proj2 (Z.ltb_lt _ _)) by lia. done.
    + rewrite (proj2 (Z.ltb_ge _ _)) by lia. f_equal. f_equal. lia.
  - intros w Hw. unfold decodeLatency, timestampPrefixBytes. by rewrite decide_True.
Qed.

(** ** Accounting *)

Section accounts.
Context {St : Type} {Kf : Kafka St} {T : Target St} {B : nat} {L : TargetLaws St B} {Gr : Grpc} {H : Hdr} {HL : HdrLaws H} {G : Gonum}.
Abbreviation HS := (Harness * St)%type.

(** The messages a scenario's producers accounted for. *)
Definition published (n : exp_counters) : Z := xn_produced n + xn_publishErrors n + xn_publishThrottled n.
Definition fetched (n : exp_counters) : Z := xn_consumed n + xn_consumeErrors n.

Lemma iter_run ev f n c : (forall c, xc_step ev c = Ok (f c)) -> xc_run (replicate n ev) c = Ok (Nat.iter n f c).
Proof.
  intros Hf. revert c. induction n as [|n IH]; intros c; [done|]. cbn [replicate xc_run]. rewrite Hf, Ok_bind, IH. f_equal.
  clear IH. induction n as [|n IH]; [done|]. cbn. f_equal. exact IH.
Qed.

Lemma xc_run_app evs1 evs2 c : xc_run (evs1 ++ evs2) c = c ← xc_run evs1 c; xc_run evs2 c.
Proof. revert c. induction evs1 as [|e evs1 IH]; intros c; cbn [app xc_run]; [done|]. destruct (xc_step e c); [|done..]. rewrite !Ok_bind. apply IH. Qed.

Lemma tally_app evs1 evs2 :
  published (tally (evs1 ++ evs2)) = published (tally evs1) + published (tally evs2) /\
  fetched (tally (evs1 ++ evs2)) = fetched (tally evs1) + fetched (tally evs2).
Proof. unfold published, fetched, tally. cbn -[count]. rewrite !count_app. lia. Qed.

Lemma count_replicate (f : xc_event -> bool) n ev : count f (replicate n ev) = if f ev then Z.of_nat n else 0.
Proof.
  induction n as [|n IH]; [by destruct (f ev)|]. cbn [replicate]. change (ev :: replicate n ev) with ([ev] ++ replicate n ev). rewrite count_app, IH.
  assert (count f [ev] = if f ev then 1 else 0) as -> by (cbn; by destruct (f ev)). destruct (f ev); lia.
Qed.

(** The calls a flush makes: one per item of the batch. *)
Definition outcome_events (len n : nat) (err : option error) : list xc_event :=
  replicate n XProduce ++
  match err with
  | Some e => replicate (len - n) (if isThrottleError e then XThrottled else XPublishError)
  | None => []
  end.

Lemma outcome_events_tally len n err :
  (n <= len)%nat -> (err = None -> n = len) ->
  published (tally (outcome_events len n err)) = Z.of_nat len /\ fetched (tally (outcome_events len n err)) = 0 /\
  length (outcome_events len n err) = len /\ Forall xc_event_ok (outcome_events len n err).
Proof.
  intros Hn Hnone. unfold outcome_events, published, fetched, tally. cbn [xn_produced xn_consumed xn_publishErrors xn_publishThrottled xn_consumeErrors].
  rewrite !count_app, !count_replicate. cbn [is_produce is_consume is_publish_error is_throttled is_consume_error]. destruct err as [e|].
  - rewrite !count_replicate, length_app, !length_replicate.
    destruct (isThrottleError e); cbn [is_produce is_consume is_publish_error is_throttled is_consume_error];
      (split; [lia|]; split; [lia|]; split; [lia|]; apply Forall_app_2; by apply Forall_replicate).
  - rewrite (Hnone eq_refl), app_nil_r, length_replicate. cbn [count foldr]. split; [lia|]. split; [lia|]. split; [done|]. by apply Forall_replicate.
Qed.

Lemma flush_accounts now topic p c h st evs :
  harness_ok h -> accounts evs c -> Z.of_nat (length evs + length (p_batch p)) < 2 ^ 63 ->
  exists evs' p' c' s', flush now topic p c (h, st) = Ok (p', c', s') /\ harness_ok s'.1 /\ accounts (evs ++ evs') c' /\ p_batch p' = [] /\
    published (tally evs') = Z.of_nat (length (p_batch p)) /\ fetched (tally evs') = 0 /\ length evs' = length (p_batch p).
Proof.
  intros Hh Hacc Hb. unfold flush. destruct (Z.eqb_spec (Z.of_nat (length (p_batch p))) 0) as [H0|H0].
  { exists [], p, c, (h, st). rewrite app_nil_r. split; [done|]. split; [done|]. split; [done|]. split; [destruct (p_batch p); [done|cbn in H0; lia]|].
    cbn [length]. change (published (tally [])) with 0. split; [lia|]. split; [done|lia]. }
  destruct (PublishBatch_answers now topic (p_batch p) h st Hh) as (h' & st' & n & err & -> & Hh' & Hn & Hnone); [by intros E; rewrite E in H0|].
  rewrite Ok_bind.
  destruct (outcome_events_tally (length (p_batch p)) (Z.to_nat n) err ltac:(lia) ltac:(intros E; rewrite (Hnone E); lia)) as (Hpub & Hfet & Hlen & Hok).
  destruct (run_accounts_from evs _ c Hacc Hok) as (c' & Hrun & Hacc'); [rewrite Hlen; lia|].
  exists (outcome_events (length (p_batch p)) (Z.to_nat n) err), new_producer, c', (h', st'). split; [|by split_and!].
  f_equal. f_equal. f_equal. unfold outcome_events in Hrun. rewrite xc_run_app, (iter_run _ xc_RecordProduce), Ok_bind in Hrun by done.
  destruct err as [e|]; [|by injection Hrun].
  replace (length (p_batch p) - Z.to_nat n)%nat with (Z.to_nat (Z.of_nat (length (p_batch p)) - n)) in Hrun by lia.
  destruct (Z.ltb_spec n (Z.of_nat (length (p_batch p)))).
  - destruct (isThrottleError e).
    + rewrite (iter_run _ xc_RecordPublishThrottled) in Hrun by done. by injection Hrun.
    + rewrite (iter_run _ xc_RecordPublishError) in Hrun by done. by injection Hrun.
  - replace (Z.to_nat (Z.of_nat (length (p_batch p)) - n)) with 0%nat in Hrun by lia. by injection Hrun.
Qed.

Lemma make_item_total sc i : exists it, make_item sc i = Ok it.
Proof.
  unfold make_item. destruct (encodeValue_spec (pi_now i) (pi_body i) (Z.to_nat (msg_size sc))) as (rest & -> & _); [|rewrite Ok_bind; eauto].
  unfold msg_size, timestampPrefixBytes. destruct (sc_MsgSize sc =? 0); [vm_compute; lia|]. destruct (Z.ltb_spec (sc_MsgSize sc) (Z.of_nat 8)); lia.
Qed.

(** One iteration of a producer: the item joins the batch, or is accounted for
    with it. *)
Lemma producer_accounts sc now topic i fired p c h st evs :
  harness_ok h -> accounts evs c -> Z.of_nat (length evs + length (p_batch p) + 1) < 2 ^ 63 ->
  exists evs' p' c' s', producer_iteration sc now topic i fired p c (h, st) = Ok (p', c', s') /\ harness_ok s'.1 /\ accounts (evs ++ evs') c' /\
    published (tally evs') + Z.of_nat (length (p_batch p')) = Z.of_nat (length (p_batch p)) + 1 /\ fetched (tally evs') = 0 /\
    (length evs' + length (p_batch p') = length (p_batch p) + 1)%nat.
Proof.
  intros Hh Hacc Hb. destruct (make_item_total sc i) as [it Hit]. set (p1 := append_item it p).
  assert (Hl1 : length (p_batch p1) = (length (p_batch p) + 1)%nat) by (cbn; rewrite length_app; done).
  assert (Hflush : forall p2, p_batch p2 = p_batch p1 -> exists evs' p' c' s', flush now topic p2 c (h, st) = Ok (p', c', s') /\ harness_ok s'.1 /\
    accounts (evs ++ evs') c' /\ published (tally evs') + Z.of_nat (length (p_batch p')) = Z.of_nat (length (p_batch p)) + 1 /\ fetched (tally evs') = 0 /\
    (length evs' + length (p_batch p') = length (p_batch p) + 1)%nat /\ p_batch p' = []).
  { intros p2 Hp2. destruct (flush_accounts now topic p2 c h st evs Hh Hacc) as (evs' & p' & c' & s' & E & H1 & H2 & H3 & H4 & H5 & H6); [rewrite Hp2; lia|].
    rewrite Hp2 in H4, H6. exists evs', p', c', s'. rewrite H3. cbn [length]. split; [done|]. split; [done|]. split; [done|]. split; [lia|]. split; [done|].
    split; [lia|done]. }
  assert (Hkeep : forall p2, p_batch p2 = p_batch p1 -> exists evs' p' c' s', Ok (p2, c, (h, st)) = Ok (p', c', s') /\ harness_ok s'.1 /\
    accounts (evs ++ evs') c' /\ published (tally evs') + Z.of_nat (length (p_batch p')) = Z.of_nat (length (p_batch p)) + 1 /\ fetched (tally evs') = 0 /\
    (length evs' + length (p_batch p') = length (p_batch p) + 1)%nat).
  { intros p2 Hp2. exists [], p2, c, (h, st). rewrite app_nil_r, Hp2. split; [done|]. split; [done|]. split; [done|]. change (published (tally [])) with 0. cbn [length]. split; [lia|]. split; [done|lia]. }
  unfold producer_iteration. destruct (0 <? sc_RatePerSec sc).
  - unfold limited_iteration. rewrite Hit, Ok_bind. fold p1. destruct (target_bytes sc <=? p_bytes p1).
    + destruct (Hflush p1 eq_refl) as (evs' & p' & c' & [h' st'] & -> & H1 & H2 & H3 & H4 & H5 & H6). rewrite Ok_bind.
      destruct (fired && p_linger p'); [|exists evs', p', c', (h', st'); by split_and!].
      unfold flush. cbn [p_batch]. rewrite H6. cbn [length Z.of_nat]. rewrite Z.eqb_refl. exists evs', (mkProducer [] (p_bytes p') false), c', (h', st').
      rewrite H6 in H3, H5. by split_and!.
    + rewrite Ok_bind. set (p2 := if decide _ then _ else p1). assert (Hp2 : p_batch p2 = p_batch p1) by (unfold p2; by case_decide).
      destruct (fired && p_linger p2); [|by apply Hkeep].
      destruct (Hflush (mkProducer (p_batch p2) (p_bytes p2) false) Hp2) as (evs' & p' & c' & s' & E & H1 & H2 & H3 & H4 & H5 & _). exists evs', p', c', s'. by split_and!.
  - unfold unlimited_iteration. rewrite Hit, Ok_bind. fold p1. destruct (target_bytes sc <=? p_bytes p1); [|by apply Hkeep].
    destruct (Hflush p1 eq_refl) as (evs' & p' & c' & s' & E & H1 & H2 & H3 & H4 & H5 & _). exists evs', p', c', s'. by split_and!.
Qed.

(** The calls for the messages of one fetch. *)
Lemma messages_account draw now msgs : forall i c evs,
  accounts evs c -> (forall i, 0 <= draw i) -> Forall (fun m => 0 <= cm_Priority m < 256) msgs -> Z.of_nat (length evs + 2 * length msgs) < 2 ^ 63 ->
  exists evs' c', record_messages draw now i msgs c = Ok c' /\ accounts (evs ++ evs') c' /\ published (tally evs') = 0 /\
    fetched (tally evs') = Z.of_nat (length msgs) /\ (length evs' <= 2 * length msgs)%nat.
Proof.
  induction msgs as [|m msgs IH]; intros i c evs Hacc Hd Hp Hb; cbn [record_messages].
  { exists [], c. rewrite app_nil_r. by split_and!. }
  apply list.Forall_cons_1 in Hp as [Hpm Hp]. cbn [length] in Hb.
  set (evs1 := match decodeLatency (now i) (cm_Value m) with
               | None => [XConsumeError]
               | Some (lat, enq) => [XConsume (draw i) (cm_Priority m) lat] ++ (if 0 <? cm_ProduceTime m then [XStages (now i) enq (cm_ProduceTime m) (cm_AppendTime m)] else [])
               end).
  assert (H1 : published (tally evs1) = 0 /\ fetched (tally evs1) = 1 /\ (length evs1 <= 2)%nat /\ Forall xc_event_ok evs1).
  { unfold evs1. destruct (decodeLatency _ _) as [[lat enq]|]; [destruct (0 <? _)|]; (split; [done|]; split; [done|]; split; [cbn; lia|]);
      repeat apply list.Forall_cons_2; try apply list.Forall_nil_2; try done; by split. }
  destruct H1 as (Hp1 & Hf1 & Hl1 & Hok1). destruct (run_accounts_from evs evs1 c Hacc Hok1) as (c1 & Hrun & Hacc1); [lia|].
  destruct (IH (i + 1)%nat c1 (evs ++ evs1) Hacc1 Hd Hp) as (evs2 & c2 & Hrec & Hacc2 & Hp2 & Hf2 & Hl2); [rewrite length_app; lia|].
  exists (evs1 ++ evs2), c2. split.
  - rewrite <- Hrec. unfold evs1 in Hrun. destruct (decodeLatency (now i) (cm_Value m)) as [[lat enq]|].
    + cbn [app xc_run xc_step] in Hrun. destruct (RecordConsumeWithPriority (draw i) (cm_Priority m) lat c) as [c0| |]; [|done..].
      rewrite !Ok_bind in *. destruct (0 <? cm_ProduceTime m); cbn [xc_run xc_step] in Hrun; rewrite ?Ok_bind in Hrun; by injection Hrun as ->.
    + by injection Hrun as ->.
  - destruct (tally_app evs1 evs2) as [-> ->]. rewrite app_assoc, length_app. cbn [length]. split; [done|]. split; [lia|]. split; lia.
Qed.

(** How many messages, or errors, a consumer's call brought. *)
Definition brought (r : result (list ConsumedMessage)) : Z :=
  match r with Ok ms => Z.of_nat (length ms) | Err e => if errors_Is e ErrNoMessage then 0 else 1 | Panic => 0 end.

(** At most this many collector calls per iteration. *)
Definition calls : nat := 2 * max B 1.

Definition brought_all (l : list (result (list ConsumedMessage))) : Z := foldr (fun r n => brought r + n) 0 l.

Lemma consumer_accounts draw now ended topic partition c h st evs :
  harness_ok h -> accounts evs c -> (forall i, 0 <= draw i) -> Z.of_nat (length evs + calls) < 2 ^ 63 ->
  exists evs' r c' s', consumer_iteration draw now ended topic partition c (h, st) = Ok (r, c', s') /\ harness_ok s'.1 /\ accounts (evs ++ evs') c' /\
    published (tally evs') = 0 /\ fetched (tally evs') = brought_all (option_list r) /\ (length evs' <= calls)%nat.
Proof.
  intros Hh Hacc Hd Hb. unfold consumer_iteration. destruct (ConsumeBatch_answers topic expGroup partition h st Hh) as (h' & st' & r & -> & Hh' & Hnp & Hms).
  unfold calls in *. destruct r as [ms|e|]; [| |done].
  - destruct (Hms ms eq_refl) as [Hl Hp]. destruct (messages_account draw now ms 0 c evs Hacc Hd Hp) as (evs' & c' & -> & Hacc' & Hpub & Hf & Hlen); [lia|].
    rewrite Ok_bind. exists evs', (Some (Ok ms)), c', (h', st'). split; [done|]. split; [done|]. split; [done|]. split; [done|]. split; [|lia].
    rewrite Hf. cbn. lia.
  - destruct ended.
    { exists [], None, c, (h', st'). rewrite app_nil_r. split_and!; try done. cbn. lia. }
    exists (if errors_Is e ErrNoMessage then [] else [XConsumeError]), (Some (Err e)). eexists _, (h', st'). split; [done|]. split; [done|].
    assert (Hb1 : brought_all (option_list (Some (Err e))) = if errors_Is e ErrNoMessage then 0 else 1)
      by (cbn; destruct (errors_Is e ErrNoMessage); done).
    rewrite Hb1. destruct (errors_Is e ErrNoMessage).
    + rewrite app_nil_r. split; [done|]. split; [done|]. split; [done|]. cbn. lia.
    + destruct (run_accounts_from evs [XConsumeError] c Hacc) as (c' & Hrun & Hacc'); [by apply list.Forall_cons_2; [|apply list.Forall_nil_2]|cbn; lia|].
      injection Hrun as <-. split; [done|]. split; [done|]. split; [done|]. cbn. lia.
Qed.

Lemma sampler_accounts range now c h st evs :
  harness_ok h -> accounts evs c -> Z.of_nat (length evs + 1) < 2 ^ 63 ->
  exists evs' c' s', sample_loads range now c (h, st) = Ok (c', s') /\ harness_ok s'.1 /\ accounts (evs ++ evs') c' /\
    published (tally evs') = 0 /\ fetched (tally evs') = 0 /\ (length evs' <= 1)%nat.
Proof.
  intros Hh Hacc Hb. unfold sample_loads. destruct (GetMetrics_answers range h st Hh) as (h' & st' & r & -> & Hh' & Hnp).
  assert (Hone : forall ev c', xc_step ev c = Ok c' -> xc_event_ok ev -> accounts (evs ++ [ev]) c').
  { intros ev c' Hs Hok. destruct (run_accounts_from evs [ev] c Hacc) as (c'' & Hrun & Hacc'); [by apply list.Forall_cons_2; [|apply list.Forall_nil_2]|cbn; lia|].
    cbn [xc_run] in Hrun. rewrite Hs, Ok_bind in Hrun. by injection Hrun as ->. }
  destruct r as [snap|e|]; [| |done].
  - destruct (ms_HasStdDev snap); [|case_decide].
    + exists [XStdDev now (ms_LoadStdDev snap)]. eexists _, _. split; [done|]. split; [done|]. split; [by apply Hone|]. split; [done|]. split; [done|]. cbn. lia.
    + exists [XLoads now (ms_PartitionLoads snap)]. eexists _, _. split; [done|]. split; [done|]. split; [by apply Hone|]. split; [done|]. split; [done|]. cbn. lia.
    + exists []. eexists _, _. split; [done|]. rewrite app_nil_r. split; [done|]. split; [done|]. split; [done|]. split; [done|]. cbn. lia.
  - exists []. eexists _, _. split; [done|]. rewrite app_nil_r. split; [done|]. split; [done|]. split; [done|]. split; [done|]. cbn. lia.
Qed.

(** *** Interleavings *)

Definition unsent (ps : list producer) : nat := foldr (fun p n => length (p_batch p) + n)%nat 0%nat ps.

Lemma unsent_insert ps k p p' : ps !! k = Some p -> (unsent (<[k := p']> ps) + length (p_batch p) = unsent ps + length (p_batch p'))%nat.
Proof.
  revert k. induction ps as [|q ps IH]; intros [|k] Hk; try done; change (unsent (q :: ps)) with (length (p_batch q) + unsent ps)%nat.
  - injection Hk as ->. cbn. fold (unsent ps). lia.
  - change (unsent (<[S k := p']> (q :: ps))) with (length (p_batch q) + unsent (<[k := p']> ps))%nat. specialize (IH k Hk). lia.
Qed.

Lemma unsent_lookup ps k p : ps !! k = Some p -> (length (p_batch p) <= unsent ps)%nat.
Proof. revert k. induction ps as [|q ps IH]; intros [|k] Hk; try done; cbn; [injection Hk as ->; lia|]. specialize (IH k Hk). unfold unsent in IH. lia. Qed.

Definition is_EvProduce (ev : run_event) : bool := match ev with EvProduce _ _ _ _ => true | _ => false end.
Definition run_event_ok (n : nat) (ev : run_event) : Prop :=
  match ev with EvProduce k _ _ _ => (k < n)%nat | EvConsume draw _ _ _ => forall i, 0 <= draw i | _ => True end.
Lemma brought_all_app l1 l2 : brought_all (l1 ++ l2) = brought_all l1 + brought_all l2.
Proof. induction l1 as [|r l1 IH]; [done|]. cbn. unfold brought_all in IH. rewrite IH. unfold brought_all. lia. Qed.

Lemma event_accounts sc topic ev rs evs :
  run_event_ok (length (rs_producers rs)) ev -> harness_ok (rs_system rs).1 -> accounts evs (rs_collector rs) ->
  Z.of_nat (length evs + unsent (rs_producers rs) + calls) < 2 ^ 63 ->
  exists evs' rs' l, do_event sc topic ev rs = Ok (rs', l) /\ length (rs_producers rs') = length (rs_producers rs) /\ harness_ok (rs_system rs').1 /\
    accounts (evs ++ evs') (rs_collector rs') /\
    published (tally evs') + Z.of_nat (unsent (rs_producers rs')) = Z.of_nat (unsent (rs_producers rs)) + (if is_EvProduce ev then 1 else 0) /\
    fetched (tally evs') = brought_all l /\ (length evs' + unsent (rs_producers rs') <= unsent (rs_producers rs) + calls)%nat.
Proof.
  intros Hok Hh Hacc Hb. destruct rs as [ps c [h st]]. cbn [rs_producers rs_collector rs_system fst] in *. assert (Hc : (1 <= calls)%nat) by (unfold calls; lia).
  destruct ev as [k i now fired|draw now ended q|range now]; cbn [do_event rs_producers rs_collector rs_system run_event_ok is_EvProduce] in *.
  - destruct (lookup_lt_is_Some_2 ps k Hok) as [p Hp]. unfold index. rewrite Hp. cbn [must]. rewrite Ok_bind. pose proof (unsent_lookup ps k p Hp).
    destruct (producer_accounts sc now topic i fired p c h st evs Hh Hacc) as (evs' & p' & c' & s' & -> & H1 & H2 & H3 & H4 & H5); [lia|].
    rewrite Ok_bind. eexists evs', _, _. split; [done|]. cbn [rs_producers rs_collector rs_system]. rewrite length_insert.
    pose proof (unsent_insert ps k p p' Hp). split; [done|]. split; [done|]. split; [done|]. split; [lia|]. split; [done|lia].
  - destruct (consumer_accounts draw now ended topic q c h st evs Hh Hacc Hok) as (evs' & r & c' & s' & -> & H1 & H2 & H3 & H4 & H5); [lia|].
    rewrite Ok_bind. eexists evs', _, _. split; [done|]. cbn [rs_producers rs_collector rs_system]. split; [done|]. split; [done|]. split; [done|].
    split; [lia|]. split; [cbn; lia|lia].
  - destruct (sampler_accounts range now c h st evs Hh Hacc) as (evs' & c' & s' & -> & H1 & H2 & H3 & H4 & H5); [lia|].
    rewrite Ok_bind. eexists evs', _, _. split; [done|]. cbn [rs_producers rs_collector rs_system]. split; [done|]. split; [done|]. split; [done|].
    split; [lia|]. split; [cbn; lia|lia].
Qed.

Definition generated (evs : list run_event) : nat := length (filter (fun ev => is_EvProduce ev = true) evs).

Lemma events_account sc topic revs : forall rs evs,
  Forall (run_event_ok (length (rs_producers rs))) revs -> harness_ok (rs_system rs).1 -> accounts evs (rs_collector rs) ->
  Z.of_nat (length evs + unsent (rs_producers rs) + length revs * calls) < 2 ^ 63 ->
  exists evs' rs' l, run_events sc topic revs rs = Ok (rs', l) /\ length (rs_producers rs') = length (rs_producers rs) /\ harness_ok (rs_system rs').1 /\
    accounts (evs ++ evs') (rs_collector rs') /\
    published (tally evs') + Z.of_nat (unsent (rs_producers rs')) = Z.of_nat (unsent (rs_producers rs)) + Z.of_nat (generated revs) /\
    fetched (tally evs') = brought_all l /\ (length evs' + unsent (rs_producers rs') <= unsent (rs_producers rs) + length revs * calls)%nat.
Proof.
  induction revs as [|ev revs IH]; intros rs evs Hok Hh Hacc Hb; cbn [run_events].
  { exists [], rs, []. rewrite app_nil_r. split; [done|]. split; [done|]. split; [done|]. split; [done|]. change (published (tally [])) with 0. cbn [length generated filter].
    split; [unfold generated; cbn; lia|]. split; [done|]. lia. }
  apply list.Forall_cons_1 in Hok as [Hev Hok]. cbn [length Nat.mul] in Hb.
  destruct (event_accounts sc topic ev rs evs Hev Hh Hacc) as (evs1 & rs1 & l1 & -> & Hl1 & Hh1 & Hacc1 & Hp1 & Hf1 & Hn1); [lia|]. rewrite Ok_bind.
  destruct (IH rs1 (evs ++ evs1)) as (evs2 & rs2 & l2 & -> & Hl2 & Hh2 & Hacc2 & Hp2 & Hf2 & Hn2); [by rewrite Hl1|done|done|rewrite length_app; lia|].
  rewrite Ok_bind. exists (evs1 ++ evs2), rs2, (l1 ++ l2). split; [done|]. split; [congruence|]. split; [done|]. split; [by rewrite app_assoc|].
  destruct (tally_app evs1 evs2) as [-> ->]. rewrite brought_all_app, length_app. cbn [length Nat.mul]. split; [|split; lia].
  assert (Hg : Z.of_nat (generated (ev :: revs)) = (if is_EvProduce ev then 1 else 0) + Z.of_nat (generated revs)).
  { unfold generated. rewrite filter_cons. destruct (is_EvProduce ev); case_decide; try done; cbn [length]; lia. }
  rewrite Hg. lia.
Qed.

Lemma finish_accounts topic now ps : forall c h st evs,
  harness_ok h -> accounts evs c -> Z.of_nat (length evs + unsent ps) < 2 ^ 63 ->
  exists evs' c' s', finish_producers topic now ps c (h, st) = Ok (c', s') /\ harness_ok s'.1 /\ accounts (evs ++ evs') c' /\
    published (tally evs') = Z.of_nat (unsent ps) /\ fetched (tally evs') = 0 /\ length evs' = unsent ps.
Proof.
  induction ps as [|p ps IH]; intros c h st evs Hh Hacc Hb; cbn [finish_producers].
  { exists [], c, (h, st). rewrite app_nil_r. by split_and!. }
  change (unsent (p :: ps)) with (length (p_batch p) + unsent ps)%nat in *.
  destruct (flush_accounts now topic p c h st evs Hh Hacc) as (evs1 & p1 & c1 & [h1 st1] & -> & Hh1 & Hacc1 & _ & Hp1 & Hf1 & Hl1); [lia|]. rewrite Ok_bind.
  destruct (IH c1 h1 st1 (evs ++ evs1) Hh1 Hacc1) as (evs2 & c2 & s2 & -> & Hh2 & Hacc2 & Hp2 & Hf2 & Hl2); [rewrite length_app; lia|].
  exists (evs1 ++ evs2), c2, s2. rewrite app_assoc, length_app. destruct (tally_app evs1 evs2) as [-> ->]. split; [done|]. split; [done|]. split; [done|].
  split; [lia|]. split; lia.
Qed.

(** C37: Every message of an experiment is accounted for.  However the iterations
    of the producers, consumers and the sampler interleave, and whatever the
    system under test answers, a scenario runs to its end without a panic and
    returns a result in which the messages produced, refused by throttling and
    failed are together exactly the messages its producers generated, those left
    in their batches when it was cancelled included, and the messages consumed
    and the consume errors are together exactly what its consumers' calls brought;
    a call that fails because the scenario ended brings nothing. *)
Theorem experiment_accounts t revs late now sc algName system mode topic h st :
  harness_ok h -> Forall (run_event_ok (started_producers sc)) revs -> Forall (run_event_ok 0) late ->
  Z.of_nat ((length revs + length late) * calls) < 2 ^ 63 ->
  exists r l s, runScenario t revs late now sc algName system mode topic (h, st) = Ok (r, l, s) /\
    er_Produced r + er_PublishErrors r + er_MessagesThrottled r = Z.of_nat (generated revs) /\
    er_Consumed r + er_ConsumeErrors r = brought_all l.
Proof.
  intros Hh Hrev Hlate Hb. unfold runScenario. set (rs0 := mkRun _ _ _).
  assert (Hu0 : unsent (rs_producers rs0) = 0%nat). { cbn [rs_producers rs0]. generalize (started_producers sc). clear. intros n. induction n as [|n IH]; [done|]. exact IH. }
  assert (Hacc0 : accounts [] (rs_collector rs0)) by exact accounts_new.
  destruct (events_account sc topic revs rs0 []) as (evs1 & rs1 & l1 & -> & Hl1 & Hh1 & Hacc1 & Hp1 & Hf1 & Hn1).
  { cbn [rs_producers rs0]. by rewrite length_replicate. } { done. } { done. } { rewrite Hu0. cbn [length]. lia. }
  rewrite Ok_bind. destruct rs1 as [ps1 c1 [h1 st1]]. cbn [rs_producers rs_collector rs_system app fst] in *.
  destruct (finish_accounts topic now ps1 c1 h1 st1 evs1 Hh1 Hacc1) as (evs2 & c2 & [h2 st2] & -> & Hh2 & Hacc2 & Hp2 & Hf2 & Hn2); [lia|]. rewrite Ok_bind.
  destruct (events_account sc topic late (mkRun [] c2 (h2, st2)) (evs1 ++ evs2)) as (evs3 & rs3 & l3 & -> & Hl3 & Hh3 & Hacc3 & Hp3 & Hf3 & Hn3);
    [done|done|done|cbn [rs_producers unsent foldr]; rewrite length_app; lia|]. rewrite Ok_bind.
  assert (Hstop : accounts ((evs1 ++ evs2) ++ evs3) (xc_Stop t.2 (rs_collector rs3))) by exact Hacc3.
  destruct (snapshot_accounts _ _ t.2 (sc_Name sc) algName system (Mode_String mode) Hstop) as (r & -> & Htal & _). rewrite Ok_bind.
  eexists r, _, _. split; [done|]. rewrite brought_all_app.
  assert (Hgen3 : generated late = 0%nat).
  { unfold generated. clear -Hlate. induction Hlate as [|ev late Hev _ IH]; [done|]. rewrite filter_cons_False; [done|]. destruct ev; cbn in *; [lia|done..]. }
  destruct rs3 as [ps3 c3 s3]. cbn [rs_producers rs_collector rs_system length] in *. destruct ps3; [|done]. cbn [unsent foldr] in *.
  destruct (tally_app (evs1 ++ evs2) evs3) as [Hpa Hfa]. destruct (tally_app evs1 evs2) as [Hpb Hfb]. rewrite <- Htal in Hpa, Hfa.
  unfold published at 1 in Hpa. unfold fetched at 1 in Hfa. cbn [xn_produced xn_consumed xn_publishErrors xn_publishThrottled xn_consumeErrors] in Hpa, Hfa.
  rewrite Hu0 in Hp1. split; lia.
Qed.
End accounts.

(** ** Giving up on a mode *)

Section fail_fast.
Context {R : Type} (out_kafka : Scenario -> option R) (out_nya : Scenario -> Algorithm -> Mode -> option R).

(** The outcome of each run is given; the state is the log of the runs tried. *)
Definition tried : Type := Scenario * option Algorithm * Mode.
Definition outcome (x : tried) : option R := let '(sc, al, m) := x in match al with Some al => out_nya sc al m | None => out_kafka sc end.
Definition logged (x : tried) : M (list tried) R := fun log =>
  (log ++ [x], match outcome x with Some r => Ok r | None => Err (Errorf "run failed") end).
Definition log_kafka (sc : Scenario) : M (list tried) R := logged (sc, None, ModeKafka).
Definition log_nya (sc : Scenario) (al : Algorithm) (m : Mode) : M (list tried) R := logged (sc, Some al, m).

(** The algorithms tried in one scenario with one mode, [fails] failures in a row
    so far, and whether the mode is given up. *)
Fixpoint tries (ok : Algorithm -> bool) (algs : list Algorithm) (fails : Z) : list Algorithm * bool :=
  match algs with
  | [] => ([], false)
  | al :: algs =>
      if ok al then let '(l, d) := tries ok algs 0 in (al :: l, d)
      else if 3 <=? fails + 1 then ([al], true)
      else let '(l, d) := tries ok algs (fails + 1) in (al :: l, d)
  end.

Definition succeeds (sc : Scenario) (m : Mode) (al : Algorithm) : bool := bool_decide (is_Some (out_nya sc al m)).

Definition of_mode (m : Mode) (log : list tried) : list (Scenario * option Algorithm) :=
  omap (fun '(sc, al, m') => if decide (m' = m) then Some (sc, al) else None) log.

(** The mode is given up after three failures in a row; otherwise all algorithms
    are tried. *)
Lemma tries_spec ok algs fails :
  0 <= fails < 3 -> let '(l, d) := tries ok algs fails in
  l `prefix_of` algs /\ (d = false -> l = algs) /\
  (d = true -> exists l1 l2, l = l1 ++ l2 /\ Forall (fun al => ok al = false) l2 /\ (length l2 = 3%nat \/ l1 = [] /\ Z.of_nat (length l2) = 3 - fails)).
Proof.
  revert fails. induction algs as [|al algs IH]; intros fails Hf; cbn [tries]; [done|]. destruct (ok al) eqn:Hok.
  - specialize (IH 0 ltac:(lia)). destruct (tries ok algs 0) as [l d]. destruct IH as (Hp & Hall & Hd). split; [by apply prefix_cons|].
    split; [intros E; by rewrite (Hall E)|]. intros E. destruct (Hd E) as (l1 & l2 & -> & Hl2 & Hlen). exists (al :: l1), l2. split; [done|]. split; [done|].
    left. destruct Hlen as [|[_ Hlen]]; lia.
  - destruct (Z.leb_spec 3 (fails + 1)).
    + split; [apply prefix_cons, prefix_nil|]. split; [done|]. intros _. exists [], [al]. split; [done|]. split; [by apply list.Forall_singleton|]. right. split; [done|]. cbn. lia.
    + specialize (IH (fails + 1) ltac:(lia)). destruct (tries ok algs (fails + 1)) as [l d]. destruct IH as (Hp & Hall & Hd). split; [by apply prefix_cons|].
      split; [intros E; by rewrite (Hall E)|]. intros E. destruct (Hd E) as (l1 & l2 & -> & Hl2 & [Hlen|[-> Hlen]]).
      * exists (al :: l1), l2. split; [done|]. split; [done|]. by left.
      * exists [], (al :: l2). split; [done|]. split; [by apply list.Forall_cons_2|]. right. split; [done|]. cbn [length]. lia.
Qed.

(** The state after some runs: the log grew by [new], the results by its
    successes. *)
Definition grew (log : list tried) (a : all_state) (log' : list tried) (a' : all_state) (new : list tried) : Prop :=
  log' = log ++ new /\ as_results a' = as_results a ++ omap outcome new.

Lemma grew_trans log a log1 a1 new1 log2 a2 new2 : grew log a log1 a1 new1 -> grew log1 a1 log2 a2 new2 -> grew log a log2 a2 (new1 ++ new2).
Proof. intros [-> H1] [-> H2]. split; [by rewrite app_assoc|]. by rewrite H2, H1, omap_app, app_assoc. Qed.

(** The other modes are as they were. *)
Definition only (m : Mode) (a a' : all_state (R := R)) : Prop :=
  forall m', m' <> m -> is_disabled m' a' = is_disabled m' a /\ as_fails a' m' = as_fails a m'.

Lemma is_disabled_cons m m' r ds f : is_disabled m (mkAll (R := R) r (m' :: ds) f) = bool_decide (m = m') || bool_decide (m ∈ ds).
Proof. unfold is_disabled. cbn [as_disabled]. rewrite <- bool_decide_or. apply bool_decide_ext. apply elem_of_cons. Qed.

(** One run and its bookkeeping. *)
Lemma record_run_spec x m (a : all_state) log :
  x.2 = m -> is_disabled m a = false ->
  exists a', record_run m (logged x) a log = (log ++ [x], Ok a') /\ grew log a (log ++ [x]) a' [x] /\ only m a a' /\
    match outcome x with
    | Some _ => is_disabled m a' = false /\ as_fails a' m = 0
    | None => is_disabled m a' = (3 <=? as_fails a m + 1) /\ as_fails a' m = as_fails a m + 1
    end.
Proof.
  intros Hx Hd. unfold record_run, mthen, mtry, logged, mret. destruct (outcome x) as [r|] eqn:Ho; eexists; (split; [done|]).
  - split; [split; [done|]; cbn; by rewrite Ho|]. split; [intros m' Hm'; cbn; by rewrite decide_False|]. cbn. by rewrite decide_True.
  - unfold failed_run, failFastThreshold. cbn [set_fails as_fails as_results as_disabled].
    destruct (3 <=? as_fails a m + 1) eqn:H3; (split; [split; [done|]; cbn; by rewrite Ho, app_nil_r|]).
    + split; [intros m' Hm'; rewrite is_disabled_cons, bool_decide_false by done; cbn; by rewrite decide_False|].
      rewrite is_disabled_cons, bool_decide_true by done. cbn. by rewrite decide_True.
    + split; [intros m' Hm'; cbn; by rewrite decide_False|]. cbn. by rewrite decide_True.
Qed.

Lemma run_algorithms_spec sc m algs : forall (a : all_state) log,
  is_disabled m a = false -> 0 <= as_fails a m < 3 ->
  let '(l, d) := tries (succeeds sc m) algs (as_fails a m) in
  exists a', run_algorithms log_nya sc m algs a log = (log ++ ((fun al => (sc, Some al, m)) <$> l), Ok a') /\
    grew log a (log ++ ((fun al => (sc, Some al, m)) <$> l)) a' ((fun al => (sc, Some al, m)) <$> l) /\ only m a a' /\ is_disabled m a' = d.
Proof.
  induction algs as [|al algs IH]; intros a log Hd Hf; cbn [tries run_algorithms].
  { exists a. cbn. rewrite app_nil_r. split; [done|]. split; [|done]. split; [by rewrite app_nil_r|]. cbn. by rewrite app_nil_r. }
  rewrite Hd. destruct (record_run_spec (sc, Some al, m) m a log eq_refl Hd) as (a1 & Hrun & Hg1 & Ho1 & Hcase).
  change (log_nya sc al m) with (logged (sc, Some al, m)). unfold mthen. rewrite Hrun. cbn [outcome] in Hcase. unfold succeeds at 1.
  assert (Hgo : forall l d, is_disabled m a1 = false -> 0 <= as_fails a1 m < 3 -> tries (succeeds sc m) algs (as_fails a1 m) = (l, d) ->
    exists a', run_algorithms log_nya sc m algs a1 (log ++ [(sc, Some al, m)]) = (log ++ ((fun al => (sc, Some al, m)) <$> (al :: l)), Ok a') /\
      grew log a (log ++ ((fun al => (sc, Some al, m)) <$> (al :: l))) a' ((fun al => (sc, Some al, m)) <$> (al :: l)) /\ only m a a' /\ is_disabled m a' = d).
  { intros l d Hd1 Hf1 Ht. specialize (IH a1 (log ++ [(sc, Some al, m)]) Hd1 Hf1). rewrite Ht in IH. destruct IH as (a2 & -> & Hg2 & Ho2 & Hd2).
    exists a2. rewrite fmap_cons. rewrite <- app_assoc in *. split; [done|]. split; [exact (grew_trans _ _ _ _ [_] _ _ _ Hg1 Hg2)|]. split; [|done].
    intros m' Hm'. destruct (Ho1 m' Hm') as [E1 E2], (Ho2 m' Hm') as [E3 E4]. split; congruence. }
  destruct (out_nya sc al m) as [r|] eqn:Hr.
  - rewrite bool_decide_true by done. destruct Hcase as [Hd1 Hf1]. destruct (tries (succeeds sc m) algs 0) as [l d] eqn:Ht.
    apply (Hgo l d); [done|lia|by rewrite Hf1].
  - rewrite bool_decide_false by (by intros [? ?]). destruct Hcase as [Hd1 Hf1]. destruct (Z.leb_spec 3 (as_fails a m + 1)) as [H3|H3].
    + exists a1. cbn [fmap list_fmap]. split; [|by split]. destruct algs; cbn [run_algorithms]; [done|]. by rewrite Hd1.
    + destruct (tries (succeeds sc m) algs (as_fails a m + 1)) as [l d] eqn:Ht. apply (Hgo l d); [done|lia|by rewrite Hf1].
Qed.

Lemma of_mode_app m l1 l2 : of_mode m (l1 ++ l2) = of_mode m l1 ++ of_mode m l2.
Proof. apply omap_app. Qed.

Lemma of_mode_all sc m (l : list Algorithm) : of_mode m ((fun al => (sc, Some al, m)) <$> l) = (fun al => (sc, Some al)) <$> l.
Proof. induction l as [|al l IH]; [done|]. cbn. rewrite decide_True by done. by f_equal. Qed.

Lemma of_mode_other sc m m' (l : list Algorithm) : m' <> m -> of_mode m ((fun al => (sc, Some al, m')) <$> l) = [].
Proof. intros Hm. induction l as [|al l IH]; [done|]. cbn. by rewrite decide_False. Qed.

(** What a mode tries in one scenario, and whether it is given up in it. *)
Definition in_scenario (algs : list Algorithm) (m : Mode) (sc : Scenario) : list (Scenario * option Algorithm) * bool :=
  if decide (m = ModeKafka) then ([(sc, None)], false)
  else let '(l, d) := tries (succeeds sc m) algs 0 in ((fun al => (sc, Some al)) <$> l, d).

(** What a mode tries over the scenarios: all of them until it is given up. *)
Fixpoint mode_log (algs : list Algorithm) (m : Mode) (scs : list Scenario) : list (Scenario * option Algorithm) :=
  match scs with
  | [] => []
  | sc :: scs => let '(l, d) := in_scenario algs m sc in l ++ if d then [] else mode_log algs m scs
  end.

Lemma run_mode_spec sc algs m (a : all_state) log :
  as_fails a m = 0 ->
  exists a' new, run_mode log_kafka log_nya sc algs m a log = (log ++ new, Ok a') /\ grew log a (log ++ new) a' new /\ only m a a' /\
    (forall m', m' <> m -> of_mode m' new = []) /\
    (if is_disabled m a then of_mode m new = [] /\ is_disabled m a' = true
     else of_mode m new = (in_scenario algs m sc).1 /\ is_disabled m a' = (in_scenario algs m sc).2).
Proof.
  intros Hf. unfold run_mode, in_scenario. destruct (is_disabled m a) eqn:Hd.
  { exists a, []. unfold mret. rewrite app_nil_r. split; [done|]. split; [split; cbn; by rewrite app_nil_r|]. by split_and!. }
  destruct (decide (m = ModeKafka)) as [->|Hm].
  - destruct (record_run_spec (sc, None, ModeKafka) ModeKafka a log eq_refl Hd) as (a1 & Hrun & Hg & Ho & Hcase).
    exists a1, [(sc, None, ModeKafka)]. split; [exact Hrun|]. split; [done|]. split; [done|].
    split; [intros m' Hm'; cbn; by rewrite decide_False|]. split; [done|]. cbn [outcome] in Hcase. rewrite Hf in Hcase. by destruct (out_kafka sc); destruct Hcase as [-> _].
  - pose proof (run_algorithms_spec sc m algs a log Hd ltac:(lia)) as Hrun. rewrite Hf in Hrun. destruct (tries _ algs 0) as [l d].
    destruct Hrun as (a1 & Hrun & Hg & Ho & Hd1). exists a1, ((fun al => (sc, Some al, m)) <$> l). split; [exact Hrun|]. split; [done|]. split; [done|].
    split; [intros m' Hm'; by apply of_mode_other|]. split; [apply of_mode_all|done].
Qed.

Lemma run_modes_spec sc algs m modes : forall (a : all_state) log,
  NoDup modes -> (forall m', m' ∈ modes -> as_fails a m' = 0) ->
  exists a' new, run_modes log_kafka log_nya sc algs modes a log = (log ++ new, Ok a') /\ grew log a (log ++ new) a' new /\
    (if bool_decide (m ∈ modes) && negb (is_disabled m a)
     then of_mode m new = (in_scenario algs m sc).1 /\ is_disabled m a' = (in_scenario algs m sc).2
     else of_mode m new = [] /\ is_disabled m a' = is_disabled m a).
Proof.
  induction modes as [|m1 modes IH]; intros a log Hnd Hf; cbn [run_modes].
  { exists a, []. unfold mret. rewrite app_nil_r. split; [done|]. split; [split; cbn; by rewrite app_nil_r|]. by rewrite bool_decide_false by (by apply not_elem_of_nil). }
  apply list.NoDup_cons in Hnd as [Hnot Hnd]. destruct (run_mode_spec sc algs m1 a log (Hf m1 ltac:(by left))) as (a1 & new1 & Hrun1 & Hg1 & Ho1 & Hoth & Hcase1).
  unfold mthen. rewrite Hrun1. destruct (IH a1 (log ++ new1) Hnd) as (a2 & new2 & -> & Hg2 & Hcase2).
  { intros m' Hm'. rewrite (proj2 (Ho1 m' ltac:(congruence))). apply Hf. by right. }
  exists a2, (new1 ++ new2). rewrite <- app_assoc in *. split; [done|]. split; [exact (grew_trans _ _ _ _ _ _ _ _ Hg1 Hg2)|]. rewrite of_mode_app.
  destruct (decide (m = m1)) as [->|Hne].
  - rewrite (bool_decide_false (m1 ∈ modes)) in Hcase2 by done. cbn [andb] in Hcase2. destruct Hcase2 as [-> ->]. rewrite app_nil_r, bool_decide_true by (by left).
    destruct (is_disabled m1 a) eqn:Hd; cbn [andb negb]; [destruct Hcase1 as [-> ->]; done|done].
  - rewrite (Hoth m Hne). cbn [app]. destruct (Ho1 m Hne) as [Hd1 _]. rewrite Hd1 in Hcase2.
    replace (bool_decide (m ∈ m1 :: modes)) with (bool_decide (m ∈ modes)); [done|]. apply bool_decide_ext. rewrite elem_of_cons. naive_solver.
Qed.

Lemma run_scenarios_spec algs modes m scs : forall (a : all_state) log,
  NoDup modes -> m ∈ modes ->
  exists a' new, run_scenarios log_kafka log_nya algs modes scs a log = (log ++ new, Ok a') /\ grew log a (log ++ new) a' new /\
    of_mode m new = if is_disabled m a then [] else mode_log algs m scs.
Proof.
  induction scs as [|sc scs IH]; intros a log Hnd Hm; cbn [run_scenarios mode_log].
  { exists a, []. unfold mret. rewrite app_nil_r. split; [done|]. split; [split; cbn; by rewrite app_nil_r|]. by destruct (is_disabled m a). }
  destruct (run_modes_spec sc algs m modes (mkAll (as_results a) (as_disabled a) (fun _ => 0)) log Hnd ltac:(done)) as (a1 & new1 & Hrun & Hg1 & Hcase).
  unfold mthen. rewrite Hrun. destruct (IH a1 (log ++ new1) Hnd Hm) as (a2 & new2 & -> & Hg2 & Hnew2).
  exists a2, (new1 ++ new2). rewrite <- app_assoc in *. split; [done|]. split; [exact (grew_trans _ _ _ _ _ _ _ _ Hg1 Hg2)|]. rewrite of_mode_app, Hnew2.
  rewrite bool_decide_true in Hcase by done. change (is_disabled m (mkAll _ (as_disabled a) _)) with (is_disabled m a) in Hcase.
  destruct (is_disabled m a); cbn [andb negb] in Hcase; destruct Hcase as [-> ->]; [done|]. by destruct (in_scenario algs m sc) as [l [|]].
Qed.

(** C38: Which runs are tried, and which results are reported.  Whatever the
    outcomes, RunAll reports the results of exactly the runs that succeeded, in
    order.  With a mode other than Kafka it tries the algorithms one after the
    other in every scenario, until three in a row have failed in one scenario;
    then, and only then, the mode is given up for good.  Kafka, which runs once
    per scenario, is tried in every scenario however often it failed. *)
Theorem RunAll_fail_fast algs modes scs m :
  NoDup modes -> m ∈ modes ->
  exists a log, run_scenarios log_kafka log_nya algs modes scs (mkAll [] [] (fun _ => 0)) [] = (log, Ok a) /\
    as_results a = omap outcome log /\ of_mode m log = mode_log algs m scs /\
    (m = ModeKafka -> of_mode m log = (fun sc => (sc, None)) <$> scs) /\
    forall sc, let '(l, d) := tries (succeeds sc m) algs 0 in
      l `prefix_of` algs /\ (d = false -> l = algs) /\
      (d = true -> exists l' a1 a2 a3, l = l' ++ [a1; a2; a3] /\ Forall (fun al => succeeds sc m al = false) [a1; a2; a3]).
Proof.
  intros Hnd Hm. destruct (run_scenarios_spec algs modes m scs (mkAll [] [] (fun _ => 0)) [] Hnd Hm) as (a & log & Hrun & [_ Hres] & Hlog).
  assert (is_disabled m (mkAll (R := R) [] [] (fun _ => 0)) = false) as Hd by (apply bool_decide_false, not_elem_of_nil). rewrite Hd in Hlog.
  exists a, log. split; [exact Hrun|]. split; [exact Hres|]. split; [done|]. split.
  - intros ->. rewrite Hlog. clear. induction scs as [|sc scs IH]; [done|]. cbn [mode_log in_scenario]. unfold in_scenario. rewrite decide_True by done. cbn. by rewrite IH.
  - intros sc. pose proof (tries_spec (succeeds sc m) algs 0 ltac:(lia)) as Ht. destruct (tries _ algs 0) as [l d]. destruct Ht as (H1 & H2 & H3).
    split; [done|]. split; [done|]. intros E. destruct (H3 E) as (l1 & l2 & -> & Hf & Hlen).
    assert (Hl2 : length l2 = 3%nat) by lia. destruct l2 as [|a1 [|a2 [|a3 [|]]]]; try done. by exists l1, a1, a2, a3.
Qed.
End fail_fast.

(** ** The properties at concrete runs *)

Lemma latency_round_trip_witness :
  exists v, encodeValue 1000 [x01; x02] 16 = Ok v /\ length v = 16%nat /\ decodeLatency 4000 v = Some (3000, 1000) /\ decodeLatency 4000 [x00] = None.
Proof.
  eexists. split; [vm_compute; reflexivity|].
  destruct (latency_round_trip 1000 4000 [x01; x02] _ 16 ltac:(unfold in_i64; lia) ltac:(lia) eq_refl) as (Hl & Hd & Hs).
  split; [exact Hl|]. split; [exact Hd|]. apply Hs. cbn. lia.
Defined.

(** A queue with room for two messages; the other systems are down. *)
Definition down {St A} : M St A := mfail (Errorf "connection refused").
Definition queue_publish (msgs : list Message) (q : list Message) : list Message * result (list PublishResult) :=
  (take 2 (q ++ msgs),
   Ok (imap (fun i _ => if decide (length q + i < 2)%nat then mkPublishResult 0 (Z.of_nat (length q + i)) None else mkPublishResult 0 0 (Some ErrThrottled)) msgs)).
Definition queue_consume (q : list Message) : list Message * result (list Message * Z) :=
  match q with [] => ([], Err ErrNoMessages) | m :: q => (q, Ok ([m], 0)) end.

#[local] Instance no_kafka : Kafka (list Message) := {|
  kwriter := unit; kreader := unit; kafka_Dial _ := down; kafka_Controller _ := down; kafka_CreateTopics _ _ _ := down; kafka_DeleteTopics _ _ := down;
  kafka_UnknownTopic _ := false; kafka_NewWriter _ _ := tt; kafka_WriteMessages _ _ := down; kafka_CloseWriter _ st := st;
  kafka_NewReader _ _ _ _ := tt; kafka_ReadMessage _ := down; kafka_CloseReader _ st := st;
|}.
#[local] Instance queue_target : Target (list Message) := {|
  tg_New _ _ _ := mret tt; tg_Start := mret tt; tg_Stop st := st; tg_Addr _ := ""%string; tg_HTTPAddr _ := ""%string;
  brk_CreateTopic _ _ := mret tt; brk_DeleteTopic _ := mret tt; brk_SetScheduler _ _ st := st; brk_Publish _ _ := down;
  brk_PublishBatch _ := queue_publish; brk_ConsumeBatch _ _ _ _ := queue_consume; brk_Metrics _ := Snapshot (NewMetricsCollector 0);
  tg_Dial _ := down; tg_CloseGRPC st := st; tg_cancelled _ := None; rpc_Produce _ := down; rpc_Consume _ := down; rpc_CreateTopic _ _ _ := down;
  rpc_DeleteTopic _ := down; rpc_ListTopics := down; rpc_GetMetrics := down; do_Produce _ _ := down; do_Consume _ := down; do_CreateTopic _ := down;
  do_DeleteTopic _ := down; do_ListTopics := down; do_GetMetrics := down;
|}.
#[local] Instance queue_laws : TargetLaws (list Message) 1.
Proof.
  split; try (intros; split; done); try done.
  - intros topic msgs st. eexists _, _. split; [done|]. apply length_imap.
  - intros topic group p n st. cbn. unfold queue_consume. destruct st as [|m q]; cbn; split; try done. intros ms off [= <- _]. done.
Qed.
#[local] Instance plain_grpc : Grpc := {| status_Code _ := codes_Unknown |}.
#[local] Existing Instances list_Hdr list_Hdr_laws plain_stats.

(** Two items fill a batch. *)
Definition toy_scenario : Scenario := mkScenario "toy" 0 1 1 1 16 0 0 0 0 uniformPriorities 42 40 0.
Definition toy_harness : Harness (St := list Message) := mkHarness ModeInProcess true false false None false "" "" "" ∅.
Definition toy_input : produce_input := mkProduceInput 0 7 0.5 [] 1000.
Definition toy_events : list run_event :=
  [EvProduce 0 toy_input (fun _ => 1000) false; EvProduce 0 toy_input (fun _ => 1000) false; EvProduce 0 toy_input (fun _ => 1000) false;
   EvConsume (fun _ => 0) (fun _ => 2000) false 0; EvSample map_to_list 3000].

Lemma experiment_accounts_witness :
  exists r l s, runScenario (0, 9000) toy_events [EvConsume (fun _ => 0) (fun _ => 4000) true 0] (fun _ => 1000) toy_scenario "toy" "queue" ModeInProcess "t"
      (toy_harness, []) = Ok (r, l, s) /\
    er_Produced r + er_PublishErrors r + er_MessagesThrottled r = 3 /\ er_Consumed r + er_ConsumeErrors r = brought_all l.
Proof.
  apply (experiment_accounts (0, 9000) toy_events [EvConsume (fun _ => 0) (fun _ => 4000) true 0] (fun _ => 1000) toy_scenario "toy" "queue" ModeInProcess "t" toy_harness []).
  - intros Hm. discriminate Hm.
  - repeat apply list.Forall_cons_2; try apply list.Forall_nil_2; cbn; first [lia | (vm_compute; lia) | intros ?; lia | exact I].
  - repeat apply list.Forall_cons_2; try apply list.Forall_nil_2; cbn; first [lia | intros ?; lia | exact I].
  - vm_compute. reflexivity.
Defined.

(** gRPC always fails; the second scenario has only Kafka left. *)
Definition four_algs : list Algorithm := [mkAlg "A" ModeFIFO; mkAlg "B" ModeFIFO; mkAlg "C" ModeFIFO; mkAlg "D" ModeFIFO].
Lemma RunAll_fail_fast_witness :
  exists a log, run_scenarios (log_kafka (fun _ => None) (fun _ _ _ => None)) (log_nya (R := unit) (fun _ => None) (fun _ _ _ => None))
      four_algs [ModeGRPC; ModeKafka] [Uniform; Skewed] (mkAll [] [] (fun _ => 0)) [] = (log, Ok a) /\ as_results a = [] /\
    of_mode ModeGRPC log = [(Uniform, Some (mkAlg "A" ModeFIFO)); (Uniform, Some (mkAlg "B" ModeFIFO)); (Uniform, Some (mkAlg "C" ModeFIFO))].
Proof.
  destruct (RunAll_fail_fast (R := unit) (fun _ => None) (fun _ _ _ => None) four_algs [ModeGRPC; ModeKafka] [Uniform; Skewed] ModeGRPC)
    as (a & log & Hrun & Hres & Hlog & _).
  - repeat (apply list.NoDup_cons; split; [intros Hin; repeat (apply elem_of_cons in Hin as [Hin|Hin]; [discriminate Hin|]); by apply not_elem_of_nil in Hin|]).
    apply NoDup_nil_2.
  - by left.
  - exists a, log. split; [exact Hrun|]. split; [|rewrite Hlog; vm_compute; reflexivity].
    rewrite Hres. clear. induction log as [|[[sc [al|]] m] log IH]; [done|exact IH|exact IH].
Defined.
