(* ===== verification/Commands.v ===== *)
(** * The commands (src/cmd, src/experiments/reporter.go)

    The load generator, the consumer, the exporter of broker metrics and the
    experiment command with its report, and the start of the broker.  A command's
    loops are functions of what they meet: the outcome of a wait, whether the
    context is done, clock readings, random draws; a remote call is a function on
    the state of the other side, as in Client.  Metrics are labelled
    values, as in Prometheus.  The parsing of flags and configuration files is koanf's. *)

From Stdlib Require Import Strings.Byte.
From stdpp Require Import pretty.
From S2P Require Import Prelude Message PriorityIndex Wal Compression GoFloat Config Partition Topic OffsetStore LoadPredictor Metrics Prometheus Balancer RoundRobin P2C PSA.
From S2P Require Import Scheduler NN QNet DqnScheduler DqnBalancer Preprocessing Broker Transport Client Optimizer Collector App Scenarios Harness Runner.

(** ** Validation of the commands' configurations

    The rules the validators use on strings; an integer's are Config's.  A field
    comes with the verdicts of its rules. *)

Definition StringNotEmpty (s : string) : bool := bool_decide (s <> ""%string).
Definition OneOf (allowed : list string) (s : string) : bool := bool_decide (s ∈ allowed).
Definition int_rules (v : Z) (rs : list rule) : list bool := rule_holds v <$> rs.

(** [Validate] of a validator: no error exactly when every rule holds. *)
Class GovyFields : Type := { govy_Fields : string -> list (string * list bool) -> result unit }.
Class GovyFieldsLaws (V : GovyFields) : Prop := {
  Fields_Ok name fs : govy_Fields name fs = Ok tt <-> Forall (fun f => Forall (fun ok => ok = true) f.2) fs;
}.

Definition context_Canceled : error := ErrLib "context" "canceled".

(** ** The consumer (src/cmd/consumer) *)

Definition fetchMaxBytes : Z := 2 ^ 20.
Definition idleSleep : Z := 50 * time_Millisecond.
Definition resolveRetryDelay : Z := time_Second.

Record ConsumerConfig : Type := mkConsumerConfig {
  cc_Addr : string;
  cc_Topic : string;
  cc_Group : string;
  cc_Partitions : list Z;
  cc_Workers : Z;
  cc_MetricsAddr : string;
}.
Definition consumer_DefaultConfig : ConsumerConfig := mkConsumerConfig "localhost:9090" "bench" "bench-group" [] 4 ":8082".
Definition consumer_fields (c : ConsumerConfig) : list (string * list bool) :=
  [("addr", [StringNotEmpty (cc_Addr c)]); ("topic", [StringNotEmpty (cc_Topic c)]); ("group", [StringNotEmpty (cc_Group c)]);
   ("workers", int_rules (cc_Workers c) [GTE 1; LTE 256]); ("metrics_addr", [StringNotEmpty (cc_MetricsAddr c)])]%string.
Definition consumer_Validate {V : GovyFields} (c : ConsumerConfig) : result unit := govy_Fields "consumer.Config" (consumer_fields c).

Record consumerMetrics : Type := mkConsumerMetrics {
  cm_up : float;
  cm_consumed : CounterVec;          (* topic, partition, priority *)
  cm_errors : CounterVec;            (* topic, code *)
  cm_e2eLatency : HistogramVec;      (* topic, partition *)
  cm_commitLatency : HistogramVec;   (* topic *)
  cm_parseErrors : CounterVec;       (* topic *)
}.
Definition consumer_declarations : list (string * string * list string) :=
  [("nyaqueue_consumer", "up", []); ("nyaqueue_consumer", "messages_consumed_total", ["topic"; "partition"; "priority"]);
   ("nyaqueue_consumer", "consume_errors_total", ["topic"; "code"]); ("nyaqueue_consumer", "e2e_latency_seconds", ["topic"; "partition"]);
   ("nyaqueue_consumer", "commit_latency_seconds", ["topic"]); ("nyaqueue_consumer", "parse_errors_total", ["topic"])]%string.
Definition consumer_fresh : consumerMetrics := mkConsumerMetrics 0 ∅ ∅ ∅ ∅ ∅.
Definition consumer_registerMetrics (reg : gset string) : result (gset string * consumerMetrics) :=
  reg ← register consumer_declarations reg; Ok (reg, consumer_fresh).

Definition cm_set_up (x : float) (m : consumerMetrics) : consumerMetrics :=
  mkConsumerMetrics x (cm_consumed m) (cm_errors m) (cm_e2eLatency m) (cm_commitLatency m) (cm_parseErrors m).
Definition inc_consumed (l : list string) (m : consumerMetrics) : consumerMetrics :=
  mkConsumerMetrics (cm_up m) (inc l (cm_consumed m)) (cm_errors m) (cm_e2eLatency m) (cm_commitLatency m) (cm_parseErrors m).
Definition inc_errors (l : list string) (m : consumerMetrics) : consumerMetrics :=
  mkConsumerMetrics (cm_up m) (cm_consumed m) (inc l (cm_errors m)) (cm_e2eLatency m) (cm_commitLatency m) (cm_parseErrors m).
Definition observe_e2e (l : list string) (x : float) (m : consumerMetrics) : consumerMetrics :=
  mkConsumerMetrics (cm_up m) (cm_consumed m) (cm_errors m) (observe l x (cm_e2eLatency m)) (cm_commitLatency m) (cm_parseErrors m).
Definition observe_commit (l : list string) (x : float) (m : consumerMetrics) : consumerMetrics :=
  mkConsumerMetrics (cm_up m) (cm_consumed m) (cm_errors m) (cm_e2eLatency m) (observe l x (cm_commitLatency m)) (cm_parseErrors m).
Definition inc_parseErrors (l : list string) (m : consumerMetrics) : consumerMetrics :=
  mkConsumerMetrics (cm_up m) (cm_consumed m) (cm_errors m) (cm_e2eLatency m) (cm_commitLatency m) (inc l (cm_parseErrors m)).

Definition observeE2E (now : Time) (topic partLabel : string) (env : MessageEnvelope) (m : consumerMetrics) : consumerMetrics :=
  if decide (length (env_Value env) < timestampPrefixBytes)%nat then inc_parseErrors [topic] m
  else
    let ts := i64 (be_get (take timestampPrefixBytes (env_Value env))) in
    let latency := Seconds (time_Sub now ts) in
    if (latency <? 0)%float then inc_parseErrors [topic] m else observe_e2e [topic; partLabel] latency m.

(** What an iteration of a worker meets: whether the context is done before the
    fetch, when the fetch failed, and during the wait after an empty one; the time
    of the fetch, and of the start and the end of each commit. *)
Record worker_input : Type := mkWorkerInput {
  wi_done : bool;
  wi_ctxErr : bool;
  wi_idleDone : bool;
  wi_now : Time;
  wi_clock : nat -> Time * Time;
}.

Section consumer.
Context {Gr : Grpc} {St : Type}.
(** [Code.String] of grpc, and the remote calls. *)
Context (code_String : grpc_code -> string).
Context (rpc_Consume : ConsumeRequest -> St -> St * result (list MessageEnvelope)).
Context (rpc_Commit : string -> string -> Z -> Z -> St -> St * result unit).
Context (rpc_ListTopics : St -> St * result (list TopicInfo)).

(** The loop over the messages of a fetch; the boolean: the worker goes on. *)
Fixpoint commit_messages (cfg : ConsumerConfig) (partition : Z) (now : Time) (clock : nat -> Time * Time) (i : nat) (msgs : list MessageEnvelope)
    (m : consumerMetrics) (st : St) : result (bool * consumerMetrics * St) :=
  match msgs with
  | [] => Ok (true, m, st)
  | env :: msgs =>
      let m := observeE2E now (cc_Topic cfg) (pretty partition) env m in
      let m := inc_consumed [cc_Topic cfg; pretty partition; pretty (env_Priority env)] m in
      let '(commitStart, commitEnd) := clock i in
      let '(st, r) := client_Commit rpc_Commit (cc_Topic cfg) (cc_Group cfg) partition (i64 (env_Offset env + 1)) st in
      match r with
      | Ok _ =>
          commit_messages cfg partition now clock (i + 1) msgs
            (observe_commit [cc_Topic cfg] (Seconds (time_Sub commitEnd commitStart)) m) st
      | Err e =>
          if errors_Is e context_Canceled || bool_decide (status_Code e = codes_Canceled) then Ok (false, m, st)
          else commit_messages cfg partition now clock (i + 1) msgs (inc_errors [cc_Topic cfg; code_String (status_Code e)] m) st
      | Panic => Panic
      end
  end.

(** One iteration of runWorker's loop. *)
Definition worker_iteration (cfg : ConsumerConfig) (partition : Z) (i : worker_input) (m : consumerMetrics) (st : St)
    : result (bool * consumerMetrics * St) :=
  if wi_done i then Ok (false, m, st)
  else
    let '(st, r) := client_Consume rpc_Consume (cc_Topic cfg) (cc_Group cfg) partition fetchMaxBytes st in
    match r with
    | Err e => if wi_ctxErr i then Ok (false, m, st) else Ok (true, inc_errors [cc_Topic cfg; code_String (status_Code e)] m, st)
    | Panic => Panic
    | Ok [] => Ok (negb (wi_idleDone i), m, st)
    | Ok msgs => commit_messages cfg partition (wi_now i) (wi_clock i) 0 msgs m st
    end.

(** runWorker: the iterations with these inputs, or fewer when it returns; the
    boolean: it has not returned yet. *)
Fixpoint consumer_runWorker (cfg : ConsumerConfig) (partition : Z) (ins : list worker_input) (m : consumerMetrics) (st : St)
    : result (bool * consumerMetrics * St) :=
  match ins with
  | [] => Ok (true, m, st)
  | i :: ins =>
      '(go, m, st) ← worker_iteration cfg partition i m st;
      if go : bool then consumer_runWorker cfg partition ins m st else Ok (false, m, st)
  end.

(** The partitions of the topic in a list of topics. *)
Fixpoint find_topic (name : string) (topics : list TopicInfo) : option TopicInfo :=
  match topics with [] => None | t :: topics => if decide (ti_Topic t = name) then Some t else find_topic name topics end.

(** The loop of resolvePartitions: a wait ends with the context's error or after
    its second; [None]: the loop still runs when the list of waits ends. *)
Fixpoint resolve_loop (name : string) (waits : list (option error)) (st : St) : option (St * result (list Z)) :=
  let '(st, r) := client_ListTopics rpc_ListTopics st in
  match r with
  | Err e => Some (st, Err (Wrapf e "list topics"))
  | Panic => Some (st, Panic)
  | Ok topics =>
      match find_topic name topics with
      | Some t => Some (st, if ti_NumPartitions t <? 0 then Panic else Ok (seqZ 0 (ti_NumPartitions t)))
      | None =>
          match waits with
          | [] => None
          | Some ctxErr :: _ => Some (st, Err (Wrapf ctxErr "waiting for topic %q"))
          | None :: waits => resolve_loop name waits st
          end
      end
  end.

Definition resolvePartitions (cfg : ConsumerConfig) (waits : list (option error)) (st : St) : option (St * result (list Z)) :=
  if decide (0 < length (cc_Partitions cfg))%nat then Some (st, Ok (cc_Partitions cfg)) else resolve_loop (cc_Topic cfg) waits st.

(** The pool of Run while the context lives: submitted tasks, one per partition,
    that have not begun, and those a worker of the pool executes. *)
Record consumer_pool : Type := mkPool { pl_queued : list Z; pl_running : list Z; pl_metrics : consumerMetrics; pl_state : St }.

(** Run up to the wait for the context's end. *)
Definition consumer_Run (cfg : ConsumerConfig) (waits : list (option error)) (m : consumerMetrics) (st : St) : option (result consumer_pool) :=
  '(st, r) ← resolvePartitions cfg waits st;
  Some (partitions ← wrapf "resolve partitions" r;
        if decide (length partitions = 0%nat) then Err (Errorf "no partitions to consume on topic %q")
        else Ok (mkPool (i32 <$> partitions) [] (cm_set_up 1 m) st)).

(** What happens in the pool: a free worker takes the [k]-th waiting task, or the
    [k]-th running task makes an iteration; a task ends when its worker returns. *)
Inductive pool_event : Type := PoolTake (k : nat) | PoolIterate (k : nat) (i : worker_input).

Definition pool_do (cfg : ConsumerConfig) (ev : pool_event) (p : consumer_pool) : result consumer_pool :=
  match ev with
  | PoolTake k =>
      match pl_queued p !! k with
      | Some t =>
          if Z.of_nat (length (pl_running p)) <? cc_Workers cfg
          then Ok (mkPool (delete k (pl_queued p)) (pl_running p ++ [t]) (pl_metrics p) (pl_state p)) else Ok p
      | None => Ok p
      end
  | PoolIterate k i =>
      match pl_running p !! k with
      | Some t =>
          '(go, m, st) ← worker_iteration cfg t i (pl_metrics p) (pl_state p);
          Ok (mkPool (pl_queued p) (if go : bool then pl_running p else delete k (pl_running p)) m st)
      | None => Ok p
      end
  end.

Fixpoint pool_run (cfg : ConsumerConfig) (evs : list pool_event) (p : consumer_pool) : result consumer_pool :=
  match evs with [] => Ok p | ev :: evs => p ← pool_do cfg ev p; pool_run cfg evs p end.
End consumer.

(** ** The producer (src/cmd/producer) *)

Record ProducerConfig : Type := mkProducerConfig {
  pc_Addr : string;
  pc_Topic : string;
  pc_Scenario : string;
  pc_Producers : Z;
  pc_Partitions : Z;
  pc_Duration : Z;
  pc_MetricsAddr : string;
}.
Definition producer_DefaultConfig : ProducerConfig := mkProducerConfig "localhost:9090" "bench" "uniform" 4 4 0 ":8081".
Definition producer_fields (c : ProducerConfig) : list (string * list bool) :=
  [("addr", [StringNotEmpty (pc_Addr c)]); ("topic", [StringNotEmpty (pc_Topic c)]);
   ("scenario", [OneOf ["uniform"; "skewed"; "bursty"; "growing"; "mixed_priority"] (pc_Scenario c)]);
   ("producers", int_rules (pc_Producers c) [GTE 1; LTE 256]); ("partitions", int_rules (pc_Partitions c) [GTE 1; LTE 1024]);
   ("metrics_addr", [StringNotEmpty (pc_MetricsAddr c)])]%string.
Definition producer_Validate {V : GovyFields} (c : ProducerConfig) : result unit := govy_Fields "producer.Config" (producer_fields c).

Record producerMetrics : Type := mkProducerMetrics {
  pmx_up : float;
  pmx_published : CounterVec;    (* topic, priority *)
  pmx_errors : CounterVec;       (* topic, code *)
  pmx_latency : HistogramVec;    (* topic *)
  pmx_throttled : CounterVec;    (* topic *)
}.
Definition producer_declarations : list (string * string * list string) :=
  [("nyaqueue_producer", "up", []); ("nyaqueue_producer", "messages_published_total", ["topic"; "priority"]);
   ("nyaqueue_producer", "publish_errors_total", ["topic"; "code"]); ("nyaqueue_producer", "publish_latency_seconds", ["topic"]);
   ("nyaqueue_producer", "throttled_total", ["topic"])]%string.
Definition producer_fresh : producerMetrics := mkProducerMetrics 0 ∅ ∅ ∅ ∅.
Definition producer_registerMetrics (reg : gset string) : result (gset string * producerMetrics) :=
  reg ← register producer_declarations reg; Ok (reg, producer_fresh).

(** Sizes below that of the time are raised to it. *)
Definition producer_encodeValue (now : Z) (body : bytes) (size : Z) : result bytes :=
  let size := if size <? Z.of_nat timestampPrefixBytes then Z.of_nat timestampPrefixBytes else size in
  put_at 0 (be_put 8 (u64 now)) (GenerateMessage body (Z.to_nat size)).

(** [fmt.Sprintf("w%d-%d", workerID, seq)] *)
Definition worker_key (workerID seq : Z) : bytes := String.list_byte_of_string ("w" +:+ pretty workerID +:+ "-" +:+ pretty seq)%string.

(** The pause after a message, 0 for none. *)
Definition worker_interval (sc : Scenario) (cfg : ProducerConfig) : Z :=
  if (0 <? sc_RatePerSec sc) && (0 <? pc_Producers cfg) then
    let perWorker := Z.quot (sc_RatePerSec sc) (pc_Producers cfg) in
    Z.quot time_Second (if perWorker <? 1 then 1 else perWorker)
  else 0.

(** What an iteration of a worker meets: the context, the priority's draw, the
    body, the clock, and the context while the client retries. *)
Record send_input : Type := mkSendInput {
  si_done : bool;
  si_draw : Z;
  si_body : bytes;
  si_now : Z;
  si_start : Time;
  si_end : Time;
  si_cancelled : nat -> option error;
  si_ctxErr : bool;
  si_pauseDone : bool;
}.

Section producer.
Context {Gr : Grpc} {St : Type} (code_String : grpc_code -> string).
Context (rpc_Produce : ProduceRequest -> St -> St * result ProduceResponse).
Context (rpc_CreateTopic : string -> Z -> option TopicScheduleConfig -> St -> St * result unit).

(** One iteration of runWorker; [seq] is the counter the workers share, [key] and
    [value] what is sent. *)
Definition send_iteration (cfg : ProducerConfig) (sc : Scenario) (workerID : Z) (i : send_input) (seq : Z) (m : producerMetrics) (st : St)
    : result (bool * Z * producerMetrics * St) :=
  if si_done i then Ok (false, seq, m, st)
  else
    let priority := SamplePriority (si_draw i) sc in
    let seq := u64 (seq + 1) in
    let key := worker_key workerID seq in
    value ← producer_encodeValue (si_now i) (si_body i) (sc_MsgSize sc);
    let '(st, r, _) := client_Produce (si_cancelled i) rpc_Produce (pc_Topic cfg) key value (u32 priority) st in
    let go := if 0 <? worker_interval sc cfg then negb (si_pauseDone i) else true in
    match r with
    | Err e =>
        if si_ctxErr i then Ok (false, seq, m, st)
        else
          let code := status_Code e in
          let m := mkProducerMetrics (pmx_up m) (pmx_published m) (inc [pc_Topic cfg; code_String code] (pmx_errors m)) (pmx_latency m)
                     (if decide (code = codes_ResourceExhausted) then inc [pc_Topic cfg] (pmx_throttled m) else pmx_throttled m) in
          Ok (go, seq, m, st)
    | Ok _ =>
        let m := mkProducerMetrics (pmx_up m) (inc [pc_Topic cfg; pretty priority] (pmx_published m)) (pmx_errors m)
                   (observe [pc_Topic cfg] (Seconds (time_Sub (si_end i) (si_start i))) (pmx_latency m)) (pmx_throttled m) in
        Ok (go, seq, m, st)
    | Panic => Panic
    end.

(** The workers' iterations in the order they happen: which worker, and what it
    meets.  A worker that returned makes no more. *)
Fixpoint producer_workers (cfg : ProducerConfig) (sc : Scenario) (evs : list (Z * send_input)) (stopped : list Z) (seq : Z) (m : producerMetrics) (st : St)
    : result (Z * producerMetrics * St) :=
  match evs with
  | [] => Ok (seq, m, st)
  | (w, i) :: evs =>
      if decide (w ∈ stopped) then producer_workers cfg sc evs stopped seq m st
      else
        '(go, seq, m, st) ← send_iteration cfg sc w i seq m st;
        producer_workers cfg sc evs (if go : bool then stopped else w :: stopped) seq m st
  end.

(** Run: the scenario, the topic, then the workers until the context ends. *)
Definition producer_Run (cfg : ProducerConfig) (evs : list (Z * send_input)) (m : producerMetrics) (st : St) : St * result producerMetrics :=
  let '(ok, sc) := FindByName AllScenarios (pc_Scenario cfg) in
  if negb ok then (st, Err (Errorf "unknown scenario: %s"))
  else
    let '(st, r) := client_CreateTopic rpc_CreateTopic (pc_Topic cfg) (i32 (pc_Partitions cfg)) ScheduleMode_FIFO st in
    let go := fun st =>
      let m := mkProducerMetrics 1 (pmx_published m) (pmx_errors m) (pmx_latency m) (pmx_throttled m) in
      match producer_workers cfg sc evs [] 0 m st with
      | Ok (_, m, st) => (st, Ok (mkProducerMetrics 0 (pmx_published m) (pmx_errors m) (pmx_latency m) (pmx_throttled m)))
      | Err e => (st, Err e)
      | Panic => (st, Panic)
      end in
    match r with
    | Ok _ => go st
    | Err e => if errors_Is e ErrTopicAlreadyExists then go st else (st, Err (Wrapf e "create topic %q"))
    | Panic => (st, Panic)
    end.
End producer.

(** ** The exporter (src/cmd/broker-exporter) *)

Record ExporterConfig : Type := mkExporterConfig { ec_BrokerAddr : string; ec_MetricsAddr : string; ec_ScrapeInterval : Z }.
Definition exporter_DefaultConfig : ExporterConfig := mkExporterConfig "localhost:9090" ":8083" time_Second.
Definition exporter_fields (c : ExporterConfig) : list (string * list bool) :=
  [("broker_addr", [StringNotEmpty (ec_BrokerAddr c)]); ("metrics_addr", [StringNotEmpty (ec_MetricsAddr c)]);
   ("scrape_interval", int_rules (ec_ScrapeInterval c) [GTE (100 * time_Millisecond); LTE (60 * time_Second)])]%string.
Definition exporter_Validate {V : GovyFields} (c : ExporterConfig) : result unit := govy_Fields "broker_exporter.Config" (exporter_fields c).

Record exporterMetrics : Type := mkExporterMetrics {
  em_throughput : float;
  em_avgLatency : float;
  em_deliveryRatio : float;
  em_partitionLoad : GaugeVec;        (* partition *)
  em_queueDepth : GaugeVec;           (* partition *)
  em_partitionLoadStdev : float;
  em_scrapeErrors : Z;
  em_lastScrapeSuccess : float;
}.
Definition exporter_declarations : list (string * string * list string) :=
  [("nyaqueue_broker", "throughput_messages_per_sec", []); ("nyaqueue_broker", "avg_latency_seconds", []); ("nyaqueue_broker", "delivery_ratio", []);
   ("nyaqueue_broker", "partition_load", ["partition"]); ("nyaqueue_broker", "queue_depth", ["partition"]); ("nyaqueue_broker", "partition_load_stddev", []);
   ("nyaqueue_broker_exporter", "scrape_errors_total", []); ("nyaqueue_broker_exporter", "last_scrape_success", [])]%string.
Definition exporter_fresh : exporterMetrics := mkExporterMetrics 0 0 0 ∅ ∅ 0 0 0.
Definition exporter_registerMetrics (reg : gset string) : result (gset string * exporterMetrics) :=
  reg ← register exporter_declarations reg; Ok (reg, exporter_fresh).

(** [for i, x := range xs { g.WithLabelValues(strconv.Itoa(i)).Set(x) }] *)
Fixpoint set_gauges (i : Z) (xs : list float) (g : GaugeVec) : GaugeVec :=
  match xs with [] => g | x :: xs => set_gauges (i + 1) xs (<[[pretty i] := x]> g) end.

Section exporter.
Context {G : Gonum} {St : Type} (rpc_GetMetrics : St -> St * result MetricsResponse).

Definition scrape (m : exporterMetrics) (st : St) : St * exporterMetrics * result unit :=
  let '(st, r) := client_GetMetrics rpc_GetMetrics st in
  match r with
  | Ok resp =>
      (st,
       mkExporterMetrics (mr_Throughput resp) (mr_AvgLatency resp) (mr_SuccessRate resp)
         (set_gauges 0 (mr_PartitionLoads resp) (em_partitionLoad m)) (set_gauges 0 (of_int <$> mr_QueueDepth resp) (em_queueDepth m))
         (if decide (1 < length (mr_PartitionLoads resp))%nat then stat_StdDev (mr_PartitionLoads resp) else 0%float)
         (em_scrapeErrors m) 1,
       Ok tt)
  | Err e => (st, m, Err (Wrapf e "scrape broker metrics"))
  | Panic => (st, m, Panic)
  end.

(** A scrape of Run, at the start and at every tick. *)
Definition exporter_tick (m : exporterMetrics) (st : St) : St * result exporterMetrics :=
  let '(st, m, r) := scrape m st in
  (st, match r with
       | Ok _ => Ok m
       | Err _ =>
           Ok (mkExporterMetrics (em_throughput m) (em_avgLatency m) (em_deliveryRatio m) (em_partitionLoad m) (em_queueDepth m)
                 (em_partitionLoadStdev m) (em_scrapeErrors m + 1) 0)
       | Panic => Panic
       end).

(** Run with [n] ticks before the context ends. *)
Fixpoint exporter_ticks (n : nat) (m : exporterMetrics) (st : St) : St * result exporterMetrics :=
  match n with
  | O => (st, Ok m)
  | S n =>
      let '(st, r) := exporter_tick m st in
      match r with Ok m => exporter_ticks n m st | Err e => (st, Err e) | Panic => (st, Panic) end
  end.
Definition exporter_Run (n : nat) : exporterMetrics -> St -> St * result exporterMetrics := exporter_ticks (S n).
End exporter.

(** ** The experiment command (src/cmd/experiment/main.go) *)

(** [strings.Split(s, ",")] *)
Fixpoint split_comma (s : string) : list string :=
  match s with
  | EmptyString => [EmptyString]
  | String c s =>
      if decide (char_code c = 44) then EmptyString :: split_comma s
      else match split_comma s with x :: xs => String c x :: xs | [] => [String c EmptyString] end
  end.

(** The encodings of the characters of unicode.IsSpace. *)
Definition encodings (codes : list (list nat)) : list (list Ascii.ascii) := List.map (List.map Ascii.ascii_of_nat) codes.
Definition space_encodings : list (list Ascii.ascii) :=
  encodings ([[9]; [10]; [11]; [12]; [13]; [32]; [194; 133]; [194; 160]; [225; 154; 128]]
    ++ ((fun k => [226; 128; k]) <$> seq 128 11) ++ [[226; 128; 168]; [226; 128; 169]; [226; 128; 175]; [226; 129; 159]; [227; 128; 128]])%nat.

(** The list without the first of [ps] that it begins with. *)
Fixpoint strip_one (ps : list (list Ascii.ascii)) (l : list Ascii.ascii) : option (list Ascii.ascii) :=
  match ps with
  | [] => None
  | p :: ps => if decide (p `prefix_of` l) then Some (drop (length p) l) else strip_one ps l
  end.
Fixpoint strip_all (ps : list (list Ascii.ascii)) (n : nat) (l : list Ascii.ascii) : list Ascii.ascii :=
  match n with O => l | S n => match strip_one ps l with Some l => strip_all ps n l | None => l end end.
(** Each step takes at least one character off. *)
Definition strip (ps : list (list Ascii.ascii)) (l : list Ascii.ascii) : list Ascii.ascii := strip_all ps (length l) l.

Definition TrimSpace (s : string) : string :=
  let l := strip space_encodings (String.list_ascii_of_string s) in
  String.string_of_list_ascii (reverse (strip (reverse <$> space_encodings) (reverse l))).

Definition mode_named (s : string) : option Mode :=
  if decide (s = "inprocess") then Some ModeInProcess
  else if decide (s = "grpc") then Some ModeGRPC
  else if decide (s = "http") then Some ModeHTTP
  else if decide (s = "kafka") then Some ModeKafka else None.

Definition parseModes (s : string) : list Mode :=
  if decide (s = "all"%string) then [ModeInProcess; ModeGRPC; ModeHTTP; ModeKafka] else omap (fun m => mode_named (TrimSpace m)) (split_comma s).

(** The loops of parseScenarios and parseAlgorithms. *)
Definition parse_named {A : Type} (name_of : A -> string) (all : list A) (s : string) : list A :=
  if decide (s = "all"%string) then all
  else mjoin ((fun name => filter (fun x => name_of x = TrimSpace name) all) <$> split_comma s).
Definition parseScenarios : string -> list Scenario := parse_named sc_Name AllScenarios.

(** The number of runs the command announces. *)
Definition nya_modes (modes : list Mode) : Z := Z.of_nat (length (filter (fun m => m <> ModeKafka) modes)).
Definition total_runs (modes : list Mode) (scenarios algorithms : nat) : Z :=
  nya_modes modes * Z.of_nat scenarios * Z.of_nat algorithms + (if decide (ModeKafka ∈ modes) then Z.of_nat scenarios else 0).

(** [parsed]: time.ParseDuration. *)
Definition run_duration (parsed : string -> option Z) (durationStr : string) : Z :=
  if decide (durationStr = ""%string) then 10 * time_Second else default (10 * time_Second) (parsed durationStr).

(** ** The report (src/experiments/reporter.go) *)

Definition csv_header : list string :=
  ["scenario"; "algorithm"; "system"; "mode"; "throughput_msg_sec"; "latency_p50_us"; "latency_p95_us"; "latency_p99_us";
   "enqueue_to_flush_p50_us"; "flush_to_append_p50_us"; "append_to_consume_p50_us"; "append_to_consume_p95_us";
   "load_stddev"; "produced"; "consumed"; "publish_errors"; "messages_throttled"; "consume_errors"; "duration_sec";
   "high_prio_p50_us"; "high_prio_p99_us"; "low_prio_p50_us"; "low_prio_p99_us"]%string.

(** The calls on the file system and the two encoders. *)
Class ReportFiles (St : Type) : Type := {
  os_MkdirAll : string -> M St unit;
  os_Create : string -> M St unit;
  csv_Write : list string -> M St unit;
  json_Encode : list ExperimentResult -> M St unit;
}.

Section report.
(** [fixed n x]: fmt's [%.nf] of [x]; [stamp] below is the time as the files' names have it. *)
Context {St : Type} {RF : ReportFiles St} {FP : Filepath} (fixed : nat -> float -> string).

Definition csv_us (d : Z) : string := fixed 2 (of_int d / 1000)%float.
Definition csv_row (r : ExperimentResult) : list string :=
  let '(highP50, highP99) := prioGroupStats (er_LatencyByPriority r) 0 3 in
  let '(lowP50, lowP99) := prioGroupStats (er_LatencyByPriority r) 7 10 in
  [er_Scenario r; er_Algorithm r; er_System r; er_Mode r; fixed 2 (er_Throughput r); csv_us (er_LatencyP50 r); csv_us (er_LatencyP95 r);
   csv_us (er_LatencyP99 r); csv_us (er_EnqueueToFlushP50 r); csv_us (er_FlushToAppendP50 r); csv_us (er_AppendToConsumeP50 r);
   csv_us (er_AppendToConsumeP95 r); fixed 6 (er_LoadStdDev r); pretty (er_Produced r); pretty (er_Consumed r); pretty (er_PublishErrors r);
   pretty (er_MessagesThrottled r); pretty (er_ConsumeErrors r); fixed 3 (Seconds (er_Duration r)); fixed 2 highP50; fixed 2 highP99;
   fixed 2 lowP50; fixed 2 lowP99].

Fixpoint write_rows (rs : list ExperimentResult) : M St unit :=
  match rs with [] => mret tt | r :: rs => do! mwrap "write CSV row for %s/%s" (csv_Write (csv_row r)) in write_rows rs end.

Definition ExportCSV (stamp : string) (results : list ExperimentResult) (dir : string) : M St unit :=
  do! mwrap "mkdir %q" (os_MkdirAll dir) in
  do! mwrap "create %q" (os_Create (filepath_Join [dir; "results-" +:+ stamp +:+ ".csv"]%string)) in
  do! mwrap "write CSV header" (csv_Write csv_header) in
  write_rows results.

Definition ExportJSON (stamp : string) (results : list ExperimentResult) (dir : string) : M St unit :=
  do! mwrap "mkdir %q" (os_MkdirAll dir) in
  do! mwrap "create %q" (os_Create (filepath_Join [dir; "results-" +:+ stamp +:+ ".json"]%string)) in
  mwrap "encode results JSON" (json_Encode results).
End report.

(** ** The broker (src/cmd/broker/main.go) *)

Definition or_default (s d : string) : string := if decide (s = ""%string) then d else s.

Section broker_command.
Context {W : Wal} {K : Compressors} {F : Filepath} {D : Badger} {G : Gonum} {V : Govy} {R : MapRange} {E : BrokerEnv}.
Context {U : Lru} {O : RangeOrders} {ML : MathLib} {Net : Type} {L : GonumLA} {ANet : Type} {AC : ACNet ANet} {NL : NetListen}.

Definition parseAlgorithms (rnd : nat -> nat -> float) (net : Net) : string -> list (AlgorithmConfig (Net := Net)) :=
  parse_named alg_Name (AllAlgorithms rnd net).

(** The runner the command makes of its settings. *)
Definition experiment_runner (rnd : nat -> nat -> float) (net : Net) (parsed : string -> option Z)
    (modeStr scenarioStr algorithmStr kafkaBrokersStr brokerAddr httpBrokerAddr durationStr : string) : Runner :=
  mkRunner (parseScenarios scenarioStr) ((fun al => mkAlg (alg_Name al) (alg_Mode al)) <$> parseAlgorithms rnd net algorithmStr) (parseModes modeStr)
    (split_comma kafkaBrokersStr) (run_duration parsed durationStr) brokerAddr httpBrokerAddr.

Definition broker_options (addr httpAddr : string) : list (Option (Net := Net)) :=
  [WithDefaultBalancer; WithGRPC addr] ++ (if decide (httpAddr = ""%string) then [] else [WithHTTP httpAddr]).

(** The command with a loaded configuration, up to the wait for a signal; the
    addresses are those of the configuration. *)
Definition broker_main (now : Time) (rnd : nat -> nat -> float) (net : Net) (anet : ANet) (cfg : Config) (addr dataDir httpAddr : string)
    : result (BrokerApp (Net := Net) (ANet := ANet)) :=
  _ ← Validate cfg;
  a ← app_New now rnd net anet cfg (or_default dataDir "data") (broker_options (or_default addr ":9090") httpAddr);
  let '(a, r) := app_Start a in
  _ ← r; Ok a.
End broker_command.
