(* ===== verification/CommandsProps.v ===== *)
(** * The commands at work

    A consumer's worker against the broker it fetches from; what the size of its
    pool means for the partitions; the experiment command's selections and the
    number of runs it announces; the report's columns. *)

From Stdlib Require Import Strings.Byte.
From stdpp Require Import pretty.
From S2P Require Import Prelude Message PriorityIndex Wal Compression GoFloat Config Partition Topic OffsetStore LoadPredictor Metrics Prometheus Balancer RoundRobin.
From S2P Require Import Scheduler Broker BrokerProps Transport TransportProps Client ClientProps Collector Scenarios Harness Runner RunnerProps Commands.

(** ** Counting *)

(** How many of the messages have this priority. *)
Definition of_priority (p : Z) (es : list MessageEnvelope) : Z := Z.of_nat (length (filter (fun e => env_Priority e = p) es)).

Lemma of_priority_cons p e es : of_priority p (e :: es) = (if decide (env_Priority e = p) then 1 else 0) + of_priority p es.
Proof. unfold of_priority. rewrite filter_cons. case_decide; cbn [length]; lia. Qed.
Lemma of_priority_app p es es' : of_priority p (es ++ es') = of_priority p es + of_priority p es'.
Proof. unfold of_priority. rewrite list.filter_app, length_app. lia. Qed.

(** The consumer's metrics after these messages: each is counted once under its
    priority, and has either given a latency or been reported as malformed. *)
Definition counted (topic part : string) (es : list MessageEnvelope) (m m' : consumerMetrics) : Prop :=
  (forall p, counter [topic; part; pretty p] (cm_consumed m') = counter [topic; part; pretty p] (cm_consumed m) + of_priority p es) /\
  Z.of_nat (length (observed_at [topic; part] (cm_e2eLatency m'))) + counter [topic] (cm_parseErrors m') =
  Z.of_nat (length (observed_at [topic; part] (cm_e2eLatency m))) + counter [topic] (cm_parseErrors m) + Z.of_nat (length es).

Lemma counted_nil topic part m : counted topic part [] m m.
Proof. split; [intros p; change (of_priority p []) with 0; lia|cbn [length]; lia]. Qed.

Lemma counted_trans topic part es es' m m' m'' :
  counted topic part es m m' -> counted topic part es' m' m'' -> counted topic part (es ++ es') m m''.
Proof. intros [H1 H2] [H3 H4]. split; [intros p; rewrite H3, H1, of_priority_app; lia|rewrite length_app; lia]. Qed.

(** Errors and commit latencies do not matter to it. *)
Lemma counted_errors topic part es m m' l : counted topic part es m m' -> counted topic part es m (inc_errors l m').
Proof. done. Qed.
Lemma counted_commit topic part es m m' l x : counted topic part es m m' -> counted topic part es m (observe_commit l x m').
Proof. done. Qed.

(** The two metrics of a message. *)
Lemma counted_one now topic part e m :
  counted topic part [e] m (inc_consumed [topic; part; pretty (env_Priority e)] (observeE2E now topic part e m)).
Proof.
  split.
  - intros p. cbn [cm_consumed inc_consumed]. rewrite counter_inc, of_priority_cons. change (of_priority p []) with 0.
    replace (cm_consumed (observeE2E now topic part e m)) with (cm_consumed m) by (unfold observeE2E; case_decide; [done|]; by destruct (_ <? _)%float).
    repeat case_decide; simplify_eq; lia.
  - change (Z.of_nat (length [e])) with 1. unfold observeE2E. case_decide; [|destruct (_ <? _)%float]; cbn [inc_consumed inc_parseErrors observe_e2e cm_e2eLatency cm_parseErrors].
    + rewrite counter_inc, decide_True by done. lia.
    + rewrite counter_inc, decide_True by done. lia.
    + rewrite observed_observe, decide_True, length_app by done. cbn [length]. lia.
Qed.
Create HintDb commands.
#[export] Hint Resolve counted_errors counted_commit counted_nil counted_one : commands.

Lemma envelopes_from_app off ms ms' : envelopes_from off (ms ++ ms') = envelopes_from off ms ++ envelopes_from (off + Z.of_nat (length ms)) ms'.
Proof.
  revert off. induction ms as [|x ms IH]; intros off; [cbn; by rewrite Z.add_0_r|]. cbn [app envelopes_from length]. rewrite IH. do 3 f_equal. lia.
Qed.

Lemma length_envelopes_from off ms : length (envelopes_from off ms) = length ms.
Proof. revert off. induction ms as [|x ms IH]; intros off; [done|]. cbn. by rewrite IH. Qed.

Lemma register_mem ds : forall reg reg', register ds reg = Ok reg' -> reg ⊆ reg' /\ forall d, d ∈ ds -> metric_name d ∈ reg'.
Proof.
  induction ds as [|d ds IH]; intros reg reg'; cbn [register]; [intros [= <-]; split; [done|]; by intros d Hd%not_elem_of_nil|].
  case_decide; [done|]. intros Hr. apply IH in Hr as [Hsub Hin]. split; [set_solver|]. intros d' [->|Hd']%elem_of_cons; [set_solver|by apply Hin].
Qed.

(** The names of a command's metrics are different: registering them in a new
    registry succeeds; in the same registry a second time it panics. *)
Lemma register_once : is_ok (consumer_registerMetrics ∅) && is_ok (producer_registerMetrics ∅) && is_ok (exporter_registerMetrics ∅) = true /\
  forall reg m, consumer_registerMetrics ∅ = Ok (reg, m) -> consumer_registerMetrics reg = Panic.
Proof.
  split; [vm_compute; reflexivity|]. intros reg m H. unfold consumer_registerMetrics in H. apply bind_Ok in H as (reg' & Hr & [= <- _]).
  apply register_mem in Hr as [_ Hin]. unfold consumer_registerMetrics, consumer_declarations. cbn [register]. rewrite decide_True; [done|]. apply Hin. by left.
Qed.

(** ** A worker and the broker *)

Section consuming.
Context {W : Wal} {L : WalLaws W} {K : Compressors} {KL : CompressorLaws K} {F : Filepath} {D : Badger} {G : Gonum}.
Context {V : Govy} {R : MapRange} {E : BrokerEnv} {Gr : Grpc} {GL : GrpcLaws Gr}.
Context {Bal : Type} {B : Balancer Bal} {BL : BalancerLaws Bal}.
Abbreviation FifoBroker := (Broker (Bal := Bal) (Sch := FIFO)).
Implicit Types b : FifoBroker.
Context (code_String : grpc_code -> string).

(** Requests are counted, since each meets its own clock and its own neighbours;
    a request gets more fuel than it needs. *)
Context (envs : nat -> PollEnv (Bal := Bal) (Sch := FIFO)) (starts : nat -> Time) (commits : nat -> Time) (late : nat).
Context (name group : string) (part : Z).
(** The connection at each request: of the fetches, with the encoded size of a
    response and the limit on it, and of the commits. *)
Context (links commit_links : nat -> link) (response_size : list MessageEnvelope -> Z) (limit : Z).

Definition request_fuel b : nat :=
  (late + Z.to_nat fetchMaxBytes +
   match b_topics b !! name with Some t => match topic_Partition t part with Ok p => Z.to_nat (nextOffset p) | _ => 0 end | None => 0 end + 1)%nat.

Definition handled (k : nat) (req : ConsumeRequest) b : FifoBroker * result (list MessageEnvelope) :=
  match server_Consume (request_fuel b) (envs k) (starts k) b req with
  | Some (b, r) => (b, within_limit response_size limit (transmitted r))
  | None => (b, Panic)
  end.
Definition consume_rpc (req : ConsumeRequest) (s : FifoBroker * nat) : FifoBroker * nat * result (list MessageEnvelope) :=
  let '(b, k) := s in let '(b, r) := over (links k) (handled k req) b in (b, S k, r).
Definition commit_rpc (topic group : string) (partition offset : Z) (s : FifoBroker * nat) : FifoBroker * nat * result unit :=
  let '(b, k) := s in
  let '(b, r) := over (commit_links k) (fun b => let '(b, r) := server_Commit (commits k) b topic group partition offset in (b, transmitted r)) b in
  (b, S k, r).

(** A commit reaches the broker; its answer may be lost, with a status other than
    Canceled, which the library returns for a context that is done. *)
Definition commits_arrive : Prop :=
  forall k, match commit_links k with
            | LinkUp => True
            | LinkDown _ => False
            | LinkLost e => exists c t, e = ErrStatus c t /\ c <> codes_Canceled
            end.

(** What became of a fetch: it did not reach the broker, or the broker handed out
    these messages and the answer got lost, or they arrived. *)
Inductive fetch_fate : Type :=
| FetchDown
| FetchLost (ms : list Message)
| FetchGot (ms : list Message).

Definition handed_out (f : fetch_fate) : list Message := match f with FetchDown => [] | FetchLost ms | FetchGot ms => ms end.
Definition reached (f : fetch_fate) : bool := match f with FetchDown => false | _ => true end.
(** The cause of a failure. *)
Definition explained (f : fetch_fate) : Prop :=
  match f with
  | FetchDown => exists k e, links k = LinkDown e
  | FetchLost ms => (exists k e, links k = LinkLost e) \/ exists off, limit < response_size (envelopes_from off ms)
  | FetchGot _ => True
  end.

(** All the messages handed out, and those that arrived with their offsets. *)
Definition all_handed (fs : list fetch_fate) : list Message := concat (handed_out <$> fs).
Fixpoint arrived (off : Z) (fs : list fetch_fate) : list MessageEnvelope :=
  match fs with
  | [] => []
  | f :: fs =>
      (match f with FetchGot ms => envelopes_from off ms | _ => [] end) ++ arrived (off + Z.of_nat (length (handed_out f))) fs
  end.

(** The neighbours leave the configuration and the group's position alone. *)
Definition others_keep (env : PollEnv (Bal := Bal) (Sch := FIFO)) : Prop :=
  forall j b, b_cfg (po_others env j b) = b_cfg b /\ start_offset (po_others env j b) group name part = start_offset b group name part.

(** The database does not answer a write with a cancellation. *)
Definition db_not_cancelled : Prop := forall d k v d' e, badger_Set d k v = (d', Err e) -> status_Code e <> codes_Canceled.

Lemma ConsumeFrom_keeps env b topic g i off :
  let b' := (ConsumeFrom env b topic g i off).1 in b_cfg b' = b_cfg b /\ b_offsetStore b' = b_offsetStore b.
Proof.
  unfold ConsumeFrom. destruct (b_topics b !! topic) as [t|]; [|done]. destruct (wrapf _ (topic_Partition t i)) as [p| |]; [|done..].
  destruct (b_schedulers b !! topic) as [s|]; [|done]. destruct (Next env s p off) as [[s' p'] r]. destruct (wrapf _ r) as [[msg n]| |]; [|done..].
  destruct (wrapf _ (decompressMessage _ _)) as [msg'| |]; [|done..]. by destruct (RecordConsume _ _ _ _).
Qed.

Lemma poll_loop_keeps env maxBytes minBytes deadline fuel : others_keep env -> forall k st st' r,
  poll_loop env name group part maxBytes minBytes deadline fuel k st = Some (st', r) -> (envelopes st = [] -> lastOffset st = -1) ->
  b_cfg (ps_broker st') = b_cfg (ps_broker st) /\ start_offset (ps_broker st') group name part = start_offset (ps_broker st) group name part /\
  (envelopes st' = [] -> lastOffset st' = -1).
Proof.
  intros Hk. induction fuel as [|fuel IH]; intros k st st' r; cbn [poll_loop]; [done|]. destruct (_ <? maxBytes); [|intros [= <- _] ?; by split_and!].
  set (b1 := po_others env k (ps_broker st)). destruct (Hk k (ps_broker st)) as [Hc Ho]. fold b1 in Hc, Ho.
  pose proof (ConsumeFrom_keeps (po_sched env k) b1 name group part (currentOffset st)) as [Hc1 Hs1].
  destruct (ConsumeFrom _ b1 name group part _) as [b2 r2]. cbn [fst] in Hc1, Hs1.
  assert (Ho1 : start_offset b2 group name part = start_offset (ps_broker st) group name part) by (rewrite <- Ho; unfold start_offset; by rewrite Hs1).
  rewrite <- Ho1, <- Hc, <- Hc1. destruct r2 as [[msg n]|e|].
  - intros Hrun _. apply IH in Hrun; [exact Hrun|]. cbn [envelopes]. intros Hnil. by apply app_eq_nil in Hnil as [_ ?].
  - destruct (errors_Is e ErrNoMessages).
    + destruct (_ && _); [intros Hrun Hl; by apply IH in Hrun|intros [= <- _] Hl; by split_and!].
    + case_decide; intros [= <- _] Hl; by split_and!.
  - intros [= <- _] Hl. by split_and!.
Qed.

Lemma consume_request_keeps fuel env start b maxBytes b' es : others_keep env ->
  consume_request fuel env start b name group part maxBytes = Some (b', Ok es) ->
  b_cfg b' = b_cfg b /\ (es = [] -> start_offset b' group name part = start_offset b group name part).
Proof.
  intros Hk. unfold consume_request. destruct (LoadOffset b group name part) as [o err].
  destruct (poll_loop _ _ _ _ _ _ _ _ _ _) as [[st r]|] eqn:Hrun; [|done]. cbn [mbind option_bind].
  apply poll_loop_keeps in Hrun as (Hc & Ho & Hl); [|done|done]. cbn [ps_broker] in Hc, Ho. destruct r as [[]| |]; [|done..].
  intros [= <- <-]. split.
  - destruct (0 <=? lastOffset st); [|done]. unfold broker_Commit. destruct (b_offsetStore (ps_broker st)); [|done]. by destruct (Commit _ _ _ _ _ _).
  - intros Hnil. rewrite (Hl Hnil). done.
Qed.

(** A fetch at the broker. *)
Lemma broker_fetch (added : Message -> Prop) b k ds :
  (forall m, added m -> 0 < msg_bytes m) -> others_append (envs k) name part added -> others_keep (envs k) ->
  clock_passes (envs k) (starts k + i64 (FetchMaxWaitMs (b_cfg b) * time_Millisecond)) late ->
  let off := start_offset b group name part in
  fetchable_from b name part off ds ->
  exists b' new ms rest,
    handled k (mkConsumeRequest name group part fetchMaxBytes) b = (b', within_limit response_size limit (Ok (envelopes_from off ms))) /\
    Forall added new /\ ds ++ new = ms ++ rest /\ (ms = [] -> ds ++ new = []) /\ b_cfg b' = b_cfg b /\
    fetchable_from b' name part (off + Z.of_nat (length ms)) rest /\ start_offset b' group name part = off + Z.of_nat (length ms).
Proof.
  intros Hne Happ Hk Hclock off Hf. pose proof Hf as ((_ & _ & t & p & Ht & Hp & H1 & Hn & _) & Hb & _).
  destruct (consume_request_fifo (envs k) name group part added _ late Hne Happ Hclock (request_fuel b) (starts k) b fetchMaxBytes ds eq_refl Hf)
    as (b' & new & ms & rest & Heq & Hnew & Hms & Hrest & Hf' & Hoff).
  { unfold request_fuel. rewrite Ht, Hp. case_match; lia. }
  destruct (consume_request_keeps _ _ _ _ _ _ _ Hk Heq) as [Hc Hsame]. fold off in Hf', Hoff, Heq, Hsame.
  exists b', new, ms, rest. split.
  { unfold handled, server_Consume. cbn [crq_MaxBytes crq_Topic crq_Group crq_Partition].
    change (fetchMaxBytes <=? 0) with false. cbv iota. rewrite Heq. done. }
  split; [done|]. split; [done|]. split.
  { intros ->. destruct (ds ++ new) as [|d l] eqn:Hd; [done|]. cbn [fetch_prefix] in Hms. revert Hms. case_match eqn:Hb'; [done|].
    clear -Hb'. exfalso. unfold fetchMaxBytes in Hb'. revert Hb'. case_match; lia. }
  split; [done|]. split; [done|]. destruct ms as [|m ms]; [|by apply Hoff]. cbn [length]. rewrite Hsame by done. fold off. lia.
Qed.

(** A fetch of the worker. *)
Lemma worker_fetch (added : Message -> Prop) b k ds :
  (forall m, added m -> 0 < msg_bytes m) -> others_append (envs k) name part added -> others_keep (envs k) ->
  clock_passes (envs k) (starts k + i64 (FetchMaxWaitMs (b_cfg b) * time_Millisecond)) late ->
  let off := start_offset b group name part in
  fetchable_from b name part off ds ->
  exists b' f new rest r, client_Consume consume_rpc name group part fetchMaxBytes (b, k) = (b', S k, r) /\ explained f /\
    match f with FetchGot ms => r = Ok (envelopes_from off ms) | _ => exists e, r = Err e end /\
    Forall added new /\ ds ++ new = handed_out f ++ rest /\ (reached f = true -> handed_out f = [] -> ds ++ new = []) /\ b_cfg b' = b_cfg b /\
    fetchable_from b' name part (off + Z.of_nat (length (handed_out f))) rest /\ start_offset b' group name part = off + Z.of_nat (length (handed_out f)).
Proof.
  intros Hne Happ Hk Hclock off Hf.
  destruct (broker_fetch added b k ds Hne Happ Hk Hclock Hf) as (b' & new & ms & rest & Hh & Hnew & Hms & Hprog & Hc & Hf' & Ho). fold off in Hh, Hf', Ho.
  unfold client_Consume, consume_rpc, over. destruct (links k) as [|e|e] eqn:El.
  - rewrite Hh. cbn [within_limit]. destruct (response_size (envelopes_from off ms) <=? limit) eqn:Hsz.
    + exists b', (FetchGot ms), new, rest. eexists. split; [reflexivity|]. by split_and!.
    + apply Z.leb_gt in Hsz. exists b', (FetchLost ms), new, rest. eexists. split; [reflexivity|]. split; [right; by exists off|]. split; [by eexists|]. by split_and!.
  - exists b, FetchDown, [], ds. eexists. split; [reflexivity|]. split; [by exists k, e|]. split; [by eexists|]. cbn [handed_out length app].
    rewrite app_nil_r, Z.add_0_r. by split_and!.
  - rewrite Hh. exists b', (FetchLost ms), new, rest. eexists. split; [reflexivity|]. split; [left; by exists k, e|]. split; [by eexists|]. by split_and!.
Qed.

Section worker.
Context (cfg : ConsumerConfig).
Hypothesis cfg_topic : cc_Topic cfg = name.
Hypothesis cfg_group : cc_Group cfg = group.
Hypothesis db_ok : db_not_cancelled.
Hypothesis commits_ok : commits_arrive.

(** A commit moves the group's position, whatever the database says of it, and is
    no reason to stop. *)
Lemma worker_commit b k o :
  is_Some (b_offsetStore b) -> 0 <= o < 2 ^ 63 ->
  exists b' r, client_Commit commit_rpc name group part (i64 o) (b, k) = (b', S k, r) /\
    start_offset b' group name part = o /\ (exists s, b' = with_offsets b (Some s)) /\
    (r = Ok tt \/ exists e, r = Err e /\ errors_Is e context_Canceled || bool_decide (status_Code e = codes_Canceled) = false).
Proof.
  intros [s Hs] Ho. destruct (start_offset_commit (commits k) b group name part s o Hs ltac:(unfold in_u64; lia)) as (s' & r & Hc & Hst).
  unfold client_Commit, commit_rpc, server_Commit, over. rewrite Hc. pose proof (commits_ok k) as Hlink.
  assert (Hbad : forall e fmt, status_Code e <> codes_Canceled -> (exists c t, e = ErrStatus c t) ->
    errors_Is (Wrapf e fmt) context_Canceled || bool_decide (status_Code (Wrapf e fmt) = codes_Canceled) = false).
  { intros e fmt He (c & t & ->). by rewrite code_wrapf, (bool_decide_false _ He), orb_false_r. }
  destruct (commit_links k) as [|e|e]; [|done|].
  - eexists _, _. split; [done|]. split; [done|]. split; [by eexists|].
    destruct r as [[]|e|]; [by left|right..]; (eexists; split; [done|]); (apply Hbad; [rewrite code_transmit|apply transmit_is_status]).
    + rewrite code_wrapf. unfold broker_Commit, Commit, writeOne in Hc. rewrite Hs in Hc. destruct (0 <? _); [done|].
      destruct (badger_Set _ _ _) as [d r] eqn:Hset. injection Hc as _ ->. by eapply db_ok.
    + by rewrite code_plain.
  - destruct Hlink as (c & t & -> & Hne). eexists _, _. split; [done|]. split; [done|]. split; [by eexists|]. right. eexists. split; [done|].
    apply Hbad; [by rewrite code_status|by eexists _, _].
Qed.

Lemma worker_commits now clock ms : forall off m b k i,
  0 <= off -> off + Z.of_nat (length ms) < 2 ^ 63 -> is_Some (b_offsetStore b) ->
  exists m' b' k', commit_messages code_String commit_rpc cfg part now clock i (envelopes_from off ms) m (b, k) = Ok (true, m', (b', k')) /\
    counted name (pretty part) (envelopes_from off ms) m m' /\ b_cfg b' = b_cfg b /\ is_Some (b_offsetStore b') /\
    (forall o ds, fetchable_from b name part o ds -> fetchable_from b' name part o ds) /\
    start_offset b' group name part = if decide (ms = []) then start_offset b group name part else off + Z.of_nat (length ms).
Proof.
  induction ms as [|x ms IH]; intros off m b k i H0 Hb Hs; cbn [envelopes_from commit_messages].
  { exists m, b, k. split; [done|]. split; [apply counted_nil|]. by split_and!. }
  cbn [length] in Hb. rewrite cfg_topic, cfg_group. destruct (clock i) as [t1 t2].
  replace (i64 (env_Offset (envelope x (off + 1)) + 1)) with (i64 (off + 1))
    by (unfold envelope; cbn [env_Offset]; rewrite !i64_small by (unfold in_i64; rewrite ?i64_small; unfold in_i64; lia); lia).
  destruct (worker_commit b k (off + 1) Hs ltac:(lia)) as (b1 & r & -> & Ho1 & [s1 ->] & Hr).
  set (m1 := inc_consumed _ _). assert (H1 : counted name (pretty part) [envelope x (off + 1)] m m1) by apply counted_one.
  assert (Hgo : forall m2, counted name (pretty part) [envelope x (off + 1)] m m2 -> exists m' b' k',
    commit_messages code_String commit_rpc cfg part now clock (i + 1) (envelopes_from (off + 1) ms) m2 (with_offsets b (Some s1), S k) = Ok (true, m', (b', k')) /\
    counted name (pretty part) ([envelope x (off + 1)] ++ envelopes_from (off + 1) ms) m m' /\ b_cfg b' = b_cfg b /\ is_Some (b_offsetStore b') /\
    (forall o ds, fetchable_from b name part o ds -> fetchable_from b' name part o ds) /\ start_offset b' group name part = off + Z.of_nat (S (length ms))).
  { intros m2 H2. destruct (IH (off + 1) m2 (with_offsets b (Some s1)) (S k) (i + 1)%nat) as (m' & b' & k' & Hrun & Hcnt & Hcfg & Hsome & Hfetch & Hst); [lia|lia|by eexists|].
    exists m', b', k'. split; [exact Hrun|]. split; [by eapply counted_trans|]. split; [exact Hcfg|]. split; [done|]. split.
    - intros o ds (Hp & Hlt & _). apply Hfetch. split; [by apply pending_with_offsets|]. split; [done|]. by eexists.
    - rewrite Hst. case_decide as Hnil; [subst ms; cbn [length]; lia|lia]. }
  rewrite (decide_False (P := x :: ms = [])) by done.
  destruct Hr as [->|(e & -> & ->)]; apply Hgo; auto with commands.
Qed.

(** One iteration: what arrived is counted and committed. *)
Lemma worker_iteration_fifo (added : Message -> Prop) (i : worker_input) m b k ds :
  (forall m, added m -> 0 < msg_bytes m) -> others_append (envs k) name part added -> others_keep (envs k) ->
  clock_passes (envs k) (starts k + i64 (FetchMaxWaitMs (b_cfg b) * time_Millisecond)) late ->
  wi_done i = false -> wi_ctxErr i = false -> wi_idleDone i = false ->
  let off := start_offset b group name part in
  fetchable_from b name part off ds ->
  exists m' b' k' f new rest, worker_iteration code_String consume_rpc commit_rpc cfg part i m (b, k) = Ok (true, m', (b', k')) /\ explained f /\
    Forall added new /\ ds ++ new = handed_out f ++ rest /\ (reached f = true -> handed_out f = [] -> ds ++ new = []) /\ b_cfg b' = b_cfg b /\
    counted name (pretty part) (arrived off [f]) m m' /\
    fetchable_from b' name part (off + Z.of_nat (length (handed_out f))) rest /\ start_offset b' group name part = off + Z.of_nat (length (handed_out f)).
Proof.
  intros Hne Happ Hk Hclock Hdone Hctx Hidle off Hf. unfold worker_iteration. rewrite Hdone, cfg_topic, cfg_group.
  destruct (worker_fetch added b k ds Hne Happ Hk Hclock Hf) as (b1 & f & new & rest & r & -> & Hex & Hr & Hnew & Hms & Hprog & Hc & Hf1 & Ho1). fold off in Hr, Hf1, Ho1 |- *.
  destruct f as [|ms|ms]; cbn [handed_out arrived app] in *.
  1,2: destruct Hr as [e ->]; rewrite Hctx; eexists _, b1, (S k), _, new, rest; (split; [reflexivity|]); (split; [exact Hex|]); cbn [handed_out arrived app]; split_and!; auto with commands.
  subst r. pose proof Hf1 as ((_ & _ & t & p & _ & _ & H1 & _) & Hb & Hs).
  assert (H0 : 1 <= off) by (destruct Hf as ((_ & _ & ? & ? & _ & _ & ? & _) & _); lia).
  destruct ms as [|x ms].
  { cbn [envelopes_from]. rewrite Hidle. cbn [negb]. exists m, b1, (S k), (FetchGot []), new, rest. cbn [handed_out arrived app envelopes_from]. split_and!; auto with commands. }
  destruct (worker_commits (wi_now i) (wi_clock i) (x :: ms) off m b1 (S k) 0%nat) as (m' & b' & k' & Hrun & Hcnt & Hcfg & _ & Hfetch & Hst); [lia|lia|done|].
  exists m', b', k', (FetchGot (x :: ms)), new, rest. split; [exact Hrun|]. split; [done|]. split; [done|]. split; [done|]. split; [done|]. split; [congruence|].
  cbn [arrived handed_out]. rewrite app_nil_r. split; [exact Hcnt|]. split; [by apply Hfetch|exact Hst].
Qed.

Lemma arrived_cons off f fs : arrived off (f :: fs) = arrived off [f] ++ arrived (off + Z.of_nat (length (handed_out f))) fs.
Proof. cbn [arrived]. by rewrite app_nil_r. Qed.

Lemma runWorker_fifo (added : Message -> Prop) (ins : list worker_input) (wait : Z) :
  (forall m, added m -> 0 < msg_bytes m) -> (forall k, others_append (envs k) name part added) -> (forall k, others_keep (envs k)) ->
  (forall k, clock_passes (envs k) (starts k + i64 (wait * time_Millisecond)) late) ->
  Forall (fun i => wi_done i = false /\ wi_ctxErr i = false /\ wi_idleDone i = false) ins -> forall m b k ds,
  FetchMaxWaitMs (b_cfg b) = wait ->
  let off := start_offset b group name part in
  fetchable_from b name part off ds ->
  exists m' b' k' fs new rest, consumer_runWorker code_String consume_rpc commit_rpc cfg part ins m (b, k) = Ok (true, m', (b', k')) /\
    length fs = length ins /\ Forall explained fs /\
    Forall added new /\ ds ++ new = all_handed fs ++ rest /\
    (Nat.min (length (filter (fun f => reached f = true) fs)) (length ds) <= length (all_handed fs))%nat /\
    counted name (pretty part) (arrived off fs) m m' /\
    fetchable_from b' name part (off + Z.of_nat (length (all_handed fs))) rest /\ start_offset b' group name part = off + Z.of_nat (length (all_handed fs)).
Proof.
  intros Hne Happ Hk Hclock Hins. induction ins as [|i ins IH]; intros m b k ds Hw off Hf; cbn [consumer_runWorker].
  { exists m, b, k, [], [], ds. rewrite app_nil_r. cbn. rewrite Z.add_0_r. split_and!; auto with commands; apply list.Forall_nil_2. }
  apply list.Forall_cons_1 in Hins as [(Hd & Hx & Hi) Hins].
  destruct (worker_iteration_fifo added i m b k ds Hne (Happ k) (Hk k) ltac:(rewrite Hw; apply Hclock) Hd Hx Hi Hf)
    as (m1 & b1 & k1 & f & new1 & rest1 & -> & Hex & Hnew1 & Hms1 & Hprog & Hc & Hcnt1 & Hf1 & Ho1). fold off in Hcnt1, Hf1, Ho1. rewrite Ok_bind.
  destruct (IH Hins m1 b1 k1 rest1 ltac:(congruence) ltac:(by rewrite Ho1)) as (m2 & b2 & k2 & fs & new2 & rest2 & -> & Hl & Hexs & Hnew2 & Hms2 & Hlen & Hcnt2 & Hf2 & Ho2).
  rewrite Ho1 in Hcnt2, Hf2, Ho2. exists m2, b2, k2, (f :: fs), (new1 ++ new2), rest2.
  assert (Hall : all_handed (f :: fs) = handed_out f ++ all_handed fs) by done.
  rewrite Hall, length_app, Nat2Z.inj_add, Z.add_assoc, arrived_cons.
  split; [done|]. split; [cbn [length]; by f_equal|]. split; [by apply list.Forall_cons_2|]. split; [by apply Forall_app_2|].
  split; [by rewrite app_assoc, Hms1, <- app_assoc, Hms2, app_assoc|]. split.
  { apply (f_equal length) in Hms1. rewrite !length_app in Hms1. destruct (reached f) eqn:Hrf.
    - rewrite filter_cons_True by done. cbn [length]. destruct (handed_out f) as [|x ms1]; [|cbn [length] in *; lia].
      specialize (Hprog eq_refl eq_refl). apply (f_equal length) in Hprog. rewrite length_app in Hprog. cbn [length] in *. lia.
    - rewrite filter_cons_False by congruence. assert (handed_out f = []) as Hnil by (by destruct f). rewrite Hnil in *. cbn [length] in *. lia. }
  split; [by eapply counted_trans|by split].
Qed.
End worker.

End consuming.

(** ** The pool

    Run gives every partition a task, and a task runs until the context ends: the
    pool's workers are never free again. *)

Section pool.
Context {Gr : Grpc} {St : Type} (code_String : grpc_code -> string).
Context (rpc_Consume : ConsumeRequest -> St -> St * result (list MessageEnvelope)).
Context (rpc_Commit : string -> string -> Z -> Z -> St -> St * result unit).
Context (rpc_ListTopics : St -> St * result (list TopicInfo)).
Context (cfg : ConsumerConfig).
Hypothesis commits_not_cancelled : forall t g p o st st' e,
  client_Commit rpc_Commit t g p o st = (st', Err e) -> errors_Is e context_Canceled || bool_decide (status_Code e = codes_Canceled) = false.

(** The context lives. *)
Definition live_input (i : worker_input) : Prop := wi_done i = false /\ wi_ctxErr i = false /\ wi_idleDone i = false.
Definition live (ev : pool_event) : Prop := match ev with PoolIterate _ i => live_input i | PoolTake _ => True end.

(** The counters of the other partitions are as they were. *)
Definition only_counts (t : Z) (m m' : consumerMetrics) : Prop :=
  forall t' prio, t' <> t -> counter [cc_Topic cfg; pretty t'; prio] (cm_consumed m') = counter [cc_Topic cfg; pretty t'; prio] (cm_consumed m).

Lemma commit_messages_live t now clock msgs : forall i m st go m' st',
  commit_messages code_String rpc_Commit cfg t now clock i msgs m st = Ok (go, m', st') -> go = true /\ only_counts t m m'.
Proof.
  induction msgs as [|e msgs IH]; intros i m st go m' st'; cbn [commit_messages]; [by intros [= <- <- _]|].
  destruct (clock i) as [t1 t2]. destruct (client_Commit _ _ _ _ _ st) as [st1 r] eqn:Hc.
  assert (Hone : forall m2, cm_consumed m2 = inc [cc_Topic cfg; pretty t; pretty (env_Priority e)] (cm_consumed m) -> only_counts t m2 m' -> only_counts t m m').
  { intros m2 Hm2 H t' prio Ht'. rewrite (H t' prio Ht'), Hm2, counter_inc, decide_False, Z.add_0_r; [done|]. intros [= E]. by apply (inj pretty) in E. }
  assert (Hcons : cm_consumed (observeE2E now (cc_Topic cfg) (pretty t) e m) = cm_consumed m)
    by (unfold observeE2E; case_decide; [done|]; by destruct (_ <? _)%float).
  destruct r as [[]|err|]; [| |done].
  - intros Hrun. apply IH in Hrun as [-> H]. split; [done|]. refine (Hone _ _ H). cbn. by rewrite Hcons.
  - rewrite (commits_not_cancelled _ _ _ _ _ _ _ Hc). intros Hrun. apply IH in Hrun as [-> H]. split; [done|]. refine (Hone _ _ H). cbn. by rewrite Hcons.
Qed.

Lemma worker_iteration_live t i m st go m' st' :
  live_input i -> worker_iteration code_String rpc_Consume rpc_Commit cfg t i m st = Ok (go, m', st') -> go = true /\ only_counts t m m'.
Proof.
  intros (H1 & H2 & H3). unfold worker_iteration. rewrite H1, H2, H3. destruct (client_Consume _ _ _ _ _ st) as [st1 r].
  destruct r as [[|e msgs]|err|]; [by intros [= <- <- _]|apply commit_messages_live|by intros [= <- <- _]|done].
Qed.

(** The pool after some events, with the tasks it was given. *)
Definition pool_ok (tasks : list Z) (m0 : consumerMetrics) (p : consumer_pool (St := St)) : Prop :=
  pl_running p ++ pl_queued p ≡ₚ tasks /\ Z.of_nat (length (pl_running p)) <= cc_Workers cfg /\
  forall t prio, t ∉ pl_running p -> counter [cc_Topic cfg; pretty t; prio] (cm_consumed (pl_metrics p)) = counter [cc_Topic cfg; pretty t; prio] (cm_consumed m0).

Lemma pool_do_ok tasks m0 ev p p' :
  live ev -> pool_ok tasks m0 p -> pool_do code_String rpc_Consume rpc_Commit cfg ev p = Ok p' -> pool_ok tasks m0 p'.
Proof.
  intros Hl (Hp & Hw & Hc). destruct ev as [k|k i]; cbn [pool_do].
  - destruct (pl_queued p !! k) as [t|] eqn:Hk; [|intros [= <-]; done]. destruct (Z.ltb_spec (Z.of_nat (length (pl_running p))) (cc_Workers cfg)) as [Hlt|]; intros [= <-]; [|done].
    split; [|split]; cbn [pl_running pl_queued pl_metrics].
    + rewrite <- Hp, <- app_assoc. apply Permutation_app_head. cbn [app]. symmetry. by apply delete_Permutation.
    + rewrite length_app. cbn [length]. lia.
    + intros t' prio Ht'. apply Hc. set_solver.
  - destruct (pl_running p !! k) as [t|] eqn:Hk; [|intros [= <-]; done]. intros ([[go m] st] & Hit & Heq)%bind_Ok.
    apply worker_iteration_live in Hit as [-> Honly]; [|done]. injection Heq as <-. split; [done|]. split; [done|].
    intros t' prio Ht'. cbn [pl_metrics pl_running] in *. rewrite Honly; [by apply Hc|]. intros ->. apply Ht'. by apply list_elem_of_lookup_2 in Hk.
Qed.

Lemma pool_run_ok tasks m0 evs : forall p p',
  Forall live evs -> pool_ok tasks m0 p -> pool_run code_String rpc_Consume rpc_Commit cfg evs p = Ok p' -> pool_ok tasks m0 p'.
Proof.
  induction evs as [|ev evs IH]; intros p p' Hl Hok; cbn [pool_run]; [by intros [= <-]|]. apply list.Forall_cons_1 in Hl as [Hl1 Hl].
  intros (p1 & H1 & Hrun)%bind_Ok. eapply IH; [done| |exact Hrun]. by eapply pool_do_ok.
Qed.

(** How many partitions the consumer command serves.  After Run has resolved
    the partitions of its topic, and whatever happens until the context ends, at
    most [Workers] of them are ever fetched from: a task does not end before the
    context does, so the tasks of the other partitions keep waiting and not one of
    their messages is consumed.  With as many workers as partitions every waiting
    task can begin. *)
Theorem consumer_serves_workers (waits : list (option error)) (m : consumerMetrics) (st : St) (p0 p : consumer_pool) (evs : list pool_event) :
  1 <= cc_Workers cfg -> Forall live evs ->
  consumer_Run rpc_ListTopics cfg waits m st = Some (Ok p0) ->
  pool_run code_String rpc_Consume rpc_Commit cfg evs p0 = Ok p ->
  pl_running p ++ pl_queued p ≡ₚ pl_queued p0 /\ Z.of_nat (length (pl_running p)) <= cc_Workers cfg /\
  Z.of_nat (length (pl_queued p0)) - cc_Workers cfg <= Z.of_nat (length (pl_queued p)) /\
  (forall t prio, t ∉ pl_running p -> counter [cc_Topic cfg; pretty t; prio] (cm_consumed (pl_metrics p)) = counter [cc_Topic cfg; pretty t; prio] (cm_consumed m)) /\
  (Z.of_nat (length (pl_queued p0)) <= cc_Workers cfg -> forall k t, pl_queued p !! k = Some t ->
     exists p', pool_do code_String rpc_Consume rpc_Commit cfg (PoolTake k) p = Ok p' /\ t ∈ pl_running p').
Proof.
  intros HW Hl Hrun Hpool.
  assert (Hok0 : pool_ok (pl_queued p0) m p0).
  { unfold consumer_Run in Hrun. destruct (resolvePartitions _ _ _ _) as [[st1 r]|]; [|done]. cbn [mbind option_bind] in Hrun. injection Hrun as Hrun.
    apply bind_Ok in Hrun as (parts & _ & Hrun). case_decide; [done|]. injection Hrun as <-. split; [done|]. split; [cbn; lia|done]. }
  destruct (pool_run_ok _ _ _ _ _ Hl Hok0 Hpool) as (Hp & Hw & Hc). pose proof (Permutation_length Hp) as Hlen. rewrite length_app in Hlen.
  split; [done|]. split; [done|]. split; [lia|]. split; [done|]. intros Hall k t Hk. cbn [pool_do]. rewrite Hk.
  pose proof (lookup_lt_Some _ _ _ Hk). rewrite (proj2 (Z.ltb_lt _ _)) by lia. eexists. split; [done|]. cbn [pl_running]. set_solver.
Qed.
End pool.

(** ** The producer *)

(** The sum of a counter's values over its labels. *)
Definition total (c : CounterVec) : Z := map_fold (fun _ n acc => n + acc) 0 c.

Lemma total_inc l c : total (inc l c) = total c + 1.
Proof.
  unfold total, inc, counter. assert (Hcomm : forall (i j : list string) (x y acc : Z), x + (y + acc) = y + (x + acc)) by lia.
  destruct (c !! l) as [n|] eqn:Hl; cbn [default from_option].
  - rewrite (map_fold_delete_L _ _ l (n + 1) (<[l := n + 1]> c)) by (auto; apply lookup_insert_eq).
    rewrite delete_insert_eq, (map_fold_delete_L _ _ l n c) by auto. lia.
  - rewrite map_fold_insert_L by auto. lia.
Qed.

(** One iteration that is not interrupted sends one message, with a key of its own,
    and counts it once; throttled sends are among the errors. *)
Lemma send_iteration_counts {Gr : Grpc} {St : Type} code_String rpc_Produce cfg sc w i seq m (st : St) go seq' m' st' :
  si_done i = false -> si_ctxErr i = false ->
  send_iteration code_String rpc_Produce cfg sc w i seq m st = Ok (go, seq', m', st') ->
  seq' = u64 (seq + 1) /\ total (pmx_published m') + total (pmx_errors m') = total (pmx_published m) + total (pmx_errors m) + 1 /\
  total (pmx_throttled m') - total (pmx_throttled m) <= total (pmx_errors m') - total (pmx_errors m) /\ total (pmx_throttled m) <= total (pmx_throttled m').
Proof.
  intros Hd He. unfold send_iteration. rewrite Hd, He. intros (v & _ & Hrun)%bind_Ok. revert Hrun.
  destruct (client_Produce _ _ _ _ _ _ st) as [[st1 r] waits]. destruct r as [x|e|]; [| |done]; intros [= <- <- <- <-]; (split; [done|]);
    cbn [pmx_published pmx_errors pmx_throttled]; rewrite total_inc; [lia|]. case_decide; rewrite ?total_inc; lia.
Qed.

(** What the producer command sends, the consumer command measures: the latency it
    observes is the time between the two clock readings. *)
Lemma producer_consumer_latency now later body size v topic part e m :
  in_i64 now -> now <= later -> later - now < 2 ^ 63 -> producer_encodeValue now body size = Ok v -> env_Value e = v ->
  observeE2E later topic part e m =
    if (Seconds (later - now) <? 0)%float then inc_parseErrors [topic] m else observe_e2e [topic; part] (Seconds (later - now)) m.
Proof.
  intros Hn Hle Hd Hv Hev. unfold producer_encodeValue in Hv. set (n := Z.to_nat _) in Hv. change (encodeValue now body n = Ok v) in Hv.
  assert (Hs : (8 <= n)%nat) by (unfold n, timestampPrefixBytes; destruct (Z.ltb_spec size (Z.of_nat 8)); lia).
  destruct (encodeValue_spec now body n Hs) as (rest & Hv' & _). unfold observeE2E, timestampPrefixBytes. rewrite Hev.
  assert (v = be_put 8 (u64 now) ++ rest) as -> by congruence. rewrite length_app, length_be_put, decide_False by lia.
  rewrite take_app_le, take_ge by (rewrite length_be_put; lia). rewrite be_get_put. change (2 ^ (8 * Z.of_nat 8)) with (2 ^ 64).
  rewrite (Z.mod_small (u64 now)) by (unfold u64; apply Z.mod_pos_bound; lia). rewrite i64_u64 by done.
  replace (time_Sub later now) with (later - now) by (unfold time_Sub; lia). done.
Qed.

(** ** The exporter *)

Lemma set_gauges_lookup i xs g j :
  0 <= i -> set_gauges i xs g !! [pretty j] = if (i <=? j) && (j <? i + Z.of_nat (length xs)) then xs !! Z.to_nat (j - i) else g !! [pretty j].
Proof.
  revert i g. induction xs as [|x xs IH]; intros i g Hi; cbn [set_gauges].
  { cbn [length]. destruct (Z.leb_spec i j), (Z.ltb_spec j (i + Z.of_nat 0)); cbn [andb]; try done; lia. }
  rewrite IH by lia. cbn [length]. destruct (decide (j = i)) as [->|Hne].
  - rewrite (proj2 (Z.leb_gt (i + 1) i)), (proj2 (Z.leb_le i i)), (proj2 (Z.ltb_lt i (i + Z.of_nat (S (length xs))))) by lia. cbn [andb]. by rewrite lookup_insert_eq, Z.sub_diag.
  - rewrite lookup_insert_ne by (intros [= E]; apply (inj pretty) in E; congruence).
    destruct (Z.leb_spec i j), (Z.leb_spec (i + 1) j), (Z.ltb_spec j (i + 1 + Z.of_nat (length xs))), (Z.ltb_spec j (i + Z.of_nat (S (length xs)))); cbn [andb]; try done; try lia.
    replace (Z.to_nat (j - i)) with (S (Z.to_nat (j - (i + 1)))) by lia. done.
Qed.

(** A tick that succeeded shows the broker's report, but keeps what it showed
    before of partitions the report does not have any more; one that failed changes
    nothing but the error count and the flag. *)
Lemma exporter_tick_mirrors {G : Gonum} {St : Type} rpc (m m' : exporterMetrics) (st st' : St) :
  exporter_tick rpc m st = (st', Ok m') ->
  match (rpc st).2 with
  | Ok resp => em_lastScrapeSuccess m' = 1%float /\ em_throughput m' = mr_Throughput resp /\ em_scrapeErrors m' = em_scrapeErrors m /\
      forall j, 0 <= j -> em_partitionLoad m' !! [pretty j] =
        if j <? Z.of_nat (length (mr_PartitionLoads resp)) then mr_PartitionLoads resp !! Z.to_nat j else em_partitionLoad m !! [pretty j]
  | _ => em_lastScrapeSuccess m' = 0%float /\ em_scrapeErrors m' = em_scrapeErrors m + 1 /\
      em_throughput m' = em_throughput m /\ em_partitionLoad m' = em_partitionLoad m /\ em_queueDepth m' = em_queueDepth m
  end.
Proof.
  unfold exporter_tick, scrape, client_GetMetrics. destruct (rpc st) as [st1 r]. cbn [snd]. destruct r as [resp|e|]; cbn [wrapf]; [| |done]; intros [= <- <-]; [|done].
  cbn. split; [done|]. split; [done|]. split; [done|]. intros j Hj. rewrite set_gauges_lookup by lia. rewrite (proj2 (Z.leb_le 0 j) Hj), Z.sub_0_r. done.
Qed.

(** ** The experiment command *)

Definition no_comma (s : string) : Prop := Forall (fun c => char_code c <> 44) (String.list_ascii_of_string s).

Lemma split_plain x : no_comma x -> split_comma x = [x].
Proof.
  unfold no_comma. induction x as [|c x IH]; intros H; [done|]. cbn [String.list_ascii_of_string] in H. apply list.Forall_cons_1 in H as [Hc H].
  cbn [split_comma]. rewrite decide_False by done. by rewrite IH.
Qed.

Lemma split_at_comma x s : no_comma x -> split_comma (x +:+ "," +:+ s)%string = x :: split_comma s.
Proof.
  unfold no_comma. induction x as [|c x IH]; intros H.
  - change ("" +:+ "," +:+ s)%string with (String (Ascii.ascii_of_nat 44) s). cbn [split_comma]. by rewrite decide_True.
  - cbn [String.list_ascii_of_string] in H. apply list.Forall_cons_1 in H as [Hc H].
    change (String c x +:+ "," +:+ s)%string with (String c (x +:+ "," +:+ s)). cbn [split_comma]. rewrite decide_False by done. by rewrite IH.
Qed.

Lemma split_join xs : xs <> [] -> Forall no_comma xs -> split_comma (String.concat "," xs) = xs.
Proof.
  intros Hne H. induction H as [|x xs Hx Hxs IH]; [done|]. destruct xs as [|y xs]; [by apply split_plain|].
  change (String.concat "," (x :: y :: xs)) with (x +:+ "," +:+ String.concat "," (y :: xs))%string. rewrite split_at_comma by done. f_equal. by apply IH.
Qed.

(** The modes a user can name. *)
Definition nameable (m : Mode) : Prop := match m with ModeUnknown _ => False | _ => True end.

(** Naming modes, separated by commas, selects exactly those, in that order. *)
Lemma parseModes_names ms : Forall nameable ms -> parseModes (String.concat "," (Mode_String <$> ms)) = ms.
Proof.
  intros H. unfold parseModes. rewrite decide_False.
  - destruct ms as [|m ms]; [done|]. rewrite split_join; [|done|].
    + induction H as [|x l Hx _ IH]; [done|]. cbn [fmap list_fmap omap list_omap].
      assert (mode_named (TrimSpace (Mode_String x)) = Some x) as -> by (destruct x; try done; vm_compute; reflexivity). by rewrite IH.
    + apply Forall_fmap. apply (list.Forall_impl _ _ _ H). intros [] Hx; try done; unfold no_comma; cbn; repeat (apply list.Forall_cons_2; [done|]); apply list.Forall_nil_2.
  - destruct H as [|x l Hx _]; [done|]. destruct x; try done; destruct l; cbn; discriminate.
Qed.

Lemma parseModes_spaces : parseModes " grpc ,kafka,	http" = [ModeGRPC; ModeKafka; ModeHTTP] /\ parseModes "udp,," = [].
Proof. split; vm_compute; reflexivity. Qed.

(** The scenarios' names have no commas or spaces, so each is selected by its name. *)
Lemma parseScenarios_names : Forall (fun s => parseScenarios (sc_Name s) = [s]) AllScenarios.
Proof. repeat (apply List.Forall_cons; [vm_compute; reflexivity|]). apply List.Forall_nil. Qed.

(** When no run fails there are as many results as the command announces, provided
    that Kafka is named at most once; each further time adds a run per scenario. *)
Section announced.
Context {S R : Type} (run_kafka : Scenario -> M S R) (run_nya : Scenario -> Algorithm -> Mode -> M S R).
Hypothesis kafka_ok : forall sc s, exists s' r, run_kafka sc s = (s', Ok r).
Hypothesis nya_ok : forall sc al m s, exists s' r, run_nya sc al m s = (s', Ok r).
Implicit Types a : all_state (R := R).

(** [n] results more, and nothing disabled. *)
Definition gained (n : nat) (f : all_state -> M S all_state) : Prop :=
  forall a s, as_disabled a = [] -> exists s' a', f a s = (s', Ok a') /\ as_disabled a' = [] /\ length (as_results a') = (length (as_results a) + n)%nat.

Lemma gained_ret : gained 0 mret.
Proof. intros a s Ha. exists s, a. split; [done|]. split; [done|]. lia. Qed.
Lemma gained_then n1 n2 f g : gained n1 f -> gained n2 g -> gained (n1 + n2) (fun a => let! a := f a in g a).
Proof.
  intros Hf Hg a s Ha. destruct (Hf a s Ha) as (s1 & a1 & E1 & Ha1 & Hl1). destruct (Hg a1 s1 Ha1) as (s2 & a2 & E2 & Ha2 & Hl2).
  exists s2, a2. unfold mthen. rewrite E1, E2. split; [done|]. split; [done|]. lia.
Qed.
Lemma not_disabled m a : as_disabled a = [] -> is_disabled m a = false.
Proof. intros Ha. unfold is_disabled. rewrite Ha. apply bool_decide_false, not_elem_of_nil. Qed.

Lemma gained_run m run : (forall s, exists s' r, run s = (s', Ok r)) -> gained 1 (record_run m run).
Proof.
  intros Hrun a s Ha. destruct (Hrun s) as (s' & r & E). unfold record_run, mthen, mtry, mret. rewrite E. eexists _, _. split; [done|]. cbn.
  split; [done|]. rewrite length_app. done.
Qed.

Lemma gained_algorithms sc m algs : gained (length algs) (run_algorithms run_nya sc m algs).
Proof.
  induction algs as [|al algs IH]; [exact gained_ret|]. intros a s Ha. cbn [run_algorithms]. rewrite (not_disabled m a Ha).
  apply (gained_then 1 (length algs) (record_run m (run_nya sc al m)) (run_algorithms run_nya sc m algs)); [|done|done]. apply gained_run, nya_ok.
Qed.

(** The runs of one scenario. *)
Definition runs_of (algs : nat) (modes : list Mode) : nat :=
  (length (filter (fun m => m <> ModeKafka) modes) * algs + length (filter (fun m => m = ModeKafka) modes))%nat.

Lemma gained_modes sc algs modes : gained (runs_of (length algs) modes) (run_modes run_kafka run_nya sc algs modes).
Proof.
  induction modes as [|m modes IH]; [exact gained_ret|]. intros a s Ha. cbn [run_modes].
  destruct (gained_then (if decide (m = ModeKafka) then 1 else length algs) (runs_of (length algs) modes) (run_mode run_kafka run_nya sc algs m)
    (run_modes run_kafka run_nya sc algs modes)) with (a := a) (s := s) as (s' & a' & E & Ha' & Hl); [|done|done|].
  - intros a1 s1 Ha1. unfold run_mode. rewrite (not_disabled m a1 Ha1). case_decide; [by apply gained_run|by apply gained_algorithms].
  - exists s', a'. split; [done|]. split; [done|]. rewrite Hl. unfold runs_of. rewrite !filter_cons. repeat case_decide; try done; cbn [length]; lia.
Qed.

Lemma gained_scenarios algs modes scs : gained (length scs * runs_of (length algs) modes) (run_scenarios run_kafka run_nya algs modes scs).
Proof.
  induction scs as [|sc scs IH]; [exact gained_ret|]. intros a s Ha. cbn [run_scenarios length Nat.mul].
  apply (gained_then _ _ (run_modes run_kafka run_nya sc algs modes) (run_scenarios run_kafka run_nya algs modes scs) (gained_modes sc algs modes) IH
    (mkAll (as_results a) (as_disabled a) (fun _ => 0)) s Ha).
Qed.

Lemma announced_runs algs modes scs s :
  (length (filter (fun m => m = ModeKafka) modes) <= 1)%nat ->
  exists s' a, run_scenarios run_kafka run_nya algs modes scs (mkAll [] [] (fun _ => 0)) s = (s', Ok a) /\
    Z.of_nat (length (as_results a)) = total_runs modes (length scs) (length algs).
Proof.
  intros Hk. destruct (gained_scenarios algs modes scs (mkAll [] [] (fun _ => 0)) s eq_refl) as (s' & a & E & _ & Hl). exists s', a. split; [done|].
  rewrite Hl. cbn [as_results length Nat.add]. unfold runs_of, total_runs, nya_modes.
  assert (Hkafka : length (filter (fun m => m = ModeKafka) modes) = if decide (ModeKafka ∈ modes) then 1%nat else 0%nat).
  { case_decide as Hin.
    - assert (Hf : ModeKafka ∈ filter (fun m => m = ModeKafka) modes) by (by apply list_elem_of_filter). destruct (filter _ modes); [by apply not_elem_of_nil in Hf|cbn [length] in *; lia].
    - destruct (filter (fun m => m = ModeKafka) modes) as [|x l] eqn:Hf; [done|]. exfalso. apply Hin.
      assert (Hx : x ∈ filter (fun m => m = ModeKafka) modes) by (rewrite Hf; by left). apply list_elem_of_filter in Hx as [-> ?]. done. }
  rewrite Hkafka. case_decide; nia.
Qed.
End announced.

(** ** The report *)

(** Every row has a value for every column. *)
Lemma csv_columns fixed r : length (csv_row fixed r) = length csv_header.
Proof. unfold csv_row. by destruct (prioGroupStats _ 0 3), (prioGroupStats _ 7 10). Qed.

(** ** The properties at concrete runs *)

Section sample.
Local Existing Instance join_path.
Local Existing Instance plain_stats.
Local Existing Instance forwards.
Local Existing Instance mem_badger.
Local Existing Instance plain_env.
Local Existing Instance status_grpc.
Local Existing Instance status_grpc_laws.

Definition billing : ConsumerConfig := mkConsumerConfig "localhost:9090" "orders" "billing" [1] 1 ":8082".
Definition live_worker : worker_input := mkWorkerInput false false false (10 ^ 12) (fun _ => (10 ^ 12, 10 ^ 12 + 5)).

(** Two messages are pending; over a working connection two iterations consume
    both. *)
Definition message_count (es : list MessageEnvelope) : Z := Z.of_nat (length es).
Definition sample_consume (limit : Z) := consume_rpc (fun _ => quiet_poll) (fun _ => 0) 0 "orders" 1 (fun _ => LinkUp) message_count limit.
Definition sample_commit (links : nat -> link) := commit_rpc (Bal := RoundRobin) (fun _ => 7) links.


(** The response with both messages is over the limit: the worker gets an error,
    and the position has moved past them. *)
Example oversized_fetch_lost :
  match consumer_runWorker (fun _ => "ResourceExhausted"%string) (sample_consume 1) (sample_commit (fun _ => LinkUp)) billing 1
      [live_worker; live_worker] consumer_fresh (stocked_broker, 0%nat) with
  | Ok (_, m, (b, _)) =>
      counter ["orders"; "1"; "3"]%string (cm_consumed m) = 0 /\ counter ["orders"; "ResourceExhausted"]%string (cm_errors m) = 1 /\
      start_offset b "billing" "orders" 1 = 3
  | _ => False
  end.
Proof. vm_compute. split_and!; reflexivity. Qed.

(** The commit of the second message does not reach the broker, which the commit
    of the first has taken back to the second: the worker consumes that again. *)
Example failed_commit_redelivers :
  match consumer_runWorker (fun _ => "Unavailable"%string) (sample_consume 10)
      (sample_commit (fun k => if decide (k = 2)%nat then LinkDown (ErrStatus codes_Internal (Errorf "connection refused")) else LinkUp)) billing 1
      [live_worker; live_worker] consumer_fresh (stocked_broker, 0%nat) with
  | Ok (_, m, _) => counter ["orders"; "1"; "3"]%string (cm_consumed m) = 3
  | _ => False
  end.
Proof. vm_compute. reflexivity. Qed.

(** Three partitions, one worker; the broker has a message for everyone. *)
Definition free_consume (req : ConsumeRequest) (st : nat) : nat * result (list MessageEnvelope) := (S st, Ok [mkEnvelope 1 [] [] 3 0 0 0]).
Definition one_worker : ConsumerConfig := mkConsumerConfig "localhost:9090" "orders" "billing" [0; 1; 2] 1 ":8082".

Lemma consumer_serves_workers_witness :
  exists p0 p, consumer_Run (St := nat) (fun st => (st, Ok [])) one_worker [] consumer_fresh 0%nat = Some (Ok p0) /\
    pool_run (fun _ => ""%string) free_consume (fun _ _ _ _ st => (st, Ok tt)) one_worker
      [PoolTake 1; PoolIterate 0 live_worker; PoolTake 0; PoolIterate 0 live_worker; PoolTake 0] p0 = Ok p /\
    pl_running p = [1] /\ counter ["orders"; "1"; "3"]%string (cm_consumed (pl_metrics p)) = 2 /\
    forall prio, counter ["orders"; "2"; prio]%string (cm_consumed (pl_metrics p)) = 0.
Proof.
  eexists _, _. split; [reflexivity|]. split; [vm_compute; reflexivity|]. split; [reflexivity|]. split; [vm_compute; reflexivity|]. intros prio.
  refine (proj1 (proj2 (proj2 (proj2 (consumer_serves_workers (fun _ => ""%string) free_consume (fun _ _ _ _ st => (st, Ok tt)) (fun st => (st, Ok [])) one_worker _
    [] consumer_fresh 0%nat _ _ [PoolTake 1; PoolIterate 0 live_worker; PoolTake 0; PoolIterate 0 live_worker; PoolTake 0] _ _ eq_refl eq_refl)))) 2 prio _).
  - intros t g p o st st' e H. discriminate H.
  - cbn. lia.
  - repeat (apply list.Forall_cons_2; [by try split_and!|]). apply list.Forall_nil_2.
  - intros H. apply list_elem_of_singleton in H. discriminate H.
Defined.
End sample.
