(* ===== verification/Mains.v ===== *)
(** * The main functions (src/cmd/*/main.go)

    The command line of the experiment command, parsed as package flag does; the layers
    of settings, which koanf merges ([Koanf], a parameter with laws); and the three
    commands around a client, whose main functions are the same but for their parts:
    what has been opened and closed when they exit. *)

From Stdlib Require Import Strings.Ascii.
From stdpp Require Import pretty.
From S2P Require Import Prelude Message PriorityIndex Wal Compression GoFloat Config Partition Topic OffsetStore LoadPredictor Metrics Prometheus Balancer RoundRobin P2C PSA.
From S2P Require Import Scheduler NN QNet DqnScheduler DqnBalancer Preprocessing Broker Transport Client Optimizer Collector App Scenarios Harness Runner Commands.

(** ** Flags *)

(** strings.Cut at the first "=", if there is one. *)
Fixpoint cut_value (s : string) : string * option string :=
  match s with
  | EmptyString => (EmptyString, None)
  | String c s =>
      if decide (c = "="%char) then (EmptyString, Some s)
      else let '(name, value) := cut_value s in (String c name, value)
  end.

(** The name of an argument that is a flag, with the dashes taken off; [inl]: the
    argument ends the flags ("--" is dropped). *)
Definition flag_name (arg : string) : bool + result string :=
  let checked name := match name with
                      | EmptyString => Err (Errorf "bad flag syntax: %s")
                      | String c _ => if decide (c = "-"%char \/ c = "="%char) then Err (Errorf "bad flag syntax: %s") else Ok name
                      end in
  match arg with
  | String "-" EmptyString => inl false
  | String "-" (String "-" EmptyString) => inl true
  | String "-" (String "-" name) => inr (checked name)
  | String "-" name => inr (checked name)
  | _ => inl false
  end.

(** FlagSet.Parse for a set of string flags: the values after the arguments, up to
    the first error. *)
Fixpoint flag_Parse (args : list string) (values : gmap string string) : gmap string string * result unit :=
  match args with
  | [] => (values, Ok tt)
  | arg :: rest =>
      match flag_name arg with
      | inl _ => (values, Ok tt)
      | inr (Ok name) =>
          let '(name, value) := cut_value name in
          match values !! name, value with
          | None, _ => (values, Err (Errorf "flag provided but not defined: -%s"))
          | Some _, Some v => flag_Parse rest (<[name := v]> values)
          | Some _, None =>
              match rest with
              | v :: rest => flag_Parse rest (<[name := v]> values)
              | [] => (values, Err (Errorf "flag needs an argument: -%s"))
              end
          end
      | inr (Err e) => (values, Err e)
      | inr Panic => (values, Panic)
      end
  end.

(** The flags of the experiment command with their defaults. *)
Definition experiment_flags : gmap string string := list_to_map
  [("experiment.mode", "inprocess"); ("experiment.scenarios", "all"); ("experiment.algorithms", "all"); ("experiment.kafka_brokers", "localhost:9092");
   ("experiment.broker_addr", ""); ("experiment.http_broker_addr", ""); ("experiment.output", "experiments/results"); ("experiment.duration", "")]%string.

(** ** Settings *)

(** github.com/knadh/koanf: keys of nested settings joined with "."; a later load
    replaces what it contains. *)
Class Koanf : Type := { koanf : Type; koanf_New : koanf; koanf_Load : koanf -> gmap string string -> koanf; koanf_String : koanf -> string -> string }.
Class KoanfLaws (K : Koanf) : Prop := {
  String_New key : koanf_String koanf_New key = ""%string;
  String_Load k m key : koanf_String (koanf_Load k m) key = default (koanf_String k key) (m !! key);
}.

(** env.Provider with a prefix and the identity as callback: the variables that have
    the prefix, under their own names. *)
Definition env_prefix : string := "NYAQUEUE_".
Definition env_provider (env : gmap string string) : gmap string string := filter (fun kv => String.prefix env_prefix kv.1 = true) env.

(** What the experiment command runs with.  A file that cannot be read, and flags that
    cannot be parsed, are ignored. *)
Record experiment_settings : Type := mkSettings {
  es_mode : string;
  es_scenarios : string;
  es_algorithms : string;
  es_kafka_brokers : string;
  es_broker_addr : string;
  es_http_broker_addr : string;
  es_output : string;
  es_duration : string;
}.

Section settings.
Context {K : Koanf}.

(** basicflag.Provider without the settings read so far: every flag, with its value or
    its default. *)
Definition experiment_load (file : option (gmap string string)) (env : gmap string string) (args : list string) : koanf :=
  let values := fst (flag_Parse args experiment_flags) in
  let k := match file with Some m => koanf_Load koanf_New m | None => koanf_New end in
  let k := koanf_Load k (env_provider env) in
  koanf_Load k values.

Definition experiment_main_settings (file : option (gmap string string)) (env : gmap string string) (args : list string) : experiment_settings :=
  let k := experiment_load file env args in
  mkSettings (koanf_String k "experiment.mode") (koanf_String k "experiment.scenarios") (koanf_String k "experiment.algorithms")
    (koanf_String k "experiment.kafka_brokers") (koanf_String k "experiment.broker_addr") (koanf_String k "experiment.http_broker_addr")
    (koanf_String k "experiment.output") (koanf_String k "experiment.duration").

(** The addresses and the directory of the broker command. *)
Definition broker_load (file : option (gmap string string)) (env : gmap string string) : koanf :=
  let k := match file with Some m => koanf_Load koanf_New m | None => koanf_New end in
  koanf_Load k (env_provider env).
Definition broker_addresses (file : option (gmap string string)) (env : gmap string string) : string * string * string :=
  let k := broker_load file env in
  (or_default (koanf_String k "server.addr") ":9090", or_default (koanf_String k "server.data_dir") "data", koanf_String k "server.http_addr").
End settings.

(** ** Flags as they are written *)

Definition written (nv : string * string) : string := ("--" +:+ nv.1 +:+ "=" +:+ nv.2)%string.
Definition has_eq (s : string) : Prop := "="%char ∈ String.list_ascii_of_string s.

Lemma cut_value_written name value : ~ has_eq name -> cut_value (name +:+ "=" +:+ value)%string = (name, Some value).
Proof.
  unfold has_eq. induction name as [|c name IH]; [done|]. cbn [String.list_ascii_of_string]. rewrite not_elem_of_cons. intros [Hc Hn].
  change (String c name +:+ "=" +:+ value)%string with (String c (name +:+ "=" +:+ value))%string. cbn [cut_value].
  rewrite decide_False by congruence. by rewrite (IH Hn).
Qed.

(** A flag of the command: its name does not begin with a dash and has no "=". *)
Definition flag_ok (name : string) : Prop := ~ has_eq name /\ match name with String c _ => c <> "-"%char | EmptyString => False end.

Lemma flag_name_written nv : flag_ok nv.1 -> flag_name (written nv) = inr (Ok (nv.1 +:+ "=" +:+ nv.2)%string).
Proof.
  destruct nv as [name value]. intros [He Hd]. destruct name as [|c name]; [done|]. cbn [fst snd] in *. unfold written. cbn [fst snd].
  assert (Hc : c <> "="%char) by (intros ->; apply He; by left).
  change ("--" +:+ String c name +:+ "=" +:+ value)%string with (String "-" (String "-" (String c (name +:+ "=" +:+ value)))).
  change (String c name +:+ "=" +:+ value)%string with (String c (name +:+ "=" +:+ value)). generalize (name +:+ "=" +:+ value)%string. intros rest. cbn.
  destruct (decide (c = "-"%char \/ c = "="%char)) as [[|]|]; done.
Qed.

(** Flags that are written out are read back: each setting has the last value given
    for it. *)
Lemma flag_Parse_written (nvs : list (string * string)) (values : gmap string string) :
  Forall (fun nv => flag_ok nv.1 /\ is_Some (values !! nv.1)) nvs ->
  flag_Parse (written <$> nvs) values = (foldl (fun m nv => <[nv.1 := nv.2]> m) values nvs, Ok tt).
Proof.
  revert values. induction nvs as [|[name value] nvs IH]; intros values Hok; [done|]. apply list.Forall_cons in Hok as [[Hn [d Hd]] Hok].
  cbn [fmap list_fmap flag_Parse]. rewrite flag_name_written by done. cbn [fst snd] in *. rewrite (cut_value_written _ _ (proj1 Hn)). rewrite Hd. cbn [foldl]. apply IH.
  eapply list.Forall_impl; [exact Hok|]. cbn. intros nv [? ?]. split; [done|]. destruct (decide (name = nv.1)) as [->|]; [by rewrite lookup_insert_eq|by rewrite lookup_insert_ne].
Qed.

(** Which of the sources counts. *)
Section sources.
Context {K : Koanf} {KL : KoanfLaws K}.

Lemma env_provider_other env key : String.prefix env_prefix key = false -> env_provider env !! key = None.
Proof. intros Hp. apply map_lookup_filter_None. right. intros v _. cbn. by rewrite Hp. Qed.

(** No setting of the broker command can come from the environment: the callback
    leaves the prefix in the keys. *)
Lemma broker_environment_ignored file env : broker_addresses file env = broker_addresses file ∅.
Proof.
  unfold broker_addresses, broker_load. rewrite !String_Load, !env_provider_other by reflexivity. done.
Qed.

(** The settings of the experiment command are those of its flags or their defaults:
    neither the configuration file nor the environment has a say. *)
Lemma experiment_only_flags file env args :
  experiment_main_settings file env args =
    let v key := default EmptyString (fst (flag_Parse args experiment_flags) !! key) in
    mkSettings (v "experiment.mode") (v "experiment.scenarios") (v "experiment.algorithms") (v "experiment.kafka_brokers") (v "experiment.broker_addr")
      (v "experiment.http_broker_addr") (v "experiment.output") (v "experiment.duration")%string.
Proof.
  assert (Hdom : forall args values key, is_Some (values !! key) -> is_Some (fst (flag_Parse args values) !! key)).
  { clear. intros args. induction args as [args IH] using (induction_ltof1 _ (@length string)). unfold ltof in IH. intros values key Hk.
    assert (Hi : forall n v, is_Some (<[n := v]> values !! key)).
    { intros n v. destruct (decide (n = key)) as [->|]; [by rewrite lookup_insert_eq|by rewrite lookup_insert_ne]. }
    destruct args as [|arg rest]; [done|]. cbn [flag_Parse]. destruct (flag_name arg) as [|[name|e|]]; [done| |done..].
    destruct (cut_value name) as [n [v|]]; destruct (values !! n); [|done| |done].
    - apply IH; [cbn; lia|apply Hi].
    - destruct rest as [|v rest]; [done|]. apply IH; [cbn; lia|apply Hi]. }
  unfold experiment_main_settings, experiment_load. rewrite !String_Load.
  assert (Hv : forall key x, is_Some (experiment_flags !! key) -> default x (fst (flag_Parse args experiment_flags) !! key) = default EmptyString (fst (flag_Parse args experiment_flags) !! key)).
  { intros key x Hk. destruct (Hdom args _ _ Hk) as [v ->]. done. }
  cbv zeta. f_equal; apply Hv; by eexists.
Qed.
End sources.

(** A flag that is not defined ends the parsing there. *)
Lemma flag_Parse_undefined arg rest body name value values :
  flag_name arg = inr (Ok body) -> cut_value body = (name, value) -> values !! name = None ->
  flag_Parse (arg :: rest) values = (values, Err (Errorf "flag provided but not defined: -%s")).
Proof. intros Hn Hc Hl. cbn [flag_Parse]. by rewrite Hn, Hc, Hl. Qed.

(** The flags that the Makefile gives to the experiment command: none is defined
    under that name, so the command runs with its defaults. *)
Example makefile_flags_rejected :
  flag_Parse ["--mode=inprocess"; "--scenarios=all"; "--algorithms=all"; "--duration=10s"]%string experiment_flags =
    (experiment_flags, Err (Errorf "flag provided but not defined: -%s")).
Proof.
  apply (flag_Parse_undefined _ _ "mode=inprocess" "mode" (Some "inprocess"%string)); [reflexivity|reflexivity|vm_compute; reflexivity].
Qed.

(** ** The commands around a client *)

(** What a process has open. *)
Record process : Type := mkProcess { pr_serving : bool; pr_client : bool }.
(** How it ends; log.Fatalf exits at once, without the deferred calls. *)
Inductive exit_code : Type := Bye | Fatal (what : string).

Section command.
Context {NL : NetListen} {Cfg M St : Type}.
Context (validate : Cfg -> result unit) (registerMetrics : gset string -> result (gset string * M)) (metricsAddr addr : Cfg -> string).
Context (dial : string -> result unit) (run : Cfg -> M -> St -> St * result M).

(** [unmarshalled]: the configuration, the defaults overlaid with the command's
    section of the file. [base]: the names of the runtime's own metrics. *)
Definition command_main (unmarshalled : result Cfg) (base : gset string) (st : St) : St * process * exit_code :=
  match unmarshalled with
  | Ok cfg =>
      match validate cfg with
      | Ok _ =>
          match registerMetrics base with
          | Ok (_, m) =>
              match net_Listen [] (metricsAddr cfg) with
              | Ok _ =>
                  match dial (addr cfg) with
                  | Ok _ =>
                      let '(st, r) := run cfg m st in
                      match r with
                      | Ok _ => (st, mkProcess false false, Bye)
                      | _ => (st, mkProcess true true, Fatal "run: %v")
                      end
                  | _ => (st, mkProcess true false, Fatal "connect %s: %v")
                  end
              | _ => (st, mkProcess false false, Fatal "metrics listen: %v")
              end
          | _ => (st, mkProcess false false, Fatal "duplicate metrics collector registration attempted")
          end
      | _ => (st, mkProcess false false, Fatal "config validation: %v")
      end
  | _ => (st, mkProcess false false, Fatal "config unmarshal: %v")
  end.

Local Ltac refused :=
  split; [done|]; split; [split; [discriminate|]; intros (? & ? & ? & ? & ? & ? & ? & ? & ? & ? & ?); simplify_eq|split; [discriminate|done]];
  try match goal with H : net_Listen _ _ = _, H' : is_ok (net_Listen _ _) = true |- _ => rewrite H in H' end; congruence || done.

(** The command touches the broker only with a valid configuration, its metrics page
    up and a connection; it says good-bye exactly when its run succeeded, with
    everything closed, and otherwise exits with the connection as it was. *)
Lemma command_main_spec unmarshalled base st :
  let '(st', p, e) := command_main unmarshalled base st in
  (st' <> st -> exists cfg, unmarshalled = Ok cfg /\ validate cfg = Ok tt /\ is_ok (net_Listen [] (metricsAddr cfg)) = true /\ dial (addr cfg) = Ok tt) /\
  (e = Bye <-> exists cfg reg m st1 m1, unmarshalled = Ok cfg /\ validate cfg = Ok tt /\ registerMetrics base = Ok (reg, m) /\
     is_ok (net_Listen [] (metricsAddr cfg)) = true /\ dial (addr cfg) = Ok tt /\ run cfg m st = (st1, Ok m1)) /\
  (e = Bye -> pr_client p = false /\ pr_serving p = false) /\ (pr_client p = true -> e = Fatal "run: %v").
Proof.
  unfold command_main. destruct unmarshalled as [cfg|x|]; [|refused..].
  destruct (validate cfg) as [[]|x|] eqn:Hv; [|refused..].
  destruct (registerMetrics base) as [[reg m]|x|] eqn:Hr; [|refused..].
  destruct (net_Listen [] (metricsAddr cfg)) as [b|x|] eqn:Hl; [|refused..].
  destruct (dial (addr cfg)) as [[]|x|] eqn:Hd; [|refused..].
  destruct (run cfg m st) as [st1 r] eqn:Hrun.
  destruct r as [m1|x|]; (split; [intros _; exists cfg; by rewrite Hl|]); (split; [|by split]); (split; [intros [=]|]);
    try (intros (? & ? & ? & ? & ? & ? & ? & ? & ? & ? & ?); congruence).
  exists cfg, reg, m, st1, m1. by rewrite Hl.
Qed.
End command.

(** The producer and the exporter.  The consumer's main is [command_main] with its
    own parts. *)
Section clients.
Context {NL : NetListen} {V : GovyFields} {G : Gonum} {Gr : Grpc} {St : Type}.

Definition producer_main (dial : string -> result unit) (code_String : grpc_code -> string)
    (rpc_Produce : ProduceRequest -> St -> St * result ProduceResponse)
    (rpc_CreateTopic : string -> Z -> option TopicScheduleConfig -> St -> St * result unit) (evs : list (Z * send_input))
    : result ProducerConfig -> gset string -> St -> St * process * exit_code :=
  command_main producer_Validate producer_registerMetrics pc_MetricsAddr pc_Addr dial
    (fun cfg m st => producer_Run code_String rpc_Produce rpc_CreateTopic cfg evs m st).

Definition exporter_main (dial : string -> result unit) (rpc_GetMetrics : St -> St * result MetricsResponse) (ticks : nat)
    : result ExporterConfig -> gset string -> St -> St * process * exit_code :=
  command_main exporter_Validate exporter_registerMetrics ec_MetricsAddr ec_BrokerAddr dial (fun _ m st => exporter_Run rpc_GetMetrics ticks m st).

(** A producer whose topic cannot be created fails in its run: it exits with its
    connection and its metrics page open. *)
Lemma producer_without_topic dial code_String rpc_Produce rpc_CreateTopic evs cfg base reg m st st' e :
  producer_Validate cfg = Ok tt -> producer_registerMetrics base = Ok (reg, m) -> is_ok (net_Listen [] (pc_MetricsAddr cfg)) = true -> dial (pc_Addr cfg) = Ok tt ->
  fst (FindByName AllScenarios (pc_Scenario cfg)) = true ->
  client_CreateTopic rpc_CreateTopic (pc_Topic cfg) (i32 (pc_Partitions cfg)) ScheduleMode_FIFO st = (st', Err e) -> errors_Is e ErrTopicAlreadyExists = false ->
  producer_main dial code_String rpc_Produce rpc_CreateTopic evs (Ok cfg) base st = (st', mkProcess true true, Fatal "run: %v").
Proof.
  intros Hv Hr Hl Hd Hs Hc He. unfold producer_main, command_main. rewrite Hv, Hr. destruct (net_Listen _ _); [|done..]. rewrite Hd.
  unfold producer_Run. destruct (FindByName _ _) as [ok sc]. cbn [fst] in Hs. subst ok. cbn [negb]. by rewrite Hc, He.
Qed.
End clients.
